(* ===== verification/_CoqProject ===== *)
-Q . S2P
Prelude.v
Timings.v
RustStr.v
External.v
Errors.v
SqlIdent.v
Action.v
Key.v
Arena.v
SharedStr.v
Workspace.v
Layout.v
Scan.v
Ingest.v
Catalog.v
Row.v
Config.v
Plan.v
Diff.v
Effects.v
Apply.v
Gate.v
Git.v
Scope.v
PlanDb.v
Driver.v
Scaffold.v
Lock.v
Engine.v
Converge.v
Report.v
Cli.v
E2e.v
Daemon.v
Startup.v
