(* ===== verification/Prelude.v ===== *)
(** * rmig: a verification library for the MSSQL reporting migrator

    [rmig] plans and applies schema migrations of SQL Server databases from a tree
    of SQL files; [rmigd] is a daemon that keeps a warm connection for it.  This
    library translates the Rust code of both (crates [core], [cli] and [rmigd]
    under src/crates/) into executable definitions and proves what makes it
    correct.  Paths below are relative to src/crates/core/src/ unless they name
    another crate.

    ** How the program works

    A command line ([Cli]) becomes a configuration ([Config]) and a command.  The
    engine ([Engine]) makes sure the databases exist, scans the source tree
    ([Scan], [Ingest]) into a workspace ([Workspace], [Layout]) whose strings live
    in one arena ([Arena], [SharedStr]), and then, per database: connects
    ([Driver], [Row]), takes the advisory lock ([Lock]) if it mutates, obtains the
    catalog and the recorded checksums through caches ([PlanDb], [Scope],
    [Catalog]), computes one scenario per object and from them a plan ([Diff],
    [Plan]), and applies it ([Apply]), recording what it did in a history table of
    the server.  A blocked plan leaves scaffolds for the missing migrations
    ([Scaffold]).  Afterwards the plans of the databases are merged and the reports
    written ([Report]).  Beside this path stand the gate that compares plans with a
    baseline in CI ([Gate], [Git], [E2e]) and the session daemon ([Daemon],
    [Startup]).

    ** Files

    - [Prelude]: outcomes, loops, records with setters, hash-map order, stable sort,
      the tactics and hint database every file uses.
    - [Timings] (timings/), [RustStr] (the methods of [str] as bytes), [External]
      (libraries the code calls: SHA-256, hex, Unicode tables, as classes with
      laws and a concrete instance), [Errors] (error.rs), [SqlIdent] (sql_ident.rs).
    - [Action] (domain/action.rs, kind_code.rs, export/plan_row.rs), [Key]
      (domain/key.rs, layout_path.rs), [Arena] (domain/arena/), [SharedStr]
      (domain/shared/), [Workspace] (domain/workspace/, domain/object/,
      domain/script.rs), [Layout] (finalisation, interning and compaction).
    - [Scan] (scan/: tree walk, parsing, transitions, digests), [Ingest] (the
      invariant of a scanned workspace), [Catalog] (db/: rows, checksums and cache
      formats; audit/), [Row] (driver/row.rs), [Config] (config/).
    - [Plan] (export/plan_json/types.rs, materialize/, engine/run/merge.rs),
      [Diff] (plan/), [Effects] (driver/timing.rs, sql/, audit/load/: the effect
      monad and the model of a server), [Apply] (apply/).
    - [Gate] (gate/), [Git] (git/, gate/changed_paths/), [Scope] (plan/scope*,
      plan/git_scope.rs), [PlanDb] (db/plan_common/, cache/, warm snapshots),
      [Driver] (driver/mssql*.rs, session/client.rs, protocol.rs, proxy.rs),
      [Scaffold] (scaffold/, db/columns.rs), [Lock] (lock/), [Engine] (engine/),
      [Converge] (a migration with nothing to do: no definitions of its own, it
      joins [Diff], [Plan], [Apply] and [Engine]).
    - [Report] (export/report.rs, plan_json/io.rs), [Cli] (crate cli, engine/io.rs,
      buildinfo/), [E2e] (gate/e2e_report/), [Daemon] (session/daemon/), [Startup]
      (session/socket.rs, crate rmigd).

    A definition has the name of the function, method or type it translates; a
    record has the fields of the struct in its order, with a prefix.

    ** How code is modelled

    - [outcome E A] is [Result] with a third arm, [Panic], for an index out of
      range, a failed [assert!] or [expect], or an explicit [panic!]; [M] is
      [outcome Error].  Functions that mutate a value return the new one.
    - [IO W A] threads a state [St W]: the world (server, files, network, clock),
      the connection, the process-wide caches and the log of the statements that
      were sent.  The world is abstract: classes ([World], [Net], [Files], ...) give
      its operations, and where a theorem needs more, a class of laws says what is
      documented of them ([TxServer] for transactions, [FileContents] for files,
      [SocketLaws], [TdsRowLaws]).  [RefServer] is a concrete server on which the
      whole program is run in the samples.
    - Loops over hash maps run in the order [MapOrder] gives: any order, fixed per
      run.  Theorems hold for every instance.
    - Concurrency: the parallel parse is a traversal per chunk joined in order;
      the daemon is a transition relation whose steps are the requests of its
      handlers, with the session mutex in the state.
    - Machine integers are [Z] or [N] with their wrap-around written out where the
      code lets them wrap (release build): [as_u32] for arena offsets and row
      indices, [as_i64] and the saturating operations for timings, [as_i32] for
      timeouts and counters.  Floats of the baseline comparison are [SpecFloat]'s
      binary64.
    - Elapsed times come from a clock of the world or are arguments.

    Fuel: [Apply.apply_modules] runs at most as many turns as there are modules and
    is proved to end within them; [Gate.expand_delta_closure] gets one pass more
    than there are objects and is proved not to run out, because every pass but the
    last adds one; [Scaffold.existing_ancestor] gets the length of the path, which
    every parent shortens; loops over text ([RustStr.trim_end_matches], the chunks
    of [Scan]) get its length; [Startup.octal] gets eleven digits, enough for 32
    bits.

    ** What is proved

    - Apply: a script and its history rows are one unit ([apply_in_tx_atomic]),
      history is a prefix of the plan ([apply_transitions_history]), only planned
      text is sent ([execute_plan_sends_planned_text]), baseline and repair send
      none ([execute_metadata_plan_audit_only]), the module loop ends and accounts
      for every module ([apply_modules_spec]).
    - Engine, Lock, Cli: read-only commands change nothing, a refused migration
      runs nothing, exit code zero hides nothing, from the engine
      ([run_command_zero_exit]) to the byte the process returns
      ([main_exit_status]); the lock brackets its body; every plan that is returned
      can be printed; the argument parser accepts its grammar.
    - Convergence: the plan skips exactly what is up to date
      ([plan_skips_up_to_date]), and applying a plan that skips everything asks for
      the audit tables and succeeds ([migrate_is_idempotent]).
    - Planning: the scanned workspace is well formed whatever the tree
      ([scan_root_well_formed]) and independent of listing order; the diff refines
      its specification and fails closed; the scope loses no object; a mutating
      plan ignores every cache; the filter drops exactly the applied transitions.
    - Data: interning, shared strings, checksum map, JSON documents and reports
      round-trip; rows decode without loss; the layout digest identifies a layout.
    - Files: scaffolding stays below the root; reports are replaced atomically at
      every point of a crash; the daemon's socket is private to its owner.
    - Injection safety: DDL that embeds a name is read back by the server's lexer
      as that name ([create_schema_sql_safe], [ensure_catalog_databases_spec],
      [auto_migration_spec]).
    - Daemon: clients are isolated and never wait for each other for ever.
    - Gate: its decision, the closure of a change, and the parity of snapshots.

    Lemmas named after a defect ([case_variant_path_panics], [register_wraps],
    [db_fingerprint_collides], ...) show behaviour of the code that its
    documentation does not promise.

    ** Not modelled

    The Transact-SQL texts (data of the server), the TDS, TOML, JSON, hash and
    base64 libraries beyond the laws stated of them, Unicode tables, reading and
    printing decimal fractions, logging and tracing output, signal registration,
    the trace file of RMIG_PLAN_DB_TRACE, capacity hints and reference counts, and
    the developers' benchmarks (crate core-dev).  The counters of a plan's summary
    are unbounded where the code saturates at the word size, and the depth of
    parentheses in the column parser is unbounded where the code counts in 32 bits.
    An abort of the process (out of memory, a poisoned allocator) has no value. *)

From Stdlib Require Export Lia.
From stdpp Require Export sorting pretty.
From stdpp Require Export base option list gmap sets strings numbers.
From stdpp Require Export list_basics list_relations list_monad list_misc list_tactics.

(** ** Results that may also panic

    [Ok]/[Err] are the two arms of Rust's [Result]; [Panic] is an unwinding
    computation (an out-of-range index, a failed [assert!], an [expect]). *)

Inductive outcome (E A : Type) : Type :=
| Ok (a : A)
| Err (e : E)
| Panic.
Arguments Ok {E A} a.
Arguments Err {E A} e.
Arguments Panic {E A}.

Section outcome_monad.
Context {E : Type}.

#[global] Instance outcome_ret : MRet (outcome E) := @Ok E.

#[global] Instance outcome_bind : MBind (outcome E) := λ A B f m,
  match m with
  | Ok a => f a
  | Err e => Err e
  | Panic => Panic
  end.

#[global] Instance outcome_fmap : FMap (outcome E) := λ A B f m,
  match m with
  | Ok a => Ok (f a)
  | Err e => Err e
  | Panic => Panic
  end.

Lemma outcome_bind_Ok {A B} (m : outcome E A) (f : A → outcome E B) b :
  (m ≫= f) = Ok b ↔ ∃ a, m = Ok a ∧ f a = Ok b.
Proof. destruct m; cbn; split; try done; [eauto|by intros (?&[= <-]&?)|by intros (?&?&?)..]. Qed.

Lemma outcome_bind_Err {A B} (m : outcome E A) (f : A → outcome E B) e :
  (m ≫= f) = Err e ↔ m = Err e ∨ ∃ a, m = Ok a ∧ f a = Err e.
Proof.
  destruct m as [a|e'|]; cbn; split.
  - intros; right; eauto.
  - intros [?|(?&[= <-]&?)]; done.
  - intros [= ->]; by left.
  - intros [[= <-]|(?&?&?)]; done.
  - done.
  - intros [?|(?&?&?)]; done.
Qed.

Lemma outcome_bind_assoc {A B C} (m : outcome E A)
    (f : A → outcome E B) (g : B → outcome E C) :
  ((m ≫= f) ≫= g) = (m ≫= λ a, f a ≫= g).
Proof. by destruct m. Qed.
End outcome_monad.

Definition is_Ok {E A} (m : outcome E A) : Prop := ∃ a, m = Ok a.

#[global] Instance outcome_eq_dec {E A} `{EqDecision E, EqDecision A} :
  EqDecision (outcome E A).
Proof. solve_decision. Defined.

(** A checked read: [None] is Rust's out-of-range panic. *)
Definition or_panic {E A} (o : option A) : outcome E A :=
  match o with Some a => Ok a | None => Panic end.

(** [Result<T, E>] of an [Option] with the error to report. *)
Definition ok_or {E A} (e : E) (o : option A) : outcome E A :=
  match o with Some a => Ok a | None => Err e end.

Lemma or_panic_Ok {E A} (o : option A) (a : A) :
  or_panic (E:=E) o = Ok a ↔ o = Some a.
Proof. destruct o; cbn; split; congruence. Qed.

(** ** Loops in the monad

    [foldM] is a [for] loop whose body threads a state and may return early with
    an error; [traverse] is [map(..).collect::<Result<Vec<_>>>()]. *)

Section loops.
Context {E S A B : Type}.

Fixpoint foldM (f : S → A → outcome E S) (s : S) (l : list A) : outcome E S :=
  match l with
  | [] => Ok s
  | x :: l' => s' ← f s x; foldM f s' l'
  end.

Fixpoint traverse (f : A → outcome E B) (l : list A) : outcome E (list B) :=
  match l with
  | [] => Ok []
  | x :: l' => y ← f x; ys ← traverse f l'; Ok (y :: ys)
  end.

Lemma foldM_app f s l1 l2 :
  foldM f s (l1 ++ l2) = (s' ← foldM f s l1; foldM f s' l2).
Proof.
  revert s. induction l1 as [|x l1 IH]; intros s; [done|].
  cbn. destruct (f s x); cbn; [apply IH|done|done].
Qed.

(** A loop invariant carried through a successful fold. *)
Lemma foldM_inv (P : S → Prop) f s l s' :
  P s → (∀ s1 x s2, x ∈ l → P s1 → f s1 x = Ok s2 → P s2) →
  foldM f s l = Ok s' → P s'.
Proof.
  revert s. induction l as [|x l IH]; intros s Hs Hstep; cbn; [by intros [= ->]|].
  intros (s1 & Hf & Hrest)%outcome_bind_Ok.
  eapply IH; [eapply Hstep; [by left|exact Hs|exact Hf]| |exact Hrest].
  intros s2 y s3 Hy; eapply Hstep; by right.
Qed.

(** A loop whose body never fails under an invariant does not fail. *)
Lemma foldM_total (P : S → Prop) f s l :
  P s → (∀ s1 x, x ∈ l → P s1 → ∃ s2, f s1 x = Ok s2 ∧ P s2) →
  ∃ s', foldM f s l = Ok s' ∧ P s'.
Proof.
  revert s. induction l as [|x l IH]; intros s Hs Hstep; cbn; [by eauto|].
  destruct (Hstep s x) as (s1 & -> & H1); [left|done|]; cbn.
  apply IH; [done|]. intros; apply Hstep; [by right|done].
Qed.

(** A fallible loop whose body succeeds is the pure loop. *)
Lemma foldM_pure (g : S → A → S) f s l :
  (∀ s1 x, x ∈ l → f s1 x = Ok (g s1 x)) → foldM f s l = Ok (foldl g s l).
Proof.
  revert s. induction l as [|x l IH]; intros s Hf; cbn; [done|].
  rewrite Hf by left. cbn. apply IH. intros; apply Hf. by right.
Qed.

Lemma traverse_Ok f l l' :
  traverse f l = Ok l' ↔ Forall2 (λ x y, f x = Ok y) l l'.
Proof.
  revert l'. induction l as [|x l IH]; intros l'; cbn.
  - split; [by intros [= <-]|by inversion 1].
  - rewrite outcome_bind_Ok. setoid_rewrite outcome_bind_Ok. setoid_rewrite IH.
    split.
    + intros (y & Hy & ys & Hys & [= <-]). by constructor.
    + inversion 1; subst; eauto 8.
Qed.

Lemma traverse_length f l l' : traverse f l = Ok l' → length l' = length l.
Proof. rewrite traverse_Ok. intros H. by apply Forall2_length in H. Qed.
End loops.

(** A loop over the first [n] indices, with an invariant on how far it got. *)
Lemma foldM_seq {E S} (P : nat → S → Prop) (f : S → nat → outcome E S) n : ∀ k s,
  P k s → (∀ i s1, k ≤ i < k + n → P i s1 → ∃ s2, f s1 i = Ok s2 ∧ P (Datatypes.S i) s2) →
  ∃ s', foldM f s (seq k n) = Ok s' ∧ P (k + n) s'.
Proof.
  induction n as [|n IH]; intros k s Hk Hstep; cbn [seq foldM].
  { exists s. by rewrite Nat.add_0_r. }
  destruct (Hstep k s) as (s1 & -> & H1); [lia|done|]. cbn [mbind outcome_bind].
  destruct (IH (Datatypes.S k) s1 H1) as (s' & Hf & Hs').
  - intros i s2 Hi. apply Hstep. lia.
  - exists s'. split; [exact Hf|]. by replace (k + Datatypes.S n) with (Datatypes.S k + n) by lia.
Qed.

(** ** Functional record update

    [upd f g r] replaces field [f] of [r] by [g (f r)].  A record declares its
    eta-expansion once and the setters are computed from it. *)

Class Settable (R : Type) := eta : R → R.
#[global] Hint Mode Settable ! : typeclass_instances.

Class Setter {R T : Type} (proj : R → T) := upd : (T → T) → R → R.
Arguments upd {R T} proj {_} _ _.

Ltac derive_setter :=
  match goal with
  | |- @Setter ?R ?T ?proj =>
      let e := constr:(ltac:(let i := constr:(_ : Settable R) in exact i)) in
      let b := eval unfold eta in (@eta R e) in
      let b := eval cbv beta delta [eta] in b in
      let b := match b with
               | ?c => eval unfold c in c
               | _ => b
               end in
      lazymatch (eval pattern proj in b) with
      | ?F _ => exact (fun (g : T -> T) (r : R) => F (fun r' => g (proj r')) r)
      end
  end.
#[global] Hint Extern 0 (Setter _) => derive_setter : typeclass_instances.

Notation "r <| f := v |>" := (upd f (λ _, v) r)
  (at level 12, left associativity, f at level 11).
Notation "r <| f ::= g |>" := (upd f g r)
  (at level 12, left associativity, f at level 11).

(** ** Integers at their width *)

Definition u8_max : N := 255.
Definition u16_max : N := 65535.
Definition u32_size : N := 4294967296.

(** [x as u32] for an [usize]. *)
Definition as_u32 (n : nat) : N := (N.of_nat n `mod` u32_size)%N.
(** [x as u16]. *)
Definition as_u16 (n : nat) : N := (N.of_nat n `mod` 65536)%N.

Lemma as_u32_small (n : nat) : (N.of_nat n < u32_size)%N → as_u32 n = N.of_nat n.
Proof. intros. unfold as_u32. by apply N.mod_small. Qed.

(** A one-based [u32] id as an index: id 0 wraps to [u32::MAX], which is beyond
    the end of every vector of rows. *)
Definition row_index (id : N) : option nat :=
  if (id =? 0)%N then None else Some (N.to_nat (id - 1)).

Definition row_at {A} (l : list A) (id : N) : option A := i ← row_index id; l !! i.

(** [v[i] = x]: out of range is a panic. *)
Definition list_set {E A} (i : nat) (x : A) (l : list A) : outcome E (list A) :=
  if Nat.ltb i (length l) then Ok (<[i := x]> l) else Panic.

Definition list_modify {E A} (i : nat) (f : A → A) (l : list A) : outcome E (list A) :=
  match l !! i with Some x => Ok (<[i := f x]> l) | None => Panic end.

Lemma row_index_succ (i : nat) : row_index (N.of_nat i + 1) = Some i.
Proof.
  unfold row_index. rewrite (proj2 (N.eqb_neq _ 0)) by lia.
  by rewrite N.add_sub, Nat2N.id.
Qed.

Lemma row_index_Some id i : row_index id = Some i ↔ id = (N.of_nat i + 1)%N.
Proof.
  split; [|intros ->; apply row_index_succ].
  unfold row_index. destruct (N.eqb_spec id 0); [done|]. intros [= <-]. lia.
Qed.

(** ** Hash maps iterated in an unspecified order

    A loop over a [HashMap] sees its entries in some order that depends on the
    hasher's random state: [iter_order] is that order. *)

Class MapOrder := {
  iter_order : ∀ {K} `{Countable K} {A : Type}, gmap K A → list (K * A);
  iter_order_perm : ∀ {K} `{Countable K} {A : Type} (m : gmap K A),
    iter_order m ≡ₚ map_to_list m;
}.

Lemma iter_order_elem `{MapOrder} `{Countable K} {A} (m : gmap K A) k x :
  (k, x) ∈ iter_order m ↔ m !! k = Some x.
Proof. rewrite iter_order_perm. apply elem_of_map_to_list. Qed.

(** A loop that fills a map: with agreeing values, the result holds exactly what
    the items contribute. *)
Section fill_map.
Context {X K V : Type} `{Countable K} (f : X → option (K * V)).

Definition fill_step (m : gmap K V) (x : X) : gmap K V :=
  match f x with Some (k, v) => <[k := v]> m | None => m end.

Lemma fill_map_lookup l k v :
  (∀ x y k v v', x ∈ l → y ∈ l → f x = Some (k, v) → f y = Some (k, v') → v = v') →
  foldl fill_step ∅ l !! k = Some v ↔ ∃ x, x ∈ l ∧ f x = Some (k, v).
Proof.
  induction l as [|x l IH] using rev_ind; intros Hag.
  { cbn. rewrite lookup_empty. split; [done|]. by intros (y & Hy%elem_of_nil & _). }
  rewrite foldl_app. cbn.
  assert (foldl fill_step ∅ l !! k = Some v ↔ ∃ x, x ∈ l ∧ f x = Some (k, v)) as IH'.
  { apply IH. intros y z k1 v1 v2 Hy Hz. apply Hag; apply elem_of_app; by left. }
  setoid_rewrite elem_of_app. setoid_rewrite list_elem_of_singleton.
  unfold fill_step at 1. destruct (f x) as [[k1 v1]|] eqn:Hx.
  - rewrite lookup_insert_Some, IH'. split.
    + intros [[<- <-]|[_ (y & ? & ?)]]; eauto.
    + intros (y & [Hy| ->] & Hfy); [|rewrite Hx in Hfy; injection Hfy; intros; by left].
      destruct (decide (k1 = k)) as [->|]; [left|right; eauto].
      split; [done|]. eapply (Hag x y); [| |exact Hx|exact Hfy];
        apply elem_of_app; [right; by left|by left].
  - rewrite IH'. split; [intros (y & ? & ?); eauto|].
    intros (y & [Hy| ->] & Hfy); [eauto|congruence].
Qed.
End fill_map.

(** ** Shared automation *)

Create HintDb rmig discriminated.

(** Case on every [match] and boolean test of the goal, closing what is trivial. *)
Ltac split_matches :=
  repeat (case_match; simplify_eq/=; try done).

(** Push a successful bind in a hypothesis into its components. *)
Ltac inv_ok :=
  repeat match goal with
  | H : (_ ≫= _) = Ok _ |- _ =>
      let a := fresh "v" in let Ha := fresh "Hv" in
      apply outcome_bind_Ok in H as (a & Ha & H); cbn in H
  | H : Ok _ = Ok _ |- _ => injection H as H; simplify_eq
  | H : or_panic _ = Ok _ |- _ => apply or_panic_Ok in H
  end.

Ltac simpl_bool :=
  repeat match goal with
  | H : (_ && _)%bool = true |- _ => apply andb_true_iff in H as [??]
  | H : (_ || _)%bool = false |- _ => apply orb_false_iff in H as [??]
  | H : negb _ = true |- _ => apply negb_true_iff in H
  | H : negb _ = false |- _ => apply negb_false_iff in H
  | H : bool_decide _ = true |- _ => apply bool_decide_eq_true in H
  | H : bool_decide _ = false |- _ => apply bool_decide_eq_false in H
  end.

(** ** Stable sorting

    Rust's [slice::sort_by] is stable; every stable sort returns the same list,
    so insertion sort stands for it. *)

Section sort_by.
Context {A : Type} (leb : A → A → bool).

Fixpoint insert_by (x : A) (l : list A) : list A :=
  match l with
  | [] => [x]
  | y :: l' => if leb x y then x :: y :: l' else y :: insert_by x l'
  end.

Definition sort_by (l : list A) : list A := foldr insert_by [] l.

Lemma insert_by_perm x l : insert_by x l ≡ₚ x :: l.
Proof.
  induction l as [|y l IH]; cbn; [done|].
  destruct (leb x y); [done|]. rewrite IH. apply Permutation_swap.
Qed.

Lemma sort_by_perm l : sort_by l ≡ₚ l.
Proof. induction l as [|x l IH]; cbn; [done|]. by rewrite insert_by_perm, IH. Qed.

Lemma sort_by_length l : length (sort_by l) = length l.
Proof. by rewrite sort_by_perm. Qed.

Context (leb_total : ∀ x y, leb x y = true ∨ leb y x = true).
Context (leb_trans : ∀ x y z, leb x y = true → leb y z = true → leb x z = true).

Lemma insert_by_sorted x l :
  StronglySorted leb l → StronglySorted leb (insert_by x l).
Proof.
  induction 1 as [|y l Hl IH Hy]; cbn; [by repeat constructor|].
  destruct (leb x y) eqn:Hxy.
  - constructor; [by constructor|]. constructor; [by rewrite Hxy|].
    eapply Forall_impl; [exact Hy|]. intros z Hz.
    apply Is_true_true. eapply leb_trans; [exact Hxy|]. by apply Is_true_true.
  - constructor; [done|]. rewrite insert_by_perm. constructor; [|done].
    destruct (leb_total x y); [congruence|]. by apply Is_true_true.
Qed.

Lemma sort_by_sorted l : StronglySorted leb (sort_by l).
Proof. induction l; cbn; [constructor|by apply insert_by_sorted]. Qed.

(** Elements that compare equal keep their order. *)
Definition equiv_to (k x : A) : bool := leb k x && leb x k.

Lemma insert_by_stable k x l :
  StronglySorted leb l →
  filter (λ y, equiv_to k y = true) (insert_by x l) =
  filter (λ y, equiv_to k y = true) (x :: l).
Proof.
  induction 1 as [|y l Hl IH Hy]; cbn [insert_by]; [done|].
  destruct (leb x y) eqn:Hxy; [done|].
  rewrite filter_cons, IH, !filter_cons.
  destruct (decide (equiv_to k y = true)) as [Hky|], (decide (equiv_to k x = true)) as [Hkx|]; try done.
  exfalso. unfold equiv_to in *. simpl_bool.
  assert (leb x y = true) by (apply (leb_trans x k y); done). congruence.
Qed.

Lemma sort_by_stable k l :
  filter (λ y, equiv_to k y = true) (sort_by l) =
  filter (λ y, equiv_to k y = true) l.
Proof.
  induction l as [|x l IH]; [done|].
  change (sort_by (x :: l)) with (insert_by x (sort_by l)).
  rewrite insert_by_stable by apply sort_by_sorted.
  rewrite !filter_cons. by rewrite IH.
Qed.
End sort_by.

(** Sorting by a projected key sorts the keys. *)
Lemma StronglySorted_proj {A B} (f : A → B) (leb : B → B → bool) l :
  StronglySorted (λ x y, leb (f x) (f y)) l → StronglySorted leb (f <$> l).
Proof.
  induction 1 as [|x l Hl IH Hx]; cbn; constructor; [done|].
  apply Forall_fmap. eapply Forall_impl; [exact Hx|]. done.
Qed.

(** A total antisymmetric order sorts permutations alike. *)
Lemma sorted_perm_unique {A} (leb : A → A → bool) (l1 l2 : list A) :
  (∀ x y, leb x y = true → leb y x = true → x = y) →
  StronglySorted leb l1 → StronglySorted leb l2 → l1 ≡ₚ l2 → l1 = l2.
Proof.
  intros Ha H1. revert l2. induction H1 as [|x l1 Hl1 IH Hx]; intros l2 H2 Hp.
  - by apply Permutation_nil_l in Hp.
  - destruct H2 as [|y l2 Hl2 Hy]; [by apply symmetry, Permutation_nil_cons in Hp|].
    assert (Exy : x = y).
    { rewrite !Forall_forall in Hx, Hy.
      assert (Hyx : y ∈ x :: l1) by (rewrite Hp; left).
      assert (Hxy : x ∈ y :: l2) by (rewrite <- Hp; left).
      apply elem_of_cons in Hyx as [->|Hyx]; [done|].
      apply elem_of_cons in Hxy as [->|Hxy]; [done|].
      apply Ha; apply Is_true_true; auto. }
    subst y. f_equal. apply IH; [done|]. by apply Permutation_cons_inv in Hp.
Qed.
