(* ===== verification/Timings.v ===== *)
(** * Phase timings ([timings/*.rs])

    Milliseconds in [i64]s, whose arithmetic wraps in a release build.  Elapsed
    times come from the clock; they are arguments of the code that records them. *)

From S2P Require Export Prelude.
From Stdlib Require Import Ascii.
From Stdlib Require String.

Definition i64_min : Z := -9223372036854775808.
Definition i64_max : Z := 9223372036854775807.
(** [as i64]. *)
Definition as_i64 (z : Z) : Z := ((z + 9223372036854775808) `mod` 18446744073709551616 - 9223372036854775808)%Z.
Definition i64_saturating_add (a b : Z) : Z := Z.max i64_min (Z.min i64_max (a + b)).
Definition i64_saturating_sub (a b : Z) : Z := Z.max i64_min (Z.min i64_max (a - b)).

Record PhaseTimings := mk_PhaseTimings {
  pt_connect_ms : Z;
  pt_scan_ms : Z;
  pt_inspect_ms : Z;
  pt_checksums_ms : Z;
  pt_ensure_ms : Z;
  pt_parallel_wall_ms : Z;
  pt_audit_ms : Z;
  pt_diff_ms : Z;
  pt_plan_wall_ms : Z;
  pt_cli_wall_ms : Z;
  pt_engine_ms : Z;
  pt_apply_ms : Z;
  pt_plan_db_query_calls : Z;
  pt_plan_db_query_ms : Z;
  pt_plan_db_checksums_batch_ms : Z;
  pt_plan_db_catalog_ms : Z;
  pt_plan_db_catalog_sql_ms : Z;
  pt_plan_db_intern_catalog_ms : Z;
  pt_plan_db_round_trips : Z;
  pt_plan_db_path : string;
  pt_l1_cache_hit : bool;
  pt_plan_db_bootstrap : bool;
  pt_plan_db_catalog_queried : bool;
  pt_plan_db_history_empty : bool;
  pt_plan_db_checksums_skipped : bool;
}.
#[global] Instance PhaseTimings_eta : Settable PhaseTimings := λ t,
  mk_PhaseTimings (pt_connect_ms t) (pt_scan_ms t) (pt_inspect_ms t) (pt_checksums_ms t)
    (pt_ensure_ms t) (pt_parallel_wall_ms t) (pt_audit_ms t) (pt_diff_ms t) (pt_plan_wall_ms t)
    (pt_cli_wall_ms t) (pt_engine_ms t) (pt_apply_ms t) (pt_plan_db_query_calls t)
    (pt_plan_db_query_ms t) (pt_plan_db_checksums_batch_ms t) (pt_plan_db_catalog_ms t)
    (pt_plan_db_catalog_sql_ms t) (pt_plan_db_intern_catalog_ms t) (pt_plan_db_round_trips t)
    (pt_plan_db_path t) (pt_l1_cache_hit t) (pt_plan_db_bootstrap t)
    (pt_plan_db_catalog_queried t) (pt_plan_db_history_empty t) (pt_plan_db_checksums_skipped t).

Definition PhaseTimings_default : PhaseTimings :=
  mk_PhaseTimings 0 0 0 0 0 0 0 0 0 0 0 0 0 0 0 0 0 0 0 "" false false false false false.

(** A duration in nanoseconds; [as_millis] truncates. *)
Definition dur_ms (d : N) : Z := as_i64 (Z.of_N (d / 1000000)).

(** ** [Debug for Duration]

    The largest unit with a non-zero integer part, and the fraction without its
    trailing zeros. *)
Fixpoint fraction_digits (places : nat) (fraction divisor : N) : string :=
  match places with
  | 0 => ""
  | S places =>
      if (fraction =? 0)%N then ""
      else String (ascii_of_N (48 + fraction / divisor))
             (fraction_digits places (fraction `mod` divisor) (divisor / 10))
  end.
Definition fmt_decimal (integer fraction divisor : N) (unit_ : string) : string :=
  let digits := fraction_digits 9 fraction divisor in
  pretty integer +:+ (if String.eqb digits "" then "" else "." +:+ digits) +:+ unit_.
Definition MICRO : string := String (ascii_of_N 194) (String (ascii_of_N 181) "s").
Definition duration_debug (ns : N) : string :=
  if (1000000000 <=? ns)%N then fmt_decimal (ns / 1000000000) (ns `mod` 1000000000) 100000000 "s"
  else if (1000000 <=? ns)%N then fmt_decimal (ns / 1000000) (ns `mod` 1000000) 100000 "ms"
  else if (1000 <=? ns)%N then fmt_decimal (ns / 1000) (ns `mod` 1000) 100 MICRO
  else fmt_decimal ns 0 1 "ns".

Example duration_debug_30s : duration_debug 30000000000 = "30s".
Proof. reflexivity. Qed.
Example duration_debug_fraction : duration_debug 2050000 = "2.05ms".
Proof. reflexivity. Qed.

Definition finish_audit_ms (t : PhaseTimings) : PhaseTimings :=
  t <| pt_audit_ms := as_i64 (pt_ensure_ms t + pt_checksums_ms t) |>.

(** [merge_timings] of [engine/run/merge.rs]. *)
Definition merge_timings (dst src : PhaseTimings) : PhaseTimings :=
  let sum (f : PhaseTimings → Z) := i64_saturating_add (f dst) (f src) in
  let dst := dst
    <| pt_connect_ms := Z.max (pt_connect_ms dst) (pt_connect_ms src) |>
    <| pt_ensure_ms := sum pt_ensure_ms |>
    <| pt_checksums_ms := sum pt_checksums_ms |>
    <| pt_inspect_ms := sum pt_inspect_ms |>
    <| pt_diff_ms := sum pt_diff_ms |>
    <| pt_apply_ms := sum pt_apply_ms |>
    <| pt_parallel_wall_ms := Z.max (pt_parallel_wall_ms dst) (pt_parallel_wall_ms src) |>
    <| pt_plan_db_query_ms := sum pt_plan_db_query_ms |>
    <| pt_plan_db_query_calls := sum pt_plan_db_query_calls |> in
  let dst := if negb (pt_l1_cache_hit src) then dst <| pt_l1_cache_hit := false |> else dst in
  if negb (String.eqb (pt_plan_db_path src) "")
  then dst <| pt_plan_db_path := pt_plan_db_path src |> else dst.
