(* ===== verification/RustStr.v ===== *)
(** * Rust's [str] as a byte sequence

    A [&str]/[String] is the list of its UTF-8 bytes ([string]).  The operations
    below are the [str] methods the program uses, on bytes: a pattern that is an
    ASCII character or an ASCII literal never matches inside a multi-byte
    character, so the byte-level reading is exact.  Operations that depend on
    Unicode tables ([to_lowercase], [Debug]) are in [External]. *)

From S2P Require Export Prelude.
From Stdlib Require Import Ascii.
From Stdlib Require String.
From stdpp Require Import strings.
From Stdlib Require Import ZifyBool.

Create Rewrite HintDb rmig_str.

#[global] Arguments String.append !_ _ /.

Abbreviation byte_of := N_of_ascii.

(** ** Characters *)

Definition is_ascii_digit (c : ascii) : bool :=
  (48 <=? byte_of c)%N && (byte_of c <=? 57)%N.

Definition is_ascii_lower_alpha (c : ascii) : bool :=
  (97 <=? byte_of c)%N && (byte_of c <=? 122)%N.

Definition is_ascii_upper_alpha (c : ascii) : bool :=
  (65 <=? byte_of c)%N && (byte_of c <=? 90)%N.

Definition is_ascii_alphanumeric (c : ascii) : bool :=
  is_ascii_digit c || is_ascii_lower_alpha c || is_ascii_upper_alpha c.

Definition is_ascii_hexdigit (c : ascii) : bool :=
  is_ascii_digit c
  || ((97 <=? byte_of c)%N && (byte_of c <=? 102)%N)
  || ((65 <=? byte_of c)%N && (byte_of c <=? 70)%N).

Definition to_ascii_lowercase (c : ascii) : ascii :=
  if is_ascii_upper_alpha c then ascii_of_N (byte_of c + 32) else c.

(** A UTF-8 continuation byte [10xxxxxx]; every other byte starts a character. *)
Definition is_continuation (c : ascii) : bool :=
  (128 <=? byte_of c)%N && (byte_of c <? 192)%N.

(** ** Folds over the bytes of a string *)

Fixpoint str_all (p : ascii → bool) (s : string) : bool :=
  match s with
  | EmptyString => true
  | String c s' => p c && str_all p s'
  end.

Fixpoint str_map (f : ascii → ascii) (s : string) : string :=
  match s with
  | EmptyString => EmptyString
  | String c s' => String (f c) (str_map f s')
  end.

Definition str_any (p : ascii → bool) (s : string) : bool :=
  negb (str_all (λ c, negb (p c)) s).

Definition has_char (c : ascii) (s : string) : bool :=
  str_any (λ d, bool_decide (c = d)) s.

(** [s.to_ascii_lowercase()] and [a.eq_ignore_ascii_case(b)]. *)
Definition ascii_lowercase (s : string) : string := str_map to_ascii_lowercase s.

Definition eq_ignore_ascii_case (a b : string) : bool :=
  String.eqb (ascii_lowercase a) (ascii_lowercase b).

(** [s.chars().count()] and [s.encode_utf16().count()]: a character is one
    UTF-16 unit unless it needs four UTF-8 bytes (lead byte >= 0xF0). *)
Fixpoint chars_count (s : string) : nat :=
  match s with
  | EmptyString => 0
  | String c s' => (if is_continuation c then 0 else 1) + chars_count s'
  end.

Fixpoint utf16_count (s : string) : nat :=
  match s with
  | EmptyString => 0
  | String c s' =>
      (if is_continuation c then 0
       else if (240 <=? byte_of c)%N then 2 else 1) + utf16_count s'
  end.

(** ** Substrings *)

Fixpoint str_take (n : nat) (s : string) : string :=
  match n, s with
  | S n', String c s' => String c (str_take n' s')
  | _, _ => EmptyString
  end.

Fixpoint str_drop (n : nat) (s : string) : string :=
  match n, s with
  | S n', String _ s' => str_drop n' s'
  | _, _ => s
  end.

(** [s.is_char_boundary(n)] for [n <= s.len()]. *)
Definition is_char_boundary (n : nat) (s : string) : bool :=
  match str_drop n s with
  | EmptyString => Nat.leb n (String.length s)
  | String c _ => negb (is_continuation c)
  end.

Fixpoint strip_prefix (p s : string) : option string :=
  match p, s with
  | EmptyString, _ => Some s
  | String a p', String b s' => if decide (a = b) then strip_prefix p' s' else None
  | String _ _, EmptyString => None
  end.

Definition starts_with (p s : string) : bool :=
  match strip_prefix p s with Some _ => true | None => false end.

Definition strip_suffix (p s : string) : option string :=
  let n := String.length s - String.length p in
  if Nat.leb (String.length p) (String.length s) && String.eqb (str_drop n s) p
  then Some (str_take n s) else None.

Definition ends_with (p s : string) : bool :=
  match strip_suffix p s with Some _ => true | None => false end.

(** [s.contains(p)] for a string pattern. *)
Fixpoint contains_str (p s : string) : bool :=
  starts_with p s ||
  match s with
  | EmptyString => false
  | String _ s' => contains_str p s'
  end.

(** [s.trim_end_matches(p)]: strips the suffix as often as it occurs; each round
    shortens a non-empty pattern's string, so [length s] rounds suffice. *)
Fixpoint trim_end_fuel (fuel : nat) (p s : string) : string :=
  match fuel with
  | 0 => s
  | S k => match strip_suffix p s with
           | Some s' => trim_end_fuel k p s'
           | None => s
           end
  end.
Definition trim_end_matches (p s : string) : string :=
  trim_end_fuel (String.length s) p s.

(** [s.trim_start_matches(c)] for a character. *)
Fixpoint trim_start_char (c : ascii) (s : string) : string :=
  match s with
  | String a s' => if decide (a = c) then trim_start_char c s' else s
  | EmptyString => EmptyString
  end.

(** ** Splitting, joining, replacing *)

Fixpoint split_on (c : ascii) (s : string) : list string :=
  match s with
  | EmptyString => [EmptyString]
  | String a s' =>
      if decide (a = c) then EmptyString :: split_on c s'
      else match split_on c s' with
           | w :: ws => String a w :: ws
           | [] => [String a EmptyString]
           end
  end.

(** [s.split_once(c)]. *)
Fixpoint split_once (c : ascii) (s : string) : option (string * string) :=
  match s with
  | EmptyString => None
  | String a s' =>
      if decide (a = c) then Some (EmptyString, s')
      else match split_once c s' with
           | Some (l, r) => Some (String a l, r)
           | None => None
           end
  end.

Fixpoint str_join (sep : string) (l : list string) : string :=
  match l with
  | [] => EmptyString
  | [s] => s
  | s :: l' => s +:+ sep +:+ str_join sep l'
  end.

(** [s.replace(c, r)] for a one-byte pattern. *)
Fixpoint replace_char (c : ascii) (r s : string) : string :=
  match s with
  | EmptyString => EmptyString
  | String a s' => if decide (a = c) then r +:+ replace_char c r s'
                   else String a (replace_char c r s')
  end.

(** ** Trimming white space

    [char::is_whitespace]: the ASCII ones, then U+0085, U+00A0, U+1680,
    U+2000..U+200A, U+2028, U+2029, U+202F, U+205F and U+3000 as UTF-8. *)

Definition is_ws1 (a : N) : bool := (9 <=? a)%N && (a <=? 13)%N || (a =? 32)%N.
Definition is_ws2 (a b : N) : bool := (a =? 194)%N && ((b =? 133)%N || (b =? 160)%N).
Definition is_ws3 (a b c : N) : bool :=
  ((a =? 225) && (b =? 154) && (c =? 128))%N
  || ((a =? 226) && (b =? 128) &&
      (((128 <=? c) && (c <=? 138)) || (c =? 168) || (c =? 169) || (c =? 175)))%N
  || ((a =? 226) && (b =? 129) && (c =? 159))%N
  || ((a =? 227) && (b =? 128) && (c =? 128))%N.

(** Drops leading white space of a byte list; [rd] reads the bytes of one
    character in text order, so the same loop trims both ends. *)
Fixpoint trim_bytes (back : bool) (l : list N) {struct l} : list N :=
  match l with
  | [] => []
  | a :: l1 =>
      if is_ws1 a then trim_bytes back l1
      else match l1 with
      | [] => l
      | b :: l2 =>
          if (if back then is_ws2 b a else is_ws2 a b) then trim_bytes back l2
          else match l2 with
          | [] => l
          | c :: l3 =>
              if (if back then is_ws3 c b a else is_ws3 a b c)
              then trim_bytes back l3 else l
          end
      end
  end.

Definition bytes_of (s : string) : list N := map byte_of (String.list_ascii_of_string s).
Definition of_bytes (l : list N) : string := String.string_of_list_ascii (map ascii_of_N l).

Definition trim_start (s : string) : string := of_bytes (trim_bytes false (bytes_of s)).
Definition trim_end (s : string) : string :=
  of_bytes (rev (trim_bytes true (rev (bytes_of s)))).
Definition trim (s : string) : string := trim_end (trim_start s).

(** ** UTF-8 validity, as [str::from_utf8] checks it *)

Definition is_cont (b : N) : bool := (128 <=? b)%N && (b <=? 191)%N.

Fixpoint valid_utf8_bytes (l : list N) : bool :=
  match l with
  | [] => true
  | a :: l1 =>
      if (a <? 128)%N then valid_utf8_bytes l1
      else match l1 with
      | [] => false
      | b :: l2 =>
          if (194 <=? a)%N && (a <=? 223)%N then is_cont b && valid_utf8_bytes l2
          else match l2 with
          | [] => false
          | c :: l3 =>
              if (224 <=? a)%N && (a <=? 239)%N then
                (if (a =? 224)%N then (160 <=? b)%N && (b <=? 191)%N
                 else if (a =? 237)%N then (128 <=? b)%N && (b <=? 159)%N
                 else is_cont b)
                && is_cont c && valid_utf8_bytes l3
              else match l3 with
              | [] => false
              | d :: l4 =>
                  (240 <=? a)%N && (a <=? 244)%N
                  && (if (a =? 240)%N then (144 <=? b)%N && (b <=? 191)%N
                      else if (a =? 244)%N then (128 <=? b)%N && (b <=? 143)%N
                      else is_cont b)
                  && is_cont c && is_cont d && valid_utf8_bytes l4
              end
          end
      end
  end.

Definition valid_utf8 (s : string) : bool := valid_utf8_bytes (bytes_of s).

(** ** Facts *)

Lemma str_app_nil_r s : s +:+ "" = s.
Proof. induction s as [|c s IH]; [done|]. cbn. by f_equal. Qed.

Lemma str_app_assoc a b c : (a +:+ b) +:+ c = a +:+ b +:+ c.
Proof. induction a as [|x a IH]; [done|]. cbn. by f_equal. Qed.

Lemma str_app_cons x a b : String x a +:+ b = String x (a +:+ b).
Proof. done. Qed.

Lemma str_app_inj_l a b c : a +:+ b = a +:+ c → b = c.
Proof. induction a as [|x a IH]; [done|]. rewrite !str_app_cons. intros [= ?]. auto. Qed.

Lemma str_length_app a b : String.length (a +:+ b) = String.length a + String.length b.
Proof. induction a as [|x a IH]; [done|]. cbn. by f_equal. Qed.

Lemma str_app_inj_r a b c : a +:+ c = b +:+ c → a = b.
Proof.
  revert b. induction a as [|x a IH]; intros [|y b] H; [done|..].
  - apply (f_equal String.length) in H.
    rewrite !str_length_app in H. cbn in H. lia.
  - apply (f_equal String.length) in H.
    rewrite !str_length_app in H. cbn in H. lia.
  - rewrite !str_app_cons in H. injection H as -> H. f_equal. by apply IH.
Qed.

Lemma str_take_app a b : str_take (String.length a) (a +:+ b) = a.
Proof. induction a as [|x a IH]; [by destruct b|]. cbn. by f_equal. Qed.

Lemma str_drop_app a b : str_drop (String.length a) (a +:+ b) = b.
Proof. induction a as [|x a IH]; [by destruct b|]. done. Qed.

Lemma str_take_drop n s : str_take n s +:+ str_drop n s = s.
Proof.
  revert s. induction n as [|n IH]; intros s; [by destruct s|].
  destruct s as [|c s]; cbn; [done|]. f_equal. apply IH.
Qed.

Lemma strip_prefix_Some p s r : strip_prefix p s = Some r ↔ s = p +:+ r.
Proof.
  revert s. induction p as [|a p IH]; intros s; cbn.
  - split; congruence.
  - destruct s as [|b s]; [done|]. cbn. case_decide as Hab; subst.
    + rewrite IH. split; [by intros ->|by intros [= ->]].
    + split; [done|]. intros [= ? ?]. congruence.
Qed.

Lemma starts_with_spec p s : starts_with p s = true ↔ ∃ r, s = p +:+ r.
Proof.
  unfold starts_with. setoid_rewrite <- strip_prefix_Some.
  destruct (strip_prefix p s) eqn:?; split; try done; [eauto|by intros [? ?]].
Qed.

Lemma starts_with_app p s : starts_with p (p +:+ s) = true.
Proof. apply starts_with_spec. eauto. Qed.

Lemma strip_suffix_Some p s r : strip_suffix p s = Some r ↔ s = r +:+ p.
Proof.
  unfold strip_suffix. split.
  - case_match eqn:H; [|done]. intros [= <-].
    apply andb_true_iff in H as [_ H%String.eqb_eq].
    rewrite <- H at 2. by rewrite str_take_drop.
  - intros ->. rewrite str_length_app, Nat.add_sub.
    rewrite str_take_app, str_drop_app, String.eqb_refl, andb_true_r.
    by destruct (Nat.leb_spec (String.length p) (String.length r + String.length p)); [|lia].
Qed.

Lemma ends_with_spec p s : ends_with p s = true ↔ ∃ r, s = r +:+ p.
Proof.
  unfold ends_with. setoid_rewrite <- strip_suffix_Some.
  destruct (strip_suffix p s) eqn:?; split; try done; [eauto|by intros [? ?]].
Qed.

(** *** Characters of a string *)

Lemma str_all_app p a b : str_all p (a +:+ b) = str_all p a && str_all p b.
Proof. induction a as [|x a IH]; [done|]. cbn. by rewrite IH, andb_assoc. Qed.

Lemma str_all_impl (p q : ascii → bool) s :
  (∀ c, p c = true → q c = true) → str_all p s = true → str_all q s = true.
Proof.
  intros Hpq. induction s as [|c s IH]; [done|]. cbn.
  rewrite !andb_true_iff. intros [??]; auto.
Qed.

Lemma has_char_cons c a s :
  has_char c (String a s) = bool_decide (c = a) || has_char c s.
Proof. unfold has_char, str_any. cbn. by rewrite negb_andb, negb_involutive. Qed.

Lemma has_char_app c a b : has_char c (a +:+ b) = has_char c a || has_char c b.
Proof. unfold has_char, str_any. by rewrite str_all_app, negb_andb. Qed.

Lemma has_char_nil c : has_char c "" = false.
Proof. done. Qed.

Lemma has_char_all c p s :
  str_all p s = true → p c = false → has_char c s = false.
Proof.
  intros Hs Hc. induction s as [|a s IH]; [done|]. cbn in Hs. simpl_bool.
  rewrite has_char_cons, IH, orb_false_r by done.
  apply bool_decide_eq_false. intros ->. congruence.
Qed.

(** *** Splitting and joining *)

Lemma split_on_cons_eq c s : split_on c (String c s) = "" :: split_on c s.
Proof. cbn. by rewrite decide_True. Qed.

Lemma split_on_nonnil c s : split_on c s ≠ [].
Proof.
  induction s as [|a s IH]; cbn; [done|]. case_decide; [done|].
  by destruct (split_on c s).
Qed.

Lemma str_join_cons sep s l :
  l ≠ [] → str_join sep (s :: l) = s +:+ sep +:+ str_join sep l.
Proof. by destruct l. Qed.

Lemma join_split c s : str_join (String c "") (split_on c s) = s.
Proof.
  induction s as [|a s IH]; [done|]. cbn [split_on]. case_decide as Ha.
  - subst. rewrite str_join_cons by apply split_on_nonnil. cbn. by f_equal.
  - pose proof (split_on_nonnil c s). destruct (split_on c s) as [|w ws]; [done|].
    destruct ws as [|w' ws]; cbn in *; by f_equal.
Qed.

Lemma split_on_pieces c s : Forall (λ w, has_char c w = false) (split_on c s).
Proof.
  induction s as [|a s IH]; [by repeat constructor|]. cbn. case_decide as Ha.
  - by constructor.
  - destruct (split_on c s) as [|w ws]; constructor; rewrite ?has_char_cons.
    + rewrite orb_false_r. by apply bool_decide_eq_false.
    + constructor.
    + inversion_clear IH as [|? ? Hw _]. rewrite Hw, orb_false_r. by apply bool_decide_eq_false.
    + by inversion_clear IH.
Qed.

Lemma split_on_single c a : has_char c a = false → split_on c a = [a].
Proof.
  induction a as [|x a IH]; [done|]. rewrite has_char_cons.
  intros [Hx%bool_decide_eq_false Ha]%orb_false_iff. cbn.
  rewrite decide_False by congruence. by rewrite IH.
Qed.

Lemma split_on_app c a b :
  has_char c a = false → split_on c (a +:+ String c b) = a :: split_on c b.
Proof.
  induction a as [|x a IH]; intros Ha; [cbn; by rewrite decide_True|].
  rewrite has_char_cons in Ha. apply orb_false_iff in Ha as [Hx%bool_decide_eq_false Ha].
  cbn. rewrite decide_False by congruence. by rewrite IH.
Qed.

Lemma split_join c ws :
  ws ≠ [] → Forall (λ w, has_char c w = false) ws →
  split_on c (str_join (String c "") ws) = ws.
Proof.
  intros Hne H. induction H as [|w ws Hw Hws IH]; [done|].
  destruct ws as [|w' ws]; [by apply split_on_single|].
  rewrite str_join_cons by done. cbn [String.append].
  change (w +:+ String c "" +:+ ?x) with (w +:+ String c x).
  rewrite split_on_app by done. by rewrite IH.
Qed.

Lemma replace_char_app c r a b :
  replace_char c r (a +:+ b) = replace_char c r a +:+ replace_char c r b.
Proof.
  induction a as [|x a IH]; [done|]. cbn. case_decide; rewrite IH.
  - by rewrite str_app_assoc.
  - done.
Qed.

Lemma replace_char_id c r s : has_char c s = false → replace_char c r s = s.
Proof.
  induction s as [|x s IH]; [done|]. rewrite has_char_cons.
  intros [Hx%bool_decide_eq_false Hs]%orb_false_iff. cbn.
  rewrite decide_False by congruence. by rewrite IH.
Qed.

Lemma has_char_replace c r s :
  has_char c r = false → has_char c (replace_char c r s) = false.
Proof.
  intros Hr. induction s as [|x s IH]; [done|]. cbn. case_decide as Hx.
  - by rewrite has_char_app, Hr, IH.
  - rewrite has_char_cons, IH, orb_false_r. by apply bool_decide_eq_false.
Qed.

Lemma str_map_length f s : String.length (str_map f s) = String.length s.
Proof. induction s; cbn; congruence. Qed.

Lemma str_map_all f p s : str_all p (str_map f s) = str_all (λ c, p (f c)) s.
Proof. induction s as [|c s IH]; cbn; [done|by rewrite IH]. Qed.

(** *** Bytes, and text without white space around it *)

Lemma bytes_of_app a b : bytes_of (a +:+ b) = bytes_of a ++ bytes_of b.
Proof. unfold bytes_of. induction a as [|c a IH]; [done|]. cbn in *. by rewrite IH. Qed.
Lemma of_bytes_of s : of_bytes (bytes_of s) = s.
Proof.
  unfold of_bytes, bytes_of. induction s as [|c s IH]; [done|].
  cbn [String.list_ascii_of_string map String.string_of_list_ascii]. by rewrite IH, ascii_N_embedding.
Qed.

Lemma trim_bytes_visible back a l : (32 < a < 128)%N → trim_bytes back (a :: l) = a :: l.
Proof.
  intros Ha. cbn [trim_bytes].
  assert (is_ws1 a = false) as -> by (unfold is_ws1; lia).
  destruct l as [|b l2]; [done|].
  assert ((if back then is_ws2 b a else is_ws2 a b) = false) as -> by (destruct back; unfold is_ws2; lia).
  destruct l2 as [|c l3]; [done|].
  assert ((if back then is_ws3 c b a else is_ws3 a b c) = false) as ->; [|done].
  destruct back; unfold is_ws3; lia.
Qed.

Lemma trim_visible s : Forall (λ b, 32 < b < 128)%N (bytes_of s) → trim s = s.
Proof.
  intros H. unfold trim, trim_start. rewrite <- (of_bytes_of s) at 2.
  assert (∀ back l, Forall (λ b, 32 < b < 128)%N l → trim_bytes back l = l) as Hid.
  { intros back [|a l] Hl; [done|]. inversion Hl. by apply trim_bytes_visible. }
  rewrite Hid, of_bytes_of by done. unfold trim_end.
  rewrite Hid by (by apply Forall_rev). by rewrite rev_involutive, of_bytes_of.
Qed.

(** *** Order *)

Lemma leb_trans a b c : String.leb a b = true → String.leb b c = true → String.leb a c = true.
Proof.
  intros H1 H2. apply Is_true_true.
  apply (transitivity (R:=String.le) (y:=b)); by apply Is_true_true.
Qed.

#[export] Hint Rewrite str_app_nil_r str_app_assoc has_char_app has_char_cons
  str_length_app : rmig_str.
