(* ===== verification/External.v ===== *)
(** * Code the program calls but does not contain

    The SHA-256 and hex crates, and the parts of the standard library that rest
    on Unicode or hashing tables, are interfaces: the model is parametric in
    them and states what it relies on as laws.  [Concrete] gives one instance of
    each, so that theorems stated against the interfaces can be evaluated. *)

From S2P Require Export RustStr.
From Stdlib Require Import Ascii.
From Stdlib Require String.

Definition is_ascii (c : ascii) : bool := (byte_of c <? 128)%N.

(** [str::to_lowercase] and the [{:?}] rendering of a [&str]. *)
Class Unicode := {
  to_lowercase : string → string;
  debug_str : string → string;
  to_lowercase_ascii s : str_all is_ascii s = true → to_lowercase s = ascii_lowercase s;
  to_lowercase_idemp s : to_lowercase (to_lowercase s) = to_lowercase s;
  to_lowercase_slash s : has_char "/" (to_lowercase s) = has_char "/" s;
}.

(** [Sha256::digest]: a digest is 32 bytes. Updating a hasher piecewise digests
    the concatenation of the pieces, so a hasher's state is the bytes fed so far. *)
Class Sha256 := {
  sha256 : string → string;
  sha256_length s : String.length (sha256 s) = 32;
}.

(** The [hex] crate. *)
Class Hex := {
  hex_encode : string → string;
  hex_decode : string → option string;
  hex_decode_encode b : hex_decode (hex_encode b) = Some b;
}.

Lemma hex_encode_inj `{Hex} a b : hex_encode a = hex_encode b → a = b.
Proof. intros E. apply (f_equal hex_decode) in E. rewrite !hex_decode_encode in E. congruence. Qed.

(** [DefaultHasher] over a byte slice: a deterministic 64-bit fingerprint. *)
Class Fingerprint := key_fingerprint : string → N.

(** Two keys that are stored under the same fingerprint must be equal. *)
Definition fp_injective_on `{Fingerprint} (l : list string) : Prop :=
  ∀ a b, a ∈ l → b ∈ l → key_fingerprint a = key_fingerprint b → a = b.

(** ** One instance of each interface *)

Module Concrete.

(** Entries in key order. *)
#[global] Program Instance map_order : MapOrder := {
  iter_order := λ K _ _ A m, map_to_list m }.
Next Obligation. done. Qed.

Lemma to_ascii_lowercase_idemp c :
  to_ascii_lowercase (to_ascii_lowercase c) = to_ascii_lowercase c.
Proof. by destruct c as [[] [] [] [] [] [] [] []]. Qed.

Lemma to_ascii_lowercase_slash c :
  bool_decide ("/"%char = to_ascii_lowercase c) = bool_decide ("/"%char = c).
Proof. by destruct c as [[] [] [] [] [] [] [] []]. Qed.

Lemma ascii_lowercase_idemp s : ascii_lowercase (ascii_lowercase s) = ascii_lowercase s.
Proof.
  induction s as [|c s IH]; [done|]. unfold ascii_lowercase in *. cbn.
  by rewrite IH, to_ascii_lowercase_idemp.
Qed.

Lemma ascii_lowercase_slash s : has_char "/" (ascii_lowercase s) = has_char "/" s.
Proof.
  induction s as [|c s IH]; [done|]. unfold ascii_lowercase in *. cbn [str_map].
  by rewrite !has_char_cons, IH, to_ascii_lowercase_slash.
Qed.

Definition unicode : Unicode := {|
  to_lowercase := ascii_lowercase;
  debug_str s := String "034"%char (s +:+ String "034"%char "");
  to_lowercase_ascii s _ := eq_refl;
  to_lowercase_idemp := ascii_lowercase_idemp;
  to_lowercase_slash := ascii_lowercase_slash;
|}.

Fixpoint pad (n : nat) (s : string) : string :=
  match n with
  | 0 => ""
  | S k => match s with
           | EmptyString => String "000"%char (pad k "")
           | String c s' => String c (pad k s')
           end
  end.

Lemma pad_length n s : String.length (pad n s) = n.
Proof. revert s. induction n as [|n IH]; [done|]. intros [|c s]; cbn; by rewrite IH. Qed.

(** A stand-in digest: the first 32 bytes, zero-padded. *)
Definition digest : Sha256 := {| sha256 := pad 32; sha256_length := pad_length 32 |}.

Definition nibble (n : N) : ascii :=
  if (n <? 10)%N then ascii_of_N (48 + n) else ascii_of_N (87 + n).
Definition unnibble (c : ascii) : option N :=
  let n := byte_of c in
  if (48 <=? n)%N && (n <=? 57)%N then Some (n - 48)%N
  else if (97 <=? n)%N && (n <=? 102)%N then Some (n - 87)%N
  else if (65 <=? n)%N && (n <=? 70)%N then Some (n - 55)%N
  else None.

Fixpoint hex_enc (s : string) : string :=
  match s with
  | EmptyString => ""
  | String c s' => String (nibble (byte_of c / 16)) (String (nibble (byte_of c `mod` 16)) (hex_enc s'))
  end.
Fixpoint hex_dec (s : string) : option string :=
  match s with
  | EmptyString => Some ""
  | String a (String b s') =>
      match unnibble a, unnibble b, hex_dec s' with
      | Some x, Some y, Some r => Some (String (ascii_of_N (16 * x + y)) r)
      | _, _, _ => None
      end
  | _ => None
  end.

Lemma hex_dec_char c :
  match unnibble (nibble (byte_of c / 16)), unnibble (nibble (byte_of c `mod` 16)) with
  | Some x, Some y => ascii_of_N (16 * x + y) = c
  | _, _ => False
  end.
Proof. by destruct c as [[] [] [] [] [] [] [] []]. Qed.

Lemma hex_dec_enc b : hex_dec (hex_enc b) = Some b.
Proof.
  induction b as [|c b IH]; [done|]. cbn [hex_enc hex_dec].
  pose proof (hex_dec_char c) as Hc. repeat case_match; try done; congruence.
Qed.

Definition hex : Hex :=
  {| hex_encode := hex_enc; hex_decode := hex_dec; hex_decode_encode := hex_dec_enc |}.

Definition fingerprint : Fingerprint := λ s, Npos (encode s).

Lemma fingerprint_injective l : @fp_injective_on fingerprint l.
Proof.
  intros a b _ _. unfold key_fingerprint, fingerprint.
  intros [= Hp]. by apply (inj encode).
Qed.
End Concrete.
