(* ===== verification/Errors.v ===== *)
(** * Errors and exit codes ([error.rs]) *)

From S2P Require Export External.
From Stdlib Require Import Ascii.
From Stdlib Require String.

(** The payload of [Io] and [Other] is the rendered message of the wrapped
    foreign error. *)
Inductive Error : Type :=
| Config (m : string)
| InvalidInput (m : string)
| Io (m : string)
| Sql (m : string)
| Conn (m : string)
| PlanBlocked
| Checksum (m : string)
| LockTimeout
| Other (m : string).

#[global] Instance Error_eq_dec : EqDecision Error.
Proof. solve_decision. Defined.

(** Computations of the program: [Result<A>], or a panic. *)
Abbreviation M := (outcome Error).

Definition EXIT_OK : Z := 0.
Definition EXIT_GENERAL : Z := 1.
Definition EXIT_CONFIG : Z := 2.
Definition EXIT_CONN : Z := 3.
Definition EXIT_CHECKSUM : Z := 4.
Definition EXIT_SQL : Z := 5.
Definition EXIT_LOCK_TIMEOUT : Z := 7.
Definition EXIT_INVALID_INPUT : Z := 8.
Definition EXIT_PLAN_BLOCKED : Z := 10.

Definition exit_code (e : Error) : Z :=
  match e with
  | Config _ => EXIT_CONFIG
  | InvalidInput _ => EXIT_INVALID_INPUT
  | PlanBlocked => EXIT_PLAN_BLOCKED
  | Checksum _ => EXIT_CHECKSUM
  | LockTimeout => EXIT_LOCK_TIMEOUT
  | Conn _ => EXIT_CONN
  | Sql _ => EXIT_SQL
  | Io _ => EXIT_GENERAL
  | Other _ => EXIT_GENERAL
  end.

(** [Display for Error]. *)
Definition error_fmt (e : Error) : string :=
  match e with
  | Config m => "configuration error: " +:+ m
  | InvalidInput m => m
  | Io m => m
  | Sql m => m
  | Conn m => m
  | PlanBlocked => "plan is blocked"
  | Checksum m => "checksum integrity error: " +:+ m
  | LockTimeout => "lock timeout"
  | Other m => m
  end.

(** An error never maps to the success code. *)
Lemma exit_code_pos e : (0 < exit_code e)%Z.
Proof. by destruct e. Qed.

#[export] Hint Resolve exit_code_pos : rmig.
