(* ===== verification/SqlIdent.v ===== *)
(** * Identifier sanitisation and the schema DDL ([sql_ident.rs], [apply/schemas.rs])

    [bracket_ident] and [build_create_schema_sql] build T-SQL text out of names
    taken from directory names.  The specification is the T-SQL lexer for
    delimited identifiers and string literals: what the server reads back is
    exactly the name, whatever characters it holds. *)

From S2P Require Export Errors.
From Stdlib Require Import Ascii.
From Stdlib Require String.

Section with_unicode.
Context `{Unicode}.

(** The loop over the characters. *)
Fixpoint scan_component (name s : string) : M unit :=
  match s with
  | EmptyString => Ok tt
  | String c s' =>
      if bool_decide (c = "/"%char) || bool_decide (c = "\"%char)
         || bool_decide (c = "000"%char)
      then Err (InvalidInput
             ("invalid character " +:+ debug_str (String c "")
                +:+ " in path component: " +:+ debug_str name))
      else scan_component name s'
  end.

Definition validate_path_component (name : string) : M unit :=
  if String.eqb name "" then Err (InvalidInput "empty path component")
  else if String.eqb name "." || String.eqb name ".." then
    Err (InvalidInput ("invalid path component: " +:+ debug_str name))
  else scan_component name name.

Definition validate_filename_token (token : string) : M unit :=
  if String.eqb token "" then Err (InvalidInput "empty filename token")
  else if str_all (λ c, is_ascii_alphanumeric c || bool_decide (c = "_"%char)
                        || bool_decide (c = "-"%char)) token
  then Ok tt
  else Err (InvalidInput ("invalid filename token: " +:+ debug_str token)).

Definition bracket_ident (name : string) : M string :=
  validate_path_component name;;
  let len := chars_count name in
  if Nat.ltb 128 len then
    Err (InvalidInput ("identifier too long (" +:+ pretty len
           +:+ " chars, max 128): " +:+ debug_str name))
  else Ok ("[" +:+ replace_char "]" "]]" name +:+ "]").

(** [sql/apply/create_schema.sql] with its two slots filled. *)
Definition create_schema_template (probe bracket_escaped : string) : string :=
  "IF SCHEMA_ID(N'" +:+ probe +:+ "') IS NULL EXEC('CREATE SCHEMA "
    +:+ bracket_escaped +:+ "')".

Definition build_create_schema_sql (name : string) : M string :=
  bracket ← bracket_ident name;
  let probe := replace_char "'" "''" name in
  let bracket_escaped := replace_char "'" "''" bracket in
  Ok (create_schema_template probe bracket_escaped).
End with_unicode.

(** ** The lexer the server applies

    After an opening delimiter, a doubled closing delimiter is one literal
    character and a single one ends the token. Returns the decoded name and the
    text that follows. *)
Fixpoint lex_delimited (q : ascii) (s : string) : option (string * string) :=
  match s with
  | EmptyString => None
  | String a s' =>
      if decide (a = q) then
        match s' with
        | String b s'' =>
            if decide (b = q) then
              match lex_delimited q s'' with
              | Some (n, r) => Some (String q n, r)
              | None => None
              end
            else Some ("", s')
        | EmptyString => Some ("", "")
        end
      else match lex_delimited q s' with
           | Some (n, r) => Some (String a n, r)
           | None => None
           end
  end.

Definition lex_bracketed (s : string) : option (string * string) :=
  match s with
  | String "[" s' => lex_delimited "]" s'
  | _ => None
  end.

Definition lex_literal (s : string) : option (string * string) :=
  match s with
  | String "'" s' => lex_delimited "'" s'
  | _ => None
  end.

(** The text after a token does not continue it. *)
Definition ends_token (q : ascii) (rest : string) : Prop :=
  match rest with String b _ => b ≠ q | EmptyString => True end.

Lemma lex_delimited_doubled q n rest :
  ends_token q rest →
  lex_delimited q (replace_char q (String q (String q "")) n +:+ String q rest)
    = Some (n, rest).
Proof.
  intros Hrest. induction n as [|a n IH]; cbn.
  - rewrite decide_True by done. destruct rest as [|b rest]; [done|].
    by rewrite decide_False by done.
  - case_decide as Ha; cbn.
    + subst a. rewrite !decide_True by done. by rewrite IH.
    + rewrite decide_False by done. by rewrite IH.
Qed.

(** ** Properties *)

Section facts.
Context `{Unicode}.

Definition safe_component (name : string) : Prop :=
  name ≠ "" ∧ name ≠ "." ∧ name ≠ ".." ∧
  has_char "/" name = false ∧ has_char "\" name = false ∧ has_char "000" name = false.

Lemma scan_component_Ok name s :
  scan_component name s = Ok tt ↔
  has_char "/" s = false ∧ has_char "\" s = false ∧ has_char "000" s = false.
Proof.
  induction s as [|c s IH]; [done|]. rewrite !has_char_cons. cbn.
  repeat case_bool_decide; subst; cbn; try done; split; try done;
    by intros (?&?&?).
Qed.

Lemma validate_path_component_Ok name :
  validate_path_component name = Ok tt ↔ safe_component name.
Proof.
  unfold validate_path_component, safe_component.
  destruct (String.eqb_spec name ""); [split; [done|by intros (?&?&?&_)]|].
  destruct (String.eqb_spec name "."); [split; [done|by intros (?&?&?&_)]|].
  destruct (String.eqb_spec name ".."); [split; [done|by intros (?&?&?&_)]|]. cbn [orb].
  rewrite scan_component_Ok. tauto.
Qed.

Lemma bracket_ident_Ok name q :
  bracket_ident name = Ok q ↔
  safe_component name ∧ chars_count name ≤ 128 ∧
  q = "[" +:+ replace_char "]" "]]" name +:+ "]".
Proof.
  unfold bracket_ident. rewrite outcome_bind_Ok.
  destruct (Nat.ltb_spec 128 (chars_count name)) as [Hl|Hl].
  - split; [by intros (?&?&?)|intros (?&?&?); lia].
  - split.
    + intros ([] & Hok%validate_path_component_Ok & [= <-]). done.
    + intros (Hs%validate_path_component_Ok & ? & ->). by exists tt.
Qed.

Lemma lex_bracketed_ident name rest :
  ends_token "]" rest →
  lex_bracketed (("[" +:+ replace_char "]" "]]" name +:+ "]") +:+ rest) = Some (name, rest).
Proof.
  intros. cbn. rewrite str_app_assoc. by apply lex_delimited_doubled.
Qed.

Lemma lex_literal_quoted s rest :
  ends_token "'" rest →
  lex_literal ("'" +:+ replace_char "'" "''" s +:+ String "'" rest) = Some (s, rest).
Proof. intros. by apply lex_delimited_doubled. Qed.

Lemma bind_strip_prefix {B} p s r (f : string → option B) o :
  s = p +:+ r → f r = o → strip_prefix p s ≫= f = o.
Proof. intros -> <-. by rewrite (proj2 (strip_prefix_Some _ _ _) eq_refl). Qed.

(** Whatever name [bracket_ident] accepts, the T-SQL lexer reads the
    produced token back as exactly that name and stops at its end, so no
    character of the name escapes into the surrounding statement. *)
Theorem bracket_ident_roundtrip name q rest :
  bracket_ident name = Ok q → ends_token "]" rest →
  lex_bracketed (q +:+ rest) = Some (name, rest).
Proof.
  intros (_ & _ & ->)%bracket_ident_Ok Hrest. by apply lex_bracketed_ident.
Qed.

End facts.

Section witnesses.
#[local] Existing Instance Concrete.unicode.

Lemma bracket_ident_roundtrip_witness :
  bracket_ident "a]b" = Ok "[a]]b]" ∧
  lex_bracketed ("[a]]b]" +:+ " x") = Some ("a]b", " x").
Proof.
  split; [vm_compute; reflexivity|].
  apply (bracket_ident_roundtrip "a]b" "[a]]b]" " x"); [vm_compute; reflexivity|done].
Defined.

End witnesses.
