(* ===== verification/Action.v ===== *)
(** * Actions, object kinds and compact plan rows

    [domain/action.rs], [domain/kind_code.rs], [apply/kind.rs] (the rank) and
    [export/plan_row.rs]. *)

From S2P Require Export Errors.
From Stdlib Require Import Ascii.
From Stdlib Require String.

(** ** Planned actions *)

Inductive Action : Type :=
| CreateObject
| AdoptExisting
| SkipUnchanged
| UpdateExistingModule
| ReprocessChanged
| ReprocessChangedBlocked
| Fail.

#[global] Instance Action_eq_dec : EqDecision Action.
Proof. solve_decision. Defined.

Inductive SchemaAction : Type := CreateSchema | SchemaExists.

#[global] Instance SchemaAction_eq_dec : EqDecision SchemaAction.
Proof. solve_decision. Defined.

(** [#[repr(u8)]] discriminants. *)
Definition as_repr (a : Action) : N :=
  match a with
  | CreateObject => 0
  | AdoptExisting => 1
  | SkipUnchanged => 2
  | UpdateExistingModule => 3
  | ReprocessChanged => 4
  | ReprocessChangedBlocked => 5
  | Fail => 6
  end.

Definition from_repr (v : N) : option Action :=
  match v with
  | 0 => Some CreateObject
  | 1 => Some AdoptExisting
  | 2 => Some SkipUnchanged
  | 3 => Some UpdateExistingModule
  | 4 => Some ReprocessChanged
  | 5 => Some ReprocessChangedBlocked
  | 6 => Some Fail
  | _ => None
  end%N.

(** [#[serde(rename_all = "snake_case")]]. *)
Definition action_str (a : Action) : string :=
  match a with
  | CreateObject => "create_object"
  | AdoptExisting => "adopt_existing"
  | SkipUnchanged => "skip_unchanged"
  | UpdateExistingModule => "update_existing_module"
  | ReprocessChanged => "reprocess_changed"
  | ReprocessChangedBlocked => "reprocess_changed_blocked"
  | Fail => "fail"
  end.

Lemma from_repr_as_repr a : from_repr (as_repr a) = Some a.
Proof. by destruct a. Qed.

Lemma as_repr_from_repr v a : from_repr v = Some a → as_repr a = v.
Proof.
  unfold from_repr. intros Hv.
  by repeat (case_match; simplify_eq/=).
Qed.

#[global] Instance action_str_inj : Inj (=) (=) action_str.
Proof. intros [] [] H; done. Qed.

(** ** Kinds *)

Definition is_transactional_kind (kind : string) : bool :=
  bool_decide (kind ∈ ["tables"; "indexes"; "types"; "sequences"; "synonyms"]).

Definition KIND_TYPES : N := 1.
Definition KIND_SEQUENCES : N := 2.
Definition KIND_TABLES : N := 3.
Definition KIND_SYNONYMS : N := 4.
Definition KIND_INDEXES : N := 5.
Definition KIND_VIEWS : N := 6.
Definition KIND_FUNCTIONS : N := 7.
Definition KIND_PROCEDURES : N := 8.
Definition KIND_TRIGGERS : N := 9.

(** A [match] on string literals, first arm first. *)
Fixpoint match_str {A} (s : string) (arms : list (string * A)) (default : A) : A :=
  match arms with
  | [] => default
  | (k, v) :: arms' => if String.eqb s k then v else match_str s arms' default
  end.

Definition kind_code (kind : string) : N :=
  match_str kind
    [ ("types", KIND_TYPES); ("sequences", KIND_SEQUENCES); ("tables", KIND_TABLES);
      ("synonyms", KIND_SYNONYMS); ("indexes", KIND_INDEXES); ("views", KIND_VIEWS);
      ("functions", KIND_FUNCTIONS); ("procedures", KIND_PROCEDURES);
      ("triggers", KIND_TRIGGERS) ] 0%N.

Definition is_module_kind_code (code : N) : bool :=
  (code =? KIND_VIEWS)%N || (code =? KIND_FUNCTIONS)%N
  || (code =? KIND_PROCEDURES)%N || (code =? KIND_TRIGGERS)%N.

(** [apply/kind.rs]: the order objects are applied in. *)
Definition kind_rank (kind : string) : Z :=
  match_str kind
    [ ("types", 0); ("sequences", 1); ("tables", 2); ("synonyms", 3); ("indexes", 4);
      ("views", 5); ("functions", 6); ("procedures", 7); ("triggers", 8) ]%Z 99%Z.

(** The nine kinds the scanner admits. *)
Definition KINDS : list string :=
  ["tables"; "views"; "procedures"; "functions"; "triggers"; "indexes"; "types";
   "sequences"; "synonyms"].

Lemma match_str_notin {A} s (arms : list (string * A)) d :
  s ∉ arms.*1 → match_str s arms d = d.
Proof.
  induction arms as [|[k v] arms IH]; [done|]. cbn.
  intros [Hk Hs]%not_elem_of_cons. destruct (String.eqb_spec s k); [done|auto].
Qed.

(** Every admitted kind is either a module or transactional, never both. *)
Lemma kinds_partition kind :
  kind ∈ KINDS → is_transactional_kind kind = negb (is_module_kind_code (kind_code kind)).
Proof.
  unfold KINDS. rewrite !elem_of_cons, elem_of_nil.
  intros H. by repeat destruct H as [->|H].
Qed.

Lemma kind_code_pos kind : kind ∈ KINDS ↔ kind_code kind ≠ 0%N.
Proof.
  split.
  - unfold KINDS. rewrite !elem_of_cons, elem_of_nil.
    intros H. by repeat destruct H as [->|H].
  - intros Hc. destruct (decide (kind ∈ KINDS)) as [|Hn]; [done|]. destruct Hc.
    apply match_str_notin. unfold KINDS in Hn. cbn. set_solver.
Qed.

(** The dense codes agree with the apply ranks on the nine kinds. *)
Lemma kind_rank_code kind : kind ∈ KINDS → kind_rank kind = (Z.of_N (kind_code kind) - 1)%Z.
Proof.
  unfold KINDS. rewrite !elem_of_cons, elem_of_nil.
  intros H. by repeat destruct H as [->|H].
Qed.

(** ** Plan rows *)

Record PlanRow := mk_PlanRow {
  pr_action : N;
  pr_flags : N;
  pr_checksum : string;
}.
#[global] Instance PlanRow_eta : Settable PlanRow :=
  λ r, mk_PlanRow (pr_action r) (pr_flags r) (pr_checksum r).
#[global] Instance PlanRow_eq_dec : EqDecision PlanRow.
Proof. solve_decision. Defined.

Definition PLAN_FLAG_EXISTS : N := 1.

(** [x &= !flag] on a [u8]. *)
Definition u8_clear (x flag : N) : N := N.land x (N.lxor 255 flag).

Definition planned_action (r : PlanRow) : Action := default Fail (from_repr (pr_action r)).

Definition set_planned_action (a : Action) (r : PlanRow) : PlanRow :=
  r <| pr_action := as_repr a |>.

Definition row_exists (r : PlanRow) : bool :=
  negb (N.land (pr_flags r) PLAN_FLAG_EXISTS =? 0)%N.

Definition set_row_exists (e : bool) (r : PlanRow) : PlanRow :=
  if e then r <| pr_flags ::= λ f, N.lor f PLAN_FLAG_EXISTS |>
  else r <| pr_flags ::= λ f, u8_clear f PLAN_FLAG_EXISTS |>.

(** Setting or clearing bit 0 of a byte is read back by testing it. *)
Lemma flag_test_set f : (N.land (N.lor f 1) 1 =? 0)%N = false.
Proof.
  apply N.eqb_neq. intros H. apply (f_equal (λ n, N.testbit n 0)) in H.
  by rewrite N.land_spec, N.lor_spec, N.bits_0, orb_true_r in H.
Qed.

Lemma flag_test_clear f : (N.land (u8_clear f 1) 1 =? 0)%N = true.
Proof.
  apply N.eqb_eq. apply N.bits_inj. intros i. unfold u8_clear.
  rewrite !N.land_spec, N.bits_0.
  destruct i as [|p]; [by rewrite andb_false_r|].
  change (N.testbit 1 (N.pos p)) with (N.testbit 1 (N.pos p)).
  rewrite (N.bits_above_log2 1) by (cbn; lia). by rewrite andb_false_r.
Qed.

Lemma planned_action_set a r : planned_action (set_planned_action a r) = a.
Proof. unfold planned_action, set_planned_action. cbn. by rewrite from_repr_as_repr. Qed.

Lemma row_exists_set e r : row_exists (set_row_exists e r) = e.
Proof.
  unfold row_exists, set_row_exists. destruct e; cbn.
  - by rewrite flag_test_set.
  - by rewrite flag_test_clear.
Qed.

Lemma planned_action_set_exists e r :
  planned_action (set_row_exists e r) = planned_action r.
Proof. by destruct e. Qed.

Lemma row_exists_set_action a r : row_exists (set_planned_action a r) = row_exists r.
Proof. done. Qed.

Create Rewrite HintDb rmig_row.
#[export] Hint Rewrite planned_action_set row_exists_set planned_action_set_exists
  row_exists_set_action : rmig_row.
