(* ===== verification/Key.v ===== *)
(** * Object keys, script keys and catalog-relative paths

    [domain/key.rs] and [domain/layout_path.rs].  A [SharedStr] is compared,
    hashed and printed by its content, so keys are strings here. *)

From S2P Require Export Action.
From Stdlib Require Import Ascii.
From Stdlib Require String.

Abbreviation object_key := string (only parsing).
Abbreviation script_key := string (only parsing).

(** [key_part(s, i)]: the [i]-th slash-separated segment, or the empty string. *)
Definition key_part (s : string) (i : nat) : string := default "" (split_on "/" s !! i).

Definition schema_part (k : object_key) : string := key_part k 0.
Definition kind_part (k : object_key) : string := key_part k 1.
Definition name_part (k : object_key) : string := key_part k 2.

(** [ScriptKey::from_path]. *)
Definition script_key_from_path (path : string) : script_key := replace_char "\" "/" path.

Section with_unicode.
Context `{Unicode}.

(** [ObjectKey::new]. *)
Definition object_key_new (schema kind name : string) : object_key :=
  to_lowercase schema +:+ "/" +:+ to_lowercase kind +:+ "/" +:+ to_lowercase name.

(** [ObjectKey::parse]. *)
Definition object_key_parse (path : string) : option object_key :=
  let path := trim_end_matches ".sql" path in
  let parts := split_on "/" path in
  let n := length parts in
  if Nat.ltb n 4 then None
  else
    name ← last parts;
    kind ← parts !! (n - 2);
    schema ← parts !! (n - 3);
    Some (object_key_new schema kind name).
End with_unicode.

(** [object_path_for_entry]: the path with the database as its first segment. *)
Definition object_path_for_entry (database : string) (script_path : string) : string :=
  if String.eqb database "" then script_path
  else
    let prefix := database +:+ "/" in
    if starts_with prefix script_path then script_path
    else database +:+ "/" +:+ trim_start_char "/" script_path.

(** [with_database_prefix]. *)
Definition with_database_prefix (database path : string) : string :=
  object_path_for_entry database (replace_char "\" "/" path).

(** [path_lookup_candidates]. *)
Definition path_lookup_candidates (database path : string) : list string :=
  let out := [path] in
  if String.eqb database "" then out
  else
    let prefixed := with_database_prefix database path in
    let out := if String.eqb prefixed path then out else out ++ [prefixed] in
    let prefix := database +:+ "/" in
    if starts_with prefix path
    then out ++ [str_drop (String.length prefix) path] else out.

(** ** Facts *)

Section facts.
Context `{Unicode}.

Lemma to_lowercase_no_slash s :
  has_char "/" s = false → has_char "/" (to_lowercase s) = false.
Proof. by rewrite to_lowercase_slash. Qed.

(** Components without a slash are the segments of the key. *)
Lemma split_object_key schema kind name :
  has_char "/" schema = false → has_char "/" kind = false → has_char "/" name = false →
  split_on "/" (object_key_new schema kind name) =
    [to_lowercase schema; to_lowercase kind; to_lowercase name].
Proof.
  intros Hs Hk Hn. unfold object_key_new.
  change (?a +:+ "/" +:+ ?b) with (a +:+ String "/" b).
  rewrite split_on_app by auto using to_lowercase_no_slash.
  change (?a +:+ "/" +:+ ?b) with (a +:+ String "/" b).
  rewrite split_on_app by auto using to_lowercase_no_slash.
  by rewrite split_on_single by auto using to_lowercase_no_slash.
Qed.

Lemma object_key_parts schema kind name :
  has_char "/" schema = false → has_char "/" kind = false → has_char "/" name = false →
  let k := object_key_new schema kind name in
  schema_part k = to_lowercase schema ∧ kind_part k = to_lowercase kind ∧
  name_part k = to_lowercase name.
Proof.
  intros Hs Hk Hn k. unfold schema_part, kind_part, name_part, key_part, k.
  by rewrite split_object_key.
Qed.

(** Keys are case-insensitive: lower-casing a component first changes nothing. *)
Lemma object_key_new_lower schema kind name :
  object_key_new (to_lowercase schema) (to_lowercase kind) (to_lowercase name) =
  object_key_new schema kind name.
Proof. unfold object_key_new. by rewrite !to_lowercase_idemp. Qed.
End facts.

Lemma trim_start_char_id c s :
  (∀ s', s ≠ String c s') → trim_start_char c s = s.
Proof.
  destruct s as [|a s]; [done|]. intros Hs. cbn.
  rewrite decide_False; [done|]. intros ->. by destruct (Hs s).
Qed.

Lemma object_path_prefixed database path :
  starts_with (database +:+ "/") path = true → object_path_for_entry database path = path.
Proof. unfold object_path_for_entry. intros ->. by destruct (String.eqb_spec database ""). Qed.

(** The prefixed path does start with the database (when there is one). *)
Lemma object_path_starts database path :
  database ≠ "" → starts_with (database +:+ "/") (object_path_for_entry database path) = true.
Proof.
  intros Hd. unfold object_path_for_entry.
  destruct (String.eqb_spec database ""); [done|]. case_match eqn:Hp; [done|].
  change (database +:+ "/" +:+ ?x) with (database +:+ ("/" +:+ x)).
  rewrite <- str_app_assoc. apply starts_with_app.
Qed.

Lemma object_path_idemp database path :
  object_path_for_entry database (object_path_for_entry database path) =
  object_path_for_entry database path.
Proof.
  destruct (String.eqb_spec database "") as [->|Hd]; [done|].
  by apply object_path_prefixed, object_path_starts.
Qed.

(** The candidate list always holds the database-qualified spelling. *)
Lemma candidates_prefixed database path :
  database ≠ "" → with_database_prefix database path ∈ path_lookup_candidates database path.
Proof.
  intros Hd. unfold path_lookup_candidates. destruct (String.eqb_spec database ""); [done|].
  destruct (String.eqb_spec (with_database_prefix database path) path) as [->|];
    case_match; rewrite ?elem_of_app; set_solver.
Qed.
