(* ===== verification/Arena.v ===== *)
(** * The string arena

    [domain/arena/{mod,builder,slice}.rs] and [domain/str_off.rs]: one byte
    buffer, and an index from each registered string to its offset. *)

From S2P Require Export Key.
From Stdlib Require Import Ascii.
From Stdlib Require String.

(** [StrOff(off, len)]. *)
Record StrOff := mk_StrOff { so_off : N; so_len : N }.
#[global] Instance StrOff_eq_dec : EqDecision StrOff.
Proof. solve_decision. Defined.

Definition StrOff_EMPTY : StrOff := mk_StrOff 0 0.

(** [StringArenaBuilder] and the sealed [StringArena] hold the same two fields. *)
Record StringArena := mk_Arena {
  ar_buf : string;
  ar_index : gmap string N;
}.

Definition builder_new : StringArena := mk_Arena "" ∅.

(** [StringArenaBuilder::register]. *)
Definition register (s : string) (b : StringArena) : StringArena :=
  if String.eqb s "" then b
  else match ar_index b !! s with
  | Some _ => b
  | None =>
      let off := as_u32 (String.length (ar_buf b)) in
      mk_Arena (ar_buf b +:+ s) (<[s := off]> (ar_index b))
  end.

Definition register_all (l : list string) (b : StringArena) : StringArena :=
  foldl (λ b s, register s b) b l.

(** [StringArenaBuilder::finish]. *)
Definition finish (b : StringArena) : StringArena := b.

(** [StringArena::offset_len]: panics on a string that was never registered. *)
Definition offset_len (a : StringArena) (s : string) : M (N * N) :=
  if String.eqb s "" then Ok (0%N, 0%N)
  else off ← or_panic (ar_index a !! s);
       Ok (off, as_u32 (String.length s)).

(** [StrOff::from_arena]. *)
Definition from_arena (a : StringArena) (s : string) : M StrOff :=
  '(off, len) ← offset_len a s; Ok (mk_StrOff off len).

(** [&buf[start..end]] with its bounds check. *)
Definition slice_bytes (a : StringArena) (off len : N) : M string :=
  if (len =? 0)%N then Ok ""
  else
    let start := N.to_nat off in
    let stop := start + N.to_nat len in
    if Nat.leb stop (String.length (ar_buf a))
    then Ok (str_take (N.to_nat len) (str_drop start (ar_buf a)))
    else Panic.

(** [StringArena::str_at]: the slice must be UTF-8. *)
Definition str_at (a : StringArena) (off len : N) : M string :=
  s ← slice_bytes a off len;
  if valid_utf8 s then Ok s else Panic.

(** [StringArena::shared_at] builds a lazy slice; its content is [str_at]. *)
Definition shared_at (a : StringArena) (off len : N) : M string := str_at a off len.

(** [StringArena::get]. *)
Definition arena_get (a : StringArena) (s : string) : M string :=
  if String.eqb s "" then Ok ""
  else '(off, len) ← offset_len a s; shared_at a off len.

(** ** Invariant: the index points at its strings *)

Definition arena_wf (a : StringArena) : Prop :=
  (N.of_nat (String.length (ar_buf a)) < u32_size)%N ∧
  map_Forall (λ s off, s ≠ "" ∧ ∃ pre post,
    ar_buf a = pre +:+ s +:+ post ∧ off = N.of_nat (String.length pre)) (ar_index a).

Lemma arena_wf_new : arena_wf builder_new.
Proof. split; [done|]. apply map_Forall_empty. Qed.

Lemma register_wf s b :
  arena_wf b → (N.of_nat (String.length (ar_buf b) + String.length s) < u32_size)%N →
  arena_wf (register s b).
Proof.
  intros [Hlen Hix] Hs. unfold register.
  destruct (String.eqb_spec s ""); [done|].
  destruct (ar_index b !! s) eqn:Hlk; [done|]. split; cbn.
  - by rewrite str_length_app.
  - apply map_Forall_insert_2.
    + split; [done|]. exists (ar_buf b), "". rewrite str_app_nil_r.
      rewrite as_u32_small by done. done.
    + intros t off Ht. destruct (Hix t off Ht) as (Hne & pre & post & -> & ->).
      split; [done|]. exists pre, (post +:+ s). by rewrite !str_app_assoc.
Qed.

(** Total bytes a list of strings can add to the buffer. *)
Fixpoint total_len (l : list string) : nat :=
  match l with [] => 0 | s :: l' => String.length s + total_len l' end.

Lemma register_buf_length s b :
  String.length (ar_buf (register s b)) ≤ String.length (ar_buf b) + String.length s.
Proof.
  unfold register. case_match; [lia|]. case_match; cbn; [lia|]. rewrite str_length_app. lia.
Qed.

Lemma register_all_wf l b :
  arena_wf b → (N.of_nat (String.length (ar_buf b) + total_len l) < u32_size)%N →
  arena_wf (register_all l b).
Proof.
  revert b. induction l as [|s l IH]; intros b Hb Hl; [done|].
  cbn [total_len] in Hl. cbn.
  apply IH.
  - apply register_wf; [done|]. lia.
  - pose proof (register_buf_length s b). lia.
Qed.

Lemma register_mono s t b : is_Some (ar_index b !! t) → is_Some (ar_index (register s b) !! t).
Proof.
  intros Ht. unfold register. case_match; [done|]. case_match; [done|]. cbn.
  apply lookup_insert_is_Some. destruct (decide (s = t)); [by left|by right].
Qed.

Lemma register_all_mono l t b :
  is_Some (ar_index b !! t) → is_Some (ar_index (register_all l b) !! t).
Proof. revert b. induction l as [|s l IH]; intros b Hb; cbn; [done|]. by apply IH, register_mono. Qed.

Lemma register_all_complete l s b :
  s ∈ l → s ≠ "" → is_Some (ar_index (register_all l b) !! s).
Proof.
  revert b. induction l as [|t l IH]; intros b Hs Hne; [set_solver|].
  apply elem_of_cons in Hs as [->|Hs]; cbn; [|by apply IH].
  apply register_all_mono. unfold register.
  destruct (String.eqb_spec t ""); [done|].
  destruct (ar_index b !! t) eqn:Hlk; [done|]. cbn. by rewrite lookup_insert_eq.
Qed.

(** Reading back what a well-formed index says. *)
Lemma offset_len_str_at a s :
  arena_wf a → valid_utf8 s = true → (s = "" ∨ is_Some (ar_index a !! s)) →
  ∃ off len, offset_len a s = Ok (off, len) ∧ str_at a off len = Ok s
             ∧ (len = 0%N ↔ s = "").
Proof.
  intros [Hlen Hix] Hv Hs. unfold offset_len.
  destruct (String.eqb_spec s "") as [->|Hne]; [by exists 0%N, 0%N|].
  destruct Hs as [|[off Hoff]]; [done|]. rewrite Hoff. cbn.
  destruct (Hix s off Hoff) as (_ & pre & post & Hbuf & ->).
  assert (String.length s <= String.length (ar_buf a)) as Hsl
    by (rewrite Hbuf, !str_length_app; lia).
  exists (N.of_nat (String.length pre)), (N.of_nat (String.length s)).
  rewrite as_u32_small by lia. split; [done|].
  assert (String.length s ≠ 0) as Hl0 by (by destruct s).
  split; [|split; [intros ?; lia|done]]. unfold str_at, slice_bytes.
  rewrite (proj2 (N.eqb_neq _ _)) by lia. rewrite !Nat2N.id.
  rewrite (proj2 (Nat.leb_le _ _)) by (rewrite Hbuf, !str_length_app; lia).
  rewrite Hbuf, str_drop_app, str_take_app. cbn. by rewrite Hv.
Qed.

(** Interning is lossless: after registering any list of strings whose total
    size stays below the 32-bit offset range, every registered string is found
    and the offset it is given reads back exactly that string. *)
Theorem arena_roundtrip l s :
  (N.of_nat (total_len l) < u32_size)%N → s ∈ l → valid_utf8 s = true →
  ∃ o, from_arena (finish (register_all l builder_new)) s = Ok o ∧
       str_at (finish (register_all l builder_new)) (so_off o) (so_len o) = Ok s.
Proof.
  intros Hl Hs Hv. unfold finish, from_arena.
  destruct (offset_len_str_at (register_all l builder_new) s) as (off & len & -> & Hat & _).
  - by apply register_all_wf; [apply arena_wf_new|].
  - done.
  - destruct (decide (s = "")); [by left|right]. by apply register_all_complete.
  - exists (mk_StrOff off len). done.
Qed.

Lemma arena_roundtrip_witness :
  ∃ o, from_arena (finish (register_all ["dbo"; "tables"; "dbo"] builder_new)) "tables" = Ok o ∧
       str_at (finish (register_all ["dbo"; "tables"; "dbo"] builder_new)) (so_off o) (so_len o)
         = Ok "tables".
Proof.
  apply (arena_roundtrip ["dbo"; "tables"; "dbo"] "tables"); [reflexivity| |reflexivity].
  apply list_elem_of_In. cbn. auto.
Defined.

(** A buffer that has reached [2^32] bytes hands out a wrapped offset with no
    error: the new string's offset is 0, where other bytes live. *)
Lemma register_wraps (b : StringArena) s :
  s ≠ "" → ar_index b !! s = None →
  N.of_nat (String.length (ar_buf b)) = u32_size →
  offset_len (register s b) s = Ok (0%N, as_u32 (String.length s)).
Proof.
  intros Hne Hlk Hlen. unfold register, offset_len.
  destruct (String.eqb_spec s ""); [done|]. rewrite Hlk. cbn.
  rewrite lookup_insert_eq. cbn. unfold as_u32 at 1. by rewrite Hlen.
Qed.
