(* ===== verification/SharedStr.v ===== *)
(** * Shared strings ([domain/shared/])

    A [SharedStr] is empty, a slice of a byte buffer, or owned text.  The rest of
    the development writes strings for them: what this file proves is that every
    operation the program has on shared strings sees the content only. *)

From S2P Require Export Arena Key.
From Stdlib Require Import Ascii.
From Stdlib Require String.

(** ** The representation ([shared/mod.rs]) *)

Inductive SharedStr : Type :=
| Empty
| Slice (buf : string) (start len : N)
| Owned (s : string).

Definition empty_str : SharedStr := Empty.

Definition share (s : string) : SharedStr := if String.eqb s "" then empty_str else Owned s.

Definition from_arena_slice (buf : string) (start len : N) : SharedStr :=
  if (len =? 0)%N then empty_str else Slice buf start len.

(** The bytes: [&buf[start..end]] panics outside the buffer. *)
Definition hash_bytes (s : SharedStr) : M string :=
  match s with
  | Empty => Ok ""
  | Slice buf start len =>
      let start := N.to_nat start in
      let stop := start + N.to_nat len in
      if Nat.leb stop (String.length buf) then Ok (str_take (N.to_nat len) (str_drop start buf))
      else Panic
  | Owned s => Ok s
  end.

Definition as_str (s : SharedStr) : M string :=
  match s with
  | Slice _ _ _ => b ← hash_bytes s; if valid_utf8 b then Ok b else Panic
  | _ => hash_bytes s
  end.

Definition is_empty (s : SharedStr) : M bool := t ← as_str s; Ok (String.eqb t "").

Definition fingerprint_of `{Fingerprint} (s : SharedStr) : M N := key_fingerprint <$> hash_bytes s.

(** [PartialEq for SharedStr] ([shared/traits.rs]). *)
Definition shared_eq (a b : SharedStr) : M bool :=
  x ← as_str a; y ← as_str b; Ok (String.eqb x y).

(** ** Sub-slices ([shared/subslice.rs]) *)

(** [str::find]: the byte offset of the first occurrence. *)
Fixpoint str_find (p s : string) : option nat :=
  if starts_with p s then Some 0
  else match s with
       | EmptyString => None
       | String _ s' => S <$> str_find p s'
       end.

Definition u32_saturating_add (a b : N) : N := N.min (u32_size - 1) (a + b).

Definition subslice_of (base : SharedStr) (part : string) : M SharedStr :=
  if String.eqb part "" then Ok empty_str
  else
    full ← as_str base;
    match str_find part full with
    | None => Ok (share part)
    | Some off =>
        Ok match base with
           | Slice buf start _ =>
               Slice buf (u32_saturating_add start (as_u32 off)) (as_u32 (String.length part))
           | Owned s => Slice s (as_u32 off) (as_u32 (String.length part))
           | Empty => share part
           end
    end.

(** [ObjectKey::schema_shared], [kind_shared], [name_shared] ([domain/key.rs]). *)
Definition part_shared (index : nat) (key : SharedStr) : M SharedStr :=
  k ← as_str key; subslice_of key (key_part k index).
Definition schema_shared : SharedStr → M SharedStr := part_shared 0.
Definition kind_shared : SharedStr → M SharedStr := part_shared 1.
Definition name_shared : SharedStr → M SharedStr := part_shared 2.

(** ** Facts *)

(** The buffer is addressable with 32-bit offsets, as the arena's is. *)
Definition addressable (s : SharedStr) : Prop :=
  match s with
  | Empty => True
  | Slice buf _ _ | Owned buf => (N.of_nat (String.length buf) < u32_size)%N
  end.

Definition buffer_of (s : SharedStr) : string :=
  match s with Empty => "" | Slice buf _ _ | Owned buf => buf end.

Lemma str_find_Some p s n : str_find p s = Some n →
  ∃ a b, s = a +:+ p +:+ b ∧ String.length a = n.
Proof.
  revert n. induction s as [|c s IH]; intros n; cbn [str_find].
  - destruct (starts_with p "") eqn:E; [|done]. intros [= <-].
    apply starts_with_spec in E as [r Hr]. by exists "", r.
  - destruct (starts_with p (String c s)) eqn:E.
    + intros [= <-]. apply starts_with_spec in E as [r Hr]. by exists "", r.
    + destruct (str_find p s) as [k|]; [|done]. intros [= <-].
      destruct (IH k eq_refl) as (a & b & -> & <-). by exists (String c a), b.
Qed.

Lemma str_find_middle a p b : is_Some (str_find p (a +:+ p +:+ b)).
Proof.
  induction a as [|c a IH]; cbn [String.append].
  - destruct p, b; cbn [str_find String.append]; rewrite ?(starts_with_app (String _ _)); try by eexists.
    all: match goal with |- context [starts_with ?p ?s] =>
           replace (starts_with p s) with true; [by eexists|symmetry] end;
      apply starts_with_spec; eexists; done.
  - cbn [str_find]. destruct (starts_with _ _); [by eexists|].
    destruct IH as [n ->]. by eexists.
Qed.

(** A slice that lies in its buffer reads the bytes it was cut from. *)
Lemma slice_reads a p b : (N.of_nat (String.length (a +:+ p +:+ b)) < u32_size)%N →
  hash_bytes (Slice (a +:+ p +:+ b) (N.of_nat (String.length a)) (N.of_nat (String.length p))) = Ok p.
Proof.
  intros _. cbn [hash_bytes]. rewrite !Nat2N.id.
  rewrite (proj2 (Nat.leb_le _ _)) by (rewrite !str_length_app; lia).
  by rewrite str_drop_app, str_take_app.
Qed.

Lemma as_str_hash_bytes s t : as_str s = Ok t → hash_bytes s = Ok t.
Proof.
  destruct s as [|buf st ln|o]; [done| |done]. cbn [as_str].
  destruct (hash_bytes _) as [b| |]; [|done|done]. cbn. by destruct (valid_utf8 b).
Qed.

(** The content of a slice, in its place in the buffer. *)
Lemma slice_content buf start len t : hash_bytes (Slice buf start len) = Ok t →
  ∃ pre post, buf = pre +:+ t +:+ post ∧ start = N.of_nat (String.length pre)
    ∧ len = N.of_nat (String.length t).
Proof.
  cbn [hash_bytes]. destruct (Nat.leb_spec (N.to_nat start + N.to_nat len) (String.length buf)) as [Hl|];
    [|done]. intros [= <-].
  exists (str_take (N.to_nat start) buf), (str_drop (N.to_nat len) (str_drop (N.to_nat start) buf)).
  rewrite str_take_drop, str_take_drop. split; [done|].
  assert (∀ n s, n ≤ String.length s → String.length (str_take n s) = n) as Htake.
  { clear. induction n as [|n IH]; intros [|c s] H; cbn in *; [done..|lia|]. by rewrite IH by lia. }
  assert (∀ n s, String.length (str_drop n s) = String.length s - n) as Hdrop.
  { clear. induction n as [|n IH]; intros [|c s]; cbn; [done..|]. by rewrite IH. }
  rewrite !Htake by (rewrite ?Hdrop; lia). lia.
Qed.

Lemma share_as_str s : as_str (share s) = Ok s.
Proof. unfold share. by destruct (String.eqb_spec s "") as [->|]. Qed.

(** A piece at [a] of a buffer, as the slice [subslice_of] makes for it. *)
Lemma slice_as_str a p b start len :
  (N.of_nat (String.length (a +:+ p +:+ b)) < u32_size)%N → valid_utf8 p = true →
  start = N.of_nat (String.length a) → len = N.of_nat (String.length p) →
  as_str (Slice (a +:+ p +:+ b) start len) = Ok p.
Proof. intros Hl Hv -> ->. cbn [as_str]. rewrite slice_reads by done. cbn. by rewrite Hv. Qed.

(** A piece of the text of [base] reads back as that piece, and it is a slice of
    the buffer [base] already holds; a piece that is not there is shared on its own. *)
Lemma subslice_reads base full part :
  as_str base = Ok full → addressable base → valid_utf8 part = true →
  ∃ r, subslice_of base part = Ok r ∧ as_str r = Ok part ∧
    ((∃ a b, full = a +:+ part +:+ b) → part ≠ "" → addressable r ∧ buffer_of r = buffer_of base).
Proof.
  intros Hb Ha Hv. unfold subslice_of.
  destruct (String.eqb_spec part "") as [->|Hne]; [by exists Empty|].
  rewrite Hb. cbn [mbind outcome_bind].
  destruct (str_find part full) as [off|] eqn:Hf.
  - apply str_find_Some in Hf as (a & b & -> & <-). destruct base as [|buf st ln|o].
    + injection Hb as Hb. destruct a; [|done]. by destruct part.
    + apply as_str_hash_bytes, slice_content in Hb as (pre & post & -> & -> & _).
      cbn [addressable] in Ha. rewrite !str_length_app in Ha. eexists. split; [done|].
      rewrite !as_u32_small by lia. unfold u32_saturating_add. unfold u32_size in *.
      split; [|intros _ _; split; [cbn; rewrite !str_length_app; unfold u32_size; lia|done]].
      replace (pre +:+ (a +:+ part +:+ b) +:+ post)
        with ((pre +:+ a) +:+ part +:+ (b +:+ post)) by by rewrite !str_app_assoc.
      apply slice_as_str; rewrite ?str_length_app; unfold u32_size; [lia|done|lia|done].
    + injection Hb as ->. cbn [addressable] in Ha. eexists. split; [done|].
      split; [|done]. rewrite !str_length_app in Ha.
      apply slice_as_str; rewrite ?str_length_app, ?as_u32_small by lia; done || lia.
  - exists (share part). split; [done|]. split; [apply share_as_str|].
    intros (a & b & ->) _. by destruct (str_find_middle a part b) as [? E']; rewrite Hf in E'.
Qed.

(** Cutting valid text at an ASCII byte leaves valid text on both sides. *)
Lemma valid_utf8_bytes_cut l r x : (x < 128)%N →
  valid_utf8_bytes (l ++ x :: r) = true → valid_utf8_bytes l = true ∧ valid_utf8_bytes r = true.
Proof.
  intros Hx. remember (length l) as n eqn:Hn. assert (length l ≤ n) as Hle by lia. clear Hn.
  assert ((128 <=? x)%N = false ∧ (144 <=? x)%N = false ∧ (160 <=? x)%N = false) as (H1 & H2 & H3)
    by (rewrite !N.leb_gt; lia).
  assert (is_cont x = false) as Hc by (unfold is_cont; by rewrite H1).
  revert l Hle. induction n as [|n IH]; intros [|a l1]; cbn [length app]; try lia;
    try (cbn; by destruct (N.ltb_spec x 128); [|lia]).
  intros Hle. cbn [valid_utf8_bytes].
  destruct (a <? 128)%N; [apply IH; lia|].
  destruct l1 as [|b [|c [|d l4]]]; cbn [app length] in *;
    rewrite ?Hc, ?H1, ?H2, ?H3; cbn [andb];
    repeat (case_match; cbn [andb]; rewrite ?andb_false_r; try done);
    rewrite ?andb_true_iff; intros; destruct_and?; try done;
    match goal with
    | H : valid_utf8_bytes (?l ++ _) = true |- _ => destruct (IH l) as [? ?]
    | H : valid_utf8_bytes (?c :: ?l ++ _) = true |- _ => destruct (IH (c :: l)) as [? ?]
    | H : valid_utf8_bytes (?c :: ?d :: ?l ++ _) = true |- _ => destruct (IH (c :: d :: l)) as [? ?]
    | H : valid_utf8_bytes (x :: _) = true |- _ => destruct (IH []) as [? ?]
    | H : valid_utf8_bytes (?c :: x :: _) = true |- _ => destruct (IH [c]) as [? ?]
    end; cbn [length] in *; try lia; repeat split; done.
Qed.

Lemma valid_utf8_cut a b (c : ascii) : (byte_of c < 128)%N →
  valid_utf8 (a +:+ String c b) = true → valid_utf8 a = true ∧ valid_utf8 b = true.
Proof.
  intros Hc. unfold valid_utf8. rewrite bytes_of_app. by apply valid_utf8_bytes_cut.
Qed.

Lemma split_on_valid (c : ascii) s : (byte_of c < 128)%N → valid_utf8 s = true →
  Forall (λ w, valid_utf8 w = true) (split_on c s).
Proof.
  intros Hc. rewrite <- (join_split c s) at 1. generalize (split_on_nonnil c s).
  induction (split_on c s) as [|w [|w' ws] IH]; [done|by repeat constructor|].
  intros _ Hv. rewrite str_join_cons in Hv by done.
  change (String c "" +:+ ?x) with (String c x) in Hv.
  destruct (valid_utf8_cut _ _ _ Hc Hv) as [Hw Hr]. constructor; [done|]. by apply IH.
Qed.

(** The three parts of an object key, taken as sub-slices, read as the segments
    that [schema_part], [kind_part] and [name_part] compute on the text. *)
Lemma part_shared_spec key k i :
  as_str key = Ok k → addressable key → valid_utf8 k = true →
  ∃ r, part_shared i key = Ok r ∧ as_str r = Ok (key_part k i).
Proof.
  intros Hk Ha Hv. unfold part_shared. rewrite Hk. cbn [mbind outcome_bind].
  destruct (subslice_reads key k (key_part k i) Hk Ha) as (r & ? & ? & _); [|eauto].
  unfold key_part. destruct (split_on "/" k !! i) as [w|] eqn:E; [|done]. cbn.
  assert (byte_of "/" < 128)%N as Hs by done.
  pose proof (split_on_valid "/" k Hs Hv) as Hall. rewrite Forall_lookup in Hall. eauto.
Qed.


(** ** A slice of a key on the arena *)

Module SharedStrSample.
Definition base : SharedStr := from_arena_slice "dbo/tables/t1sales" 0 13.

Example kind_is_a_slice : kind_shared base = Ok (Slice "dbo/tables/t1sales" 4 6).
Proof. vm_compute. reflexivity. Qed.

(** A part that occurs earlier in the key is cut from the earlier place. *)
Example same_text_elsewhere :
  name_shared (share "t/views/t") = Ok (Slice "t/views/t" 0 1).
Proof. vm_compute. reflexivity. Qed.

End SharedStrSample.
