(* ===== verification/Workspace.v ===== *)
(** * The workspace: dense object rows and their side tables

    [domain/workspace/], [domain/object/], [domain/script.rs],
    [domain/script_resolve/], [domain/databases.rs] and [domain/arena_resolve.rs].
    [Workspace] is one record: the hot columns, then the fields of
    [WorkspaceCold], which the code reaches through [Deref].  Ids of rows and
    scripts are one-based [u32]s and map keys; dense indices are [nat]. *)

From S2P Require Export Key Arena.
From Stdlib Require Import Ascii.
From Stdlib Require String.

Abbreviation digest := string (only parsing).
Definition zero_digest : digest := of_bytes (replicate 32 0%N).
#[global] Arguments zero_digest : simpl never.

(** ** Rows *)

Record ObjectEntry := mk_ObjectEntry {
  oe_checksum : digest;
  oe_key_off : StrOff;
  oe_script_id : N;
  oe_db_id : N;
  oe_flags : N;
}.
#[global] Instance ObjectEntry_eta : Settable ObjectEntry := λ r,
  mk_ObjectEntry (oe_checksum r) (oe_key_off r) (oe_script_id r) (oe_db_id r) (oe_flags r).
#[global] Instance ObjectEntry_eq_dec : EqDecision ObjectEntry.
Proof. solve_decision. Defined.

Definition OBJECT_FLAG_DB_EXISTS : N := 1.

Definition with_staging_key (key : object_key) (script_id : N) (checksum : digest)
    (exists_ : bool) (db_id : N) : object_key * ObjectEntry :=
  (key, mk_ObjectEntry checksum StrOff_EMPTY script_id db_id
          (if exists_ then OBJECT_FLAG_DB_EXISTS else 0)).

Definition db_exists (o : ObjectEntry) : bool :=
  negb (N.land (oe_flags o) OBJECT_FLAG_DB_EXISTS =? 0)%N.

Definition set_db_exists (e : bool) (o : ObjectEntry) : ObjectEntry :=
  if e then o <| oe_flags ::= λ f, N.lor f OBJECT_FLAG_DB_EXISTS |>
  else o <| oe_flags ::= λ f, u8_clear f OBJECT_FLAG_DB_EXISTS |>.

Record ObjectRow := mk_ObjectRow { or_schema_id : N; or_kind_code : N }.
#[global] Instance ObjectRow_eq_dec : EqDecision ObjectRow.
Proof. solve_decision. Defined.

(** [ParentRef]: the trigger's parent table row, 0 when unknown. *)
Record ParentRef := mk_ParentRef { parent_row_id : N }.

Inductive ScriptKind : Type := SkObject | SkTransition | SkCheck.
#[global] Instance ScriptKind_eq_dec : EqDecision ScriptKind.
Proof. solve_decision. Defined.

Record ScriptRow := mk_ScriptRow {
  sr_path_off : StrOff;
  sr_abs_path_off : StrOff;
  sr_kind : ScriptKind;
}.
#[global] Instance ScriptRow_eta : Settable ScriptRow := λ r,
  mk_ScriptRow (sr_path_off r) (sr_abs_path_off r) (sr_kind r).

Record ScriptGitStaging := mk_ScriptGitStaging {
  sgs_hash : option string;
  sgs_author : option string;
  sgs_date : option string;
}.

Record ScriptGit := mk_ScriptGit {
  sg_hash_off : StrOff;
  sg_author_off : StrOff;
  sg_date_off : StrOff;
}.
#[global] Instance ScriptGit_eta : Settable ScriptGit := λ r,
  mk_ScriptGit (sg_hash_off r) (sg_author_off r) (sg_date_off r).
Definition ScriptGit_default : ScriptGit := mk_ScriptGit StrOff_EMPTY StrOff_EMPTY StrOff_EMPTY.

Record Script := mk_Script {
  sc_key : script_key;
  sc_kind : ScriptKind;
  sc_abs_path : string;
  sc_checksum : option digest;
}.

Definition into_parts (s : Script) : ScriptRow * option digest :=
  (mk_ScriptRow StrOff_EMPTY StrOff_EMPTY (sc_kind s), sc_checksum s).

Record SchemaEntry := mk_SchemaEntry {
  se_database : string;
  se_name : string;
  se_normalized : string;
}.

Record TransitionEntry := mk_TransitionEntry {
  te_ord_off : StrOff;
  te_script_id : N;
  te_staging_ord : option string;
}.
#[global] Instance TransitionEntry_eta : Settable TransitionEntry := λ r,
  mk_TransitionEntry (te_ord_off r) (te_script_id r) (te_staging_ord r).

Definition new_staging (ordinal : string) (script_id : N) : TransitionEntry :=
  mk_TransitionEntry StrOff_EMPTY script_id (Some ordinal).

(** ** The workspace *)

Record Workspace := mk_Workspace {
  ws_object_entries : list ObjectEntry;
  ws_object_keys : list object_key;
  ws_object_rows : list ObjectRow;
  ws_catalog_flags : N;
  ws_root : string;
  ws_script_git : gmap N ScriptGit;
  ws_script_git_staging : gmap N ScriptGitStaging;
  ws_script_key_index : gmap string N;
  ws_key_index : gmap string N;
  ws_fp_index : gmap N N;
  ws_ingest_key_index : gmap (N * string) N;
  ws_ingest_keys : list object_key;
  ws_ingest_script_keys : list script_key;
  ws_ingest_script_abs : list string;
  ws_transitions_by_row : gmap N (list TransitionEntry);
  ws_transitions_staging : gmap (string * string) (list (string * string));
  ws_parent_by_row : gmap N ParentRef;
  ws_transition_path_cache : option (gmap N (list StrOff));
  ws_object_path_cache : option (list StrOff);
  ws_layout_arena : option StringArena;
  ws_schemas : list SchemaEntry;
  ws_script_rows : list ScriptRow;
  ws_script_checksums : list (option digest);
  ws_database_names : list string;
  ws_prior_by_row : list (option digest);
  ws_catalog_row : list N;
  ws_has_transition_paths_row : list N;
  ws_layout_digest : digest;
}.
#[global] Instance Workspace_eta : Settable Workspace := λ w,
  mk_Workspace (ws_object_entries w) (ws_object_keys w) (ws_object_rows w)
    (ws_catalog_flags w) (ws_root w) (ws_script_git w) (ws_script_git_staging w)
    (ws_script_key_index w) (ws_key_index w) (ws_fp_index w) (ws_ingest_key_index w)
    (ws_ingest_keys w) (ws_ingest_script_keys w) (ws_ingest_script_abs w)
    (ws_transitions_by_row w) (ws_transitions_staging w) (ws_parent_by_row w)
    (ws_transition_path_cache w) (ws_object_path_cache w) (ws_layout_arena w)
    (ws_schemas w) (ws_script_rows w) (ws_script_checksums w) (ws_database_names w)
    (ws_prior_by_row w) (ws_catalog_row w) (ws_has_transition_paths_row w)
    (ws_layout_digest w).

(** [Workspace::default] over [WorkspaceCold::new]: database slot 0 is empty. *)
Definition Workspace_default : Workspace :=
  mk_Workspace [] [] [] 0 "" ∅ ∅ ∅ ∅ ∅ ∅ [] [] [] ∅ ∅ ∅ None None None [] [] [] [""]
    [] [] [] zero_digest.

Definition row_id_at (i : nat) : N := as_u32 (i + 1).
Definition object_count (w : Workspace) : nat := length (ws_object_entries w).
Definition key_index_of (w : Workspace) (key : object_key) : N :=
  default 0%N (ws_key_index w !! key).
Definition ws_row (w : Workspace) (i : nat) : M ObjectRow := or_panic (ws_object_rows w !! i).
Definition ws_entry (w : Workspace) (i : nat) : M ObjectEntry :=
  or_panic (ws_object_entries w !! i).

(** ** Object keys of entries *)

Definition entry_key (w : Workspace) (i : nat) : M object_key :=
  if Nat.ltb i (length (ws_object_keys w)) then or_panic (ws_object_keys w !! i)
  else or_panic (ws_ingest_keys w !! i).

Definition object_by_key (w : Workspace) (key : object_key) : option ObjectEntry :=
  let id := key_index_of w key in
  if (0 <? id)%N then row_at (ws_object_entries w) id else None.

Definition entry_schema_part (w : Workspace) (i : nat) : M string := schema_part <$> entry_key w i.
Definition entry_kind_part (w : Workspace) (i : nat) : M string := kind_part <$> entry_key w i.
Definition entry_name_part (w : Workspace) (i : nat) : M string := name_part <$> entry_key w i.

(** ** Database names ([databases.rs]) *)

Definition database_name (w : Workspace) (db_id : N) : string :=
  default "" (ws_database_names w !! N.to_nat db_id).

Definition database_count (w : Workspace) : nat := length (ws_database_names w).

Definition intern_database (name : string) (w : Workspace) : M (Workspace * N) :=
  if String.eqb name "" then Ok (w, 0%N)
  else
    match list_find (λ d, eq_ignore_ascii_case d name = true) (ws_database_names w) with
    | Some (i, _) => Ok (w, as_u16 i)
    | None =>
        let id := length (ws_database_names w) in
        if (N.of_nat id <? u16_max)%N
        then Ok (w <| ws_database_names ::= λ l, l ++ [name] |>, as_u16 id)
        else Panic
    end.

(** ** Arena lookups ([arena_resolve.rs]) *)

Definition layout_arena (w : Workspace) : M StringArena := or_panic (ws_layout_arena w).

Definition ws_str_at (w : Workspace) (off : StrOff) : M string :=
  a ← layout_arena w; str_at a (so_off off) (so_len off).

Definition ws_shared_at (w : Workspace) (off : StrOff) : M string :=
  a ← layout_arena w; shared_at a (so_off off) (so_len off).

Definition object_key_at (w : Workspace) (off : StrOff) : M object_key := ws_shared_at w off.

(** ** Scripts ([scripts.rs], [script_resolve/]) *)

Definition script_row (w : Workspace) (id : N) : M ScriptRow :=
  or_panic (row_at (ws_script_rows w) id).

Definition script_row_key (w : Workspace) (r : ScriptRow) (id : N) : M script_key :=
  if negb (so_len (sr_path_off r) =? 0)%N then ws_shared_at w (sr_path_off r)
  else or_panic (row_at (ws_ingest_script_keys w) id).

Definition script_row_path_str (w : Workspace) (r : ScriptRow) (id : N) : M string :=
  if negb (so_len (sr_path_off r) =? 0)%N then ws_str_at w (sr_path_off r)
  else or_panic (row_at (ws_ingest_script_keys w) id).

Definition script_row_abs_path (w : Workspace) (r : ScriptRow) (id : N) : M string :=
  if negb (so_len (sr_abs_path_off r) =? 0)%N then ws_shared_at w (sr_abs_path_off r)
  else or_panic (row_at (ws_ingest_script_abs w) id).

Definition script_key_of (w : Workspace) (id : N) : M script_key :=
  r ← script_row w id; script_row_key w r id.
Definition script_path_str (w : Workspace) (id : N) : M string :=
  r ← script_row w id; script_row_path_str w r id.
Definition script_abs_path (w : Workspace) (id : N) : M string :=
  r ← script_row w id; script_row_abs_path w r id.
Definition script_kind (w : Workspace) (id : N) : M ScriptKind := sr_kind <$> script_row w id.

Definition script_checksum (w : Workspace) (id : N) : option digest :=
  o ← row_at (ws_script_checksums w) id; o.

(** [ObjectEntry::script_path]. *)
Definition entry_script_path (w : Workspace) (o : ObjectEntry) : M string :=
  script_path_str w (oe_script_id o).

Definition git_field (off : ScriptGit → StrOff) (staging : ScriptGitStaging → option string)
    (w : Workspace) (id : N) : M string :=
  match ws_script_git_staging w !! id ≫= staging with
  | Some s => Ok s
  | None =>
      match ws_script_git w !! id with
      | None => Ok ""
      | Some git => if (so_len (off git) =? 0)%N then Ok "" else ws_shared_at w (off git)
      end
  end.

Definition git_hash : Workspace → N → M string := git_field sg_hash_off sgs_hash.
Definition git_author : Workspace → N → M string := git_field sg_author_off sgs_author.
Definition git_date : Workspace → N → M string := git_field sg_date_off sgs_date.

Definition insert_script (s : Script) (w : Workspace) : M (Workspace * N) :=
  let key := sc_key s in
  let abs := sc_abs_path s in
  let '(row, checksum) := into_parts s in
  match ws_script_key_index w !! key with
  | Some id =>
      idx ← or_panic (row_index id);
      rows ← list_set idx row (ws_script_rows w);
      sums ← list_set idx checksum (ws_script_checksums w);
      keys ← list_set idx key (ws_ingest_script_keys w);
      abss ← list_set idx abs (ws_ingest_script_abs w);
      Ok (w <| ws_script_rows := rows |> <| ws_script_checksums := sums |>
            <| ws_ingest_script_keys := keys |> <| ws_ingest_script_abs := abss |>, id)
  | None =>
      let id := as_u32 (length (ws_script_rows w) + 1) in
      Ok (w <| ws_script_key_index ::= <[key := id]> |>
            <| ws_script_rows ::= λ l, l ++ [row] |>
            <| ws_script_checksums ::= λ l, l ++ [checksum] |>
            <| ws_ingest_script_keys ::= λ l, l ++ [key] |>
            <| ws_ingest_script_abs ::= λ l, l ++ [abs] |>, id)
  end.

Definition script_to_ingest (w : Workspace) (id : N) : M Script :=
  key ← script_key_of w id;
  kind ← script_kind w id;
  abs ← script_abs_path w id;
  Ok (mk_Script key kind abs (script_checksum w id)).

(** [rebuild_script_key_index]: the map is cleared, then filled row by row; the
    rows read their keys from the arena or the ingest list, not from the map. *)
Definition rebuild_script_key_index (w : Workspace) : M Workspace :=
  ix ← foldM (λ ix i,
         let id := as_u32 (i + 1) in
         row ← or_panic (ws_script_rows w !! i);
         key ← script_row_key w row id;
         Ok (<[key := id]> ix)) ∅ (seq 0 (length (ws_script_rows w)));
  Ok (w <| ws_script_key_index := ix |>).

(** ** Catalog flags ([catalog.rs], [reset.rs], [cold.rs]) *)

Definition CATALOG_APPLIED : N := 1.
Definition CHECKSUMS_APPLIED : N := 2.

Definition invalidate_transition_paths (w : Workspace) : Workspace :=
  w <| ws_transition_path_cache := None |> <| ws_object_path_cache := None |>
    <| ws_has_transition_paths_row := [] |>.

Definition invalidate_catalog_facts (w : Workspace) : Workspace :=
  w <| ws_catalog_flags ::= λ f, u8_clear f (N.lor CATALOG_APPLIED CHECKSUMS_APPLIED) |>
    <| ws_parent_by_row := ∅ |> <| ws_prior_by_row := [] |> <| ws_catalog_row := [] |>
    <| ws_object_entries ::= map (set_db_exists false) |>.

Definition catalog_has_row (w : Workspace) (i : nat) : bool :=
  negb (default 0%N (ws_catalog_row w !! i) =? 0)%N.
Definition row_has_transition_paths (w : Workspace) (i : nat) : bool :=
  negb (default 0%N (ws_has_transition_paths_row w !! i) =? 0)%N.
Definition catalog_applied (w : Workspace) : bool :=
  negb (N.land (ws_catalog_flags w) CATALOG_APPLIED =? 0)%N.
Definition mark_catalog_applied (w : Workspace) : Workspace :=
  w <| ws_catalog_flags ::= λ f, N.lor f CATALOG_APPLIED |>.
Definition checksums_applied (w : Workspace) : bool :=
  negb (N.land (ws_catalog_flags w) CHECKSUMS_APPLIED =? 0)%N.
Definition mark_checksums_applied (w : Workspace) : Workspace :=
  w <| ws_catalog_flags ::= λ f, N.lor f CHECKSUMS_APPLIED |>.

Definition clear_object_staging (w : Workspace) : Workspace :=
  w <| ws_ingest_keys := [] |> <| ws_ingest_key_index := ∅ |>.

Definition script_row_interned (r : ScriptRow) : bool :=
  negb (so_len (sr_path_off r) =? 0)%N && negb (so_len (sr_abs_path_off r) =? 0)%N.

Definition clear_scan_staging (w : Workspace) : Workspace :=
  let w := clear_object_staging w in
  if forallb script_row_interned (ws_script_rows w)
  then w <| ws_ingest_script_keys := [] |> <| ws_ingest_script_abs := [] |>
  else w.

Definition reset_layout (w : Workspace) : Workspace :=
  let w := w <| ws_object_entries := [] |> <| ws_object_keys := [] |> <| ws_object_rows := [] |>
    <| ws_ingest_key_index := ∅ |> <| ws_ingest_keys := [] |> <| ws_ingest_script_keys := [] |>
    <| ws_ingest_script_abs := [] |> <| ws_script_git_staging := ∅ |> <| ws_key_index := ∅ |>
    <| ws_fp_index := ∅ |> <| ws_script_rows := [] |> <| ws_script_checksums := [] |>
    <| ws_script_git := ∅ |> <| ws_script_key_index := ∅ |> <| ws_transitions_by_row := ∅ |>
    <| ws_transitions_staging := ∅ |> <| ws_parent_by_row := ∅ |> in
  let w := invalidate_transition_paths w in
  let w := w <| ws_schemas := [] |> <| ws_database_names ::= take 1 |>
             <| ws_layout_arena := None |> in
  invalidate_catalog_facts w.

(** ** Ingest ([ingest.rs], [compact.rs]) *)

Section with_unicode.
Context `{Unicode}.

Definition push_object (key : object_key) (obj : ObjectEntry) (w : Workspace) : M Workspace :=
  let db_id := oe_db_id obj in
  let idx_key := (db_id, key) in
  match ws_ingest_key_index w !! idx_key with
  | Some _ => Err (InvalidInput ("duplicate object " +:+ debug_str key +:+ " in database "
      +:+ debug_str (database_name w db_id)
      +:+ ": two source files map to the same normalized <schema>/<kind>/<name> key "
      +:+ "(keys are case-insensitive); rename or remove one"))
  | None =>
      let idx := length (ws_object_entries w) in
      Ok (w <| ws_object_entries ::= λ l, l ++ [obj] |>
            <| ws_ingest_keys ::= λ l, l ++ [key] |>
            <| ws_ingest_key_index ::= <[idx_key := as_u32 (idx + 1)]> |>)
  end.
End with_unicode.

Definition push_transition_staging (database : string) (table_key : object_key)
    (ordinal : string) (skey : script_key) (w : Workspace) : M Workspace :=
  let staged := (database, table_key) in
  let entries := default [] (ws_transitions_staging w !! staged) in
  if existsb (λ e, String.eqb e.1 ordinal) entries then
    Err (InvalidInput ("duplicate transition ordinal " +:+ ordinal +:+ " for " +:+ database
      +:+ "/" +:+ table_key +:+ ": each migration ordinal must be unique per table"))
  else Ok (w <| ws_transitions_staging ::= <[staged := entries ++ [(ordinal, skey)]]> |>).

(** ** Object ingest keeps keys unique *)

(** The [(db_id, key)] pairs staged so far, in ingest order. *)
Definition ingested (w : Workspace) : list (N * object_key) :=
  zip (oe_db_id <$> ws_object_entries w) (ws_ingest_keys w).

Record ingest_wf (w : Workspace) : Prop := {
  ing_aligned : length (ws_ingest_keys w) = length (ws_object_entries w);
  ing_nodup : NoDup (ingested w);
  ing_index : ∀ p, is_Some (ws_ingest_key_index w !! p) ↔ p ∈ ingested w;
}.

Lemma ingest_wf_default : ingest_wf Workspace_default.
Proof.
  split; cbn; [done|constructor|]. intros p. rewrite lookup_empty.
  split; [by intros []|by intros ?%elem_of_nil].
Qed.

Lemma ingested_push key obj w w' `{Unicode} :
  length (ws_ingest_keys w) = length (ws_object_entries w) →
  push_object key obj w = Ok w' → ingested w' = ingested w ++ [(oe_db_id obj, key)].
Proof.
  intros Hlen. unfold push_object, ingested. case_match; [done|]. intros [= <-]. cbn.
  rewrite fmap_app, zip_with_app; [done|]. by rewrite length_fmap.
Qed.

(** Ingest of an object succeeds exactly when no object of the same database
    has the same normalised key; it then appends that one object, and the
    staged keys stay pairwise distinct per database. *)
Theorem push_object_spec `{Unicode} key obj w :
  ingest_wf w →
  if decide ((oe_db_id obj, key) ∈ ingested w)
  then ∃ msg, push_object key obj w = Err (InvalidInput msg)
  else ∃ w', push_object key obj w = Ok w' ∧ ingest_wf w' ∧
         ingested w' = ingested w ++ [(oe_db_id obj, key)] ∧
         ws_object_entries w' = ws_object_entries w ++ [obj].
Proof.
  intros [Hal Hnd Hix]. pose proof (Hix (oe_db_id obj, key)) as Hp.
  destruct (decide _) as [Hin|Hnin].
  - unfold push_object. apply Hp in Hin as [id ->]. eauto.
  - destruct (ws_ingest_key_index w !! (oe_db_id obj, key)) eqn:Hlk; [destruct Hnin; by apply Hp|].
    destruct (push_object key obj w) as [w'| |] eqn:Hpush;
      [|unfold push_object in Hpush; by rewrite Hlk in Hpush..].
    pose proof (ingested_push key obj w w' Hal Hpush) as Hing.
    unfold push_object in Hpush. rewrite Hlk in Hpush. injection Hpush as <-.
    eexists. split; [done|]. split_and!; [|done|done]. split.
    + cbn. rewrite !length_app, Hal. done.
    + rewrite Hing. apply NoDup_app. split_and!; [done| |apply NoDup_singleton].
      intros p Hp1 ->%list_elem_of_singleton. done.
    + intros p. rewrite Hing, elem_of_app, list_elem_of_singleton, <-Hix. cbn.
      rewrite lookup_insert_is_Some'. naive_solver.
Qed.

(** The two files [smoke/tables/Foo.sql] and [smoke/tables/foo.sql] collide. *)
Lemma push_object_spec_witness :
  if decide ((0%N, "smoke/tables/foo") ∈ ingested Workspace_default)
  then ∃ msg, push_object (H:=Concrete.unicode) "smoke/tables/foo"
         (mk_ObjectEntry zero_digest StrOff_EMPTY 1 0 0) Workspace_default = Err (InvalidInput msg)
  else ∃ w', push_object (H:=Concrete.unicode) "smoke/tables/foo"
         (mk_ObjectEntry zero_digest StrOff_EMPTY 1 0 0) Workspace_default = Ok w' ∧ ingest_wf w' ∧
         ingested w' = ingested Workspace_default ++ [(0%N, "smoke/tables/foo")] ∧
         ws_object_entries w' = ws_object_entries Workspace_default
           ++ [mk_ObjectEntry zero_digest StrOff_EMPTY 1 0 0].
Proof.
  exact (push_object_spec (H:=Concrete.unicode) "smoke/tables/foo"
    (mk_ObjectEntry zero_digest StrOff_EMPTY 1 0 0) Workspace_default ingest_wf_default).
Defined.

(** ** The script table *)

(** The columns are parallel, keys are distinct, and the index maps each key to
    its one-based position. *)
Record scripts_wf (w : Workspace) : Prop := {
  scr_sums : length (ws_script_checksums w) = length (ws_script_rows w);
  scr_keys : length (ws_ingest_script_keys w) = length (ws_script_rows w);
  scr_abs : length (ws_ingest_script_abs w) = length (ws_script_rows w);
  scr_small : (N.of_nat (length (ws_script_rows w)) < u32_size)%N;
  scr_index : ∀ k id, ws_script_key_index w !! k = Some id ↔
    ∃ i, id = (N.of_nat i + 1)%N ∧ ws_ingest_script_keys w !! i = Some k;
}.

Lemma scripts_wf_default : scripts_wf Workspace_default.
Proof.
  split; cbn; try done. intros k id. rewrite lookup_empty.
  split; [done|by intros (? & ? & ?)].
Qed.

Lemma scripts_wf_keys_nodup w : scripts_wf w → NoDup (ws_ingest_script_keys w).
Proof.
  intros Hw. apply NoDup_alt. intros i j k Hi Hj.
  assert (ws_script_key_index w !! k = Some (N.of_nat i + 1)%N) as H1
    by (apply (scr_index _ Hw); eauto).
  assert (ws_script_key_index w !! k = Some (N.of_nat j + 1)%N) as H2
    by (apply (scr_index _ Hw); eauto).
  rewrite H1 in H2. injection H2. lia.
Qed.

Lemma list_set_Ok {E A} i (x : A) (l : list A) :
  i < length l → list_set (E:=E) i x l = Ok (<[i := x]> l).
Proof. intros. unfold list_set. by rewrite (proj2 (Nat.ltb_lt _ _)). Qed.

Lemma row_at_app_new {A} (l : list A) x n :
  length l = n → row_at (l ++ [x]) (N.of_nat n + 1) = Some x.
Proof.
  intros <-. unfold row_at. rewrite row_index_succ. cbn.
  by rewrite lookup_app_r, Nat.sub_diag.
Qed.

Lemma row_at_app_old {A} (l : list A) x n id :
  length l = n → id ≠ (N.of_nat n + 1)%N → row_at (l ++ [x]) id = row_at l id.
Proof.
  intros <- Hne. unfold row_at. destruct (row_index id) as [j|] eqn:Hj; cbn; [|done].
  apply row_index_Some in Hj as ->.
  destruct (decide (j < length l)); [by rewrite lookup_app_l|].
  rewrite !lookup_ge_None_2; [done|lia|].
  rewrite length_app. cbn. enough (j ≠ length l) by lia. by intros ->.
Qed.

Lemma row_at_set_eq {A} (l : list A) i x :
  i < length l → row_at (<[i := x]> l) (N.of_nat i + 1) = Some x.
Proof. intros. unfold row_at. rewrite row_index_succ. cbn. by apply list_lookup_insert_eq. Qed.

Lemma row_at_set_ne {A} (l : list A) i x id :
  id ≠ (N.of_nat i + 1)%N → row_at (<[i := x]> l) id = row_at l id.
Proof.
  intros Hne. unfold row_at. destruct (row_index id) as [j|] eqn:Hj; cbn; [|done].
  apply row_index_Some in Hj as ->. apply list_lookup_insert_ne. by intros ->.
Qed.

(** Appending a key that is not indexed keeps index and keys in step. *)
Lemma script_index_append (ix : gmap string N) (keys : list string) key n :
  length keys = n → ix !! key = None →
  (∀ k id, ix !! k = Some id ↔ ∃ i, id = (N.of_nat i + 1)%N ∧ keys !! i = Some k) →
  ∀ k id, <[key := (N.of_nat n + 1)%N]> ix !! k = Some id ↔
    ∃ i, id = (N.of_nat i + 1)%N ∧ (keys ++ [key]) !! i = Some k.
Proof.
  intros <- Hlk Hix k id. rewrite lookup_insert_Some. setoid_rewrite lookup_app_Some.
  rewrite Hix. split.
  - intros [[<- <-]|[Hne (i & -> & Hi)]]; [|by eauto].
    exists (length keys). rewrite Nat.sub_diag. split; [done|]. by right.
  - intros (i & -> & [Hi|[Hge Hi]]).
    + right. split; [|by eauto]. intros ->.
      enough (ix !! k = Some (N.of_nat i + 1)%N) by congruence. apply Hix. eauto.
    + left. apply list_lookup_singleton_Some in Hi as [? ->]. split; [done|]. lia.
Qed.

(** What the staged columns say about a script id. *)
Definition staged_script (w : Workspace) (id : N) : option Script :=
  row ← row_at (ws_script_rows w) id;
  sum ← row_at (ws_script_checksums w) id;
  key ← row_at (ws_ingest_script_keys w) id;
  abs ← row_at (ws_ingest_script_abs w) id;
  Some (mk_Script key (sr_kind row) abs sum).

(** Inserting a script is an upsert by key: it returns an id that now reads
    back the script, every other id keeps its script, an existing key keeps its
    id, a new key takes the next one, and the table stays well formed. *)
Theorem insert_script_spec s w :
  scripts_wf w → (N.of_nat (length (ws_script_rows w)) + 1 < u32_size)%N →
  ∃ w' id, insert_script s w = Ok (w', id) ∧ scripts_wf w' ∧
    staged_script w' id = Some s ∧
    (∀ id', id' ≠ id → staged_script w' id' = staged_script w id') ∧
    id = default (N.of_nat (length (ws_script_rows w)) + 1)%N
           (ws_script_key_index w !! sc_key s).
Proof.
  intros Hw Hsmall. unfold insert_script. destruct s as [key kind abs sum]. cbn.
  destruct (ws_script_key_index w !! key) as [id|] eqn:Hlk.
  - apply (scr_index _ Hw) in Hlk as Hi. destruct Hi as (i & -> & Hi).
    rewrite row_index_succ. cbn.
    pose proof (lookup_lt_Some _ _ _ Hi) as Hlt. rewrite (scr_keys _ Hw) in Hlt.
    rewrite !list_set_Ok by (rewrite ?(scr_sums _ Hw), ?(scr_keys _ Hw), ?(scr_abs _ Hw); done).
    cbn. eexists _, _. split; [done|]. split_and!; [| | |done].
    + destruct Hw as [H1 H2 H3 H4 H5]. split; cbn; rewrite ?length_insert; try done.
      by rewrite list_insert_id.
    + unfold staged_script. cbn. rewrite !row_at_set_eq
        by (rewrite ?(scr_sums _ Hw), ?(scr_keys _ Hw), ?(scr_abs _ Hw); done). done.
    + intros id' Hne. unfold staged_script. cbn. by rewrite !row_at_set_ne.
  - eexists _, _. split; [done|].
    rewrite as_u32_small, Nat2N.inj_add by lia. change (N.of_nat 1) with 1%N.
    destruct Hw as [H1 H2 H3 H4 H5]. split_and!; [| | |done].
    + split; cbn; rewrite ?length_app; cbn; try lia. by apply script_index_append.
    + unfold staged_script. cbn. by rewrite !row_at_app_new.
    + intros id' Hne. unfold staged_script. cbn.
      by rewrite !(row_at_app_old _ _ (length (ws_script_rows w))).
Qed.

Lemma insert_script_spec_witness :
  let s := mk_Script "Db/dbo/views/v.sql" SkObject "/r/Db/dbo/views/v.sql" None in
  ∃ w' id, insert_script s Workspace_default = Ok (w', id) ∧ scripts_wf w' ∧
    staged_script w' id = Some s ∧
    (∀ id', id' ≠ id → staged_script w' id' = staged_script Workspace_default id') ∧
    id = 1%N.
Proof.
  exact (insert_script_spec (mk_Script "Db/dbo/views/v.sql" SkObject "/r/Db/dbo/views/v.sql" None)
           Workspace_default scripts_wf_default eq_refl).
Defined.

(** ** Database slots *)

(** Slot 0 is the empty name and no two slots differ only in case. *)
Record databases_wf (w : Workspace) : Prop := {
  dbs_head : head (ws_database_names w) = Some "";
  dbs_nodup : NoDup (ascii_lowercase <$> ws_database_names w);
  dbs_bound : (N.of_nat (length (ws_database_names w)) <= u16_max)%N;
}.

Lemma databases_wf_default : databases_wf Workspace_default.
Proof. split; cbn; [done|apply NoDup_singleton|done]. Qed.

(** The slot a name resolves to. *)
Definition slot_of (w : Workspace) (name : string) : option nat :=
  fst <$> list_find (λ d, eq_ignore_ascii_case d name = true) (ws_database_names w).

Lemma slot_of_Some w name i :
  databases_wf w →
  slot_of w name = Some i ↔ (ascii_lowercase <$> ws_database_names w) !! i = Some (ascii_lowercase name).
Proof.
  intros Hw. unfold slot_of. rewrite fmap_Some. split.
  - intros ([j d] & (Hd & Heq & _)%list_find_Some & ->). cbn.
    rewrite list_lookup_fmap, Hd. cbn. f_equal. by apply String.eqb_eq.
  - intros Hi. rewrite list_lookup_fmap, fmap_Some in Hi. destruct Hi as (d & Hd & Heq).
    exists (i, d). split; [|done]. apply list_find_Some. split_and!; [done|by apply String.eqb_eq|].
    intros j d' Hd' Hj Heq'%String.eqb_eq. cut (j = i); [lia|].
    eapply NoDup_lookup; [exact (dbs_nodup _ Hw)| |]; rewrite list_lookup_fmap.
    + by rewrite Hd'.
    + rewrite Hd. cbn. congruence.
Qed.

Lemma databases_wf_append name w :
  databases_wf w → name ≠ "" → slot_of w name = None →
  (N.of_nat (length (ws_database_names w)) < u16_max)%N →
  databases_wf (w <| ws_database_names ::= λ l, l ++ [name] |>).
Proof.
  intros Hw Hne Hnone Hroom. pose proof (slot_of_Some w name) as Hslot.
  rewrite Hnone in Hslot. split; cbn.
  - pose proof (dbs_head _ Hw). by destruct (ws_database_names w).
  - rewrite fmap_app. apply NoDup_app. split_and!; [apply Hw| |apply NoDup_singleton].
    intros x Hx ->%list_elem_of_singleton. apply list_elem_of_lookup in Hx as [j Hj].
    by apply Hslot in Hj.
  - rewrite length_app. unfold u16_max in *. cbn. lia.
Qed.

Lemma slot_zero w name : databases_wf w → name ≠ "" → slot_of w name ≠ Some 0.
Proof.
  intros Hw Hne. rewrite slot_of_Some by done. destruct Hw as [Hh _ _].
  destruct (ws_database_names w) as [|x l]; [done|]. cbn in Hh |- *. injection Hh as ->.
  by destruct name.
Qed.

Lemma as_u16_small i : (N.of_nat i < 65536)%N → N.to_nat (as_u16 i) = i.
Proof. intros. unfold as_u16. rewrite N.mod_small by lia. lia. Qed.

(** Interning a database name returns the slot of its first case variant, or
    appends it: names that differ only in case share a slot, no two slots do,
    slots already handed out keep their name, and the only failure is a full
    table. *)
Theorem intern_database_spec name w :
  databases_wf w → name ≠ "" →
  (slot_of w name = None → (N.of_nat (length (ws_database_names w)) < u16_max)%N) →
  ∃ w' id, intern_database name w = Ok (w', id) ∧ databases_wf w' ∧ id ≠ 0%N ∧
    slot_of w' name = Some (N.to_nat id) ∧
    ws_database_names w `prefix_of` ws_database_names w' ∧
    ascii_lowercase (database_name w' id) = ascii_lowercase name.
Proof.
  intros Hw Hne Hroom. unfold intern_database. destruct (String.eqb_spec name ""); [done|].
  pose proof (dbs_bound _ Hw) as Hb. pose proof (slot_zero w name Hw Hne) as H0.
  unfold u16_max in *. destruct (list_find _ _) as [[i d]|] eqn:Hf.
  - assert (slot_of w name = Some i) as Hs by (unfold slot_of; by rewrite Hf).
    pose proof (proj1 (slot_of_Some w name i Hw) Hs) as Hi.
    pose proof (lookup_lt_Some _ _ _ Hi) as Hlt. rewrite length_fmap in Hlt.
    assert (N.to_nat (as_u16 i) = i) as Hid by (apply as_u16_small; lia).
    exists w, (as_u16 i). split_and!; try done.
    + intros Hz. rewrite Hz in Hid. change (0 = i) in Hid. by subst i.
    + by rewrite Hid.
    + unfold database_name. rewrite Hid. rewrite list_lookup_fmap in Hi.
      by apply fmap_Some in Hi as (x & -> & Hx).
  - assert (slot_of w name = None) as Hs by (unfold slot_of; by rewrite Hf).
    specialize (Hroom Hs). rewrite (proj2 (N.ltb_lt _ _) Hroom).
    pose proof (databases_wf_append name w Hw Hne Hs Hroom) as Hw'.
    assert (N.to_nat (as_u16 (length (ws_database_names w))) = length (ws_database_names w))
      as Hid by (apply as_u16_small; lia).
    eexists _, _. split; [done|].
    assert (slot_of (w <| ws_database_names ::= λ l, l ++ [name] |>) name
            = Some (length (ws_database_names w))) as Hs'.
    { apply slot_of_Some; [done|]. cbn.
      rewrite fmap_app, lookup_app_r, length_fmap by (by rewrite length_fmap).
      by rewrite Nat.sub_diag. }
    split_and!; [done| | | |].
    + intros Hz. rewrite Hz in Hid. change (0 = length (ws_database_names w)) in Hid. rewrite <-Hid in Hs'.
      by apply (slot_zero _ _ Hw' Hne) in Hs'.
    + by rewrite Hid.
    + cbn. by apply prefix_app_r.
    + unfold database_name. rewrite Hid. cbn. rewrite lookup_app_r by done.
      by rewrite Nat.sub_diag.
Qed.

Lemma intern_database_spec_witness :
  ∃ w' id, intern_database "Sales" Workspace_default = Ok (w', id) ∧ databases_wf w' ∧ id ≠ 0%N ∧
    slot_of w' "Sales" = Some (N.to_nat id) ∧
    ws_database_names Workspace_default `prefix_of` ws_database_names w' ∧
    ascii_lowercase (database_name w' id) = ascii_lowercase "Sales".
Proof.
  apply (intern_database_spec "Sales" Workspace_default databases_wf_default); [discriminate|].
  intros _. reflexivity.
Defined.

(** ** Transition ordinals *)

Definition staged_ordinals (w : Workspace) (p : string * object_key) : list string :=
  fst <$> default [] (ws_transitions_staging w !! p).

Definition ordinals_wf (w : Workspace) : Prop := ∀ p, NoDup (staged_ordinals w p).

(** Staging a transition fails exactly when its table already has that
    ordinal in the same database; otherwise it appends to that table's list
    alone, and ordinals stay unique per database and table. *)
Theorem push_transition_staging_spec database key ordinal skey w :
  ordinals_wf w →
  if decide (ordinal ∈ staged_ordinals w (database, key))
  then ∃ msg, push_transition_staging database key ordinal skey w = Err (InvalidInput msg)
  else ∃ w', push_transition_staging database key ordinal skey w = Ok w' ∧ ordinals_wf w' ∧
    ws_transitions_staging w' !! (database, key) =
      Some (default [] (ws_transitions_staging w !! (database, key)) ++ [(ordinal, skey)]) ∧
    (∀ p, p ≠ (database, key) →
       ws_transitions_staging w' !! p = ws_transitions_staging w !! p).
Proof.
  intros Hw. unfold push_transition_staging, staged_ordinals.
  set (es := default [] (ws_transitions_staging w !! (database, key))).
  assert (existsb (λ e, String.eqb e.1 ordinal) es = true ↔ ordinal ∈ es.*1) as Hex.
  { rewrite existsb_exists, list_elem_of_fmap. split.
    - intros (e & He & Heq%String.eqb_eq). exists e. split; [done|]. by apply list_elem_of_In.
    - intros (e & -> & He). exists e. rewrite String.eqb_refl. split; [|done].
      by apply list_elem_of_In. }
  destruct (decide _) as [Hin|Hnin].
  - rewrite (proj2 Hex Hin). eauto.
  - destruct (existsb _ _) eqn:E; [destruct Hnin; by apply Hex|].
    eexists. split; [done|]. split_and!.
    + intros p. unfold staged_ordinals. cbn. destruct (decide (p = (database, key))) as [->|Hp].
      * rewrite lookup_insert_eq. cbn. rewrite fmap_app. apply NoDup_app.
        split_and!; [apply Hw| |apply NoDup_singleton].
        by intros x Hx ->%list_elem_of_singleton.
      * rewrite lookup_insert_ne by done. apply Hw.
    + cbn. by rewrite lookup_insert_eq.
    + intros p Hp. cbn. by rewrite lookup_insert_ne.
Qed.

Lemma ordinals_wf_default : ordinals_wf Workspace_default.
Proof. intros p. unfold staged_ordinals. cbn. rewrite lookup_empty. constructor. Qed.

Lemma push_transition_staging_spec_witness :
  ordinals_wf Workspace_default ∧
  if decide ("001" ∈ staged_ordinals Workspace_default ("Db", "dbo/tables/t"))
  then ∃ msg, push_transition_staging "Db" "dbo/tables/t" "001" "Db/dbo/tables/_migrations/t/1.sql"
                Workspace_default = Err (InvalidInput msg)
  else ∃ w', push_transition_staging "Db" "dbo/tables/t" "001" "Db/dbo/tables/_migrations/t/1.sql"
                Workspace_default = Ok w' ∧ ordinals_wf w' ∧
    ws_transitions_staging w' !! ("Db", "dbo/tables/t") =
      Some [("001", "Db/dbo/tables/_migrations/t/1.sql")] ∧
    (∀ p, p ≠ ("Db", "dbo/tables/t") →
       ws_transitions_staging w' !! p = ws_transitions_staging Workspace_default !! p).
Proof.
  split; [exact ordinals_wf_default|].
  exact (push_transition_staging_spec "Db" "dbo/tables/t" "001" "Db/dbo/tables/_migrations/t/1.sql"
           Workspace_default ordinals_wf_default).
Defined.
