(* ===== verification/Layout.v ===== *)
(** * Layout: from staged objects to dense, interned rows

    [domain/store.rs], [domain/workspace/objects/], [domain/workspace/compact.rs],
    [domain/path_cache.rs], [domain/arena/ws_*.rs] and the per-database view
    [domain/workspace/views/catalog.rs].

    A [SharedStr] is its content here, so the shortcut of [ws_apply] for strings
    that are already slices of the target arena ([str_off_if_dedicated]) has no
    separate path: both paths store an offset whose content is the string. *)

From S2P Require Export Workspace.
From Stdlib Require Import Ascii.
From Stdlib Require String.

Section layout.
Context `{HU : Unicode} `{HF : Fingerprint} `{HM : MapOrder}.

(** ** [finalize_sorted_entries] *)

Record Finalized := mk_Finalized {
  fin_rows : list ObjectRow;
  fin_key_index : gmap string N;
  fin_fp_index : gmap N N;
  fin_entries : list ObjectEntry;
  fin_keys : list object_key;
}.

(** The loop state shared by [finalize_sorted_entries] and
    [rebuild_layout_from_keys]: schema ids by first appearance, then one row and
    two index entries per key. *)
Record IndexState := mk_IndexState {
  ix_schema_ids : gmap string N;
  ix_rows : list ObjectRow;
  ix_key_index : gmap string N;
  ix_fp_index : gmap N N;
}.

Definition schema_id_for (schema : string) (ids : gmap string N) : gmap string N * N :=
  if String.eqb schema "" then (ids, 0%N)
  else
    match ids !! schema with
    | Some id => (ids, id)
    | None => let next := as_u16 (size ids + 1) in (<[schema := next]> ids, next)
    end.

Definition index_key (st : IndexState) (i : nat) (key : object_key) : IndexState :=
  let '(ids, schema_id) := schema_id_for (schema_part key) (ix_schema_ids st) in
  let row_id := as_u32 (i + 1) in
  mk_IndexState ids
    (ix_rows st ++ [mk_ObjectRow schema_id (kind_code (kind_part key))])
    (<[key := row_id]> (ix_key_index st))
    (<[key_fingerprint key := row_id]> (ix_fp_index st)).

Fixpoint index_keys (st : IndexState) (i : nat) (keys : list object_key) : IndexState :=
  match keys with
  | [] => st
  | key :: keys' => index_keys (index_key st i key) (S i) keys'
  end.

Definition index_empty : IndexState := mk_IndexState ∅ [] ∅ ∅.

Definition pair_leb (a b : object_key * ObjectEntry) : bool := String.leb a.1 b.1.

Definition finalize_sorted_entries (entries : list ObjectEntry) (keys : list object_key)
    : M Finalized :=
  if negb (Nat.eqb (length entries) (length keys)) then Panic
  else
    let pairs := sort_by pair_leb (zip keys entries) in
    let st := index_keys index_empty 0 pairs.*1 in
    Ok (mk_Finalized (ix_rows st) (ix_key_index st) (ix_fp_index st) pairs.*2 pairs.*1).

(** ** Staged transitions to rows ([compact_transitions]) *)

Definition db_rows_of (w : Workspace) : M (gmap (N * N) N) :=
  foldM (λ m i,
    obj ← or_panic (ws_object_entries w !! i);
    key ← entry_key w i;
    Ok (<[(oe_db_id obj, key_fingerprint key) := as_u32 (i + 1)]> m))
    ∅ (seq 0 (length (ws_object_entries w))).

Definition staged_row_entries (w : Workspace) (entries : list (string * script_key))
    : list TransitionEntry :=
  omap (λ e, new_staging e.1 <$> ws_script_key_index w !! e.2) entries.

Definition compact_step (db_rows : gmap (N * N) N) (w : Workspace)
    (staged : (string * object_key) * list (string * script_key)) : M Workspace :=
  let '((db, key), entries) := staged in
  '(w, db_id) ← intern_database db w;
  let row_id := default 0%N (db_rows !! (db_id, key_fingerprint key)) in
  if (row_id =? 0)%N then Ok w
  else
    match staged_row_entries w entries with
    | [] => Ok w
    | row_entries => Ok (w <| ws_transitions_by_row ::= <[row_id := row_entries]> |>)
    end.

Definition compact_transitions (w : Workspace) : M Workspace :=
  let staging := ws_transitions_staging w in
  let w := w <| ws_transitions_staging := ∅ |> <| ws_transitions_by_row := ∅ |> in
  db_rows ← db_rows_of w;
  foldM (compact_step db_rows) w (iter_order staging).

Definition compact_sparse_maps : Workspace → M Workspace := compact_transitions.

(** ** Path caches ([path_cache.rs]) *)

(** The ordinal a transition is sorted by, and its catalog-relative path. *)
Definition transition_ord (w : Workspace) (e : TransitionEntry) : M string :=
  match te_staging_ord e with Some s => Ok s | None => ws_str_at w (te_ord_off e) end.

Definition transition_row_paths (w : Workspace) (arena : StringArena) (row_id : N)
    (entries : list TransitionEntry) : M (list StrOff) :=
  obj ← or_panic (row_at (ws_object_entries w) row_id);
  let db := database_name w (oe_db_id obj) in
  rows ← traverse (λ e,
    ord ← transition_ord w e;
    path ← script_path_str w (te_script_id e);
    Ok (ord, with_database_prefix db path)) entries;
  traverse (λ r, from_arena arena r.2) (sort_by (λ a b, String.leb a.1 b.1) rows).

Definition paths_by_row (w : Workspace) : M (gmap N (list StrOff)) :=
  arena ← layout_arena w;
  foldM (λ out r,
    paths ← transition_row_paths w arena r.1 r.2;
    match paths with [] => Ok out | _ => Ok (<[r.1 := paths]> out) end)
    ∅ (iter_order (ws_transitions_by_row w)).

Definition transition_flags (n : nat) (cache : gmap N (list StrOff)) : list N :=
  foldl (λ flags r,
    match r.2, row_index r.1 with
    | _ :: _, Some i => <[i := 1%N]> flags
    | _, _ => flags
    end) (replicate n 0%N) (iter_order cache).

Definition rebuild_transition_path_cache (w : Workspace) : M Workspace :=
  if bool_decide (ws_transitions_by_row w = ∅) || bool_decide (ws_layout_arena w = None)
  then Ok (w <| ws_transition_path_cache := None |> <| ws_has_transition_paths_row := [] |>)
  else
    cache ← paths_by_row w;
    Ok (w <| ws_has_transition_paths_row := transition_flags (object_count w) cache |>
          <| ws_transition_path_cache := Some cache |>).

Definition object_path_off (w : Workspace) (arena : StringArena) (obj : ObjectEntry) : M StrOff :=
  key ← script_key_of w (oe_script_id obj);
  from_arena arena (object_path_for_entry (database_name w (oe_db_id obj)) key).

Definition rebuild_object_path_cache (w : Workspace) : M Workspace :=
  match ws_object_entries w, ws_layout_arena w with
  | [], _ | _, None => Ok (w <| ws_object_path_cache := None |>)
  | entries, Some arena =>
      paths ← traverse (object_path_off w arena) entries;
      Ok (w <| ws_object_path_cache := Some paths |>)
  end.

Definition rebuild_path_caches (w : Workspace) : M Workspace :=
  w ← rebuild_transition_path_cache w; rebuild_object_path_cache w.

Definition ensure_path_caches (w : Workspace) : M Workspace :=
  if negb (bool_decide (ws_object_entries w = [])) && bool_decide (ws_object_path_cache w = None)
  then rebuild_path_caches w
  else if negb (bool_decide (ws_transitions_by_row w = ∅))
          && bool_decide (ws_transition_path_cache w = None)
  then rebuild_transition_path_cache w
  else Ok w.

(** [Workspace::object_path_at]. *)
Definition object_path_at (w : Workspace) (i : nat) : M string :=
  match ws_object_path_cache w ≫= λ paths, paths !! i with
  | Some p => ws_shared_at w p
  | None =>
      obj ← ws_entry w i;
      path ← entry_script_path w obj;
      Ok (with_database_prefix (database_name w (oe_db_id obj)) path)
  end.

(** ** Installing a layout ([layout.rs], [ingest.rs]) *)

Definition rebuild_layout_from_keys (keys : list object_key) (w : Workspace) : M Workspace :=
  if negb (Nat.eqb (length keys) (object_count w)) then Panic
  else
    let st := index_keys index_empty 0 keys in
    let w := w <| ws_object_rows := ix_rows st |> <| ws_object_keys := keys |>
               <| ws_key_index := ix_key_index st |> <| ws_fp_index := ix_fp_index st |> in
    w ← compact_sparse_maps w;
    rebuild_path_caches (invalidate_catalog_facts (clear_scan_staging w)).

Definition rebuild_layout_from_interned (w : Workspace) : M Workspace :=
  keys ← traverse (λ o, object_key_at w (oe_key_off o)) (ws_object_entries w);
  rebuild_layout_from_keys keys w.

Definition apply_finalized_entries (f : Finalized) (w : Workspace) : M Workspace :=
  let w := w <| ws_object_rows := fin_rows f |> <| ws_key_index := fin_key_index f |>
             <| ws_fp_index := fin_fp_index f |> <| ws_object_entries := fin_entries f |>
             <| ws_object_keys := fin_keys f |> in
  w ← compact_sparse_maps w;
  rebuild_path_caches (invalidate_catalog_facts (clear_scan_staging w)).

Definition entry_interned (e : ObjectEntry) : bool := negb (so_len (oe_key_off e) =? 0)%N.

Definition entries_are_interned (entries : list ObjectEntry) : bool :=
  match entries with [] => false | _ => forallb entry_interned entries end.

Definition finalize_object_layout (w : Workspace) : M Workspace :=
  if entries_are_interned (ws_object_entries w) then rebuild_layout_from_interned w
  else
    let entries := ws_object_entries w in
    let keys := ws_ingest_keys w in
    let w := w <| ws_object_entries := [] |> <| ws_ingest_keys := [] |> in
    f ← finalize_sorted_entries entries keys;
    apply_finalized_entries f w.

Definition adopt_dense_entries (pairs : list (object_key * ObjectEntry)) (w : Workspace)
    : M Workspace :=
  let keys := pairs.*1 in
  let entries := pairs.*2 in
  if entries_are_interned entries then
    let w := w <| ws_object_entries := entries |> <| ws_ingest_keys := keys |> in
    if bool_decide (ws_layout_arena w = None) then Ok w else rebuild_layout_from_interned w
  else
    f ← finalize_sorted_entries entries keys;
    apply_finalized_entries f w.

Definition rebuild_fp_index (w : Workspace) : Workspace :=
  w <| ws_fp_index := list_to_map (reverse
         (imap (λ i key, (key_fingerprint key, as_u32 (i + 1))) (ws_object_keys w))) |>.

(** ** Interning ([ws_register.rs], [ws_apply/], [ws_intern.rs]) *)

Definition opt_list {A} (o : option A) : list A := match o with Some a => [a] | None => [] end.

Definition object_strings (w : Workspace) (i : nat) : M (list string) :=
  obj ← ws_entry w i;
  key ← entry_key w i;
  path ← entry_script_path w obj;
  Ok [key; database_name w (oe_db_id obj); path].

Definition script_strings (w : Workspace) (i : nat) : M (list string) :=
  row ← or_panic (ws_script_rows w !! i);
  let id := as_u32 (i + 1) in
  path ← script_row_path_str w row id;
  abs ← script_row_abs_path w row id;
  Ok [path; abs].

Definition git_strings (st : ScriptGitStaging) : list string :=
  opt_list (sgs_hash st) ++ opt_list (sgs_author st) ++ opt_list (sgs_date st).

(** The strings [register_workspace_strings] registers, in order. *)
Definition workspace_strings (w : Workspace) : M (list string) :=
  objs ← traverse (object_strings w) (seq 0 (object_count w));
  scripts ← traverse (script_strings w) (seq 0 (length (ws_script_rows w)));
  Ok (concat objs ++ concat scripts
      ++ concat (map (λ r, git_strings r.2) (iter_order (ws_script_git_staging w)))
      ++ concat (map (λ r, concat (map (λ e, opt_list (te_staging_ord e)) r.2))
                     (iter_order (ws_transitions_by_row w)))
      ++ concat (map (λ s, [se_database s; se_name s; se_normalized s]) (ws_schemas w))).

Definition register_workspace_strings (w : Workspace) (b : StringArena) : M StringArena :=
  strs ← workspace_strings w; Ok (register_all strs b).

(** One entry of the second loop of [apply_object_entries]; the names and keys
    were copied out before [database_names] was cleared. *)
Definition apply_object_entry (arena : StringArena) (w : Workspace)
    (x : nat * (string * object_key)) : M Workspace :=
  let '(i, (db_name, key)) := x in
  db ← arena_get arena db_name;
  '(w, db_id) ← intern_database db w;
  off ← from_arena arena key;
  entries ← list_modify i (λ o, o <| oe_db_id := db_id |> <| oe_key_off := off |>)
              (ws_object_entries w);
  Ok (w <| ws_object_entries := entries |>).

Definition apply_object_entries (arena : StringArena) (w : Workspace) : M Workspace :=
  match ws_object_entries w with
  | [] => Ok w
  | entries =>
      keys ← traverse (entry_key w) (seq 0 (length entries));
      let db_names := map (λ o, database_name w (oe_db_id o)) entries in
      let w := w <| ws_database_names := [""] |> in
      w ← foldM (apply_object_entry arena) w (imap pair (zip db_names keys));
      Ok (w <| ws_ingest_keys := [] |>)
  end.

Definition apply_script_row (arena : StringArena) (w : Workspace) (i : nat) (row : ScriptRow)
    : M ScriptRow :=
  key ← or_panic (ws_ingest_script_keys w !! i);
  abs ← or_panic (ws_ingest_script_abs w !! i);
  path_off ← from_arena arena key;
  abs_off ← from_arena arena abs;
  Ok (row <| sr_path_off := path_off |> <| sr_abs_path_off := abs_off |>).

Definition apply_scripts (arena : StringArena) (w : Workspace) : M Workspace :=
  match ws_script_rows w with
  | [] => Ok w
  | rows =>
      rows ← traverse (λ x, apply_script_row arena w x.1 x.2) (imap pair rows);
      Ok (w <| ws_script_rows := rows |> <| ws_ingest_script_keys := [] |>
            <| ws_ingest_script_abs := [] |>)
  end.

Definition apply_transition_entry (arena : StringArena) (e : TransitionEntry)
    : M TransitionEntry :=
  match te_staging_ord e with
  | Some ord =>
      off ← from_arena arena ord;
      Ok (e <| te_staging_ord := None |> <| te_ord_off := off |>)
  | None => Ok e
  end.

Definition apply_transitions_arena (arena : StringArena) (w : Workspace) : M Workspace :=
  rows ← foldM (λ m r,
           es ← traverse (apply_transition_entry arena) r.2;
           Ok (<[r.1 := es]> m)) (ws_transitions_by_row w)
           (iter_order (ws_transitions_by_row w));
  Ok (w <| ws_transitions_by_row := rows |>).

Definition apply_schemas_arena (arena : StringArena) (w : Workspace) : M Workspace :=
  schemas ← traverse (λ s,
              db ← arena_get arena (se_database s);
              name ← arena_get arena (se_name s);
              normalized ← arena_get arena (se_normalized s);
              Ok (mk_SchemaEntry db name normalized)) (ws_schemas w);
  Ok (w <| ws_schemas := schemas |>).

Definition apply_workspace_strings (arena : StringArena) (w : Workspace) : M Workspace :=
  w ← apply_object_entries arena w;
  w ← apply_scripts arena w;
  w ← apply_transitions_arena arena w;
  apply_schemas_arena arena (invalidate_transition_paths w).

(** [apply_script_git_offs]: the staging map is taken and turned into offsets. *)
Definition git_off (arena : StringArena) (s : option string) (old : StrOff) : M StrOff :=
  match s with Some s => from_arena arena s | None => Ok old end.

Definition apply_script_git_offs (w : Workspace) : M Workspace :=
  match ws_layout_arena w with
  | None => Ok w
  | Some arena =>
      git ← foldM (λ m r,
              let old := default ScriptGit_default (m !! r.1) in
              h ← git_off arena (sgs_hash r.2) (sg_hash_off old);
              a ← git_off arena (sgs_author r.2) (sg_author_off old);
              d ← git_off arena (sgs_date r.2) (sg_date_off old);
              Ok (<[r.1 := mk_ScriptGit h a d]> m))
              (ws_script_git w) (iter_order (ws_script_git_staging w));
      Ok (w <| ws_script_git_staging := ∅ |> <| ws_script_git := git |>)
  end.

Definition install_layout_arena (arena : StringArena) (w : Workspace) : M Workspace :=
  w ← apply_workspace_strings arena w;
  w ← rebuild_script_key_index (w <| ws_layout_arena := Some arena |>);
  keys ← traverse (λ o, object_key_at w (oe_key_off o)) (ws_object_entries w);
  apply_script_git_offs (rebuild_fp_index (w <| ws_object_keys := keys |>)).

Definition intern_workspace_strings (w : Workspace) : M Workspace :=
  b ← register_workspace_strings w builder_new;
  install_layout_arena (finish b) w.

(** ** The view of one catalog database ([views/catalog.rs], [views/relink.rs]) *)

Definition relink_entry (child parent : Workspace) (e : TransitionEntry)
    : M (option TransitionEntry) :=
  sk ← script_key_of parent (te_script_id e);
  match ws_script_key_index child !! sk with
  | None => Ok None
  | Some child_id => ord ← transition_ord parent e; Ok (Some (new_staging ord child_id))
  end.

(** Remapped transitions of one parent row, in the child's script ids. *)
Definition relink_entries (child parent : Workspace) (entries : list TransitionEntry)
    : M (list TransitionEntry) :=
  mapped ← traverse (relink_entry child parent) entries;
  Ok (omap (M:=list) (λ x, x) mapped).

Definition relink_transition_step (parent : Workspace) (db : string) (w : Workspace)
    (r : N * list TransitionEntry) : M Workspace :=
  match row_index r.1 with
  | None => Ok w
  | Some idx =>
      match ws_object_entries parent !! idx with
      | None => Ok w
      | Some obj =>
          if negb (String.eqb (database_name parent (oe_db_id obj)) db) then Ok w
          else
            table_key ← entry_key parent idx;
            let child_row_id := key_index_of w table_key in
            if (child_row_id =? 0)%N then Ok w
            else
              mapped ← relink_entries w parent r.2;
              match mapped with
              | [] => Ok w
              | _ => Ok (w <| ws_transitions_by_row ::= <[child_row_id := mapped]> |>)
              end
      end
  end.

Definition relink_transitions_from (parent : Workspace) (db : string) (w : Workspace)
    : M Workspace :=
  foldM (relink_transition_step parent db) (w <| ws_transitions_by_row := ∅ |>)
    (iter_order (ws_transitions_by_row parent)).

Definition relink_parent_step (parent : Workspace) (db : string) (w : Workspace)
    (r : N * ParentRef) : M Workspace :=
  match row_index r.1 with
  | None => Ok w
  | Some cidx =>
      match ws_object_entries parent !! cidx with
      | None => Ok w
      | Some obj =>
          if negb (String.eqb (database_name parent (oe_db_id obj)) db) then Ok w
          else
            child_key ← entry_key parent cidx;
            let child_row_id := key_index_of w child_key in
            if (child_row_id =? 0)%N then Ok w
            else
              match row_index (parent_row_id r.2) with
              | None => Ok w
              | Some pidx =>
                  if Nat.leb (object_count parent) pidx then Ok w
                  else
                    parent_table_key ← entry_key parent pidx;
                    let child_parent_row := key_index_of w parent_table_key in
                    if (child_parent_row =? 0)%N then Ok w
                    else Ok (w <| ws_parent_by_row ::=
                               <[child_row_id := mk_ParentRef child_parent_row]> |>)
              end
      end
  end.

Definition relink_parents_from (parent : Workspace) (db : string) (w : Workspace)
    : M Workspace :=
  foldM (relink_parent_step parent db) (w <| ws_parent_by_row := ∅ |>)
    (iter_order (ws_parent_by_row parent)).

Abbreviation id_map := (gmap N N) (only parsing).

(** Scripts whose path lies under the database directory. *)
Definition copy_script (parent : Workspace) (prefix : string) (st : Workspace * id_map) (id : N)
    : M (Workspace * id_map) :=
  path ← script_path_str parent id;
  if starts_with prefix path then
    s ← script_to_ingest parent id;
    '(out, child_id) ← insert_script s st.1;
    Ok (out, <[id := child_id]> st.2)
  else Ok st.

(** Objects of the database, with their script re-inserted when its path did not
    have the database prefix. *)
Definition copy_object (parent : Workspace) (db : string) (db_id : N) (ids : id_map)
    (st : Workspace * list (object_key * ObjectEntry)) (x : nat * ObjectEntry)
    : M (Workspace * list (object_key * ObjectEntry)) :=
  let '(out, pairs) := st in
  let '(i, o) := x in
  if negb (String.eqb (database_name parent (oe_db_id o)) db) then Ok st
  else
    '(out, sid) ← match ids !! oe_script_id o with
                  | Some sid => Ok (out, sid)
                  | None =>
                      s ← script_to_ingest parent (oe_script_id o);
                      insert_script s out
                  end;
    key ← entry_key parent i;
    let e := o <| oe_key_off := StrOff_EMPTY |> <| oe_db_id := db_id |>
               <| oe_script_id := sid |> in
    Ok (out, pairs ++ [(key, e)]).

Definition for_catalog_database (w : Workspace) (db : string) : M Workspace :=
  let prefix := db +:+ "/" in
  let out := Workspace_default <| ws_root := ws_root w |>
    <| ws_layout_digest := ws_layout_digest w |>
    <| ws_schemas := filter (λ s, String.eqb (se_database s) db = true) (ws_schemas w) |> in
  '(out, db_id) ← intern_database db out;
  '(out, ids) ← foldM (copy_script w prefix) (out, ∅)
                  (map (λ i, as_u32 (i + 1)) (seq 0 (length (ws_script_rows w))));
  '(out, pairs) ← foldM (copy_object w db db_id ids) (out, [])
                    (imap pair (ws_object_entries w));
  out ← adopt_dense_entries pairs out;
  out ← relink_transitions_from w db out;
  out ← relink_parents_from w db out;
  out ← match ws_object_entries out with
        | [] => Ok out
        | _ => intern_workspace_strings out
        end;
  rebuild_path_caches out.
End layout.

(** ** The indexes *)

(** Positions (one-based) of the last key with each image under [g]. *)
Definition index_of {K} `{Countable K} (g : object_key → K) (keys : list object_key) : gmap K N :=
  list_to_map (reverse (imap (λ i key, (g key, as_u32 (i + 1))) keys)).

Section index_of.
Context {K} `{Countable K} (g : object_key → K).

Lemma index_of_snoc keys k :
  index_of g (keys ++ [k]) = <[g k := as_u32 (length keys + 1)]> (index_of g keys).
Proof.
  unfold index_of. rewrite imap_app, reverse_app. cbn. by rewrite Nat.add_0_r.
Qed.

Lemma index_of_Some keys x id :
  (N.of_nat (length keys) < u32_size)%N → index_of g keys !! x = Some id →
  ∃ i k, id = (N.of_nat i + 1)%N ∧ keys !! i = Some k ∧ g k = x ∧
    ∀ j k', keys !! j = Some k' → g k' = x → j ≤ i.
Proof.
  induction keys as [|k keys IH] using rev_ind; intros Hb; [done|].
  rewrite length_app in Hb. cbn in Hb.
  rewrite index_of_snoc, lookup_insert_Some. intros [[<- <-]|[Hne Hlk]].
  - exists (length keys), k. rewrite as_u32_small, Nat2N.inj_add by lia. split_and!; try done.
    + by rewrite lookup_app_r, Nat.sub_diag.
    + intros j k' Hj _. apply lookup_lt_Some in Hj. rewrite length_app in Hj. cbn in Hj. lia.
  - apply IH in Hlk as (i & k1 & -> & Hi & Hk1 & Hlast); [|lia].
    exists i, k1. split_and!; [done|by apply lookup_app_l_Some|done|].
    intros j k' [Hj|[Hge Hj]]%lookup_app_Some Hk'; [by eapply Hlast|].
    apply list_lookup_singleton_Some in Hj as [_ ->]. done.
Qed.

Lemma index_of_is_Some keys x : is_Some (index_of g keys !! x) ↔ x ∈ g <$> keys.
Proof.
  induction keys as [|k keys IH] using rev_ind.
  - split; [by intros []|by intros ?%elem_of_nil].
  - rewrite index_of_snoc, lookup_insert_is_Some', fmap_app, elem_of_app, IH.
    cbn. rewrite list_elem_of_singleton. intuition.
Qed.

Lemma index_of_NoDup keys x id :
  (N.of_nat (length keys) < u32_size)%N → NoDup (g <$> keys) →
  index_of g keys !! x = Some id ↔
    ∃ i k, id = (N.of_nat i + 1)%N ∧ keys !! i = Some k ∧ g k = x.
Proof.
  intros Hb Hnd. split.
  - intros (i & k & ? & ? & ? & _)%index_of_Some; eauto.
  - intros (i & k & -> & Hk & <-).
    destruct (index_of g keys !! g k) as [id|] eqn:Hlk.
    + apply index_of_Some in Hlk as (j & k' & -> & Hk' & Heq & _); [|done].
      do 2 f_equal. cut (j = i); [by intros ->|].
      eapply NoDup_lookup; [exact Hnd| |]; rewrite list_lookup_fmap; [by rewrite Hk'|].
      rewrite Hk. cbn. congruence.
    + exfalso. apply (not_elem_of_nil (A:=unit) tt).
      assert (is_Some (index_of g keys !! g k)) as [? ?]; [|congruence].
      apply index_of_is_Some, list_elem_of_fmap. exists k. split; [done|].
      by eapply list_elem_of_lookup_2.
Qed.
End index_of.

#[global] Arguments staged_row_entries : simpl never.

Section layout_facts.
Context `{HU : Unicode} `{HF : Fingerprint} `{HM : MapOrder}.

Lemma index_keys_snoc st i keys k :
  index_keys st i (keys ++ [k]) = index_key (index_keys st i keys) (i + length keys) k.
Proof.
  revert st i. induction keys as [|k' keys IH]; intros st i; cbn; [by rewrite Nat.add_0_r|].
  rewrite IH. f_equal. lia.
Qed.

Lemma index_keys_maps keys :
  ix_key_index (index_keys index_empty 0 keys) = index_of (λ k, k) keys ∧
  ix_fp_index (index_keys index_empty 0 keys) = index_of key_fingerprint keys.
Proof.
  induction keys as [|k keys IH] using rev_ind; [done|].
  rewrite index_keys_snoc, !index_of_snoc. unfold index_key.
  destruct (schema_id_for _ _). cbn. destruct IH as [-> ->]. done.
Qed.

(** What the schema-id table holds after the keys of [keys]. *)
Record schema_ids_ok (keys : list object_key) (ids : gmap string N) : Prop := {
  sid_dom : ∀ s, is_Some (ids !! s) ↔ s ≠ "" ∧ s ∈ schema_part <$> keys;
  sid_inj : ∀ s1 s2 id, ids !! s1 = Some id → ids !! s2 = Some id → s1 = s2;
  sid_range : ∀ s id, ids !! s = Some id → (0 < id <= N.of_nat (size ids))%N;
}.

Definition distinct_schemas (keys : list object_key) : gset string :=
  list_to_set (schema_part <$> keys).

Lemma schema_ids_size keys ids :
  schema_ids_ok keys ids → size ids ≤ size (distinct_schemas keys).
Proof.
  intros Hok. rewrite <-size_dom. apply subseteq_size. intros s Hs%elem_of_dom.
  apply (sid_dom _ _ Hok) in Hs. unfold distinct_schemas. set_solver.
Qed.

Lemma distinct_schemas_mono keys k :
  size (distinct_schemas keys) ≤ size (distinct_schemas (keys ++ [k])).
Proof.
  apply subseteq_size. unfold distinct_schemas. rewrite fmap_app, list_to_set_app. set_solver.
Qed.

Lemma schema_ids_ok_insert keys k ids :
  schema_ids_ok keys ids → schema_part k ≠ "" → ids !! schema_part k = None →
  schema_ids_ok (keys ++ [k]) (<[schema_part k := (N.of_nat (size ids) + 1)%N]> ids).
Proof.
  intros [Hd Hi Hr] Hne Hlk.
  assert (∀ s, ids !! s ≠ Some (N.of_nat (size ids) + 1)%N) as Hfresh
    by (intros s Hs%Hr; lia).
  split.
  - intros s. rewrite lookup_insert_is_Some', Hd, fmap_app, elem_of_app. cbn.
    rewrite list_elem_of_singleton.
    split; [intros [<-|[? ?]]; auto|intros [? [?|?]]; [by right|by left]].
  - intros s1 s2 id. rewrite !lookup_insert_Some.
    intros [[<- <-]|[Hn1 H1']] [[<- Hid2]|[Hn2 H2']]; [done| | |by eapply Hi].
    + by apply Hfresh in H2'.
    + subst id. by apply Hfresh in H1'.
  - intros s id. rewrite map_size_insert_None by done.
    intros [[_ <-]|[_ Hs%Hr]]%lookup_insert_Some; lia.
Qed.

Lemma schema_id_for_ok keys k ids ids' id :
  schema_ids_ok keys ids → (N.of_nat (size (distinct_schemas (keys ++ [k]))) < 65535)%N →
  schema_id_for (schema_part k) ids = (ids', id) →
  schema_ids_ok (keys ++ [k]) ids' ∧ ids ⊆ ids' ∧
  (if String.eqb (schema_part k) "" then id = 0%N else ids' !! schema_part k = Some id).
Proof.
  intros Hok Hsz. unfold schema_id_for. destruct (String.eqb_spec (schema_part k) "") as [He|Hne].
  { intros [= <- <-]. split_and!; [|done|done]. destruct Hok as [Hd Hi Hr].
    split; [|done|done]. intros s. rewrite Hd, fmap_app. set_solver. }
  destruct (ids !! schema_part k) as [id0|] eqn:Hlk; intros [= <- <-].
  { split_and!; [|done|done]. destruct Hok as [Hd Hi Hr]. split; [|done|done].
    intros s. rewrite fmap_app, elem_of_app. cbn. rewrite list_elem_of_singleton, Hd.
    split; [intros [? ?]; auto|]. intros [? [?| ->]]; [done|]. apply Hd. eauto. }
  pose proof (schema_ids_size _ _ Hok) as Hle. pose proof (distinct_schemas_mono keys k) as Hmono.
  assert (as_u16 (size ids + 1) = N.of_nat (size ids) + 1)%N as ->
    by (unfold as_u16; rewrite N.mod_small by lia; lia).
  split_and!; [by apply schema_ids_ok_insert|by apply insert_subseteq|by rewrite lookup_insert_eq].
Qed.

(** The row that the final schema-id table gives a key. *)
Definition row_of_key (ids : gmap string N) (k : object_key) (r : ObjectRow) : Prop :=
  or_kind_code r = kind_code (kind_part k) ∧
  if String.eqb (schema_part k) "" then or_schema_id r = 0%N
  else ids !! schema_part k = Some (or_schema_id r).

Lemma row_of_key_mono ids ids' k r : ids ⊆ ids' → row_of_key ids k r → row_of_key ids' k r.
Proof.
  intros Hsub [? Hs]. split; [done|]. destruct (String.eqb _ _); [done|].
  by eapply lookup_weaken.
Qed.

Lemma index_keys_rows keys :
  (N.of_nat (size (distinct_schemas keys)) < 65535)%N →
  let st := index_keys index_empty 0 keys in
  schema_ids_ok keys (ix_schema_ids st) ∧
  Forall2 (row_of_key (ix_schema_ids st)) keys (ix_rows st).
Proof.
  induction keys as [|k keys IH] using rev_ind; intros Hsz.
  { cbn. split; [|constructor]. split; cbn; [|done|done]. intros s. rewrite lookup_empty.
    split; [by intros []|by intros [_ ?%elem_of_nil]]. }
  destruct IH as [Hok Hrows].
  { pose proof (distinct_schemas_mono keys k). lia. }
  cbv zeta. rewrite index_keys_snoc. unfold index_key.
  destruct (schema_id_for _ _) as [ids' id] eqn:Hsid. cbn.
  destruct (schema_id_for_ok _ _ _ _ _ Hok Hsz Hsid) as (Hok' & Hsub & Hid).
  split; [done|]. apply Forall2_app.
  - eapply Forall2_impl; [exact Hrows|]. intros; by eapply row_of_key_mono.
  - constructor; [|constructor]. split; [done|]. cbn. by destruct (String.eqb _ _).
Qed.

Lemma rows_schema_inj keys ids i j k1 k2 r1 r2 rows :
  schema_ids_ok keys ids → Forall2 (row_of_key ids) keys rows →
  keys !! i = Some k1 → rows !! i = Some r1 → keys !! j = Some k2 → rows !! j = Some r2 →
  or_schema_id r1 = or_schema_id r2 ↔ schema_part k1 = schema_part k2.
Proof.
  intros Hok Hf Hk1 Hr1 Hk2 Hr2.
  destruct (Forall2_lookup_lr _ _ _ _ _ _ Hf Hk1 Hr1) as [_ H1].
  destruct (Forall2_lookup_lr _ _ _ _ _ _ Hf Hk2 Hr2) as [_ H2].
  destruct (String.eqb_spec (schema_part k1) "") as [E1|E1],
    (String.eqb_spec (schema_part k2) "") as [E2|E2].
  - split; congruence.
  - apply (sid_range _ _ Hok) in H2. split; [intros; exfalso; lia|congruence].
  - apply (sid_range _ _ Hok) in H1. split; [intros; exfalso; lia|congruence].
  - split; [|congruence]. intros Heq. eapply (sid_inj _ _ Hok); [exact H1|congruence].
Qed.

Lemma pair_leb_total a b : pair_leb a b = true ∨ pair_leb b a = true.
Proof. unfold pair_leb. apply String.leb_total. Qed.
Lemma pair_leb_trans a b c : pair_leb a b = true → pair_leb b c = true → pair_leb a c = true.
Proof. unfold pair_leb. apply leb_trans. Qed.

(** Finalising a layout sorts the objects by key without losing or inventing
    any, gives every object the kind code of its key and a schema id that is
    equal exactly for equal schemas, and builds an index that maps each key to
    the one-based position of its (last) row. *)
Theorem finalize_sorted_entries_spec entries keys :
  length entries = length keys → (N.of_nat (length keys) < u32_size)%N →
  (N.of_nat (size (distinct_schemas keys)) < 65535)%N →
  ∃ f, finalize_sorted_entries entries keys = Ok f ∧
    zip (fin_keys f) (fin_entries f) ≡ₚ zip keys entries ∧
    StronglySorted String.leb (fin_keys f) ∧
    length (fin_rows f) = length (fin_keys f) ∧
    (∀ i j ki kj ri rj, fin_keys f !! i = Some ki → fin_rows f !! i = Some ri →
       fin_keys f !! j = Some kj → fin_rows f !! j = Some rj →
       or_kind_code ri = kind_code (kind_part ki) ∧
       (or_schema_id ri = or_schema_id rj ↔ schema_part ki = schema_part kj)) ∧
    (∀ k, is_Some (fin_key_index f !! k) ↔ k ∈ keys) ∧
    (∀ k id, fin_key_index f !! k = Some id →
       ∃ i, id = (N.of_nat i + 1)%N ∧ fin_keys f !! i = Some k ∧
         ∀ j, fin_keys f !! j = Some k → j ≤ i).
Proof.
  intros Hlen Hb Hsz. unfold finalize_sorted_entries. rewrite Hlen, Nat.eqb_refl. cbn.
  set (ps := sort_by pair_leb (zip keys entries)).
  assert (ps ≡ₚ zip keys entries) as Hperm by apply sort_by_perm.
  assert (ps.*1 ≡ₚ keys) as Hpk by (rewrite Hperm, fst_zip; [done|lia]).
  assert (distinct_schemas ps.*1 = distinct_schemas keys) as Hds
    by (unfold distinct_schemas; apply leibniz_equiv; by rewrite Hpk).
  destruct (index_keys_rows ps.*1) as [Hok Hrows]; [by rewrite Hds|].
  destruct (index_keys_maps ps.*1) as [Hki _].
  eexists. split; [done|]. cbn. split_and!.
  - by rewrite zip_fst_snd.
  - apply (StronglySorted_proj fst), sort_by_sorted; [apply pair_leb_total|apply pair_leb_trans].
  - by rewrite <-(Forall2_length _ _ _ Hrows).
  - intros i j ki kj ri rj Hki' Hri Hkj Hrj. split.
    + by destruct (Forall2_lookup_lr _ _ _ _ _ _ Hrows Hki' Hri).
    + by eapply rows_schema_inj.
  - intros k. rewrite Hki, index_of_is_Some, list_fmap_id. by rewrite Hpk.
  - intros k id. rewrite Hki. intros (i & k' & -> & Hi & -> & Hlast)%index_of_Some.
    + exists i. split_and!; [done|done|]. intros j Hj. by eapply Hlast.
    + by rewrite Hpk.
Qed.

(** ** Staged transitions reach the table of their own database *)

Lemma intern_database_known w db i :
  databases_wf w → slot_of w db = Some i → intern_database db w = Ok (w, as_u16 i).
Proof.
  intros Hw Hs. unfold intern_database. destruct (String.eqb_spec db "") as [->|Hne].
  - cut (i = 0); [by intros ->|]. apply (slot_of_Some w "" i Hw) in Hs.
    eapply NoDup_lookup; [apply Hw|exact Hs|]. destruct Hw as [Hh _ _].
    destruct (ws_database_names w) as [|x l]; [done|]. cbn in *. by injection Hh as ->.
  - unfold slot_of in Hs. destruct (list_find _ _) as [[j d]|]; [|done]. cbn in Hs. congruence.
Qed.

(** The group staged for a table, as the row entry it becomes. *)
Definition staged_row (w : Workspace) (db_rows : gmap (N * N) N)
    (staged : (string * object_key) * list (string * script_key))
    : option (N * list TransitionEntry) :=
  slot ← slot_of w staged.1.1;
  id ← db_rows !! (as_u16 slot, key_fingerprint staged.1.2);
  if (id =? 0)%N then None
  else match staged_row_entries w staged.2 with [] => None | es => Some (id, es) end.

Lemma compact_step_pure w0 db_rows w staged :
  databases_wf w → is_Some (slot_of w staged.1.1) →
  ws_database_names w0 = ws_database_names w →
  ws_script_key_index w0 = ws_script_key_index w →
  compact_step db_rows w staged =
    Ok (w <| ws_transitions_by_row ::= λ m, fill_step (staged_row w0 db_rows) m staged |>).
Proof.
  intros Hw [i Hi] Hd Hs. destruct staged as [[db key] entries]. cbn in Hi |- *.
  rewrite (intern_database_known w db i) by done. cbn.
  unfold fill_step, staged_row, slot_of, staged_row_entries in *. cbn. rewrite Hd, Hs.
  rewrite Hi. cbn.
  destruct (db_rows !! _) as [id|]; cbn; [|by destruct w].
  destruct (id =? 0)%N; [by destruct w|].
  destruct (omap _ entries); [by destruct w|done].
Qed.

(** Objects aligned with their keys, distinct per database even by fingerprint. *)
Record rows_wf (w : Workspace) : Prop := {
  rows_aligned : length (ws_object_keys w) = length (ws_object_entries w);
  rows_small : (N.of_nat (length (ws_object_entries w)) < u32_size)%N;
  rows_db_small : ∀ i o, ws_object_entries w !! i = Some o → (oe_db_id o < 65536)%N;
  rows_distinct : ∀ i j o o' k k',
    ws_object_entries w !! i = Some o → ws_object_keys w !! i = Some k →
    ws_object_entries w !! j = Some o' → ws_object_keys w !! j = Some k' →
    oe_db_id o = oe_db_id o' → key_fingerprint k = key_fingerprint k' → i = j;
}.

Lemma entry_key_aligned w i :
  length (ws_object_keys w) = length (ws_object_entries w) → i < length (ws_object_entries w) →
  entry_key w i = or_panic (ws_object_keys w !! i).
Proof. intros Ha Hi. unfold entry_key. by rewrite Ha, (proj2 (Nat.ltb_lt _ _)). Qed.

Definition db_row (w : Workspace) (i : nat) : option ((N * N) * N) :=
  o ← ws_object_entries w !! i; k ← ws_object_keys w !! i;
  Some ((oe_db_id o, key_fingerprint k), as_u32 (i + 1)).

Lemma db_rows_of_spec w :
  rows_wf w → ∃ m, db_rows_of w = Ok m ∧
    ∀ d f id, m !! (d, f) = Some id ↔
      ∃ i o k, id = (N.of_nat i + 1)%N ∧ ws_object_entries w !! i = Some o ∧
        ws_object_keys w !! i = Some k ∧ oe_db_id o = d ∧ key_fingerprint k = f.
Proof.
  intros Hw. eexists. split.
  - apply (foldM_pure (fill_step (db_row w))). intros m i Hi%elem_of_seq.
    rewrite entry_key_aligned by (try apply Hw; lia). unfold fill_step, db_row.
    destruct (lookup_lt_is_Some_2 (ws_object_entries w) i) as [o ->]; [lia|].
    destruct (lookup_lt_is_Some_2 (ws_object_keys w) i) as [k ->];
      [by rewrite (rows_aligned _ Hw); lia|]. done.
  - intros d f id. rewrite fill_map_lookup.
    + unfold db_row. split.
      * intros (i & Hi%elem_of_seq & Hr). exists i.
        destruct (ws_object_entries w !! i) as [o|]; [|done].
        destruct (ws_object_keys w !! i) as [k|]; [|done]. cbn in Hr.
        injection Hr as <- <- <-. pose proof (rows_small _ Hw).
        exists o, k. rewrite as_u32_small, Nat2N.inj_add by lia. done.
      * intros (i & o & k & -> & Ho & Hk & <- & <-). exists i.
        apply lookup_lt_Some in Ho as Hi. split; [apply elem_of_seq; lia|].
        rewrite Ho, Hk. cbn. pose proof (rows_small _ Hw).
        by rewrite as_u32_small, Nat2N.inj_add by lia.
    + intros i j p v v' _ _. unfold db_row.
      destruct (ws_object_entries w !! i) as [o|] eqn:Ho; [|done].
      destruct (ws_object_keys w !! i) as [k|] eqn:Hk; [|done].
      destruct (ws_object_entries w !! j) as [o'|] eqn:Ho'; [|done].
      destruct (ws_object_keys w !! j) as [k'|] eqn:Hk'; [|done]. cbn.
      intros [= <- <-] [= Hd Hf <-]. do 2 f_equal.
      by eapply (rows_distinct _ Hw).
Qed.

(** Every staged group names a known database, and no two groups of one table
    name the same database in different cases. *)
Record staging_wf (w : Workspace) : Prop := {
  stg_db : ∀ db key g, ws_transitions_staging w !! (db, key) = Some g → is_Some (slot_of w db);
  stg_case : ∀ db db' key g key' g' i,
    ws_transitions_staging w !! (db, key) = Some g →
    ws_transitions_staging w !! (db', key') = Some g' →
    key_fingerprint key = key_fingerprint key' →
    slot_of w db = Some i → slot_of w db' = Some i → (db, key) = (db', key');
}.

Lemma slot_small w db i : databases_wf w → slot_of w db = Some i → (N.of_nat i < 65536)%N.
Proof.
  intros Hw Hs. apply (slot_of_Some w db i Hw), lookup_lt_Some in Hs.
  rewrite length_fmap in Hs. pose proof (dbs_bound _ Hw) as Hb. unfold u16_max in Hb. lia.
Qed.

Lemma as_u16_of_N n : (n < 65536)%N → as_u16 (N.to_nat n) = n.
Proof. intros. unfold as_u16. rewrite N2Nat.id. by apply N.mod_small. Qed.

Lemma as_u16_inj i j :
  (N.of_nat i < 65536)%N → (N.of_nat j < 65536)%N → as_u16 i = as_u16 j → i = j.
Proof. intros ?? E. rewrite <-(as_u16_small i), <-(as_u16_small j) by done. by rewrite E. Qed.

Lemma compact_fold w0 rows w l :
  databases_wf w → ws_database_names w0 = ws_database_names w →
  ws_script_key_index w0 = ws_script_key_index w →
  (∀ x, x ∈ l → is_Some (slot_of w0 x.1.1)) →
  foldM (compact_step rows) w l =
    Ok (w <| ws_transitions_by_row ::=
          λ m, foldl (fill_step (staged_row w0 rows)) m l |>).
Proof.
  revert w. induction l as [|x l IH]; intros w Hw Hn Hs Hl; cbn; [by destruct w|].
  rewrite (compact_step_pure w0) by (try done;
    unfold slot_of; rewrite <-Hn; apply (Hl x); by left). cbn.
  rewrite IH; [done|by destruct Hw; split|done|done|]. intros y Hy. apply Hl. by right.
Qed.

(** Row ids of [db_rows] are one-based, so never the sentinel. *)
Lemma staged_row_Some w rows db key g id es :
  (∀ d f id, rows !! (d, f) = Some id → id ≠ 0%N) →
  staged_row w rows ((db, key), g) = Some (id, es) ↔
    ∃ slot, slot_of w db = Some slot ∧ rows !! (as_u16 slot, key_fingerprint key) = Some id ∧
      es = staged_row_entries w g ∧ es ≠ [].
Proof.
  intros H0. unfold staged_row. cbn. destruct (slot_of w db) as [slot|]; cbn;
    [|split; [done|by intros (? & ? & _)]].
  destruct (rows !! _) as [id'|] eqn:Hid; cbn; [|split; [done|]; intros (? & [= <-] & ? & _); congruence].
  apply H0 in Hid as Hnz. rewrite (proj2 (N.eqb_neq _ _) Hnz).
  destruct (staged_row_entries w g) as [|e es'] eqn:He.
  - split; [done|]. intros (? & _ & _ & -> & ?). done.
  - split; [intros [= -> <-]; eauto 6|]. intros (? & [= <-] & Hr & -> & _). congruence.
Qed.

(** Compacting staged transitions gives each table row exactly the migration
    scripts staged for that table in that table's own database: a row has
    entries iff a group was staged under its database and key with at least one
    registered script, and the entries are that group's, in staging order. *)
Theorem compact_transitions_spec w :
  databases_wf w → rows_wf w → staging_wf w →
  ∃ w', compact_transitions w = Ok w' ∧ ws_transitions_staging w' = ∅ ∧
    ∀ row_id es, ws_transitions_by_row w' !! row_id = Some es ↔
      ∃ i o k db key g, row_id = (N.of_nat i + 1)%N ∧
        ws_object_entries w !! i = Some o ∧ ws_object_keys w !! i = Some k ∧
        ws_transitions_staging w !! (db, key) = Some g ∧
        slot_of w db = Some (N.to_nat (oe_db_id o)) ∧
        key_fingerprint key = key_fingerprint k ∧
        es = staged_row_entries w g ∧ es ≠ [].
Proof.
  intros Hd Hr Hs. unfold compact_transitions.
  set (w1 := w <| ws_transitions_staging := ∅ |> <| ws_transitions_by_row := ∅ |>).
  destruct (db_rows_of_spec w Hr) as (rows & Hrows & Hm).
  change (db_rows_of w1) with (db_rows_of w). rewrite Hrows. cbn.
  assert (foldM (compact_step rows) w1 (iter_order (ws_transitions_staging w)) =
    Ok (w1 <| ws_transitions_by_row :=
      foldl (fill_step (staged_row w rows)) ∅ (iter_order (ws_transitions_staging w)) |>)) as ->.
  { apply (compact_fold w rows w1); [by destruct Hd; split|done|done|]. intros [[db key] g] Hin%iter_order_elem.
    by eapply (stg_db _ Hs). }
  assert (∀ d f id, rows !! (d, f) = Some id → id ≠ 0%N) as H0
    by (intros d f id (i & _ & _ & -> & _)%Hm; lia).
  eexists. split; [done|]. split; [done|]. intros row_id es. cbn.
  rewrite fill_map_lookup.
  - split.
    + intros ([[db key] g] & Hin%iter_order_elem & Hrow).
      apply staged_row_Some in Hrow as (slot & Hslot & Hid & -> & Hne); [|done].
      apply Hm in Hid as (i & o & k & -> & Ho & Hk & Hdb & Hf).
      exists i, o, k, db, key, g. rewrite Hdb, as_u16_small by (by eapply slot_small). done.
    + intros (i & o & k & db & key & g & -> & Ho & Hk & Hg & Hslot & Hf & -> & Hne).
      exists ((db, key), g). split; [by apply iter_order_elem|].
      apply staged_row_Some; [done|]. eexists. split; [done|]. split_and!; [|done|done].
      apply Hm. exists i, o, k. split_and!; try done.
      rewrite as_u16_of_N; [done|]. by eapply (rows_db_small _ Hr).
  - intros [[db key] g] [[db' key'] g'] id v v' Hin%iter_order_elem Hin'%iter_order_elem.
    intros (i & Hi & Hid & -> & _)%staged_row_Some (j & Hj & Hid' & -> & _)%staged_row_Some; [|done..].
    enough ((db, key) = (db', key')) as [= <- <-] by congruence.
    apply Hm in Hid as (a & o & k & -> & Ho & Hk & Hdb & Hf).
    apply Hm in Hid' as (a' & o' & k' & Ha & Ho' & Hk' & Hdb' & Hf').
    assert (a' = a) as -> by lia. simplify_eq.
    eapply (stg_case _ Hs); [done|done|congruence|exact Hi|].
    rewrite Hj. f_equal. apply as_u16_inj; [by eapply slot_small..|congruence].
Qed.
End layout_facts.

(** ** Evaluated on concrete layouts *)

#[local] Existing Instances Concrete.unicode Concrete.fingerprint Concrete.map_order.

Module Sample.

Definition obj (script_id db_id : N) : ObjectEntry :=
  mk_ObjectEntry zero_digest StrOff_EMPTY script_id db_id 0.

(** The table [dbo/tables/t] exists in databases [A] and [B], each with one
    staged migration of the same ordinal. *)
Definition two_databases : Workspace :=
  Workspace_default
    <| ws_database_names := [""; "A"; "B"] |>
    <| ws_object_entries := [obj 1 1; obj 2 2] |>
    <| ws_object_keys := ["dbo/tables/t"; "dbo/tables/t"] |>
    <| ws_script_key_index := {[ "A/m.sql" := 3%N; "B/m.sql" := 4%N ]} |>
    <| ws_transitions_staging :=
         {[ ("A", "dbo/tables/t") := [("001", "A/m.sql")];
            ("B", "dbo/tables/t") := [("001", "B/m.sql")] ]} |>.

Lemma two_databases_wf :
  databases_wf two_databases ∧ rows_wf two_databases ∧ staging_wf two_databases.
Proof.
  split_and!.
  - split; [done| |done]. apply (bool_decide_unpack _). by vm_compute.
  - split; [done|done| |].
    + intros [|[|i]] o; cbn; by intros [= <-].
    + intros [|[|i]] [|[|j]] o o' k k'; cbn; intros [= <-] [= <-] [= <-] [= <-]; done.
  - assert (∀ db key g, ws_transitions_staging two_databases !! (db, key) = Some g →
      (db = "A" ∨ db = "B") ∧ key = "dbo/tables/t") as Hdb.
    { intros db key g. cbn. rewrite lookup_insert_Some, lookup_singleton_Some.
      intros [[[= <- <-] _]|[_ [[= <- <-] _]]]; auto. }
    split.
    + intros db key g [[->| ->] _]%Hdb; eexists; by vm_compute.
    + intros db db' key g key' g' i [[->| ->] ->]%Hdb [[->| ->] ->]%Hdb _; [done| | |done];
        intros E1 E2; exfalso; vm_compute in E1, E2; congruence.
Qed.
End Sample.

Lemma finalize_sorted_entries_spec_witness :
  let entries := [Sample.obj 1 1; Sample.obj 2 1] in
  let keys := ["dbo/views/v"; "dbo/tables/t"] in
  ∃ f, finalize_sorted_entries entries keys = Ok f ∧
    zip (fin_keys f) (fin_entries f) ≡ₚ zip keys entries ∧
    StronglySorted String.leb (fin_keys f) ∧
    length (fin_rows f) = length (fin_keys f) ∧
    (∀ i j ki kj ri rj, fin_keys f !! i = Some ki → fin_rows f !! i = Some ri →
       fin_keys f !! j = Some kj → fin_rows f !! j = Some rj →
       or_kind_code ri = kind_code (kind_part ki) ∧
       (or_schema_id ri = or_schema_id rj ↔ schema_part ki = schema_part kj)) ∧
    (∀ k, is_Some (fin_key_index f !! k) ↔ k ∈ keys) ∧
    (∀ k id, fin_key_index f !! k = Some id →
       ∃ i, id = (N.of_nat i + 1)%N ∧ fin_keys f !! i = Some k ∧
         ∀ j, fin_keys f !! j = Some k → j ≤ i).
Proof.
  exact (finalize_sorted_entries_spec
    [Sample.obj 1 1; Sample.obj 2 1] ["dbo/views/v"; "dbo/tables/t"] eq_refl eq_refl eq_refl).
Defined.

Lemma compact_transitions_spec_witness :
  let w := Sample.two_databases in
  ∃ w', compact_transitions w = Ok w' ∧
    ws_transitions_staging w' = ∅ ∧
    ∀ row_id es, ws_transitions_by_row w' !! row_id = Some es ↔
      ∃ i o k db key g, row_id = (N.of_nat i + 1)%N ∧
        ws_object_entries w !! i = Some o ∧ ws_object_keys w !! i = Some k ∧
        ws_transitions_staging w !! (db, key) = Some g ∧
        slot_of w db = Some (N.to_nat (oe_db_id o)) ∧
        key_fingerprint key = key_fingerprint k ∧
        es = staged_row_entries w g ∧ es ≠ [].
Proof.
  destruct Sample.two_databases_wf as (Hd & Hr & Hs).
  exact (compact_transitions_spec
           Sample.two_databases Hd Hr Hs).
Defined.

(** Two directories that differ only in case share database slot 1, so the path
    built for the second object carries the first one's spelling and was never
    interned: building the object path cache panics. *)
Definition case_variant_scan : M Workspace :=
  '(w, sales) ← intern_database "Sales" Workspace_default;
  '(w, sales') ← intern_database "sales" w;
  '(w, a) ← insert_script (mk_Script "Sales/dbo/views/a.sql" SkObject "/r/Sales/a.sql" None) w;
  '(w, b) ← insert_script (mk_Script "sales/dbo/views/b.sql" SkObject "/r/sales/b.sql" None) w;
  w ← push_object "dbo/views/a" (Sample.obj a sales) w;
  w ← push_object "dbo/views/b" (Sample.obj b sales') w;
  w ← finalize_object_layout w;
  intern_workspace_strings w.

Lemma case_variant_path_panics :
  is_Ok case_variant_scan ∧ (w ← case_variant_scan; rebuild_object_path_cache w) = Panic.
Proof.
  split; [|by vm_compute].
  destruct case_variant_scan as [w|e|] eqn:E; [by exists w|exfalso; by vm_compute in E..].
Qed.
