(* ===== verification/Scan.v ===== *)
(** * Scanning the repository tree

    [scan/parse_object.rs], [scan/parse.rs], [scan/parse_parallel.rs],
    [scan/transition.rs], [scan/walk.rs] and [scan/digest.rs].  The file system is
    a tree of [FsNode]s; a path below the root is its list of components, which is
    also how [PathBuf] orders.  Warnings and elapsed times are not modelled. *)

From S2P Require Export SqlIdent Layout.
From Stdlib Require Import Ascii.
From Stdlib Require String.

Definition CR : ascii := "013"%char.
Definition LF : ascii := "010"%char.

(** ** Content checksum *)

(** [iter().position(|b| b == c)]. *)
Fixpoint position (c : ascii) (s : string) : option nat :=
  match s with
  | EmptyString => None
  | String d s' => if bool_decide (d = c) then Some 0 else S <$> position c s'
  end.

(** The [while let] loop: the state is the bytes fed to the hasher and the rest
    of the input; every turn consumes at least one byte. *)
Fixpoint checksum_loop (fuel : nat) (fed rest : string) : string :=
  match fuel with
  | 0 => fed +:+ rest
  | S fuel =>
      match position CR rest with
      | None => fed +:+ rest
      | Some pos =>
          let after := str_drop (pos + 1) rest in
          if starts_with (String LF "") after
          then checksum_loop fuel (fed +:+ str_take pos rest +:+ String LF "")
                 (str_drop (pos + 2) rest)
          else checksum_loop fuel (fed +:+ str_take (pos + 1) rest) after
      end
  end.

Section scan.
Context `{HU : Unicode} `{HF : Fingerprint} `{HM : MapOrder} `{HS : Sha256}.

Definition content_checksum (data : string) : digest :=
  sha256 (checksum_loop (String.length data) "" data).

(** ** File names *)

Definition strip_sql_ext (file : string) : string :=
  let n := String.length file in
  if Nat.leb 4 n && is_char_boundary (n - 4) file
     && eq_ignore_ascii_case (str_drop (n - 4) file) ".sql"
  then str_take (n - 4) file else file.

Definition is_check_path (rel : string) : bool :=
  match split_on "/" rel with
  | [_; c; f] => String.eqb c "checks" && negb (String.eqb f "")
  | [_; _; c; f] => String.eqb c "checks" && negb (String.eqb f "")
  | _ => false
  end.

(** ** Objects *)

Abbreviation ParsedObject := (object_key * ObjectEntry * Script)%type (only parsing).
Abbreviation item := (string * string)%type (only parsing).
Abbreviation schema_map := (gmap (string * string) SchemaEntry) (only parsing).

(** [parts[parts.len() - k]], for [k] at most the length. *)
Definition from_end (parts : list string) (k : nat) : string :=
  default "" (parts !! (length parts - k)).

Section files.
(** [std::fs::read]; [Err] is [Error::Io]. *)
Context (fs_read : string → M string).

Definition file_checksum (path : string) : M digest := content_checksum <$> fs_read path.

Definition parse_object (rel abs : string) : M (option ParsedObject) :=
  let parts := split_on "/" rel in
  if Nat.ltb (length parts) 4 then Ok None
  else if Nat.ltb 4 (length parts) then
    if bool_decide (from_end parts 2 ∈ KINDS) then
      Err (InvalidInput ("object scripts must sit exactly at "
        +:+ "<database>/<schema>/<kind>/<name>.sql; nested path is not deployable: " +:+ rel))
    else Ok None
  else
    let name := strip_sql_ext (from_end parts 1) in
    let kind := from_end parts 2 in
    if negb (bool_decide (kind ∈ KINDS)) then Ok None
    else
      let schema := from_end parts 3 in
      let database := from_end parts (length parts) in
      validate_path_component database;;
      validate_path_component schema;;
      validate_path_component name;;
      let key := object_key_new schema kind name in
      cs ← file_checksum abs;
      let script := mk_Script (script_key_from_path rel) SkObject abs (Some cs) in
      let obj := mk_ObjectEntry cs StrOff_EMPTY 0 0 0 in
      Ok (Some (key, obj, script)).

(** ** Parallel parsing *)

Definition PARALLEL_THRESHOLD : nat := 64.
Definition MAX_WORKERS : nat := 8.

(** [slice::chunks]: [chunk] is positive. *)
Fixpoint chunks_fuel {A} (fuel chunk : nat) (l : list A) : list (list A) :=
  match fuel, l with
  | S fuel, _ :: _ => take chunk l :: chunks_fuel fuel chunk (drop chunk l)
  | _, _ => []
  end.
Definition chunks {A} (chunk : nat) (l : list A) : list (list A) :=
  chunks_fuel (length l) chunk l.

Definition div_ceil (a b : nat) : nat := (a + b - 1) / b.

(** A worker's results, or the error [join] reports when it panicked. *)
Definition join_worker (part : list (M (option ParsedObject)))
    : M (list (M (option ParsedObject))) :=
  if existsb (λ r, match r with Panic => true | _ => false end) part
  then Err (Other "scan parse worker panicked") else Ok part.

(** [parse_objects]; [parallelism] is what [available_parallelism] reports. *)
Definition parse_objects (parallelism : nat) (items : list item)
    : M (list (option ParsedObject)) :=
  if Nat.ltb (length items) PARALLEL_THRESHOLD
  then traverse (λ x, parse_object x.1 x.2) items
  else
    let workers := Nat.min parallelism MAX_WORKERS in
    let chunk := div_ceil (length items) workers in
    parts ← traverse (λ c, join_worker (map (λ x, parse_object x.1 x.2) c)) (chunks chunk items);
    traverse (λ r, r) (concat parts).

(** ** Merging into the workspace *)

Definition insert_parsed_object (w : Workspace) (parsed : option ParsedObject) (rel : string)
    (schemas : schema_map) : M (Workspace * schema_map) :=
  match parsed with
  | None => Ok (w, schemas)
  | Some (key, obj, script) =>
      let db := key_part rel 0 in
      let sp := schema_part key in
      let schemas := match schemas !! (db, sp) with
                     | Some _ => schemas
                     | None => <[(db, sp) := mk_SchemaEntry db sp (to_lowercase sp)]> schemas
                     end in
      '(w, script_id) ← insert_script script w;
      let obj := obj <| oe_script_id := script_id |> in
      if (u16_max - 1 <=? N.of_nat (database_count w))%N then
        Err (InvalidInput
          "too many distinct database directories under RM_SQL_ROOT (max 65534)")
      else
        '(w, db_id) ← intern_database db w;
        w ← push_object key (obj <| oe_db_id := db_id |>) w;
        Ok (w, schemas)
  end.

Definition push_check (w : Workspace) (rel abs : string) : M Workspace :=
  fst <$> insert_script (mk_Script (script_key_from_path rel) SkCheck abs None) w.

(** ** Transitions *)

Definition SCAFFOLD : string := "-- rmig: transition-scaffold".
Definition MAX_KEY_UTF16_UNITS : nat := 512.

Definition parse_filename (file : string) : option string :=
  let stripped := strip_sql_ext file in
  if Nat.eqb (String.length stripped) (String.length file) then None
  else
    '(ordinal, rest) ← split_once "_" stripped;
    if negb (Nat.eqb (String.length ordinal) 3) || negb (str_all is_ascii_digit ordinal) then None
    else
      '(commit, slug) ← split_once "_" rest;
      if Nat.ltb (String.length commit) 7 || negb (str_all is_ascii_hexdigit commit) then None
      else if String.eqb slug "" then None else Some ordinal.

Record TransitionMeta := mk_TransitionMeta {
  tm_table_key : object_key;
  tm_path : string;
  tm_ordinal : string;
}.

Definition parse_meta (rel : string) : M (option TransitionMeta) :=
  let parts := split_on "/" rel in
  if Nat.ltb (length parts) 6 then Ok None
  else if negb (String.eqb (from_end parts 4) "tables")
          || negb (String.eqb (from_end parts 3) "_migrations") then Ok None
  else
    let schema := from_end parts 5 in
    let table := from_end parts 2 in
    let file := from_end parts 1 in
    validate_path_component schema;;
    validate_path_component table;;
    validate_path_component file;;
    match parse_filename file with
    | None => Ok None
    | Some ordinal =>
        if Nat.ltb MAX_KEY_UTF16_UNITS (utf16_count rel) then
          Err (InvalidInput ("transition path exceeds " +:+ pretty MAX_KEY_UTF16_UNITS
            +:+ " characters and cannot be recorded exactly in audit history: " +:+ rel))
        else Ok (Some (mk_TransitionMeta (object_key_new schema "tables" table) rel ordinal))
    end.

Definition is_scaffold (data : string) : bool :=
  let line := default "" (head (split_on LF data)) in
  let line := if valid_utf8 line then line else "" in
  starts_with SCAFFOLD (trim_end_matches (String CR "") line).

Definition ingest (w : Workspace) (rel abs : string) : M Workspace :=
  meta ← parse_meta rel;
  match meta with
  | None => Ok w
  | Some meta =>
      data ← fs_read abs;
      let cs := content_checksum data in
      let sk := script_key_from_path (tm_path meta) in
      '(w, _) ← insert_script (mk_Script sk SkTransition abs (Some cs)) w;
      if is_scaffold data then Ok w
      else
        w ← push_transition_staging (key_part rel 0) (tm_table_key meta) (tm_ordinal meta) sk w;
        Ok (invalidate_transition_paths w)
  end.
End files.

(** ** Walking the tree *)

(** A directory holds its entries in the order [read_dir] lists them, or the
    error listing it gives. *)
Inductive FsNode : Type :=
| FFile
| FDirErr (e : Error)
| FDir (entries : list (string * FsNode))
| FSymlink.

Abbreviation path := (list string) (only parsing).

(** [Path::extension]: after the last dot, unless the name starts with it. *)
Definition extension (name : string) : option string :=
  match split_on "." name with
  | [] | [_] => None
  | [""; _] => None
  | parts => last parts
  end.

Definition is_sql_file (name : string) : bool :=
  match extension name with
  | Some e => valid_utf8 e && eq_ignore_ascii_case e "sql"
  | None => false
  end.

(** [walk_dir]: depth first, in directory order; symbolic links are skipped. *)
Fixpoint walk_node (prefix : path) (name : string) (n : FsNode) (out : list path)
    : M (list path) :=
  match n with
  | FSymlink => Ok out
  | FFile => if is_sql_file name then Ok (out ++ [prefix ++ [name]]) else Ok out
  | FDirErr e => Err e
  | FDir entries =>
      (fix walk_entries (l : list (string * FsNode)) (out : list path) : M (list path) :=
         match l with
         | [] => Ok out
         | (nm, nd) :: l' => out ← walk_node (prefix ++ [name]) nm nd out; walk_entries l' out
         end) entries out
  end.

Definition walk_dir (root : FsNode) : M (list path) :=
  match root with
  | FDir entries => foldM (λ out e, walk_node [] e.1 e.2 out) [] entries
  | FDirErr e => Err e
  | _ => Err (Io "not a directory")
  end.

Fixpoint path_leb (a b : path) : bool :=
  match a, b with
  | [], _ => true
  | _ :: _, [] => false
  | x :: a', y :: b' => if String.eqb x y then path_leb a' b' else String.leb x y
  end.

Definition walk_sql (root : FsNode) : M (list path) := sort_by path_leb <$> walk_dir root.

(** [relative_sql_path]: components joined by slashes, each valid UTF-8. *)
Definition relative_component (c : string) : M string :=
  if valid_utf8 c then Ok c
  else Err (InvalidInput ("path component is not valid UTF-8: " +:+ c)).

Definition relative_sql_path (p : path) : M string :=
  str_join "/" <$> traverse relative_component p.

(** ** The scan *)

Section scan_root.
(** [std::fs::read] on an absolute path, and [available_parallelism]. *)
Context (fs_read : string → M string) (parallelism : nat).

(** The state of the loop of [scan_root] over the walked paths. *)
Definition scan_entry (root : string) (st : Workspace * list item) (p : path)
    : M (Workspace * list item) :=
  let '(w, objects) := st in
  rel ← relative_sql_path p;
  let abs := root +:+ "/" +:+ rel in
  if contains_str "/tables/_migrations/" rel then
    w ← ingest fs_read w rel abs; Ok (w, objects)
  else if is_check_path rel then
    w ← push_check w rel abs; Ok (w, objects)
  else Ok (w, objects ++ [(rel, abs)]).

Definition insert_scanned (st : Workspace * schema_map) (x : option ParsedObject * item)
    : M (Workspace * schema_map) :=
  insert_parsed_object st.1 x.1 x.2.1 st.2.

Definition schema_name_leb (a b : SchemaEntry) : bool := String.leb (se_name a) (se_name b).

(** [canonical] is what [canonicalize] makes of the root, [tree] what lies there. *)
Definition scan_root (w : Workspace) (canonical : M string) (tree : FsNode) : M Workspace :=
  let w := reset_layout w in
  root ← canonical;
  (if valid_utf8 root then Ok tt
   else Err (InvalidInput ("path is not valid UTF-8: " +:+ root)));;
  let w := w <| ws_root := root |> in
  entries ← walk_sql tree;
  '(w, objects) ← foldM (scan_entry root) (w, []) entries;
  parsed ← parse_objects fs_read parallelism objects;
  '(w, schemas) ← foldM insert_scanned (w, ∅) (zip parsed objects);
  let w := w <| ws_schemas := sort_by schema_name_leb (map snd (iter_order schemas)) |> in
  finalize_object_layout w.
End scan_root.

(** ** Layout digest *)

(** [u64::to_le_bytes]. *)
Fixpoint le_bytes (k : nat) (n : N) : string :=
  match k with
  | 0 => ""
  | S k => String (ascii_of_N (n mod 256)) (le_bytes k (n / 256))
  end.
Definition u64_le (n : nat) : string := le_bytes 8 (N.of_nat n).

Fixpoint layout_input (keys : list string) : string :=
  match keys with
  | [] => ""
  | k :: keys => u64_le (String.length k) +:+ k +:+ layout_input keys
  end.

(** [scripts_iter().map(path_str)]. *)
Definition script_paths (w : Workspace) : M (list string) :=
  traverse (λ i, script_path_str w (row_id_at i)) (seq 0 (length (ws_script_rows w))).

Definition layout_digest (w : Workspace) : M digest :=
  keys ← script_paths w;
  Ok (sha256 (layout_input (sort_by String.leb keys))).

(** [populate]; [preload] is the git metadata pass of [git_preload.rs]. *)
Definition populate (fs_read : string → M string) (parallelism : nat)
    (preload : Workspace → M Workspace) (skip_git : bool)
    (w : Workspace) (canonical : M string) (tree : FsNode) : M Workspace :=
  w ← scan_root fs_read parallelism w canonical tree;
  w ← (if skip_git then Ok w else preload w);
  w ← intern_workspace_strings w;
  w ← rebuild_path_caches w;
  w ← (if skip_git then Ok w else apply_script_git_offs w);
  d ← layout_digest w;
  Ok (w <| ws_layout_digest := d |>).

(** ** Checksum lemmas *)

(** What the loop feeds the hasher, by recursion on the text. *)
Fixpoint fold_crlf (s : string) : string :=
  match s with
  | EmptyString => ""
  | String c s' =>
      match s' with
      | String d s'' =>
          if bool_decide (c = CR) && bool_decide (d = LF) then String LF (fold_crlf s'')
          else String c (fold_crlf s')
      | EmptyString => String c ""
      end
  end.

Lemma fold_crlf_cons_other c s : c ≠ CR → fold_crlf (String c s) = String c (fold_crlf s).
Proof. intros ?. destruct s; [done|]. cbn [fold_crlf]. by rewrite bool_decide_false. Qed.

Lemma fold_crlf_app a s : has_char CR a = false → fold_crlf (a +:+ s) = a +:+ fold_crlf s.
Proof.
  induction a as [|c a IH]; [done|]. rewrite has_char_cons, str_app_cons.
  intros [Hc Ha]%orb_false_iff. apply bool_decide_eq_false in Hc.
  by rewrite fold_crlf_cons_other, IH.
Qed.

Lemma fold_crlf_id a : has_char CR a = false → fold_crlf a = a.
Proof. intros Ha. by rewrite <- (str_app_nil_r a), fold_crlf_app. Qed.

Lemma position_None c s : position c s = None → has_char c s = false.
Proof.
  induction s as [|d s IH]; [done|]. cbn [position]. rewrite has_char_cons.
  case_bool_decide; [done|]. destruct (position c s); [done|]. intros _.
  rewrite IH by done. by rewrite bool_decide_false by congruence.
Qed.

Lemma position_Some c s n : position c s = Some n →
  ∃ a b, s = a +:+ String c b ∧ String.length a = n ∧ has_char c a = false.
Proof.
  revert n. induction s as [|d s IH]; intros n; [done|]. cbn [position].
  case_bool_decide as Hd.
  - intros [= <-]. subst d. by exists "", s.
  - destruct (position c s) as [m|]; [|done]. intros [= <-].
    destruct (IH m eq_refl) as (a & b & -> & <- & Ha). exists (String d a), b.
    split; [done|]. split; [done|]. rewrite has_char_cons, Ha.
    by rewrite bool_decide_false by congruence.
Qed.

Lemma str_drop_plus n m s : str_drop (n + m) s = str_drop m (str_drop n s).
Proof.
  revert s. induction n as [|n IH]; [done|]. intros [|c s]; cbn; [by destruct m | apply IH].
Qed.

Lemma checksum_loop_fold fuel : ∀ fed rest, String.length rest ≤ fuel →
  checksum_loop fuel fed rest = fed +:+ fold_crlf rest.
Proof.
  induction fuel as [|fuel IH]; intros fed rest Hl; cbn [checksum_loop].
  - by destruct rest; [|cbn in Hl; lia].
  - destruct (position CR rest) as [pos|] eqn:E; [|by rewrite fold_crlf_id by by apply position_None].
    apply position_Some in E as (a & b & -> & <- & Ha).
    rewrite str_length_app in Hl. cbn in Hl.
    rewrite !str_drop_plus, !str_drop_app. cbn [str_drop].
    rewrite fold_crlf_app by done.
    replace (str_take (String.length a + 1) (a +:+ String CR b)) with (a +:+ String CR "").
    2: { replace (a +:+ String CR b) with ((a +:+ String CR "") +:+ b) by (by rewrite str_app_assoc).
         replace (String.length a + 1) with (String.length (a +:+ String CR ""))
           by (by rewrite str_length_app). by rewrite str_take_app. }
    rewrite str_take_app. destruct b as [|d b].
    + cbn. rewrite IH by (cbn; lia). cbn. by rewrite str_app_nil_r.
    + cbn [fold_crlf]. rewrite (bool_decide_true (CR = CR)) by done. cbn [andb].
      case_bool_decide as Hd.
      * subst d. change (starts_with (String LF "") (String LF b)) with true. cbn iota.
        rewrite IH by (cbn in *; lia). cbn [str_drop]. by rewrite !str_app_assoc.
      * replace (starts_with (String LF "") (String d b)) with false.
        2: { unfold starts_with. cbn [strip_prefix]. by rewrite decide_False by congruence. }
        rewrite IH by (cbn in *; lia). cbn [fold_crlf]. by rewrite !str_app_assoc.
Qed.

Lemma fold_crlf_checkout s : has_char CR s = false →
  fold_crlf (replace_char LF (String CR (String LF "")) s) = s.
Proof.
  induction s as [|c s IH]; [done|]. rewrite has_char_cons.
  intros [Hc Hs]%orb_false_iff. apply bool_decide_eq_false in Hc. cbn [replace_char].
  case_decide as Hl.
  - subst c. cbn [String.append fold_crlf].
    rewrite !bool_decide_true by done. cbn [andb]. by rewrite IH.
  - by rewrite fold_crlf_cons_other, IH.
Qed.

(** The script checksum is the digest of the text with every CRLF folded to
    LF, whatever the order in which the loop fed the hasher; in particular a
    checkout that turns every LF of a text without CR into CRLF keeps the
    checksum, which is the plain digest of the LF text. *)
Theorem content_checksum_crlf (data text : string) : has_char CR text = false →
  content_checksum data = sha256 (fold_crlf data) ∧
  content_checksum text = sha256 text ∧
  content_checksum (replace_char LF (String CR (String LF "")) text) = content_checksum text.
Proof.
  intros Ht. unfold content_checksum. rewrite !checksum_loop_fold by done. cbn.
  by rewrite fold_crlf_checkout, (fold_crlf_id text).
Qed.

(** ** Parallel parsing *)

Lemma chunks_fuel_concat {A} fuel chunk (l : list A) : 0 < chunk → length l ≤ fuel →
  concat (chunks_fuel fuel chunk l) = l.
Proof.
  intros Hc. revert l. induction fuel as [|fuel IH]; intros l Hl.
  - by destruct l; [|cbn in Hl; lia].
  - destruct l as [|x l]; [done|]. cbn [chunks_fuel concat].
    rewrite IH; [by rewrite take_drop|]. rewrite length_drop. cbn in *. lia.
Qed.

Lemma chunks_concat {A} chunk (l : list A) : 0 < chunk → concat (chunks chunk l) = l.
Proof. intros. by apply chunks_fuel_concat. Qed.

Lemma div_ceil_pos a b : 0 < a → 0 < b → 0 < div_ceil a b.
Proof. intros. unfold div_ceil. apply Nat.div_str_pos. lia. Qed.

Lemma scan_component_no_panic name s : scan_component name s ≠ Panic.
Proof. induction s; [done|]. cbn [scan_component]. by case_match. Qed.

Lemma validate_no_panic s : validate_path_component s ≠ Panic.
Proof.
  unfold validate_path_component. repeat case_match; try done. apply scan_component_no_panic.
Qed.

Section parsing.
Context (fs_read : string → M string) (Hread : ∀ p, fs_read p ≠ Panic).

Lemma parse_object_no_panic rel abs : parse_object fs_read rel abs ≠ Panic.
Proof.
  unfold parse_object. case_match; [done|]. case_match; [by case_match|].
  case_match; [done|].
  repeat match goal with
  | |- context [validate_path_component ?s] =>
      pose proof (validate_no_panic s); destruct (validate_path_component s); [cbn|done..]
  end.
  unfold file_checksum. pose proof (Hread abs). destruct (fs_read abs); done.
Qed.

Lemma join_workers_Ok (cs : list (list item)) :
  traverse (λ c, join_worker (map (λ x, parse_object fs_read x.1 x.2) c)) cs
  = Ok (map (map (λ x, parse_object fs_read x.1 x.2)) cs).
Proof.
  induction cs as [|c cs IH]; [done|]. cbn [traverse map].
  replace (join_worker _) with (Ok (E:=Error) (map (λ x, parse_object fs_read x.1 x.2) c)).
  - cbn. by rewrite IH.
  - unfold join_worker. induction c as [|x c IHc]; [done|]. cbn [map existsb].
    pose proof (parse_object_no_panic x.1 x.2). unfold join_worker in IHc.
    destruct (existsb _ (map _ c)); [done|]. by destruct (parse_object fs_read x.1 x.2).
Qed.

Lemma parse_objects_sequential (parallelism : nat) (items : list item) : 0 < parallelism →
  parse_objects fs_read parallelism items = traverse (λ x, parse_object fs_read x.1 x.2) items.
Proof.
  intros Hp. unfold parse_objects. case_match eqn:Hn; [done|].
  apply Nat.ltb_ge in Hn. unfold PARALLEL_THRESHOLD in Hn.
  rewrite join_workers_Ok. cbn [mbind outcome_bind].
  rewrite <- concat_map, chunks_concat.
  - clear. induction items as [|x l IH]; [done|]. cbn [map traverse]. by rewrite IH.
  - apply div_ceil_pos; unfold MAX_WORKERS; lia.
Qed.
End parsing.

(** The number of workers never shows: whatever the parallelism, parsing
    succeeds exactly when every file parses, with the results in the order of
    the input, and otherwise fails with the error of the first file that fails. *)
Theorem parse_objects_spec (fs_read : string → M string) (parallelism : nat) (items : list item) :
  (∀ p, fs_read p ≠ Panic) → 0 < parallelism →
  match parse_objects fs_read parallelism items with
  | Ok out => Forall2 (λ x r, parse_object fs_read x.1 x.2 = Ok r) items out
  | Err e => ∃ before x after, items = before ++ x :: after ∧
      parse_object fs_read x.1 x.2 = Err e ∧
      Forall (λ y, is_Ok (parse_object fs_read y.1 y.2)) before
  | Panic => False
  end.
Proof.
  intros Hread Hp. rewrite parse_objects_sequential by done.
  induction items as [|x l IH]; cbn [traverse]; [constructor|].
  pose proof (parse_object_no_panic fs_read Hread x.1 x.2).
  destruct (parse_object fs_read x.1 x.2) as [r|e|] eqn:E; [|by exists [], x, l|done].
  cbn [mbind outcome_bind]. destruct (traverse _ l) as [out|e|]; [| |done].
  - by constructor.
  - destruct IH as (before & y & after & -> & Hy & Hb). exists (x :: before), y, after.
    split; [done|]. split; [done|]. constructor; [by exists r|done].
Qed.

(** A path is a deployable object exactly when it has the four components
    [<database>/<schema>/<kind>/<name>.sql] with a known kind and valid names;
    its key is built from the last three, its checksum from the file's text, and
    it is not yet attached to a script or a database. *)
Theorem parse_object_spec (fs_read : string → M string) rel abs key obj script :
  parse_object fs_read rel abs = Ok (Some (key, obj, script)) ↔
  ∃ db schema kind file text,
    split_on "/" rel = [db; schema; kind; file] ∧ kind ∈ KINDS ∧
    validate_path_component db = Ok tt ∧ validate_path_component schema = Ok tt ∧
    validate_path_component (strip_sql_ext file) = Ok tt ∧
    fs_read abs = Ok text ∧
    key = object_key_new schema kind (strip_sql_ext file) ∧
    obj = mk_ObjectEntry (content_checksum text) StrOff_EMPTY 0 0 0 ∧
    script = mk_Script (script_key_from_path rel) SkObject abs (Some (content_checksum text)).
Proof.
  unfold parse_object. cbv zeta. split.
  - destruct (split_on "/" rel) as [|db [|schema [|kind [|file [|x l]]]]];
      cbn [length Nat.ltb Nat.leb]; try done; [|by case_match].
    change (from_end [db; schema; kind; file] 1) with file.
    change (from_end [db; schema; kind; file] 2) with kind.
    change (from_end [db; schema; kind; file] 3) with schema.
    change (from_end [db; schema; kind; file] 4) with db.
    case_bool_decide as Hk; [|done]. cbn [negb].
    destruct (validate_path_component db) as [[]| |] eqn:?; [|done..].
    destruct (validate_path_component schema) as [[]| |] eqn:?; [|done..].
    destruct (validate_path_component (strip_sql_ext file)) as [[]| |] eqn:?; [|done..].
    unfold file_checksum. cbn. destruct (fs_read abs) as [text| |] eqn:?; [|done..].
    cbn. intros [= <- <- <-]. by exists db, schema, kind, file, text.
  - intros (db & schema & kind & file & text & -> & Hk & Hd & Hs & Hn & Hr & -> & -> & ->).
    cbn [length Nat.ltb Nat.leb].
    change (from_end [db; schema; kind; file] 1) with file.
    change (from_end [db; schema; kind; file] 2) with kind.
    change (from_end [db; schema; kind; file] 3) with schema.
    change (from_end [db; schema; kind; file] 4) with db.
    rewrite bool_decide_true by done. cbn [negb]. rewrite Hd, Hs, Hn.
    unfold file_checksum. by rewrite Hr.
Qed.

(** ** The walk does not depend on the order of directory listings *)

Fixpoint FsNode_ind' (P : FsNode → Prop) (Hf : P FFile) (He : ∀ e, P (FDirErr e))
    (Hs : P FSymlink) (Hd : ∀ es, Forall (λ e, P e.2) es → P (FDir es)) (n : FsNode) : P n :=
  match n with
  | FFile => Hf
  | FDirErr e => He e
  | FSymlink => Hs
  | FDir es => Hd es ((fix go (l : list (string * FsNode)) : Forall (λ e, P e.2) l :=
      match l with
      | [] => Forall_nil_2 _
      | e :: l' => Forall_cons_2 _ _ _ (FsNode_ind' P Hf He Hs Hd e.2) (go l')
      end) es)
  end.

Definition walk_entries (prefix : path) (es : list (string * FsNode)) (out : list path)
    : M (list path) :=
  foldM (λ out e, walk_node prefix e.1 e.2 out) out es.

Lemma walk_node_dir prefix name es out :
  walk_node prefix name (FDir es) out = walk_entries (prefix ++ [name]) es out.
Proof.
  cbn [walk_node]. unfold walk_entries. revert out.
  induction es as [|[nm nd] es IH]; intros out; [done|]. cbn [foldM fst snd].
  destruct (walk_node _ nm nd out); [apply IH|done..].
Qed.

Definition appended (out : list path) (m : M (list path)) : M (list path) :=
  (λ l, out ++ l) <$> m.

Lemma walk_node_out n : ∀ prefix name out,
  walk_node prefix name n out = appended out (walk_node prefix name n []).
Proof.
  induction n as [|e| |es IH] using FsNode_ind'; intros prefix name out.
  - cbn. case_match; cbn; by rewrite ?app_nil_r.
  - done.
  - cbn. by rewrite app_nil_r.
  - rewrite !walk_node_dir. unfold walk_entries. generalize (prefix ++ [name]) as q. intros q.
    revert out. induction IH as [|[nm nd] es Hn _ IHes]; intros out.
    + cbn. by rewrite app_nil_r.
    + cbn [foldM fst snd]. cbn in Hn. rewrite (Hn q nm out).
      destruct (walk_node q nm nd []) as [l| |]; [|done..]. cbn [appended fmap outcome_fmap mbind outcome_bind].
      rewrite (IHes (out ++ l)), (IHes l). unfold appended.
      destruct (foldM _ [] es); cbn; by rewrite ?app_assoc.
Qed.

(** The same tree listed in another order. *)
Inductive tree_perm : FsNode → FsNode → Prop :=
| tp_refl n : tree_perm n n
| tp_trans n1 n2 n3 : tree_perm n1 n2 → tree_perm n2 n3 → tree_perm n1 n3
| tp_swap a x y b : tree_perm (FDir (a ++ x :: y :: b)) (FDir (a ++ y :: x :: b))
| tp_child a nm n n' b : tree_perm n n' →
    tree_perm (FDir (a ++ (nm, n) :: b)) (FDir (a ++ (nm, n') :: b)).

(** The same outcome up to order and to which error is met first. *)
Definition same_files (m1 m2 : M (list path)) : Prop :=
  match m1, m2 with
  | Ok a, Ok b => a ≡ₚ b
  | Err _, Err _ => True
  | _, _ => False
  end.

Lemma same_files_refl n prefix name : same_files (walk_node prefix name n []) (walk_node prefix name n []).
Proof.
  assert (H : walk_node prefix name n [] ≠ Panic).
  { revert prefix name. induction n as [| | |es IH] using FsNode_ind'; intros prefix name; try done.
    - cbn. by case_match.
    - rewrite walk_node_dir. unfold walk_entries.
      assert (G : ∀ out, foldM (λ out e, walk_node (prefix ++ [name]) e.1 e.2 out) out es ≠ Panic).
      2: apply G.
      induction IH as [|e es He _ IHes]; intros out; [done|]. cbn [foldM].
      rewrite walk_node_out. pose proof (He (prefix ++ [name]) e.1).
      destruct (walk_node _ e.1 e.2 []) as [l| |]; [apply (IHes (out ++ l))|done..]. }
  destruct (walk_node prefix name n []); cbn; done.
Qed.

Lemma same_files_trans m1 m2 m3 : same_files m1 m2 → same_files m2 m3 → same_files m1 m3.
Proof. destruct m1, m2, m3; try done. cbn. by intros -> ->. Qed.

(** The files of a list of entries: those of the parts, or an error. *)
Definition both (m1 m2 : M (list path)) : M (list path) := l1 ← m1; appended l1 m2.

Lemma walk_entries_app prefix a b :
  walk_entries prefix (a ++ b) [] = both (walk_entries prefix a []) (walk_entries prefix b []).
Proof.
  unfold walk_entries, both. rewrite foldM_app.
  destruct (foldM _ [] a) as [out| |]; [|done..]. cbn [mbind outcome_bind].
  revert out. induction b as [|e b IH]; intros out.
  - cbn. by rewrite app_nil_r.
  - cbn [foldM]. rewrite walk_node_out. destruct (walk_node prefix e.1 e.2 []) as [l| |]; [|done..].
    cbn [appended fmap outcome_fmap mbind outcome_bind]. rewrite (IH (out ++ l)), (IH l).
    unfold appended. destruct (foldM _ [] b); cbn; by rewrite ?app_assoc.
Qed.

Lemma walk_entries_cons prefix e b :
  walk_entries prefix (e :: b) [] = both (walk_node prefix e.1 e.2 []) (walk_entries prefix b []).
Proof.
  change (e :: b) with ([e] ++ b). rewrite walk_entries_app. f_equal. unfold walk_entries. cbn.
  by destruct (walk_node _ _ _ _).
Qed.

Lemma both_same a a' b b' : same_files a a' → same_files b b' → same_files (both a b) (both a' b').
Proof. destruct a, a', b, b'; try done. cbn. by intros -> ->. Qed.

Lemma both_swap x y b : same_files x x → same_files y y → same_files b b →
  same_files (both x (both y b)) (both y (both x b)).
Proof.
  destruct x as [l1| |], y as [l2| |], b as [l3| |]; try done. cbn. intros _ _ _.
  by rewrite !(assoc_L (++)), (Permutation_app_comm l1).
Qed.

Lemma walk_entries_refl prefix es :
  same_files (walk_entries prefix es []) (walk_entries prefix es []).
Proof.
  induction es as [|e es IH]; [cbn; done|]. rewrite walk_entries_cons.
  apply both_same; [apply same_files_refl|done].
Qed.

Lemma tree_perm_entries prefix n n' : tree_perm n n' →
  ∀ name, same_files (walk_node prefix name n []) (walk_node prefix name n' []).
Proof.
  intros Hp. revert prefix.
  induction Hp as [n|n1 n2 n3 _ IH1 _ IH2|a x y b|a nm n n' b _ IH]; intros prefix name.
  - apply same_files_refl.
  - by eapply same_files_trans.
  - rewrite !walk_node_dir, !walk_entries_app, !walk_entries_cons.
    apply both_same; [apply walk_entries_refl|].
    apply both_swap; auto using same_files_refl, walk_entries_refl.
  - rewrite !walk_node_dir, !walk_entries_app, !walk_entries_cons.
    apply both_same; [apply walk_entries_refl|].
    apply both_same; [apply IH|apply walk_entries_refl].
Qed.

Lemma walk_dir_entries es : walk_dir (FDir es) = walk_entries [] es [].
Proof. done. Qed.

Lemma tree_perm_walk n n' : tree_perm n n' → same_files (walk_dir n) (walk_dir n').
Proof.
  intros Hp. induction Hp as [n|n1 n2 n3 _ IH1 _ IH2|a x y b|a nm n n' b Hn _].
  - destruct n; try done. apply walk_entries_refl.
  - by eapply same_files_trans.
  - rewrite !walk_dir_entries, !walk_entries_app, !walk_entries_cons.
    apply both_same; [apply walk_entries_refl|].
    apply both_swap; auto using same_files_refl, walk_entries_refl.
  - rewrite !walk_dir_entries, !walk_entries_app, !walk_entries_cons.
    apply both_same; [apply walk_entries_refl|].
    apply both_same; [by apply tree_perm_entries|apply walk_entries_refl].
Qed.

(** Paths are totally ordered, so sorting forgets the order of discovery. *)
Lemma path_leb_total a b : path_leb a b = true ∨ path_leb b a = true.
Proof.
  revert b. induction a as [|x a IH]; intros [|y b]; try (by left); try (by right). cbn [path_leb].
  rewrite (String.eqb_sym y x). destruct (String.eqb x y); [apply IH|].
  destruct (String.leb_total x y); auto.
Qed.

Lemma path_leb_antisym a b : path_leb a b = true → path_leb b a = true → a = b.
Proof.
  revert b. induction a as [|x a IH]; intros [|y b]; try done. cbn [path_leb].
  rewrite (String.eqb_sym y x). destruct (String.eqb_spec x y) as [->|Hne].
  - intros. f_equal. by apply IH.
  - intros H1 H2. by destruct Hne; apply String.leb_antisym.
Qed.

Lemma path_leb_trans a b c : path_leb a b = true → path_leb b c = true → path_leb a c = true.
Proof.
  revert b c. induction a as [|x a IH]; intros [|y b] [|z c]; try done. cbn [path_leb].
  destruct (String.eqb_spec x y) as [->|Hxy], (String.eqb_spec y z) as [->|Hyz].
  - apply IH.
  - done.
  - by destruct (String.eqb_spec x z).
  - intros H1 H2. destruct (String.eqb_spec x z) as [->|].
    + by destruct Hxy; apply String.leb_antisym.
    + by eapply leb_trans.
Qed.

Lemma walk_sql_perm n n' : tree_perm n n' →
  match walk_sql n, walk_sql n' with
  | Ok a, Ok b => a = b
  | Err _, Err _ => True
  | _, _ => False
  end.
Proof.
  intros Hp. pose proof (tree_perm_walk n n' Hp) as H. unfold walk_sql.
  destruct (walk_dir n) as [a| |], (walk_dir n') as [b| |]; try done. cbn in *.
  apply (sorted_perm_unique path_leb); [apply path_leb_antisym| | |by rewrite !sort_by_perm].
  all: apply sort_by_sorted; [apply path_leb_total|apply path_leb_trans].
Qed.

(** C33. The scan does not depend on the order in which the file system lists its
    directories: of two listings of the same tree either both can be walked and
    give the same workspace, or neither can. *)
Theorem scan_root_listing_order (fs_read : string → M string) (parallelism : nat) (w : Workspace)
    (canonical : M string) (tree tree' : FsNode) : tree_perm tree tree' →
  scan_root fs_read parallelism w canonical tree = scan_root fs_read parallelism w canonical tree' ∨
  (∃ e e', walk_sql tree = Err e ∧ walk_sql tree' = Err e').
Proof.
  intros Hp. pose proof (walk_sql_perm _ _ Hp) as H. unfold scan_root.
  destruct (walk_sql tree) as [a|e|], (walk_sql tree') as [b|e'|]; try done.
  - subst. by left.
  - right. by exists e, e'.
Qed.

(** ** Layout digest *)

Lemma le_bytes_length k n : String.length (le_bytes k n) = k.
Proof. revert n. induction k as [|k IH]; intros n; [done|]. cbn. by rewrite IH. Qed.

Lemma le_bytes_inj k n m : (n < 256 ^ N.of_nat k)%N → (m < 256 ^ N.of_nat k)%N →
  le_bytes k n = le_bytes k m → n = m.
Proof.
  revert n m. induction k as [|k IH]; intros n m.
  - cbn. lia.
  - rewrite Nat2N.inj_succ, N.pow_succ_r'. intros Hn Hm. cbn [le_bytes].
    intros [= Hc Hr]. apply IH in Hr; [|apply N.Div0.div_lt_upper_bound; lia..].
    apply (f_equal N_of_ascii) in Hc.
    rewrite !N_ascii_embedding in Hc by (apply N.mod_lt; lia).
    rewrite (N.div_mod n 256), (N.div_mod m 256) by lia. congruence.
Qed.

Lemma str_app_inv a b c d : a +:+ b = c +:+ d → String.length a = String.length c → a = c ∧ b = d.
Proof.
  revert c. induction a as [|x a IH]; intros [|y c]; try done. cbn.
  intros [= -> He] [= Hl]. destruct (IH c He Hl). by subst.
Qed.

(** A length a [usize] can hold. *)
Definition u64_sized (s : string) : Prop := (N.of_nat (String.length s) < 256 ^ 8)%N.

Lemma layout_input_inj l1 l2 : Forall u64_sized l1 → Forall u64_sized l2 →
  layout_input l1 = layout_input l2 → l1 = l2.
Proof.
  intros H1. revert l2. induction H1 as [|x l1 Hx _ IH]; intros l2 H2.
  - by destruct H2 as [|y l2]; [|cbn].
  - destruct H2 as [|y l2 Hy H2]; [done|]. cbn [layout_input]. intros He.
    apply str_app_inv in He as [Hn He]; [|by unfold u64_le; rewrite !le_bytes_length].
    apply le_bytes_inj in Hn; [|done..]. apply Nat2N.inj in Hn.
    apply str_app_inv in He as [-> He]; [|done]. f_equal. by apply IH.
Qed.

(** The layout digest identifies the set of script paths: what is hashed is
    the same for two workspaces exactly when they have the same multiset of
    script paths, in whatever order their scripts are stored, so equal digests
    of different layouts are collisions of SHA-256 itself. *)
Theorem layout_digest_identifies (w1 w2 : Workspace) (p1 p2 : list string) :
  script_paths w1 = Ok p1 → script_paths w2 = Ok p2 →
  Forall u64_sized p1 → Forall u64_sized p2 →
  ∃ i1 i2, layout_digest w1 = Ok (sha256 i1) ∧ layout_digest w2 = Ok (sha256 i2) ∧
    (i1 = i2 ↔ p1 ≡ₚ p2).
Proof.
  intros E1 E2 H1 H2. unfold layout_digest. rewrite E1, E2.
  do 2 eexists. split; [done|]. split; [done|]. split.
  - intros Hd%layout_input_inj; [|by rewrite sort_by_perm..].
    by rewrite <- (sort_by_perm String.leb p1), Hd, sort_by_perm.
  - intros Hp. f_equal. apply (sorted_perm_unique String.leb).
    + apply String.leb_antisym.
    + apply sort_by_sorted; [apply String.leb_total|apply leb_trans].
    + apply sort_by_sorted; [apply String.leb_total|apply leb_trans].
    + by rewrite !sort_by_perm.
Qed.
End scan.

(** ** Concrete inputs *)

Module ScanSample.
#[local] Existing Instances Concrete.unicode Concrete.fingerprint Concrete.map_order
  Concrete.digest.

Definition read (p : string) : M string := Ok ("-- " +:+ p).

Definition users_sql : string * FsNode := ("users.sql", FFile).
Definition orders_sql : string * FsNode := ("orders.SQL", FFile).
Definition notes : string * FsNode := ("notes.txt", FFile).
Definition tree (tables : list (string * FsNode)) : FsNode :=
  FDir ([("App", FDir ([("dbo", FDir ([("tables", FDir tables)]))]))]).

Definition scanned_keys (t : FsNode) : M (list object_key) :=
  w ← scan_root read 4 Workspace_default (Ok "/repo") t; Ok (ws_object_keys w).

Example scans : scanned_keys (tree [users_sql; notes; orders_sql])
  = Ok ["dbo/tables/orders"; "dbo/tables/users"].
Proof. vm_compute. reflexivity. Qed.

(** The guard on the depth of object scripts has no counterpart for transition
    scripts: one in an archive directory is registered for the live table. *)
Lemma archived_transition_is_live :
  (match parse_meta "App/archive/dbo/tables/_migrations/users/001_abcdef1_drop.sql" with
   | Ok (Some m) => tm_table_key m = "dbo/tables/users"
   | _ => False end) ∧
  parse_object read "App/archive/dbo/tables/users.sql" "" =
    Err (InvalidInput ("object scripts must sit exactly at "
        +:+ "<database>/<schema>/<kind>/<name>.sql; nested path is not deployable: "
        +:+ "App/archive/dbo/tables/users.sql")).
Proof. split; vm_compute; reflexivity. Qed.

Definition crlf_text : string :=
  "a" +:+ String CR (String LF "") +:+ "b" +:+ String CR "".
Lemma content_checksum_crlf_witness :
  has_char CR ("a" +:+ String LF "b") = false ∧
  content_checksum (replace_char LF (String CR (String LF "")) ("a" +:+ String LF "b"))
    = content_checksum ("a" +:+ String LF "b").
Proof. split; [reflexivity|]. exact (proj2 (proj2 (content_checksum_crlf crlf_text ("a" +:+ String LF "b") eq_refl))). Defined.

Definition item_list : list (string * string) :=
  replicate 70 ("App/dbo/views/v.sql", "/repo/App/dbo/views/v.sql") ++ [("App/dbo/kind/x.sql", "")].
Lemma parse_objects_spec_witness :
  match parse_objects read 3 item_list with
  | Ok out => Forall2 (λ x r, parse_object read x.1 x.2 = Ok r) item_list out
  | _ => False
  end.
Proof.
  pose proof (parse_objects_spec read 3 item_list (λ _, ltac:(discriminate)) (Nat.lt_0_succ 2)) as H.
  destruct (parse_objects read 3 item_list) eqn:E; [exact H| |destruct H].
  vm_compute in E. discriminate E.
Defined.

Lemma listed_otherwise : tree_perm (tree [users_sql; notes; orders_sql])
  (tree [orders_sql; users_sql; notes]).
Proof.
  apply (tp_child [] "App" _ _ []), (tp_child [] "dbo" _ _ []), (tp_child [] "tables" _ _ []).
  eapply tp_trans; [apply (tp_swap [users_sql])|apply (tp_swap [])].
Qed.

Lemma scan_root_listing_order_witness :
  scan_root read 4 Workspace_default (Ok "/repo") (tree [users_sql; notes; orders_sql])
  = scan_root read 4 Workspace_default (Ok "/repo") (tree [orders_sql; users_sql; notes]) ∨
  (∃ e e', walk_sql (tree [users_sql; notes; orders_sql]) = Err e ∧
           walk_sql (tree [orders_sql; users_sql; notes]) = Err e').
Proof. exact (scan_root_listing_order read 4 Workspace_default (Ok "/repo") _ _ listed_otherwise). Defined.

Definition scanned (tables : list (string * FsNode)) : Workspace :=
  match scan_root read 4 Workspace_default (Ok "/repo") (tree tables) with
  | Ok w => w | _ => Workspace_default end.
Definition paths1 : list string := ["App/dbo/tables/orders.SQL"; "App/dbo/tables/users.sql"].
Definition paths2 : list string := ["App/dbo/tables/users.sql"].
Lemma layout_digest_identifies_witness :
  ∃ i1 i2, layout_digest (scanned [users_sql; orders_sql]) = Ok (sha256 i1) ∧
    layout_digest (scanned [users_sql]) = Ok (sha256 i2) ∧ (i1 = i2 ↔ paths1 ≡ₚ paths2).
Proof.
  refine (layout_digest_identifies _ _ paths1 paths2 _ _ _ _).
  1,2: vm_compute; reflexivity.
  all: apply (bool_decide_unpack _); vm_compute; exact I.
Defined.
End ScanSample.
