(* ===== verification/Ingest.v ===== *)
(** * The scanned workspace is well formed

    Facts about [scan_root] as a whole ([scan/walk.rs], with the ingest functions
    of [domain/workspace/] it calls): it never panics, and the workspace it
    returns has every column aligned and every id it stores in range. *)

From S2P Require Export Scan.
From Stdlib Require Import Ascii.
From Stdlib Require String.

(** ** Outcomes that satisfy a property and do not panic *)

Definition yields {E A} (m : outcome E A) (P : A → Prop) : Prop :=
  match m with Ok a => P a | Err _ => True | Panic => False end.

Lemma yields_bind {E A B} (m : outcome E A) (f : A → outcome E B) P Q :
  yields m P → (∀ a, P a → yields (f a) Q) → yields (m ≫= f) Q.
Proof. destruct m; cbn; auto. Qed.
Lemma yields_mono {E A} (m : outcome E A) (P Q : A → Prop) :
  yields m P → (∀ a, P a → Q a) → yields m Q.
Proof. destruct m; cbn; auto. Qed.
Lemma yields_total {E A} (m : outcome E A) : m ≠ Panic → yields m (λ _, True).
Proof. by destruct m. Qed.

(** A loop with an invariant that counts its rounds. *)
Lemma yields_foldM {E S A} (f : S → A → outcome E S) (I : nat → S → Prop) l : ∀ n s,
  I n s → (∀ k s1 x, x ∈ l → n ≤ k < n + length l → I k s1 → yields (f s1 x) (I (Datatypes.S k))) →
  yields (foldM f s l) (I (n + length l)).
Proof.
  induction l as [|x l IH]; intros n s Hn Hstep; cbn [foldM length]; [by rewrite Nat.add_0_r|].
  cbn [length] in Hstep. eapply yields_bind; [apply (Hstep n); [left|lia|done]|]. intros s1 H1.
  rewrite Nat.add_succ_r. apply (IH (Datatypes.S n)); [done|]. intros k s2 y Hy Hk. apply Hstep; [by right|lia].
Qed.
Lemma yields_traverse {E A B} (f : A → outcome E B) l : (∀ x, f x ≠ Panic) →
  yields (traverse f l) (λ ys, length ys = length l).
Proof.
  intros Hf. induction l as [|x l IH]; [done|]. cbn [traverse].
  eapply yields_bind; [by apply yields_total|]. intros y _.
  eapply yields_bind; [exact IH|]. intros ys Hl. cbn. by rewrite Hl.
Qed.

(** ** The invariant of the scan *)

(** An object staged by the scan: its script and its database exist. *)
Definition entry_ok (w : Workspace) (o : ObjectEntry) : Prop :=
  is_Some (staged_script w (oe_script_id o)) ∧
  is_Some (ws_database_names w !! N.to_nat (oe_db_id o)).

(** With at most [s] scripts and [o] objects so far, and [d] database names
    together with the tables that have staged transitions. *)
Record scan_inv (s o d : nat) (w : Workspace) : Prop := {
  si_ingest : ingest_wf w;
  si_scripts : scripts_wf w;
  si_dbs : databases_wf w;
  si_arena : ws_layout_arena w = None;
  si_fresh : Forall (λ r, script_row_interned r = false) (ws_script_rows w);
  si_entries : Forall (entry_ok w) (ws_object_entries w);
  si_new : Forall (λ e, entry_interned e = false) (ws_object_entries w);
  si_rows : length (ws_script_rows w) ≤ s;
  si_objects : length (ws_object_entries w) ≤ o;
  si_names : length (ws_database_names w) + size (ws_transitions_staging w) ≤ d;
}.

Lemma scan_inv_mono s o d s' o' d' w : s ≤ s' → o ≤ o' → d ≤ d' →
  scan_inv s o d w → scan_inv s' o' d' w.
Proof. intros ??? []. split; [done..|lia|lia|lia]. Qed.

Lemma ingest_wf_same w w' : ws_object_entries w' = ws_object_entries w →
  ws_ingest_keys w' = ws_ingest_keys w → ws_ingest_key_index w' = ws_ingest_key_index w →
  ingest_wf w → ingest_wf w'.
Proof. intros E1 E2 E3 [H1 H2 H3]. split; unfold ingested in *; by rewrite ?E1, ?E2, ?E3. Qed.
Lemma databases_wf_same w w' : ws_database_names w' = ws_database_names w →
  databases_wf w → databases_wf w'.
Proof. intros E [H1 H2 H3]. by split; rewrite E. Qed.
Lemma scripts_wf_same w w' : ws_script_rows w' = ws_script_rows w →
  ws_script_checksums w' = ws_script_checksums w → ws_ingest_script_keys w' = ws_ingest_script_keys w →
  ws_ingest_script_abs w' = ws_ingest_script_abs w →
  ws_script_key_index w' = ws_script_key_index w → scripts_wf w → scripts_wf w'.
Proof.
  intros E1 E2 E3 E4 E5 [H1 H2 H3 H4 H5]. split; rewrite ?E1, ?E2, ?E3, ?E4; try done.
  intros. by rewrite E5.
Qed.
Lemma staged_script_same w w' id : ws_script_rows w' = ws_script_rows w →
  ws_script_checksums w' = ws_script_checksums w → ws_ingest_script_keys w' = ws_ingest_script_keys w →
  ws_ingest_script_abs w' = ws_ingest_script_abs w → staged_script w' id = staged_script w id.
Proof. intros E1 E2 E3 E4. unfold staged_script. by rewrite E1, E2, E3, E4. Qed.

(** Splits [scan_inv] of an updated workspace, closing the parts the update keeps. *)
Ltac keep_parts :=
  split; try done;
  try match goal with
      | H : ingest_wf ?w |- ingest_wf _ => by apply (ingest_wf_same w)
      | H : scripts_wf ?w |- scripts_wf _ => by apply (scripts_wf_same w)
      | H : databases_wf ?w |- databases_wf _ => by apply (databases_wf_same w)
      end; cbn.

(** ** Its steps *)

(** What [insert_script] leaves alone. *)
Lemma insert_script_frame x w w' id : insert_script x w = Ok (w', id) →
  ws_object_entries w' = ws_object_entries w ∧ ws_ingest_keys w' = ws_ingest_keys w ∧
  ws_ingest_key_index w' = ws_ingest_key_index w ∧ ws_database_names w' = ws_database_names w ∧
  ws_transitions_staging w' = ws_transitions_staging w ∧ ws_layout_arena w' = ws_layout_arena w ∧
  length (ws_script_rows w') ≤ S (length (ws_script_rows w)) ∧
  (Forall (λ r, script_row_interned r = false) (ws_script_rows w) →
   Forall (λ r, script_row_interned r = false) (ws_script_rows w')).
Proof.
  unfold insert_script. cbn [into_parts]. destruct (ws_script_key_index w !! sc_key x) as [i|].
  - intros H. inv_ok. unfold list_set in *. repeat (case_match; [|done]). inv_ok. cbn.
    split_and!; try done.
    + rewrite length_insert. lia.
    + intros Hf. by apply Forall_insert.
  - intros [= <- <-]. cbn. split_and!; try done.
    + rewrite length_app. cbn. lia.
    + intros Hf. apply Forall_app. split; [done|]. by constructor.
Qed.

Lemma insert_script_inv x s o d w : scan_inv s o d w → (N.of_nat (S s) < u32_size)%N →
  yields (insert_script x w) (λ r, scan_inv (S s) o d r.1 ∧ is_Some (staged_script r.1 r.2)).
Proof.
  intros [Hi Hs Hd Ha Hf He Hn Hr Ho Hna] Hsz.
  destruct (insert_script_spec x w Hs) as (w' & id & Hins & Hs' & Hst & Hold & _); [lia|].
  rewrite Hins. cbn. split; [|by eexists].
  apply insert_script_frame in Hins as (E1 & E2 & E3 & E4 & E5 & E6 & Hlen & Hfresh).
  split; rewrite ?E1, ?E4, ?E5; try done; [by apply (ingest_wf_same w)|by apply (databases_wf_same w)|congruence|auto| |lia].
  eapply Forall_impl; [exact He|]. intros e [Hsc Hdb]. split; [|by rewrite E4].
  destruct (decide (oe_script_id e = id)) as [->|Hne]; [by eexists|by rewrite Hold].
Qed.

(** Interning a name leaves the workspace as it is, or appends the name. *)
Lemma intern_database_step name w :
  databases_wf w → (N.of_nat (length (ws_database_names w)) < u16_max)%N →
  ∃ w' id, intern_database name w = Ok (w', id) ∧ databases_wf w' ∧
    is_Some (ws_database_names w' !! N.to_nat id) ∧
    (w' = w ∨ w' = w <| ws_database_names ::= λ l, l ++ [name] |>).
Proof.
  intros Hw Hroom. unfold intern_database. destruct (String.eqb_spec name "") as [->|Hne].
  { exists w, 0%N. split_and!; [done|done| |by left]. destruct Hw as [Hh _ _].
    destruct (ws_database_names w); [done|]. by eexists. }
  unfold u16_max in *.
  destruct (list_find _ _) as [[i d]|] eqn:Hf.
  - exists w, (as_u16 i). split_and!; [done|done| |by left].
    apply list_find_Some in Hf as (Hi & _ & _). apply lookup_lt_Some in Hi as Hlt.
    rewrite as_u16_small by lia. by eexists.
  - rewrite (proj2 (N.ltb_lt _ _) Hroom). eexists _, _. split; [done|]. split_and!; [| |by right].
    + apply databases_wf_append; [done|done|unfold slot_of; by rewrite Hf|done].
    + cbn. rewrite as_u16_small by lia. rewrite lookup_app_r, Nat.sub_diag by lia. by eexists.
Qed.

Lemma entry_ok_names w w' o : (∀ id, staged_script w' id = staged_script w id) →
  ws_database_names w `prefix_of` ws_database_names w' → entry_ok w o → entry_ok w' o.
Proof.
  intros Hs Hp [H1 [db H2]]. split; [by rewrite Hs|]. exists db. by eapply prefix_lookup_Some.
Qed.

Lemma intern_database_inv name s o d w :
  scan_inv s o d w → (N.of_nat (length (ws_database_names w)) < u16_max)%N →
  yields (intern_database name w) (λ r, scan_inv s o (S d) r.1 ∧
    is_Some (ws_database_names r.1 !! N.to_nat r.2) ∧
    ∀ id, staged_script r.1 id = staged_script w id).
Proof.
  intros Hinv Hroom. pose proof Hinv as [Hi Hs Hd Ha Hf He Hn Hr Ho Hna].
  destruct (intern_database_step name w Hd Hroom) as (w' & id & -> & Hd' & Hid & [-> | ->]); cbn.
  - split_and!; [|done|done]. eapply scan_inv_mono; [..|exact Hinv]; lia.
  - split_and!; [|done|done]. keep_parts; [|rewrite length_app; cbn; lia].
    eapply Forall_impl; [exact He|]. intros e. apply entry_ok_names; [done|]. by eexists.
Qed.

Lemma push_object_inv `{HU : Unicode} key obj s o d w :
  scan_inv s o d w → entry_ok w obj → entry_interned obj = false →
  yields (push_object key obj w) (scan_inv s (S o) d).
Proof.
  intros [Hi Hs Hd Ha Hf He Hn Hr Ho Hna] Hob Hnew. pose proof (push_object_spec key obj w Hi) as Hp.
  destruct (decide _) as [|_]; [by destruct Hp as [msg ->]|].
  destruct Hp as (w' & Hw & Hi' & _ & Hent). rewrite Hw. cbn. revert Hw Hi' Hent.
  unfold push_object. destruct (ws_ingest_key_index w !! _); [done|]. intros [= <-] Hi' _.
  keep_parts; [..|rewrite length_app; cbn; lia]; (apply Forall_app; split; [done|by constructor]).
Qed.

Lemma push_transition_staging_inv db key ordinal skey s o d w : scan_inv s o d w →
  yields (push_transition_staging db key ordinal skey w) (λ w', scan_inv s o (S d) (invalidate_transition_paths w')).
Proof.
  intros [Hi Hs Hd Ha Hf He Hn Hr Ho Hna]. unfold push_transition_staging. case_match; [done|].
  keep_parts. rewrite map_size_insert. case_match; cbn; lia.
Qed.

Section scan.
Context `{HU : Unicode} `{HF : Fingerprint} `{HM : MapOrder} `{HS : Sha256}.
Context (fs_read : string → M string) (Hread : ∀ p, fs_read p ≠ Panic).

Lemma parse_meta_no_panic rel : parse_meta rel ≠ Panic.
Proof.
  unfold parse_meta. case_match; [done|]. case_match; [done|].
  repeat match goal with
  | |- context [validate_path_component ?s] =>
      pose proof (validate_no_panic s); destruct (validate_path_component s); [cbn|done..]
  end.
  case_match; [by case_match|done].
Qed.

Lemma ingest_inv rel abs s o d w : scan_inv s o d w → (N.of_nat (S s) < u32_size)%N →
  yields (ingest fs_read w rel abs) (scan_inv (S s) o (S d)).
Proof.
  intros Hinv Hsz. unfold ingest.
  eapply yields_bind; [apply yields_total, parse_meta_no_panic|]. intros [m|] _;
    [|by eapply scan_inv_mono; [..|exact Hinv]; lia].
  eapply yields_bind; [apply yields_total, Hread|]. intros data _.
  eapply yields_bind; [by apply (insert_script_inv _ _ _ _ _ Hinv)|]. intros [w1 id] [H1 _]. cbn in H1.
  case_match; [by eapply scan_inv_mono; [..|exact H1]; lia|].
  pose proof (push_transition_staging_inv (key_part rel 0) (tm_table_key m) (tm_ordinal m)
    (script_key_from_path (tm_path m)) _ _ _ _ H1) as Hp.
  destruct (push_transition_staging _ _ _ _ _); [exact Hp|done|done].
Qed.

Lemma push_check_inv rel abs s o d w : scan_inv s o d w → (N.of_nat (S s) < u32_size)%N →
  yields (push_check w rel abs) (scan_inv (S s) o d).
Proof.
  intros Hinv Hsz. unfold push_check.
  pose proof (insert_script_inv (mk_Script (script_key_from_path rel) SkCheck abs None) _ _ _ _ Hinv Hsz) as H.
  destruct (insert_script _ _) as [r| |]; [exact (proj1 H)|done|done].
Qed.

Lemma insert_parsed_object_inv parsed rel schemas s o d w : scan_inv s o d w →
  (N.of_nat (S s) < u32_size)%N →
  (∀ key obj script, parsed = Some (key, obj, script) → entry_interned obj = false) →
  yields (insert_parsed_object w parsed rel schemas) (λ r, scan_inv (S s) (S o) (S d) r.1).
Proof.
  intros Hinv Hsz Hnew. unfold insert_parsed_object. destruct parsed as [[[key obj] script]|];
    [|by eapply scan_inv_mono; [..|exact Hinv]; lia].
  cbv zeta. eapply yields_bind; [by apply (insert_script_inv _ _ _ _ _ Hinv)|].
  intros [w1 id] [H1 Hid]. cbn in H1, Hid.
  destruct (u16_max - 1 <=? N.of_nat (database_count w1))%N eqn:Hc; [done|].
  apply N.leb_gt in Hc. unfold database_count, u16_max in Hc.
  eapply yields_bind; [apply (intern_database_inv _ _ _ _ _ H1); unfold u16_max; lia|].
  intros [w2 db] (H2 & Hdb & Hst). cbn in H2, Hdb, Hst.
  eapply yields_bind; [apply (push_object_inv _ _ _ _ _ _ H2)|].
  - split; [|done]. cbn. by rewrite Hst.
  - by apply (Hnew key obj script).
  - intros w3 H3. exact H3.
Qed.
(** *** Reading the tree *)

Lemma walk_node_no_panic n : ∀ prefix name out, walk_node prefix name n out ≠ Panic.
Proof.
  induction n as [|e| |es IH] using FsNode_ind'; intros prefix name out; cbn; [by case_match|done..|].
  revert out. induction IH as [|[nm nd] es Hn _ IHes]; intros out; [done|]. cbn in Hn.
  pose proof (Hn (prefix ++ [name]) nm out). destruct (walk_node _ nm nd out); [apply IHes|done..].
Qed.

Lemma walk_sql_length tree : yields (walk_sql tree) (λ files,
  ∃ listed, walk_dir tree = Ok listed ∧ length files = length listed).
Proof.
  unfold walk_sql. enough (walk_dir tree ≠ Panic).
  { destruct (walk_dir tree) as [l| |]; [|done..]. cbn. exists l. by rewrite sort_by_length. }
  destruct tree as [|e|es|]; try done. cbn. generalize (@nil (list string)) as out.
  induction es as [|[nm nd] es IH]; intros out; [done|]. cbn [foldM fst snd].
  pose proof (walk_node_no_panic nd [] nm out). by destruct (walk_node [] nm nd out); [apply IH|..].
Qed.

Lemma relative_no_panic p : relative_sql_path p ≠ Panic.
Proof.
  unfold relative_sql_path. assert (yields (traverse relative_component p) (λ ys, length ys = length p)) as H.
  { apply yields_traverse. intros c. unfold relative_component. by case_match. }
  by destruct (traverse _ _).
Qed.

(** After [k] files, some of them put aside as objects. *)
Definition listed_inv (k : nat) (st : Workspace * list (string * string)) : Prop :=
  ∃ a, scan_inv a a (S a) st.1 ∧ a + length st.2 ≤ k.

Lemma scan_entry_inv root k st p : listed_inv k st → (N.of_nat (S k) < u32_size)%N →
  yields (scan_entry fs_read root st p) (listed_inv (S k)).
Proof.
  destruct st as [w objects]. intros (a & Hinv & Ha) Hsz. cbn in Hinv, Ha. unfold scan_entry.
  eapply yields_bind; [apply yields_total, relative_no_panic|]. intros rel _. cbv zeta.
  case_match; [|case_match].
  - eapply yields_bind; [apply (ingest_inv _ _ _ _ _ _ Hinv); lia|]. intros w1 H1.
    exists (S a). split; [|cbn; lia]. eapply scan_inv_mono; [..|exact H1]; lia.
  - eapply yields_bind; [apply (push_check_inv _ _ _ _ _ _ Hinv); lia|]. intros w1 H1.
    exists (S a). split; [|cbn; lia]. eapply scan_inv_mono; [..|exact H1]; lia.
  - exists a. split; [done|]. cbn. rewrite length_app. cbn. lia.
Qed.

Lemma parse_object_new rel abs key obj script : parse_object fs_read rel abs = Ok (Some (key, obj, script)) →
  entry_interned obj = false.
Proof.
  unfold parse_object. intros H. cbv zeta in H. case_match; [done|]. case_match; [by case_match|].
  case_match; [done|]. inv_ok. done.
Qed.

Lemma parse_objects_new parallelism items : 0 < parallelism →
  yields (parse_objects fs_read parallelism items) (λ parsed, length parsed = length items ∧
    ∀ key obj script, Some (key, obj, script) ∈ parsed → entry_interned obj = false).
Proof.
  intros Hp. rewrite (parse_objects_sequential fs_read Hread) by done.
  pose proof (yields_traverse (λ x, parse_object fs_read x.1 x.2) items
    (λ x, parse_object_no_panic fs_read Hread x.1 x.2)) as Hl.
  destruct (traverse _ items) as [parsed| |] eqn:E; [|done..]. cbn in *. split; [done|].
  apply traverse_Ok in E. intros key obj script (i & Hi)%list_elem_of_lookup.
  destruct (Forall2_lookup_r _ _ _ _ _ E Hi) as (x & _ & Hx). by eapply parse_object_new.
Qed.
End scan.

(** ** The finished layout *)

(** What the rest of the program relies on: parallel columns, one object per key
    and database, and scripts, databases, rows and index entries that exist. *)
Record layout_wf (w : Workspace) : Prop := {
  lw_scripts : scripts_wf w;
  lw_databases : databases_wf w;
  lw_keys : length (ws_object_keys w) = length (ws_object_entries w);
  lw_rows : length (ws_object_rows w) = length (ws_object_entries w);
  lw_sorted : StronglySorted String.leb (ws_object_keys w);
  lw_unique : NoDup (zip (oe_db_id <$> ws_object_entries w) (ws_object_keys w));
  lw_entries : Forall (entry_ok w) (ws_object_entries w);
  lw_indexed k : k ∈ ws_object_keys w → is_Some (ws_key_index w !! k);
  lw_index k id : ws_key_index w !! k = Some id → row_at (ws_object_keys w) id = Some k;
  lw_transitions id es : ws_transitions_by_row w !! id = Some es →
    is_Some (row_at (ws_object_entries w) id) ∧
    Forall (λ e, is_Some (staged_script w (te_script_id e))) es;
}.

Section finalize.
Context `{HU : Unicode} `{HF : Fingerprint} `{HM : MapOrder}.

Lemma index_keys_length keys st i : length (ix_rows (index_keys st i keys)) = length (ix_rows st) + length keys.
Proof.
  revert st i. induction keys as [|k keys IH]; intros st i; cbn; [lia|]. rewrite IH.
  unfold index_key. destruct (schema_id_for _ _). cbn. rewrite length_app. cbn. lia.
Qed.

Lemma zip_swap {A B C} (f : B → C) (es : list B) (ks : list A) : 
  zip (f <$> es) ks = (λ p : A * B, (f p.2, p.1)) <$> zip ks es.
Proof. revert ks. induction es as [|e es IH]; intros [|k ks]; cbn; [done..|by rewrite IH]. Qed.

(** A script in the key index is in the table. *)
Lemma indexed_script w k id : scripts_wf w → ws_script_key_index w !! k = Some id →
  is_Some (staged_script w id).
Proof.
  intros Hw Hid. apply (scr_index _ Hw) in Hid as (i & -> & Hi). unfold staged_script, row_at.
  rewrite row_index_succ. cbn. rewrite Hi. apply lookup_lt_Some in Hi. rewrite (scr_keys _ Hw) in Hi.
  destruct (lookup_lt_is_Some_2 (ws_script_rows w) i Hi) as [? ->].
  destruct (lookup_lt_is_Some_2 (ws_script_checksums w) i) as [? ->]; [by rewrite (scr_sums _ Hw)|].
  destruct (lookup_lt_is_Some_2 (ws_ingest_script_abs w) i) as [? ->]; [by rewrite (scr_abs _ Hw)|].
  by eexists.
Qed.

Lemma db_rows_of_range w : length (ws_object_keys w) = length (ws_object_entries w) →
  (N.of_nat (length (ws_object_entries w)) < u32_size)%N →
  ∃ m, db_rows_of w = Ok m ∧ ∀ p id, m !! p = Some id → is_Some (row_at (ws_object_entries w) id).
Proof.
  intros Ha Hsz. unfold db_rows_of.
  apply (foldM_total (λ m : gmap (N * N) N, ∀ p id, m !! p = Some id → is_Some (row_at (ws_object_entries w) id))).
  { intros p id. by rewrite lookup_empty. }
  intros m i Hi%elem_of_seq Hm. rewrite entry_key_aligned by (done || lia).
  destruct (lookup_lt_is_Some_2 (ws_object_entries w) i) as [o Ho]; [lia|].
  destruct (lookup_lt_is_Some_2 (ws_object_keys w) i) as [k Hk]; [lia|]. rewrite Ho, Hk. cbn.
  eexists. split; [done|]. intros p id [[_ <-]|[_ ?]]%lookup_insert_Some; [|by eapply Hm].
  rewrite as_u32_small, Nat2N.inj_add by lia. unfold row_at. rewrite row_index_succ. cbn. by eexists.
Qed.

(** What compacting keeps, after [k] groups. *)
Definition compacted (w0 : Workspace) (k : nat) (w : Workspace) : Prop :=
  ∃ names by_row, w = w0 <| ws_database_names ::= λ l, l ++ names |> <| ws_transitions_by_row := by_row |> ∧
    length names ≤ k ∧ databases_wf w ∧
    ∀ id es, by_row !! id = Some es → is_Some (row_at (ws_object_entries w0) id) ∧
      Forall (λ e, is_Some (staged_script w0 (te_script_id e))) es.

Lemma compact_step_inv rows w0 k w x : scripts_wf w0 →
  (∀ p id, rows !! p = Some id → is_Some (row_at (ws_object_entries w0) id)) →
  (N.of_nat (length (ws_database_names w0) + k) < u16_max)%N →
  compacted w0 k w → yields (compact_step rows w x) (compacted w0 (S k)).
Proof.
  intros Hs Hrows Hroom (names & by_row & -> & Hk & Hd & Hby). destruct x as [[db key] entries].
  set (w := w0 <| ws_database_names ::= _ |> <| ws_transitions_by_row := by_row |>) in *.
  unfold compact_step. destruct (intern_database_step db w Hd) as (w' & id & -> & Hd' & _ & Hw').
  { unfold w. cbn. rewrite length_app. lia. }
  cbn [mbind outcome_bind].
  assert (∃ names', w' = w0 <| ws_database_names ::= λ l, l ++ names' |> <| ws_transitions_by_row := by_row |> ∧
    length names' ≤ S k) as (names' & -> & Hk').
  { destruct Hw' as [-> | ->]; [exists names; split; [done|lia]|]. exists (names ++ [db]). split.
    - unfold w, upd. cbn. by rewrite app_assoc.
    - rewrite length_app. cbn. lia. }
  case_match; [by exists names', by_row|]. destruct (rows !! _) as [row|] eqn:Hrow; [|done]. cbn.
  set (w1 := w0 <| ws_database_names ::= λ l, l ++ names' |> <| ws_transitions_by_row := by_row |>) in *.
  assert (Forall (λ e, is_Some (staged_script w0 (te_script_id e))) (staged_row_entries w1 entries)) as Hes.
  { apply Forall_forall. unfold staged_row_entries. intros e (y & _ & Hy)%list_elem_of_omap. apply fmap_Some in Hy as (sid & Hsid & ->).
    cbn. by eapply indexed_script. }
  destruct (staged_row_entries w1 entries) as [|e es]; [by exists names', by_row|].
  exists names', (<[row := e :: es]> by_row). split_and!; [done|done| |].
  - apply (databases_wf_same w1); [done|exact Hd'].
  - intros id' es' [[<- <-]|[_ ?]]%lookup_insert_Some; [|by eapply Hby]. split; [by eapply Hrows|done].
Qed.

Lemma compact_inv w : databases_wf w → scripts_wf w →
  length (ws_object_keys w) = length (ws_object_entries w) →
  (N.of_nat (length (ws_object_entries w)) < u32_size)%N →
  (N.of_nat (length (ws_database_names w) + size (ws_transitions_staging w)) <= u16_max)%N →
  yields (compact_sparse_maps w) (λ w', ∃ k, compacted (w <| ws_transitions_staging := ∅ |>) k w').
Proof.
  intros Hd Hs Ha Hsz Hroom. unfold compact_sparse_maps, compact_transitions.
  set (w1 := w <| ws_transitions_staging := ∅ |>). set (w2 := w1 <| ws_transitions_by_row := ∅ |>).
  destruct (db_rows_of_range w2 Ha Hsz) as (rows & -> & Hrows). cbn [mbind outcome_bind].
  assert (length (iter_order (ws_transitions_staging w)) = size (ws_transitions_staging w)) as Hl
    by (by rewrite iter_order_perm, length_map_to_list).
  eapply yields_mono; [apply (yields_foldM _ (compacted w1)) with (n := 0)|].
  - exists [], ∅. split_and!; [|done| |].
    + unfold w2, w1, upd. cbn. by rewrite app_nil_r.
    + by apply (databases_wf_same w).
    + intros id es. by rewrite lookup_empty.
  - intros k w3 x _ Hk. apply compact_step_inv; [by apply (scripts_wf_same w)|exact Hrows|].
    change (ws_database_names w1) with (ws_database_names w). rewrite Hl in Hk. unfold u16_max in *. lia.
  - intros w3 H3. by exists (0 + length (iter_order (ws_transitions_staging w))).
Qed.
(** Dropping caches leaves everything else. *)
Definition same_columns (f : ObjectEntry → ObjectEntry) (w w' : Workspace) : Prop :=
  ws_database_names w' = ws_database_names w ∧ ws_layout_arena w' = ws_layout_arena w ∧
  ws_object_keys w' = ws_object_keys w ∧ ws_object_rows w' = ws_object_rows w ∧
  ws_object_entries w' = map f (ws_object_entries w) ∧
  ws_key_index w' = ws_key_index w ∧ ws_transitions_by_row w' = ws_transitions_by_row w.
Lemma same_columns_trans f g w1 w2 w3 :
  same_columns f w1 w2 → same_columns g w2 w3 → same_columns (g ∘ f) w1 w3.
Proof.
  intros (?&?&?&?&E&?&?) (?&?&?&?&F&?&?). unfold same_columns. rewrite F, E, map_map.
  split_and!; congruence || done.
Qed.

Lemma rebuild_path_caches_bare w : ws_layout_arena w = None →
  ∃ w', rebuild_path_caches w = Ok w' ∧ (scripts_wf w → scripts_wf w') ∧
    (∀ id, staged_script w' id = staged_script w id) ∧ same_columns (λ e, e) w w'.
Proof.
  intros Ha. exists (w <| ws_transition_path_cache := None |>
    <| ws_has_transition_paths_row := [] |> <| ws_object_path_cache := None |>). split_and!.
  - unfold rebuild_path_caches, rebuild_transition_path_cache.
    rewrite (bool_decide_eq_true_2 (ws_layout_arena w = None)) by done. rewrite orb_true_r.
    cbn. unfold rebuild_object_path_cache. cbn. rewrite Ha. by destruct (ws_object_entries w).
  - by apply scripts_wf_same.
  - intros id. by apply staged_script_same.
  - unfold same_columns. cbn. by rewrite map_id.
Qed.

(** Clearing the staged columns of scripts that no arena holds yet. *)
Lemma clear_scan_staging_scripts w : scripts_wf w →
  Forall (λ r, script_row_interned r = false) (ws_script_rows w) →
  scripts_wf (clear_scan_staging w) ∧ ∀ id, staged_script (clear_scan_staging w) id = staged_script w id.
Proof.
  intros Hs Hf. unfold clear_scan_staging. destruct (forallb script_row_interned _) eqn:E.
  - assert (ws_script_rows w = []) as Hnil.
    { cbn in E. destruct (ws_script_rows w) as [|r l]; [done|]. cbn in E.
      apply Forall_cons in Hf as [Hr _]. by rewrite Hr in E. }
    pose proof (scr_keys _ Hs) as Hk. pose proof (scr_abs _ Hs) as Hb. rewrite Hnil in Hk, Hb.
    apply nil_length_inv in Hk, Hb. split; [by apply (scripts_wf_same w)|].
    intros id. by apply staged_script_same.
  - split; [by apply (scripts_wf_same w)|done].
Qed.

Lemma clear_same_columns w :
  same_columns (set_db_exists false) w (invalidate_catalog_facts (clear_scan_staging w)).
Proof. unfold clear_scan_staging. by case_match. Qed.

Lemma finish_layout_inv w : scripts_wf w → ws_layout_arena w = None →
  Forall (λ r, script_row_interned r = false) (ws_script_rows w) →
  ∃ w', rebuild_path_caches (invalidate_catalog_facts (clear_scan_staging w)) = Ok w' ∧
    scripts_wf w' ∧ (∀ id, staged_script w' id = staged_script w id) ∧
    same_columns (set_db_exists false) w w'.
Proof.
  intros Hs Ha Hf. destruct (clear_scan_staging_scripts w Hs Hf) as [Hs1 Hst1].
  destruct (rebuild_path_caches_bare (invalidate_catalog_facts (clear_scan_staging w)))
    as (w' & Hw & Hs2 & Hst2 & Hc).
  { transitivity (ws_layout_arena w); [apply (clear_same_columns w)|done]. }
  exists w'. split_and!; [done| | |].
  - by apply Hs2, (scripts_wf_same (clear_scan_staging w)).
  - intros id. rewrite Hst2, <- Hst1. by apply staged_script_same.
  - exact (same_columns_trans _ _ _ _ _ (clear_same_columns w) Hc).
Qed.

Lemma finalize_inv s o d w : scan_inv s o d w → (N.of_nat o < u32_size)%N →
  (N.of_nat d <= u16_max)%N → yields (finalize_object_layout w) layout_wf.
Proof.
  intros [Hi Hs Hd Ha Hf He Hn Hr Ho Hna] Hsz Hroom. unfold finalize_object_layout.
  assert (entries_are_interned (ws_object_entries w) = false) as ->.
  { unfold entries_are_interned. destruct Hn as [|e es Hne _]; [done|]. cbn. by rewrite Hne. }
  pose proof (ing_aligned _ Hi) as Hal. unfold finalize_sorted_entries. rewrite <- Hal, Nat.eqb_refl. cbn [negb mbind outcome_bind].
  set (ps := sort_by pair_leb (zip (ws_ingest_keys w) (ws_object_entries w))).
  assert (ps ≡ₚ zip (ws_ingest_keys w) (ws_object_entries w)) as Hperm by apply sort_by_perm.
  assert (length ps = length (ws_object_entries w)) as Hlen
    by (rewrite Hperm, length_zip_with; lia).
  unfold apply_finalized_entries. cbn [fin_rows fin_key_index fin_fp_index fin_entries fin_keys].
  set (w1 := _ <| ws_object_keys := ps.*1 |>).
  eapply yields_bind.
  - apply (compact_inv w1); [by apply (databases_wf_same w)|by apply (scripts_wf_same w)|cbn|cbn|cbn].
    + by rewrite !length_fmap.
    + rewrite length_fmap. lia.
    + unfold u16_max in *. lia.
  - intros w2 [k Hc].
    destruct Hc as (names & by_row & -> & _ & Hd2 & Hby).
    set (w2 := _ <| ws_transitions_by_row := by_row |>) in *.
    destruct (finish_layout_inv w2) as (w3 & -> & H1 & H3 & H4 & _ & H5 & H6 & H7 & H8 & H9);
      [by apply (scripts_wf_same w)|done|done|].
    cbn. cbn in H4, H5, H6, H7, H8, H9.
    destruct (index_keys_maps ps.*1) as [Hix _].
    assert (∀ id, staged_script w3 id = staged_script w id) as Hst
      by (intros id; rewrite H3; by apply staged_script_same).
    split; rewrite ?H5, ?H6, ?H7, ?H8; try done.
    + by apply (databases_wf_same w2).
    + by rewrite length_map, !length_fmap.
    + rewrite index_keys_length, length_map, !length_fmap. done.
    + apply (StronglySorted_proj fst), sort_by_sorted; [apply pair_leb_total|apply pair_leb_trans].
    + assert (oe_db_id <$> map (set_db_exists false) ps.*2 = oe_db_id <$> ps.*2) as ->.
      { change (map (set_db_exists false) ps.*2) with (set_db_exists false <$> ps.*2).
        rewrite <- list_fmap_compose. by apply list_fmap_ext. }
      rewrite zip_swap, zip_fst_snd, Hperm, <- zip_swap. apply (ing_nodup _ Hi).
    + apply Forall_fmap. assert (Forall (entry_ok w) ps.*2) as Hps.
      { rewrite Hperm, snd_zip by lia. exact He. }
      eapply Forall_impl; [exact Hps|]. intros e Hok. change (entry_ok w3 e).
      apply (entry_ok_names w); [exact Hst| |exact Hok]. rewrite H4. by eexists.
    + intros k' Hk'. rewrite Hix, index_of_is_Some, list_fmap_id. exact Hk'.
    + intros k' id. rewrite Hix. intros (i & k1 & -> & Hi' & <- & _)%index_of_Some.
      * unfold row_at. by rewrite row_index_succ.
      * rewrite length_fmap, Hlen. lia.
    + intros id es. rewrite H9. intros [Hrow Hes]%Hby. cbn in Hrow. split.
      * destruct Hrow as [e Hrow]. unfold row_at in *. destruct (row_index id) as [i|]; [cbn in *|done].
        rewrite list_lookup_fmap, Hrow. by eexists.
      * eapply Forall_impl; [exact Hes|]. intros e. cbn. by rewrite Hst.
Qed.
End finalize.

(** C7. Scanning a tree of at most 65 534 SQL files never panics, whatever the
    files, the listing and the number of workers: it fails with an error, or
    returns a workspace with parallel sorted columns and one object per key and
    database, every script id, database id, row id and index entry of which
    denotes something that is there. *)
Theorem scan_root_well_formed `{HU : Unicode} `{HF : Fingerprint} `{HM : MapOrder} `{HS : Sha256}
    (fs_read : string → M string) parallelism w canonical tree :
  (∀ p, fs_read p ≠ Panic) → 0 < parallelism → canonical ≠ Panic →
  head (ws_database_names w) = Some "" →
  (∀ files, walk_dir tree = Ok files → (N.of_nat (length files) < u16_max)%N) →
  match scan_root fs_read parallelism w canonical tree with
  | Ok w' => layout_wf w'
  | Err _ => True
  | Panic => False
  end.
Proof.
  intros Hread Hp Hc Hhead Hfiles. change (yields (scan_root fs_read parallelism w canonical tree) layout_wf).
  unfold scan_root. eapply yields_bind; [by apply yields_total|]. intros root _.
  eapply (yields_bind _ _ (λ _, True)); [by case_match|]. intros _ _.
  assert (ws_database_names (reset_layout w <| ws_root := root |>) = [""]) as Hn.
  { transitivity (take 1 (ws_database_names w)); [done|].
    destruct (ws_database_names w) as [|x l]; [done|]. injection Hhead as ->. done. }
  assert (scan_inv 0 0 1 (reset_layout w <| ws_root := root |>)) as H0.
  { split; try done.
    - split; [done|constructor|]. intros q. cbn. rewrite lookup_empty. split; [by intros []|by intros ?%elem_of_nil].
    - split; try done. intros k id. cbn. rewrite lookup_empty. split; [done|by intros (? & ? & ?)].
    - split; rewrite Hn; [done|apply NoDup_singleton|done].
    - by rewrite Hn. }
  eapply yields_bind; [apply walk_sql_length|]. intros files (listed & Hl & Hlen).
  apply Hfiles in Hl. rewrite <- Hlen in Hl. unfold u16_max in Hl. clear Hlen listed Hfiles Hn.
  eapply yields_bind.
  { apply (yields_foldM _ listed_inv _ 0); [exists 0; split; [exact H0|cbn; lia]|]. intros k st x _ Hk. cbn in Hk.
    intros Hst. apply (scan_entry_inv fs_read Hread _ _ _ _ Hst). unfold u32_size. lia. }
  intros [w1 objects] (a & H1 & Ha). cbn in H1, Ha.
  eapply yields_bind; [by apply (parse_objects_new fs_read Hread)|]. intros parsed [Hpl Hnew].
  eapply yields_bind.
  { apply (yields_foldM _ (λ k st, scan_inv k k (S k) st.1) _ a); [exact H1|].
    intros k [w2 schemas] [p it] Hin Hk Hst. rewrite length_zip_with in Hk.
    apply (insert_parsed_object_inv _ _ _ _ _ _ _ Hst).
    - unfold u32_size. lia.
    - intros key obj script E. apply elem_of_zip_l in Hin. cbn in E. subst p. by eapply Hnew. }
  intros [w2 schemas] H2. cbn in H2. rewrite length_zip_with in H2.
  set (n := a + length parsed `min` length objects) in *.
  apply (finalize_inv n n (S n)); [|unfold u32_size; lia|unfold u16_max; lia].
  destruct H2 as [Hi Hs Hd Har Hf He Hn Hr Ho Hna]. by keep_parts.
Qed.

(** ** An instance *)

Module IngestSample.
Import ScanSample.
#[local] Existing Instances Concrete.unicode Concrete.fingerprint Concrete.map_order
  Concrete.digest.

Definition one_migration : string * FsNode :=
  ("_migrations", FDir [("users", FDir [("001_abcdef1_split.sql", FFile)])]).
Definition files : FsNode := tree [users_sql; orders_sql; one_migration].

Lemma scan_root_well_formed_witness :
  ∃ w, scan_root read 4 Workspace_default (Ok "/repo") files = Ok w ∧ layout_wf w ∧
    dom (ws_transitions_by_row w) = {[2%N]}.
Proof.
  pose proof (scan_root_well_formed read 4 Workspace_default (Ok "/repo") files
    (λ _, ltac:(discriminate)) (Nat.lt_0_succ 3) ltac:(discriminate) eq_refl) as H.
  destruct (scan_root read 4 Workspace_default (Ok "/repo") files) as [w| |] eqn:E;
    [|exfalso; revert E; vm_compute; discriminate..].
  exists w. split; [done|]. split.
  - apply H. intros l El. vm_compute in El. injection El as <-. by vm_compute.
  - enough (match scan_root read 4 Workspace_default (Ok "/repo") files with
            | Ok w => dom (ws_transitions_by_row w) = {[2%N]} | _ => False end) as Hd by (by rewrite E in Hd).
    clear. vm_compute. reflexivity.
Defined.
End IngestSample.
