(* ===== verification/Catalog.v ===== *)
(** * What the database says: rows, catalog state and recorded checksums

    [driver/row.rs], [db/state.rs], [db/catalog.rs], [db/catalog_guard.rs],
    [db/catalog_cache.rs], [db/checksum_map.rs], [audit/load/checksum.rs],
    [audit/load/cache.rs] ([db_fingerprint]), [audit/history.rs],
    [audit/migrations.rs] and the pure helpers of [db/plan_common/].  Result sets
    are lists of [RowData]; how the driver obtains them is not modelled. *)

From S2P Require Export Layout.
From Stdlib Require Import Ascii.
From Stdlib Require String.

(** ** Rows *)

Inductive Cell : Type :=
| CNull
| CStr (s : string)
| CBytes (b : string).

Abbreviation RowData := (list Cell) (only parsing).

Definition get_str (r : RowData) (idx : nat) : option string :=
  match r !! idx with Some (CStr s) => Some s | _ => None end.

Definition get_bytes (r : RowData) (idx : nat) : option string :=
  match r !! idx with Some (CBytes b) => Some b | _ => None end.

(** [str::parse::<i32>]: an optional sign, then decimal digits, in range. *)
Fixpoint parse_digits (acc : Z) (s : string) : option Z :=
  match s with
  | EmptyString => Some acc
  | String c s' =>
      if is_ascii_digit c then parse_digits (acc * 10 + (Z.of_N (byte_of c) - 48)) s' else None
  end.

Definition parse_int (lo hi : Z) (s : string) : option Z :=
  n ← match s with
      | EmptyString => None
      | String c EmptyString => parse_digits 0 s
      | String c s' =>
          if bool_decide (c = "-"%char) then Z.opp <$> parse_digits 0 s'
          else if bool_decide (c = "+"%char) then parse_digits 0 s'
          else parse_digits 0 s
      end;
  if (lo <=? n)%Z && (n <=? hi)%Z then Some n else None.

Definition parse_i32 : string → option Z := parse_int (-2147483648) 2147483647.

Definition get_i32 (r : RowData) (idx : nat) : option Z :=
  match get_str r idx with
  | Some s => parse_i32 (trim s)
  | None =>
      b ← get_bytes r idx;
      if valid_utf8 b then parse_i32 (trim b) else None
  end.

Definition str_or_empty (r : RowData) (idx : nat) : string := default "" (get_str r idx).

(** ** Catalog state *)

Record CatalogObject := mk_CatalogObject {
  co_schema : string;
  co_kind : string;
  co_name : string;
  co_parent : option string;
}.
#[global] Instance CatalogObject_eq_dec : EqDecision CatalogObject.
Proof. solve_decision. Defined.

Record CatalogState := mk_CatalogState {
  cs_schemas : gset string;
  cs_objects : gmap string CatalogObject;
}.
#[global] Instance CatalogState_eta : Settable CatalogState := λ s,
  mk_CatalogState (cs_schemas s) (cs_objects s).

Definition CatalogState_default : CatalogState := mk_CatalogState ∅ ∅.

Definition non_empty (o : option string) : option string :=
  s ← o; if String.eqb s "" then None else Some s.

Definition catalog_object (schema kind name : string) (parent : option string) : CatalogObject :=
  mk_CatalogObject schema kind name (non_empty parent).

Definition catalog_object_parts (schema kind name : string) (parent : option string)
    : CatalogObject := mk_CatalogObject schema kind name parent.

Definition catalog_object_from_key (key : object_key) : CatalogObject :=
  mk_CatalogObject (schema_part key) (kind_part key) (name_part key) None.

Definition looks_like_catalog_rows (rows : list RowData) : bool :=
  match rows with
  | [] => false
  | r :: _ => Nat.leb 5 (length r) &&
      match get_str r 0 with
      | Some s => String.eqb s "object" || String.eqb s "schema"
      | None => false
      end
  end.

Definition looks_like_cache_load_rows (rows : list RowData) : bool :=
  match rows with
  | [] => false
  | r :: _ => Nat.leb 5 (length r) &&
      match get_str r 0 with Some k => has_char "/" k | None => false end
  end.

Section with_unicode.
Context `{HU : Unicode}.

Definition ensure_index_unambiguous (st : CatalogState) (key : object_key) (obj_kind : string)
    (parent : option string) : M unit :=
  if negb (String.eqb obj_kind "indexes") then Ok tt
  else
    match cs_objects st !! key with
    | None => Ok tt
    | Some prev =>
        let prev_parent := default "" (co_parent prev) in
        let new_parent := default "" parent in
        if String.eqb prev_parent new_parent then Ok tt
        else Err (InvalidInput ("ambiguous index " +:+ key +:+ ": exists on both '"
               +:+ prev_parent +:+ "' and '" +:+ new_parent
               +:+ "'; index names managed by the repository must be unique per schema"))
    end.

Definition merge_catalog_row (st : CatalogState) (row : RowData) : M CatalogState :=
  let kind := str_or_empty row 0 in
  let schema := str_or_empty row 1 in
  if String.eqb kind "schema" then
    Ok (st <| cs_schemas ::= λ s, {[ to_lowercase schema ]} ∪ s |>)
  else
    let obj_kind := str_or_empty row 2 in
    let name := str_or_empty row 3 in
    let parent := get_str row 4 in
    let key := object_key_new schema obj_kind name in
    ensure_index_unambiguous st key obj_kind parent;;
    Ok (st <| cs_objects ::= <[key := catalog_object schema obj_kind name parent]> |>).

Definition merge_rows (st : CatalogState) (rows : list RowData) : M CatalogState :=
  foldM merge_catalog_row st rows.

(** [catalog_cache.rs]: rows of the cache tables carry the normalised key. *)
Definition merge_cache_row (st : CatalogState) (row : RowData) : CatalogState :=
  let key := str_or_empty row 0 in
  let schema := str_or_empty row 1 in
  let kind := str_or_empty row 2 in
  let name := str_or_empty row 3 in
  if String.eqb kind "schema"
  then st <| cs_schemas ::= λ s, {[ to_lowercase schema ]} ∪ s |>
  else st <| cs_objects ::= <[key := catalog_object schema kind name (get_str row 4)]> |>.

Definition hydrate_schemas_from_objects (st : CatalogState) : CatalogState :=
  st <| cs_schemas ::= λ s,
    list_to_set (map (λ kv, to_lowercase (co_schema kv.2)) (map_to_list (cs_objects st))) ∪ s |>.

Definition merge_load_rows (st : CatalogState) (rows : list RowData) : CatalogState :=
  hydrate_schemas_from_objects (foldl merge_cache_row st rows).

(** The cache is used only when it holds one object per workspace object. *)
Definition catalog_of_cache_rows (rows : list RowData) (object_count : nat)
    : option CatalogState :=
  match rows with
  | [] => None
  | _ =>
      let st := foldl merge_cache_row CatalogState_default rows in
      if Nat.eqb (size (cs_objects st)) object_count
      then Some (hydrate_schemas_from_objects st) else None
  end.

Definition missing_catalog_table (e : Error) : bool :=
  match e with
  | Sql msg =>
      let m := to_lowercase msg in
      contains_str "catalog_cache" m || contains_str "catalog_meta" m
        || contains_str "invalid object name" m
  | _ => false
  end.
End with_unicode.

Definition merge_stable_catalog (st : CatalogState) (stable : gmap string CatalogObject)
    : CatalogState := st <| cs_objects ::= λ m, m ∪ stable |>.

Definition filter_for_layout (w : Workspace) (st : CatalogState) : M CatalogState :=
  foldM (λ out i,
    key ← entry_key w i;
    match cs_objects st !! key with
    | Some o => Ok (out <| cs_objects ::= <[key := o]> |>)
    | None => Ok out
    end) CatalogState_default (seq 0 (object_count w)).

(** ** Recorded checksums *)

Section checksums.
Context `{HF : Fingerprint} `{HM : MapOrder} `{HX : Hex}.

Record ChecksumMap := mk_ChecksumMap {
  cm_by_fp : gmap N digest;
  cm_key_by_fp : gmap N string;
  cm_drift : gset N;
}.
#[global] Instance ChecksumMap_eta : Settable ChecksumMap := λ m,
  mk_ChecksumMap (cm_by_fp m) (cm_key_by_fp m) (cm_drift m).

Definition ChecksumMap_new : ChecksumMap := mk_ChecksumMap ∅ ∅ ∅.

Definition insert_normalized (key : string) (cs : digest) (m : ChecksumMap) : ChecksumMap :=
  let fp := key_fingerprint key in
  m <| cm_by_fp ::= <[fp := cs]> |> <| cm_key_by_fp ::= <[fp := key]> |>.

Definition insert_key (key : object_key) (cs : digest) (m : ChecksumMap) : ChecksumMap :=
  let fp := key_fingerprint key in
  m <| cm_by_fp ::= <[fp := cs]> |>
    <| cm_key_by_fp ::= λ ks, match ks !! fp with Some _ => ks | None => <[fp := key]> ks end |>.

Definition get_key (m : ChecksumMap) (key : object_key) : option digest :=
  cm_by_fp m !! key_fingerprint key.
Definition get_normalized (m : ChecksumMap) (key : string) : option digest := get_key m key.

Definition mark_live_definition_drift (key : object_key) (m : ChecksumMap) : ChecksumMap :=
  m <| cm_drift ::= λ s, {[ key_fingerprint key ]} ∪ s |>.

Definition has_live_definition_drift (m : ChecksumMap) (key : object_key) : bool :=
  bool_decide (key_fingerprint key ∈ cm_drift m).

(** The JSON object: normalised key to hex digest, in hash-map order. *)
Definition checksum_map_serialize (m : ChecksumMap) : list (string * string) :=
  map (λ e, (default "" (cm_key_by_fp m !! e.1), hex_encode e.2)) (iter_order (cm_by_fp m)).

Definition checksum_map_deserialize (wire : gmap string string) : M ChecksumMap :=
  foldM (λ m kv,
    match hex_decode kv.2 with
    | Some d => if Nat.eqb (String.length d) 32 then Ok (insert_normalized kv.1 d m)
                else Err (Other "Invalid string length")
    | None => Err (Other "Invalid hex digest")
    end) ChecksumMap_new (iter_order wire).

(** ** Audit history rows ([audit/load/checksum.rs]) *)

Definition parse_history_checksum (row : RowData) (idx : nat) : option digest :=
  match get_bytes row idx with
  | Some b => if Nat.eqb (String.length b) 32 then Some b else None
  | None =>
      s ← get_str row idx;
      let s := trim s in
      if String.eqb s "" then Some zero_digest
      else
        b ← hex_decode s;
        if Nat.eqb (String.length b) 32 then Some b else None
  end.

Definition corrupt_checksum (key : string) : Error :=
  Checksum ("audit history checksum for " +:+ key +:+ " is undecodable; run repair-checksum").

Definition row_drifted (row : RowData) : bool :=
  match get_i32 row 2 with Some n => negb (n =? 0)%Z | None => false end.

Definition checksum_row (allow_repair : bool) (out : ChecksumMap) (row : RowData)
    : M ChecksumMap :=
  let key := str_or_empty row 0 in
  match parse_history_checksum row 1 with
  | Some arr =>
      let out := insert_key key arr out in
      if negb (String.eqb arr zero_digest) && row_drifted row
      then Ok (mark_live_definition_drift key out) else Ok out
  | None =>
      if allow_repair then Ok (insert_key key zero_digest out) else Err (corrupt_checksum key)
  end.

Definition checksum_map_from_rows_ws (rows : list RowData) (allow_repair : bool)
    : M ChecksumMap :=
  foldM (checksum_row allow_repair) ChecksumMap_new rows.

(** [empty_checksums_from_keys_json] after its JSON array is parsed. *)
Definition empty_checksums (keys : list string) : ChecksumMap :=
  foldl (λ m k, insert_key k zero_digest m) ChecksumMap_new keys.

(** ** Audit records *)

Record HistoryRecord := mk_HistoryRecord {
  hr_normalized_key : string;
  hr_kind : string;
  hr_checksum : string;
  hr_git_hash : string;
  hr_git_author : string;
  hr_git_date : string;
  hr_event : string;
  hr_error_text : string;
}.

Definition record_event (key : string) (checksum : digest) (git_hash git_author git_date : string)
    (record_kind event : string) : HistoryRecord :=
  mk_HistoryRecord key record_kind (hex_encode checksum) git_hash git_author git_date event "".

(** [load_all_applied]: the rows of the query, as a map to recorded checksums. *)
Definition applied_from_rows (rows : list RowData) : gmap string string :=
  foldl (λ out row,
    let key := str_or_empty row 0 in
    if String.eqb key "" then out else <[key := trim (str_or_empty row 1)]> out) ∅ rows.
End checksums.

(** [db_fingerprint]: the identity under which cached plan state is shared. *)
Definition db_fingerprint (server port user database : string) : string :=
  pretty (String.length server) +:+ "~" +:+ server +:+ "~" +:+ port +:+ "~" +:+ user
    +:+ "~" +:+ database.

(** ** Loading recorded checksums fails closed *)

Section checksum_facts.
Context `{HF : Fingerprint} `{HM : MapOrder} `{HX : Hex}.

Definition row_key (row : RowData) : string := str_or_empty row 0.
Definition row_decodable (row : RowData) : Prop := is_Some (parse_history_checksum row 1).

(** The rows recorded for a key, in result-set order. *)
Definition rows_for (key : object_key) (rows : list RowData) : list RowData :=
  filter (λ r, key_fingerprint (row_key r) = key_fingerprint key) rows.

Definition row_digest (row : RowData) : digest :=
  default zero_digest (parse_history_checksum row 1).

(** A row that marks drift: a usable checksum and a non-zero flag. *)
Definition drift_row (row : RowData) : Prop :=
  ∃ d, parse_history_checksum row 1 = Some d ∧ d ≠ zero_digest ∧ row_drifted row = true.

Lemma get_key_insert key cs m k :
  get_key (insert_key key cs m) k =
    if decide (key_fingerprint key = key_fingerprint k) then Some cs else get_key m k.
Proof.
  unfold get_key, insert_key. cbn. destruct (decide _) as [->|Hne].
  - by rewrite lookup_insert_eq.
  - by rewrite lookup_insert_ne.
Qed.

Lemma checksum_row_spec repair m row :
  (row_decodable row ∨ repair = true) →
  ∃ m', checksum_row repair m row = Ok m' ∧
    (∀ k, get_key m' k = get_key (insert_key (row_key row) (row_digest row) m) k) ∧
    (∀ k, has_live_definition_drift m' k = true ↔ has_live_definition_drift m k = true ∨
       (key_fingerprint (row_key row) = key_fingerprint k ∧ drift_row row)).
Proof.
  intros Hd. unfold checksum_row, row_digest, drift_row, row_decodable, row_key in *.
  destruct (parse_history_checksum row 1) as [d|].
  - destruct (String.eqb_spec d zero_digest) as [->|Hne]; cbn.
    + eexists. split_and!; [done|done|]. intros k. split; [by left|].
      intros [?|(_ & ? & [= <-] & ? & _)]; done.
    + destruct (row_drifted row) eqn:Hr; cbn; (eexists; split_and!; [done|done|]); intros k.
      * unfold has_live_definition_drift, mark_live_definition_drift. cbn.
        rewrite !bool_decide_eq_true, elem_of_union, elem_of_singleton.
        split; [intros [?|?]; eauto 8|intros [?|[? _]]; auto].
      * split; [by left|]. intros [?|(_ & ? & _ & _ & ?)]; done.
  - destruct Hd as [[? ?]| ->]; [done|]. eexists. split_and!; [done|done|]. intros k.
    split; [by left|]. intros [?|(_ & ? & ? & _)]; done.
Qed.

Lemma rows_for_snoc key rows row :
  rows_for key (rows ++ [row]) =
    rows_for key rows ++ (if decide (key_fingerprint (row_key row) = key_fingerprint key)
                          then [row] else []).
Proof. unfold rows_for. rewrite filter_app, filter_cons, filter_nil. done. Qed.

Lemma checksum_rows_Ok rows repair :
  (Forall row_decodable rows ∨ repair = true) →
  ∃ m, checksum_map_from_rows_ws rows repair = Ok m ∧
    ∀ key, get_key m key = row_digest <$> last (rows_for key rows) ∧
      (has_live_definition_drift m key = true ↔ Exists drift_row (rows_for key rows)).
Proof.
  unfold checksum_map_from_rows_ws.
  induction rows as [|row rows IH] using rev_ind; intros Hd.
  { eexists. split; [done|]. intros key. split; [done|]. unfold has_live_definition_drift.
    rewrite bool_decide_eq_true. cbn. split; [by intros ?%elem_of_empty|by inversion 1]. }
  rewrite foldM_app.
  destruct IH as (m & -> & Hm). { destruct Hd as [Hd| ->]; [left|by right]. by apply Forall_app in Hd as [? _]. }
  destruct (checksum_row_spec repair m row) as (m' & Hrow & Hget & Hdrift).
  { destruct Hd as [Hd| ->]; [left|by right]. apply Forall_app in Hd as [_ Hd]. by inversion Hd. }
  exists m'. split. { cbn. by rewrite Hrow. } intros key. destruct (Hm key) as [Hg Hdr].
  rewrite Hget, get_key_insert, Hdrift, Hg, Hdr, rows_for_snoc.
  destruct (decide _) as [Heq|Hne]; [|rewrite app_nil_r]; split.
  - by rewrite last_snoc.
  - rewrite Exists_app, Exists_cons, Exists_nil. tauto.
  - done.
  - tauto.
Qed.

(** C35. Loading the audit history never invents a baseline: an undecodable
    checksum aborts the load unless repair is allowed, in which case it becomes
    the zero digest (no baseline); otherwise every key reads the digest of its
    last row, and is marked as drifted exactly when one of its rows with a
    usable checksum carries the drift flag. *)
Theorem checksum_map_from_rows_spec rows repair :
  match checksum_map_from_rows_ws rows repair with
  | Ok m =>
      (Forall row_decodable rows ∨ repair = true) ∧
      ∀ key, get_key m key = row_digest <$> last (rows_for key rows) ∧
        (has_live_definition_drift m key = true ↔ Exists drift_row (rows_for key rows))
  | Err e => repair = false ∧ ∃ row, row ∈ rows ∧ ¬ row_decodable row ∧
               e = corrupt_checksum (row_key row)
  | Panic => False
  end.
Proof.
  destruct (decide (Forall row_decodable rows ∨ repair = true)) as [Hd|Hd].
  - destruct (checksum_rows_Ok rows repair Hd) as (m & -> & Hm). done.
  - destruct repair; [by destruct Hd; right|].
    cut (∀ m, ¬ Forall row_decodable rows → ∃ row, row ∈ rows ∧ ¬ row_decodable row ∧
      foldM (checksum_row false) m rows = Err (corrupt_checksum (row_key row))).
    { intros Hex. destruct (Hex ChecksumMap_new) as (row & ? & ? & E); [tauto|].
      unfold checksum_map_from_rows_ws. rewrite E. eauto. }
    clear Hd. induction rows as [|row rows IH]; intros m Hn; [by destruct Hn|]. cbn.
    destruct (decide (row_decodable row)) as [Hr|Hr].
    + destruct (checksum_row_spec false m row) as (m' & -> & _ & _); [by left|]. cbn.
      destruct (IH m') as (r & ? & ? & E); [by intros ?; destruct Hn; constructor|].
      exists r. split_and!; [by right|done|exact E].
    + exists row. split_and!; [by left|done|]. unfold checksum_row, row_decodable in *.
      destruct (parse_history_checksum row 1); [by destruct Hr|]. done.
Qed.

(** ** The L1 wire form of a checksum map *)

(** Every digest has its key, and that key's fingerprint. *)
Record checksums_wf (m : ChecksumMap) : Prop := {
  cmw_keys : ∀ fp d, cm_by_fp m !! fp = Some d →
    ∃ k, cm_key_by_fp m !! fp = Some k ∧ key_fingerprint k = fp ∧ String.length d = 32;
}.

Lemma serialize_elem m k v :
  checksums_wf m →
  (k, v) ∈ checksum_map_serialize m ↔
    ∃ fp d, cm_by_fp m !! fp = Some d ∧ cm_key_by_fp m !! fp = Some k ∧
      key_fingerprint k = fp ∧ v = hex_encode d ∧ String.length d = 32.
Proof.
  intros Hw. unfold checksum_map_serialize. rewrite list_elem_of_fmap. split.
  - intros ([fp d] & [= -> ->] & Hin%iter_order_elem). cbn.
    destruct (cmw_keys _ Hw _ _ Hin) as (k & Hk & Hfp & Hlen). rewrite Hk. cbn. eauto 8.
  - intros (fp & d & Hd & Hk & _ & -> & _). exists (fp, d). cbn. rewrite Hk.
    split; [done|]. by apply iter_order_elem.
Qed.

Lemma serialize_functional m k v v' :
  checksums_wf m → (k, v) ∈ checksum_map_serialize m → (k, v') ∈ checksum_map_serialize m → v = v'.
Proof.
  intros Hw (fp & d & Hd & _ & Hfp & -> & _)%serialize_elem
    (fp' & d' & Hd' & _ & Hfp' & -> & _)%serialize_elem; [|done..]. congruence.
Qed.

(** The JSON object read back as a map: later duplicates win, and there are none. *)
Definition wire_map (l : list (string * string)) : gmap string string :=
  foldl (fill_step Some) ∅ l.

Lemma wire_map_lookup m k v :
  checksums_wf m →
  wire_map (checksum_map_serialize m) !! k = Some v ↔ (k, v) ∈ checksum_map_serialize m.
Proof.
  intros Hw. unfold wire_map. rewrite fill_map_lookup.
  - split; [by intros (? & ? & [= ->])|eauto].
  - intros [k1 v1] [k2 v2] k3 v3 v4 H1 H2 [= <- <-] [= <- <-]. by eapply serialize_functional.
Qed.

Lemma by_fp_insert_all (f : string * string → digest) l m :
  cm_by_fp (foldl (λ m kv, insert_normalized kv.1 (f kv) m) m l) =
    foldl (fill_step (λ kv, Some (key_fingerprint kv.1, f kv))) (cm_by_fp m) l.
Proof. revert m. induction l as [|x l IH]; intros m; cbn; [done|]. by rewrite IH. Qed.

Lemma drift_insert_all (f : string * string → digest) l m :
  cm_drift (foldl (λ m kv, insert_normalized kv.1 (f kv) m) m l) = cm_drift m.
Proof. revert m. induction l as [|x l IH]; intros m; cbn; [done|]. by rewrite IH. Qed.

(** C36. Writing a checksum map to the L1 cache and reading it back keeps every
    digest, and forgets every drift mark (which is why only an empty workspace
    may be planned from that cache). *)
Theorem checksum_map_wire_roundtrip m :
  checksums_wf m →
  ∃ m', checksum_map_deserialize (wire_map (checksum_map_serialize m)) = Ok m' ∧
    (∀ key, get_key m' key = get_key m key) ∧
    (∀ key, has_live_definition_drift m' key = false).
Proof.
  intros Hw. unfold checksum_map_deserialize.
  set (dec := λ kv : string * string, default zero_digest (hex_decode kv.2)).
  eexists. split; [|split].
  - apply (foldM_pure (λ m kv, insert_normalized kv.1 (dec kv) m)).
    intros m1 [k v] Hin%iter_order_elem.
    apply wire_map_lookup, serialize_elem in Hin as (fp & d & _ & _ & _ & -> & Hlen); [|done..].
    unfold dec. cbn. by rewrite hex_decode_encode, Hlen.
  - intros key. unfold get_key. apply option_eq. intros d.
    rewrite by_fp_insert_all. cbn. rewrite fill_map_lookup.
    + split.
      * intros ([k v] & Hin%iter_order_elem & [= Hfp Hd]).
        apply wire_map_lookup, serialize_elem in Hin as (fp & d' & Hd' & _ & Hk & -> & _); [|done..].
        unfold dec in Hd. cbn in Hd. rewrite hex_decode_encode in Hd. cbn in Hd. congruence.
      * intros Hd. destruct (cmw_keys _ Hw _ _ Hd) as (k & Hk & Hfp & Hlen).
        exists (k, hex_encode d). unfold dec. cbn. rewrite hex_decode_encode, Hfp. split; [|done].
        apply iter_order_elem, wire_map_lookup, serialize_elem; [done|done|]. rewrite <-Hfp in *.
        eauto 8.
    + intros [k v] [k' v'] fp d1 d2 Hin%iter_order_elem Hin'%iter_order_elem [= <- <-] [= Hfp <-].
      apply wire_map_lookup, serialize_elem in Hin as (f1 & e1 & He1 & _ & Hk1 & -> & _); [|done..].
      apply wire_map_lookup, serialize_elem in Hin' as (f2 & e2 & He2 & _ & Hk2 & -> & _); [|done..].
      unfold dec. cbn. rewrite !hex_decode_encode. cbn. congruence.
  - intros key. unfold has_live_definition_drift. rewrite drift_insert_all.
    apply bool_decide_eq_false_2. cbn. apply not_elem_of_empty.
Qed.
End checksum_facts.

(** ** Cached plan state is not shared across connections *)

Lemma pretty_N_char_digit x : is_ascii_digit (pretty_N_char x) = true.
Proof. by destruct x as [|[[[[]|[]|]|[[]|[]|]|]|[[[]|[]|]|[[]|[]|]|]|]]. Qed.

Section decimal.
Context (c : ascii) (Hc : is_ascii_digit c = false).

Lemma pretty_N_go_no_char x s : has_char c (pretty_N_go x s) = has_char c s.
Proof.
  revert s. induction (N.lt_wf_0 x) as [x _ IH]; intros s.
  destruct (decide (0 < x)%N) as [Hx|Hx].
  - rewrite pretty_N_go_step by done. rewrite IH by (apply N.div_lt; lia).
    rewrite has_char_cons, bool_decide_eq_false_2; [done|].
    intros ->. by rewrite pretty_N_char_digit in Hc.
  - replace x with 0%N by lia. by rewrite pretty_N_go_0.
Qed.

Lemma pretty_N_no_char (n : N) : has_char c (pretty n) = false.
Proof.
  unfold pretty, pretty_N. destruct (decide _); [|by rewrite pretty_N_go_no_char].
  rewrite has_char_cons, bool_decide_eq_false_2; [done|]. by intros ->.
Qed.

Lemma pretty_nat_no_char (n : nat) : has_char c (pretty n) = false.
Proof. apply pretty_N_no_char. Qed.
End decimal.

(** The first separator splits a string in one way. *)
Lemma sep_inj c a b x y :
  has_char c a = false → has_char c b = false →
  a +:+ String c x = b +:+ String c y → a = b ∧ x = y.
Proof.
  revert b. induction a as [|d a IH]; intros [|e b]; cbn; rewrite ?has_char_cons;
    intros Ha Hb Heq; simplify_eq; simpl_bool; try done.
  destruct (IH b) as [-> ->]; done.
Qed.

(** Two connections share cached plan state only if server, port, user and
    database all agree, as long as ports and users contain no tilde. *)
Theorem db_fingerprint_inj s1 p1 u1 d1 s2 p2 u2 d2 :
  has_char "~" p1 = false → has_char "~" p2 = false →
  has_char "~" u1 = false → has_char "~" u2 = false →
  db_fingerprint s1 p1 u1 d1 = db_fingerprint s2 p2 u2 d2 →
  s1 = s2 ∧ p1 = p2 ∧ u1 = u2 ∧ d1 = d2.
Proof.
  intros Hp1 Hp2 Hu1 Hu2. unfold db_fingerprint. intros Heq.
  apply sep_inj in Heq as [Hlen Heq]; [|by apply pretty_nat_no_char..].
  apply (inj pretty) in Hlen.
  assert (s1 = s2) as ->.
  { apply (f_equal (str_take (String.length s1))) in Heq.
    rewrite str_take_app, Hlen, str_take_app in Heq. done. }
  apply str_app_inj_l in Heq. cbn in Heq. injection Heq as Heq.
  apply sep_inj in Heq as [-> Heq]; [|done..].
  apply sep_inj in Heq as [-> ->]; done.
Qed.

Lemma db_fingerprint_inj_witness :
  "srv" = "srv" ∧ "1433" = "1433" ∧ "sa" = "sa" ∧ "Sales" = "Sales".
Proof.
  apply (db_fingerprint_inj "srv" "1433" "sa" "Sales" "srv" "1433" "sa" "Sales"); reflexivity.
Defined.

(** Without that restriction the user and database names can trade places. *)
Lemma db_fingerprint_collides :
  db_fingerprint "srv" "1433" "a" "b~c" = db_fingerprint "srv" "1433" "a~b" "c".
Proof. by vm_compute. Qed.

Lemma checksum_map_wire_roundtrip_witness :
  let m := @insert_key Concrete.fingerprint "dbo/views/v" zero_digest ChecksumMap_new in
  ∃ m', @checksum_map_deserialize Concrete.fingerprint Concrete.map_order Concrete.hex
          (wire_map (@checksum_map_serialize Concrete.map_order Concrete.hex m)) = Ok m' ∧
    (∀ key, @get_key Concrete.fingerprint m' key = @get_key Concrete.fingerprint m key) ∧
    (∀ key, @has_live_definition_drift Concrete.fingerprint m' key = false).
Proof.
  apply (@checksum_map_wire_roundtrip Concrete.fingerprint Concrete.map_order Concrete.hex).
  split. intros fp d. cbn. rewrite lookup_insert_Some, lookup_empty.
  intros [[<- <-]|[_ ?]]; [|done]. exists "dbo/views/v". split_and!; by vm_compute.
Defined.
