(* ===== verification/Row.v ===== *)
(** * Decoding a row of the server ([driver/row.rs])

    The TDS library hands over a row; every column becomes a [Cell]: null, text or
    bytes.  Numbers and bits become decimal text, which [get_i32] reads back. *)

From S2P Require Export Catalog.
From Stdlib Require Import Ascii.
From Stdlib Require String.

(** ** The library's row

    [try_get] at one of the types the program asks for. *)
Inductive Got (A : Type) : Type :=
| Mismatch
| GotNull
| GotValue (a : A).
Arguments Mismatch {A}.
Arguments GotNull {A}.
Arguments GotValue {A} a.

(** [tds_type] is the [Debug] form of the column's type. *)
Class TdsRow (R : Type) := {
  tds_len : R → nat;
  try_get_bytes : R → nat → Got string;
  try_get_str : R → nat → Got string;
  try_get_bool : R → nat → Got bool;
  try_get_i16 : R → nat → Got Z;
  try_get_i32 : R → nat → Got Z;
  try_get_i64 : R → nat → Got Z;
  try_get_u8 : R → nat → Got Z;
  tds_type : R → nat → option string;
  tds_name : R → nat → option string;
}.

Section decode.
Context {R : Type} `{HT : TdsRow R}.

(** [saw_null] is the mutable flag. *)
Definition take {A} (got : Got A) (saw_null : bool) : option A * bool :=
  match got with
  | GotValue v => (Some v, saw_null)
  | GotNull => (None, true)
  | Mismatch => (None, saw_null)
  end.

Definition unsupported (row : R) (i : nat) : Error :=
  Sql ("unsupported column type "
    +:+ match tds_type row i with Some t => "Some(" +:+ t +:+ ")" | None => "None" end
    +:+ " for column " +:+ default "?" (tds_name row i) +:+ " at index " +:+ pretty i).

Definition cell_from (row : R) (i : nat) : M Cell :=
  let null := false in
  let '(b, null) := take (try_get_bytes row i) null in
  match b with Some b => Ok (CBytes b) | None =>
  let '(s, null) := take (try_get_str row i) null in
  match s with Some s => Ok (CStr s) | None =>
  let '(b, null) := take (try_get_bool row i) null in
  match b with Some b => Ok (CStr (if (b : bool) then "1" else "0")) | None =>
  let '(n, null) := take (try_get_i16 row i) null in
  match n with Some n => Ok (CStr (pretty n)) | None =>
  let '(n, null) := take (try_get_i32 row i) null in
  match n with Some n => Ok (CStr (pretty n)) | None =>
  let '(n, null) := take (try_get_i64 row i) null in
  match n with Some n => Ok (CStr (pretty n)) | None =>
  let '(n, null) := take (try_get_u8 row i) null in
  match n with Some n => Ok (CStr (pretty n)) | None =>
  if null then Ok CNull else Err (unsupported row i)
  end end end end end end end.

Definition from_tiberius (row : R) : M RowData := traverse (cell_from row) (seq 0 (tds_len row)).
End decode.

(** ** What the library documents

    A column has a value of its type, or a null.  Asking at the column's own type
    gives it; asking at another type never gives a value, and a null only for a
    null of one of these types. *)
Inductive TdsValue : Type :=
| TBinary (v : option string)
| TText (v : option string)
| TBit (v : option bool)
| TSmallInt (v : option Z)
| TInt (v : option Z)
| TBigInt (v : option Z)
| TTinyInt (v : option Z)
| TOther.

#[global] Instance TdsValue_eq_dec : EqDecision TdsValue.
Proof. solve_decision. Defined.

Definition is_null (v : TdsValue) : Prop :=
  v ∈ [TBinary None; TText None; TBit None; TSmallInt None; TInt None; TBigInt None; TTinyInt None].

Definition reads {R A} (value : R → nat → TdsValue) (got : R → nat → Got A)
    (at_type : option A → TdsValue) : Prop :=
  ∀ row i,
    (∀ v, got row i = GotValue v ↔ value row i = at_type (Some v)) ∧
    (value row i = at_type None → got row i = GotNull) ∧
    (got row i = GotNull → is_null (value row i)).

Class TdsRowLaws (R : Type) `{HT : TdsRow R} := {
  tds_value : R → nat → TdsValue;
  reads_bytes : reads tds_value try_get_bytes TBinary;
  reads_str : reads tds_value try_get_str TText;
  reads_bool : reads tds_value try_get_bool TBit;
  reads_i16 : reads tds_value try_get_i16 TSmallInt;
  reads_i32 : reads tds_value try_get_i32 TInt;
  reads_i64 : reads tds_value try_get_i64 TBigInt;
  reads_u8 : reads tds_value try_get_u8 TTinyInt;
}.

(** The cell of a value; a column of another type has none. *)
Definition cell_of (v : TdsValue) : option Cell :=
  match v with
  | TBinary (Some b) => Some (CBytes b)
  | TText (Some s) => Some (CStr s)
  | TBit (Some b) => Some (CStr (if b then "1" else "0"))
  | TSmallInt (Some n) | TInt (Some n) | TBigInt (Some n) | TTinyInt (Some n) => Some (CStr (pretty n))
  | TBinary None | TText None | TBit None | TSmallInt None | TInt None | TBigInt None | TTinyInt None => Some CNull
  | TOther => None
  end.

(** The number a value stands for. *)
Definition number_of (v : TdsValue) : option Z :=
  match v with
  | TSmallInt n | TInt n | TBigInt n | TTinyInt n => n
  | TBit (Some b) => Some (if b then 1 else 0)%Z
  | _ => None
  end.

(** ** Decimal text *)

Lemma digit_of n : (n < 10)%N →
  is_ascii_digit (pretty_N_char n) = true ∧ byte_of (pretty_N_char n) = (48 + n)%N.
Proof.
  intros H. assert (n ∈ [0;1;2;3;4;5;6;7;8;9])%N as Hn by (rewrite !elem_of_cons; lia).
  repeat (apply elem_of_cons in Hn as [->|Hn]; [done|]). by apply elem_of_nil in Hn.
Qed.

Lemma parse_digits_go x s : ∃ k : nat, ∀ acc,
  parse_digits acc (pretty_N_go x s) = parse_digits (acc * 10 ^ Z.of_nat k + Z.of_N x) s.
Proof.
  revert s. induction (N.lt_wf_0 x) as [x _ IH]; intros s. destruct (decide (0 < x)%N) as [Hx|].
  - rewrite pretty_N_go_step by done.
    destruct (IH (x `div` 10)%N ltac:(by apply N.div_lt) (String (pretty_N_char (x `mod` 10)) s)) as [k Hk].
    exists (S k). intros acc. rewrite Hk. cbn [parse_digits].
    destruct (digit_of (x `mod` 10)) as [-> ->]; [by apply N.mod_lt|].
    f_equal. rewrite N2Z.inj_add, N2Z.inj_mod, N2Z.inj_div, Nat2Z.inj_succ, Z.pow_succ_r by lia.
    pose proof (Z.div_mod (Z.of_N x) 10 ltac:(done)). lia.
  - replace x with 0%N by lia. exists 0. intros acc. rewrite pretty_N_go_0. f_equal. lia.
Qed.

Lemma parse_digits_pretty (n : N) : parse_digits 0 (pretty n) = Some (Z.of_N n).
Proof.
  unfold pretty, pretty_N. destruct (decide _) as [->|]; [done|].
  destruct (parse_digits_go n "") as [k ->]. cbn. f_equal; lia.
Qed.

(** Decimal text is digits, which [parse] and [trim] leave alone. *)
Definition digits (s : string) : Prop := Forall (λ c, is_ascii_digit c = true) (String.list_ascii_of_string s).

Lemma pretty_N_go_digits x s : digits s → digits (pretty_N_go x s).
Proof.
  revert s. induction (N.lt_wf_0 x) as [x _ IH]; intros s Hs. destruct (decide (0 < x)%N) as [Hx|].
  - rewrite pretty_N_go_step by done. apply IH; [by apply N.div_lt|].
    constructor; [apply pretty_N_char_digit|done].
  - replace x with 0%N by lia. by rewrite pretty_N_go_0.
Qed.
Lemma pretty_N_digits (n : N) : digits (pretty n).
Proof.
  unfold pretty, pretty_N. destruct (decide _); [by repeat constructor|].
  apply pretty_N_go_digits. constructor.
Qed.
Lemma pretty_N_nonempty (n : N) : pretty n ≠ "".
Proof. intros H. pose proof (parse_digits_pretty n) as E. rewrite H in E. injection E as E. by destruct n. Qed.

Lemma digits_visible s : digits s → Forall (λ b, 32 < b < 128)%N (bytes_of s).
Proof.
  unfold digits, bytes_of. rewrite Forall_map. intros H. eapply Forall_impl; [exact H|].
  intros c Hc. unfold is_ascii_digit in Hc. cbn. simpl_bool. apply N.leb_le in H0, H1. lia.
Qed.

Lemma parse_int_pretty lo hi n : (lo <= n <= hi)%Z → parse_int lo hi (trim (pretty n)) = Some n.
Proof.
  intros Hn. assert (∀ s m, digits s → s ≠ "" → parse_digits 0 s = Some m →
    parse_int m m s = Some m ∧ parse_int (- m) (- m) (String "-" s) = Some (- m)%Z) as Hparse.
  { intros [|c s] m Hs Hne E; [done|]. unfold parse_int.
    assert (is_ascii_digit c = true) as Hc by (by inversion Hs). split.
    - destruct s; [by rewrite E; cbn; rewrite Z.leb_refl|].
      rewrite !bool_decide_false by (intros ->; done). rewrite E. cbn. by rewrite Z.leb_refl.
    - cbn [bool_decide]. rewrite bool_decide_true by done. rewrite E. cbn. by rewrite Z.leb_refl. }
  assert (∀ s m, parse_int m m s = Some m → (lo <= m <= hi)%Z → parse_int lo hi s = Some m) as Hrange.
  { unfold parse_int. intros s m Hs Hm. destruct (match s with "" => None | String _ _ => _ end) as [k|]; [|done].
    cbn in *. destruct ((m <=? k)%Z && (k <=? m)%Z) eqn:E; [|done]. injection Hs as ->.
    by rewrite (proj2 (Z.leb_le _ _) (proj1 Hm)), (proj2 (Z.leb_le _ _) (proj2 Hm)). }
  destruct n as [|p|p].
  - by apply Hrange.
  - change (pretty (Z.pos p)) with (pretty (N.pos p)).
    rewrite trim_visible by (apply digits_visible, pretty_N_digits).
    apply Hrange; [|done]. change (Z.pos p) with (Z.of_N (N.pos p)).
    apply Hparse; [apply pretty_N_digits|apply pretty_N_nonempty|apply parse_digits_pretty].
  - change (pretty (Z.neg p)) with (String "-" (pretty (N.pos p))).
    rewrite trim_visible by (constructor; [done|apply digits_visible, pretty_N_digits]).
    apply Hrange; [|done]. change (Z.neg p) with (- Z.of_N (N.pos p))%Z.
    apply Hparse; [apply pretty_N_digits|apply pretty_N_nonempty|apply parse_digits_pretty].
Qed.

(** ** Every column of a supported type is decoded, and no other *)

Section decode_facts.
Context {R : Type} `{HTL : TdsRowLaws R}.

Definition got_null {A} (got : Got A) : bool := match got with GotNull => true | _ => false end.

Lemma reads_value {A} (got : R → nat → Got A) at_type row i v : reads tds_value got at_type →
  tds_value row i = at_type (Some v) → got row i = GotValue v.
Proof. intros H E. by apply (H row i). Qed.
Lemma reads_mismatch {A} (got : R → nat → Got A) at_type row i : reads tds_value got at_type →
  (∀ v, tds_value row i ≠ at_type (Some v)) → ¬ is_null (tds_value row i) → got row i = Mismatch.
Proof.
  intros H Hv Hn. destruct (H row i) as (Hval & _ & Hnull).
  destruct (got row i) as [| |v]; [done|by destruct Hn; apply Hnull|by destruct (Hv v); apply Hval].
Qed.
Lemma reads_null {A} (got : R → nat → Got A) at_type row i null : reads tds_value got at_type →
  (∀ v, tds_value row i ≠ at_type (Some v)) →
  take (got row i) null = (None, null || got_null (got row i)).
Proof.
  intros H Hv. destruct (H row i) as (Hval & _ & _).
  destruct (got row i) as [| |v]; cbn; [by rewrite orb_false_r|by rewrite orb_true_r|].
  by destruct (Hv v); apply Hval.
Qed.
Lemma reads_own_null {A} (got : R → nat → Got A) at_type row i : reads tds_value got at_type →
  tds_value row i = at_type None → got_null (got row i) = true.
Proof. intros H E. destruct (H row i) as (_ & -> & _); done. Qed.

Lemma cell_from_spec row i :
  cell_from row i = match cell_of (tds_value row i) with
                    | Some c => Ok c
                    | None => Err (unsupported row i)
                    end.
Proof.
  unfold cell_from. pose proof reads_bytes as R1. pose proof reads_str as R2.
  pose proof reads_bool as R3. pose proof reads_i16 as R4. pose proof reads_i32 as R5.
  pose proof reads_i64 as R6. pose proof reads_u8 as R7.
  destruct (decide (tds_value row i ∈
    [TBinary None; TText None; TBit None; TSmallInt None; TInt None; TBigInt None; TTinyInt None]))
    as [Hn|Hn].
  - rewrite (reads_null _ _ _ _ _ R1), (reads_null _ _ _ _ _ R2), (reads_null _ _ _ _ _ R3),
      (reads_null _ _ _ _ _ R4), (reads_null _ _ _ _ _ R5), (reads_null _ _ _ _ _ R6),
      (reads_null _ _ _ _ _ R7) by (intros v Hv; rewrite Hv in Hn; by set_solver).
    assert (∀ b, b = true → (if b then Ok CNull else Err (unsupported row i))
      = Ok (E:=Error) CNull) as Hif by (by intros b ->).
    repeat (apply elem_of_cons in Hn as [E|Hn]; [rewrite Hif; [by rewrite E|]|]);
      [..|by apply elem_of_nil in Hn].
    all: first [rewrite (reads_own_null _ _ _ _ R1 E)|rewrite (reads_own_null _ _ _ _ R2 E)
      |rewrite (reads_own_null _ _ _ _ R3 E)|rewrite (reads_own_null _ _ _ _ R4 E)
      |rewrite (reads_own_null _ _ _ _ R5 E)|rewrite (reads_own_null _ _ _ _ R6 E)
      |rewrite (reads_own_null _ _ _ _ R7 E)]; by rewrite ?orb_true_r.
  - assert (∀ A (got : R → nat → Got A) at_type, reads tds_value got at_type →
      (∀ v, tds_value row i ≠ at_type (Some v)) → got row i = Mismatch) as Hmis
      by (intros; by eapply reads_mismatch).
    destruct (tds_value row i) as [[v|]|[v|]|[v|]|[v|]|[v|]|[v|]|[v|]|] eqn:E;
      try (by destruct Hn; set_solver).
    + by rewrite (reads_value _ _ _ _ _ R1 E).
    + by rewrite (Hmis _ _ _ R1), (reads_value _ _ _ _ _ R2 E).
    + by rewrite (Hmis _ _ _ R1), (Hmis _ _ _ R2), (reads_value _ _ _ _ _ R3 E).
    + by rewrite (Hmis _ _ _ R1), (Hmis _ _ _ R2), (Hmis _ _ _ R3), (reads_value _ _ _ _ _ R4 E).
    + by rewrite (Hmis _ _ _ R1), (Hmis _ _ _ R2), (Hmis _ _ _ R3), (Hmis _ _ _ R4),
        (reads_value _ _ _ _ _ R5 E).
    + by rewrite (Hmis _ _ _ R1), (Hmis _ _ _ R2), (Hmis _ _ _ R3), (Hmis _ _ _ R4), (Hmis _ _ _ R5),
        (reads_value _ _ _ _ _ R6 E).
    + by rewrite (Hmis _ _ _ R1), (Hmis _ _ _ R2), (Hmis _ _ _ R3), (Hmis _ _ _ R4), (Hmis _ _ _ R5),
        (Hmis _ _ _ R6), (reads_value _ _ _ _ _ R7 E).
    + by rewrite (Hmis _ _ _ R1), (Hmis _ _ _ R2), (Hmis _ _ _ R3), (Hmis _ _ _ R4), (Hmis _ _ _ R5),
        (Hmis _ _ _ R6), (Hmis _ _ _ R7).
Qed.
(** The first element that fails. *)
Lemma traverse_Err {E A B} (f : A → outcome E B) l e :
  traverse f l = Err e ↔
  ∃ i x, l !! i = Some x ∧ f x = Err e ∧ ∀ j y, j < i → l !! j = Some y → is_Ok (f y).
Proof.
  induction l as [|a l IH]; cbn [traverse].
  { split; [done|]. by intros (i & x & Hx & _). }
  rewrite outcome_bind_Err. setoid_rewrite outcome_bind_Err. setoid_rewrite IH. split.
  - intros [H|(b & Hb & [(i & x & Hx & He & Hj)|(bs & _ & [=])])].
    + exists 0, a. split_and!; [done..|lia].
    + exists (S i), x. split_and!; [done..|]. intros [|j] y Hji Hy; [|by apply (Hj j); [lia|]].
      cbn in Hy. injection Hy as <-. by exists b.
  - intros ([|i] & x & Hx & He & Hj); cbn in Hx; [injection Hx as ->; by left|]. right.
    destruct (Hj 0 a) as [b Hb]; [lia|done|]. exists b. split; [done|]. left. exists i, x.
    split_and!; [done..|]. intros j y Hji Hy. by apply (Hj (S j)); [lia|].
Qed.

Lemma number_decodes v n : number_of v = Some n → cell_of v = Some (CStr (pretty n)).
Proof. destruct v as [?|?|[[]|]|?|?|?|?|]; cbn; try done; first [by intros [= <-]|by intros ->]. Qed.

(** C26. Decoding loses nothing and hides nothing: a row is decoded exactly when all
    its columns are of a supported type, into one cell per column in order, null
    for a null and the content for a value; otherwise the error names the first
    column that is not.  A number that fits 32 bits, or a bit, is read back from
    its cell as that number. *)
Theorem from_tiberius_spec row :
  (∀ cells, from_tiberius row = Ok cells ↔ length cells = tds_len row ∧
     ∀ i, i < tds_len row → cell_of (tds_value row i) = cells !! i) ∧
  (∀ e, from_tiberius row = Err e ↔ ∃ i, i < tds_len row ∧ tds_value row i = TOther ∧
     (∀ j, j < i → tds_value row j ≠ TOther) ∧ e = unsupported row i) ∧
  from_tiberius row ≠ Panic ∧
  (∀ cells i n, from_tiberius row = Ok cells → i < tds_len row →
     number_of (tds_value row i) = Some n → (-2147483648 <= n <= 2147483647)%Z →
     get_i32 cells i = Some n).
Proof.
  assert (∀ cells, from_tiberius row = Ok cells ↔ length cells = tds_len row ∧
     ∀ i, i < tds_len row → cell_of (tds_value row i) = cells !! i) as Hok.
  { intros cells. unfold from_tiberius. rewrite traverse_Ok, Forall2_lookup. split.
    - intros H. assert (length cells = tds_len row) as Hl.
      { rewrite <- (Forall2_length _ _ _ (proj2 (Forall2_lookup _ _ _) H)). apply length_seq. }
      split; [done|]. intros i Hi. specialize (H i). rewrite lookup_seq_lt in H by done.
      inversion H as [? c Hc|]; subst. rewrite cell_from_spec in Hc.
      by destruct (cell_of _); [injection Hc as ->|].
    - intros [Hl H] i. destruct (decide (i < tds_len row)) as [Hi|Hi].
      + rewrite lookup_seq_lt by done. destruct (lookup_lt_is_Some_2 cells i) as [c Hc]; [lia|].
        rewrite Hc. constructor. cbn. by rewrite cell_from_spec, H, Hc.
      + rewrite lookup_seq_ge, lookup_ge_None_2 by lia. constructor. }
  split; [exact Hok|]. split_and!.
  - intros e. unfold from_tiberius. rewrite traverse_Err. split.
    + intros (i & x & [-> Hi]%lookup_seq & He & Hj). cbn in He. exists i. split; [done|].
      rewrite cell_from_spec in He. split_and!.
      * by destruct (tds_value row i) as [[]|[]|[]|[]|[]|[]|[]|].
      * intros j Hji E. destruct (Hj j j) as [c Hc]; [done|by apply lookup_seq_lt; lia|].
        by rewrite cell_from_spec, E in Hc.
      * destruct (cell_of _); [done|]. by injection He as <-.
    + intros (i & Hi & E & Hj & ->). exists i, i. split_and!.
      * by apply lookup_seq_lt.
      * by rewrite cell_from_spec, E.
      * intros j y Hji [-> _]%lookup_seq. cbn. specialize (Hj j Hji). unfold is_Ok. rewrite cell_from_spec.
        destruct (tds_value row j) as [[]|[]|[]|[]|[]|[]|[]|]; cbn; eauto; done.
  - unfold from_tiberius. generalize (seq 0 (tds_len row)). intros l H.
    induction l as [|i l IH]; [done|]. cbn [traverse] in H. rewrite cell_from_spec in H.
    destruct (cell_of _); [|done]. cbn in H. by destruct (traverse _ l).
  - intros cells i n [Hl H]%Hok Hi E%number_decodes Hn. rewrite H in E by done.
    unfold get_i32, get_str. rewrite E. by apply parse_int_pretty.
Qed.
End decode_facts.

(** ** A row *)

Module RowSample.

(** A row is its values; every reader answers for its own type. *)
Abbreviation row := (list TdsValue) (only parsing).
Definition got {A} (own : TdsValue → option (option A)) (r : row) (i : nat) : Got A :=
  match r !! i ≫= own with
  | Some (Some v) => GotValue v
  | Some None => GotNull
  | None => Mismatch
  end.
#[global] Instance tds_row : TdsRow row := {
  tds_len := length;
  try_get_bytes := got (λ v, match v with TBinary v => Some v | _ => None end);
  try_get_str := got (λ v, match v with TText v => Some v | _ => None end);
  try_get_bool := got (λ v, match v with TBit v => Some v | _ => None end);
  try_get_i16 := got (λ v, match v with TSmallInt v => Some v | _ => None end);
  try_get_i32 := got (λ v, match v with TInt v => Some v | _ => None end);
  try_get_i64 := got (λ v, match v with TBigInt v => Some v | _ => None end);
  try_get_u8 := got (λ v, match v with TTinyInt v => Some v | _ => None end);
  tds_type _ _ := Some "Floatn";
  tds_name _ i := Some ("c" +:+ pretty i);
}.
#[global] Instance tds_row_laws : TdsRowLaws row.
Proof.
  refine {| tds_value r i := default TOther (r !! i) |}.
  all: intros r i; unfold is_null; cbn; unfold got; destruct (r !! i) as [[[]|[]|[]|[]|[]|[]|[]|]|];
    cbn; set_unfold; naive_solver.
Defined.

Definition fine : row := [TText (Some "dbo"); TInt (Some (-42)%Z); TBit (Some true); TBinary None].
Definition odd : row := [TText (Some "dbo"); TOther; TInt (Some 1%Z)].

Lemma from_tiberius_spec_witness :
  from_tiberius fine = Ok [CStr "dbo"; CStr "-42"; CStr "1"; CNull] ∧
  get_i32 [CStr "dbo"; CStr "-42"; CStr "1"; CNull] 1 = Some (-42)%Z ∧
  from_tiberius odd = Err (Sql "unsupported column type Some(Floatn) for column c1 at index 1").
Proof.
  destruct (from_tiberius_spec fine) as (_ & _ & _ & H).
  split; [vm_compute; reflexivity|]. split.
  - apply (H _ 1 (-42)%Z); [vm_compute; reflexivity|cbn; lia|reflexivity|lia].
  - apply (from_tiberius_spec odd). exists 1. split_and!; [cbn; lia|reflexivity| |vm_compute; reflexivity].
    intros j Hj. destruct j; [discriminate|lia].
Defined.
End RowSample.
