(* ===== verification/Config.v ===== *)
(** * Configuration ([config/*.rs])

    Process environment over typed TOML over defaults, the validation that runs
    before any connection, and the discovery of catalog databases in the source
    tree.  Durations are in nanoseconds; the environment is a function.  TOML
    parsing and floating-point seconds belong to libraries. *)

From S2P Require Export Scan Catalog.
From Stdlib Require Import Ascii.
From Stdlib Require String.

(** ** Data *)

(** [Config] with its [ConfigCold] block. *)
Record Config := mk_Config {
  cfg_sql_root : string;
  cfg_sql_base : string;
  cfg_report_dir : string;
  cfg_log_level : string;
  cfg_database : string;
  cfg_slo_max_cli_wall_ms : Z;
  cfg_report_sync : bool;
  cfg_skip_git : bool;
  cfg_inspect_full : bool;
  cfg_catalog_cache : bool;
  cfg_allow_adopt : bool;
  cfg_server : string;
  cfg_port : string;
  cfg_db_auth : string;
  cfg_user : string;
  cfg_password : string;
  cfg_session_socket : string;
  cfg_session_token : string;
  cfg_l1_cache_dir : string;
  cfg_command_timeout : N;
  cfg_lock_timeout : N;
  cfg_encrypt : bool;
  cfg_trust_server_certificate : bool;
}.
#[global] Instance Config_eta : Settable Config := λ c,
  mk_Config (cfg_sql_root c) (cfg_sql_base c) (cfg_report_dir c) (cfg_log_level c)
    (cfg_database c) (cfg_slo_max_cli_wall_ms c) (cfg_report_sync c) (cfg_skip_git c)
    (cfg_inspect_full c) (cfg_catalog_cache c) (cfg_allow_adopt c) (cfg_server c) (cfg_port c)
    (cfg_db_auth c) (cfg_user c) (cfg_password c) (cfg_session_socket c) (cfg_session_token c)
    (cfg_l1_cache_dir c) (cfg_command_timeout c) (cfg_lock_timeout c) (cfg_encrypt c)
    (cfg_trust_server_certificate c).

(** Nanoseconds in a second and in a millisecond. *)
Definition NS_PER_SEC : N := 1000000000.
Definition NS_PER_MS : N := 1000000.

Definition Config_default : Config :=
  mk_Config "" "" "" "info" "" 150 false false false true false
    "" "1433" "sql" "" "" "" "" ".rmig/cache" (30 * NS_PER_SEC) (60 * NS_PER_SEC) true false.

Record DatabaseConfig := mk_DatabaseConfig {
  dc_server : option string;
  dc_port : option N;
  dc_auth : option string;
  dc_encrypt : option bool;
  dc_trust_server_certificate : option bool;
}.
Record PathsConfig := mk_PathsConfig {
  pc_sql_root : option string;
  pc_sql_base : option string;
  pc_report_dir : option string;
  pc_l1_cache_dir : option string;
}.
Record ExecutionConfig := mk_ExecutionConfig {
  ec_log_level : option string;
  ec_report_sync : option bool;
  ec_skip_git : option bool;
  ec_inspect_full : option bool;
  ec_catalog_cache : option bool;
  ec_allow_adopt : option bool;
  ec_command_timeout : option string;
  ec_lock_timeout : option string;
  ec_slo_max_cli_wall_ms : option Z;
}.
Record TomlConfig := mk_TomlConfig {
  tc_database : DatabaseConfig;
  tc_paths : PathsConfig;
  tc_execution : ExecutionConfig;
  tc_session_socket : option string;
}.
Definition TomlConfig_default : TomlConfig :=
  mk_TomlConfig (mk_DatabaseConfig None None None None None) (mk_PathsConfig None None None None)
    (mk_ExecutionConfig None None None None None None None None None) None.

(** [std::env::var_os]: unset, set to something that is not UTF-8, or text. *)
Inductive EnvVar : Type := EnvUnset | EnvNotUtf8 | EnvText (s : string).
Definition env_text (v : EnvVar) : option string :=
  match v with EnvText s => Some s | _ => None end.

(** [ToString] for the scalars of the file. *)
Definition bool_to_string (b : bool) : string := if b then "true" else "false".

(** [FromStr] for unsigned integers up to [max]: no minus sign. *)
Definition parse_unsigned (max : N) (s : string) : option N :=
  n ← match s with
      | String c (String _ _ as s') =>
          if bool_decide (c = "+"%char) then parse_digits 0 s' else parse_digits 0 s
      | _ => parse_digits 0 s
      end;
  if (n <=? Z.of_N max)%Z then Some (Z.to_N n) else None.

Definition u64_max : N := 18446744073709551615.
Definition parse_u64 : string → option N := parse_unsigned u64_max.
Definition parse_u16 : string → option N := parse_unsigned u16_max.
Definition parse_i64 : string → option Z := parse_int (-9223372036854775808) 9223372036854775807.

(** ** Parsing values *)

Definition any_ignore_case (l : list string) (v : string) : bool :=
  existsb (λ e, eq_ignore_ascii_case v e) l.

Definition parse_bool (s : string) : bool :=
  let value := trim s in
  String.eqb value "1" || any_ignore_case ["true"; "yes"; "on"; "y"; "enabled"] value.

Definition recognized_bool (s : string) : bool :=
  let value := trim s in
  parse_bool value || String.eqb value "0"
  || any_ignore_case ["false"; "no"; "off"; "n"; "disabled"] value.

Definition BOOLEAN_NAMES : list string :=
  ["RM_REPORT_SYNC"; "RM_SKIP_GIT"; "RMIG_INSPECT_FULL"; "RMIG_CATALOG_CACHE";
   "RMIG_ALLOW_ADOPT"; "RM_DB_ENCRYPT"; "RM_DB_TRUST_SERVER_CERTIFICATE"].

(** Seconds as a floating-point literal: [f64::from_str], and
    [Duration::try_from_secs_f64] in nanoseconds. *)
Class FloatSecs := {
  parse_f64_secs : string → option (option N)
}.

(** A parsed TOML document: a table, or any other value. *)
Inductive TomlValue : Type :=
| TomlTable (entries : list (string * TomlValue))
| TomlOther.
Definition toml_get (v : TomlValue) (k : string) : option TomlValue :=
  match v with
  | TomlTable es => snd <$> List.find (λ e, String.eqb e.1 k) es
  | TomlOther => None
  end.
Definition toml_is_table (v : TomlValue) : bool :=
  match v with TomlTable _ => true | TomlOther => false end.

Section config.
Context `{HU : Unicode} `{HFS : FloatSecs}.

Definition validate_boolean_value (name value : string) : M unit :=
  if recognized_bool value then Ok tt
  else Err (Errors.Config (name +:+ " has invalid boolean value " +:+ debug_str value
                    +:+ "; use true or false")).

Fixpoint validate_booleans (env : string → EnvVar) (names : list string) : M unit :=
  match names with
  | [] => Ok tt
  | name :: names =>
      match env name with
      | EnvUnset => validate_booleans env names
      | EnvNotUtf8 => Err (Errors.Config (name +:+ " must be a UTF-8 boolean value"))
      | EnvText value => validate_boolean_value name value;; validate_booleans env names
      end
  end.
Definition validate_boolean_envs (env : string → EnvVar) : M unit :=
  validate_booleans env BOOLEAN_NAMES.

Definition parse_duration (s : string) : M N :=
  if String.eqb s "" then Err (Errors.Config "empty duration")
  else match parse_u64 s with
  | Some secs => Ok (secs * NS_PER_SEC)%N
  | None =>
      let s := trim s in
      match strip_suffix "s" s with
      | Some stripped =>
          match parse_f64_secs stripped with
          | Some (Some ns) => Ok ns
          | _ => Err (Errors.Config s)
          end
      | None => Err (Errors.Config ("invalid duration: " +:+ s))
      end
  end.

(** [set_timeout]: an unusable value keeps the default. *)
Definition set_timeout (raw : string) (slot : N) : N :=
  match parse_duration raw with Ok d => d | _ => slot end.

(** ** Building ([env_build.rs]) *)

Section build.
Context (env : string → EnvVar) (file : TomlConfig).

Definition env_get (name : string) (value : option string) : option string :=
  match env_text (env name) with Some s => Some s | None => value end.
Definition env_bool (name : string) (value : option bool) (dflt : bool) : bool :=
  match env_get name (bool_to_string <$> value) with Some v => parse_bool v | None => dflt end.

Definition apply_tls (cfg : Config) : Config :=
  let cfg := cfg <| cfg_encrypt :=
    env_bool "RM_DB_ENCRYPT" (dc_encrypt (tc_database file)) (cfg_encrypt cfg) |> in
  cfg <| cfg_trust_server_certificate :=
    env_bool "RM_DB_TRUST_SERVER_CERTIFICATE" (dc_trust_server_certificate (tc_database file))
      (cfg_trust_server_certificate cfg) |>.

Definition build_config : Config :=
  let cfg := Config_default in
  let db := tc_database file in
  let paths := tc_paths file in
  let ex := tc_execution file in
  let cfg := cfg
    <| cfg_sql_root := default "" (env_get "RM_SQL_ROOT" (pc_sql_root paths)) |>
    <| cfg_sql_base := default "" (env_get "RM_SQL_BASE" (pc_sql_base paths)) |>
    <| cfg_report_dir := default "" (env_get "RM_REPORT_DIR" (pc_report_dir paths)) |>
    <| cfg_l1_cache_dir := default (cfg_l1_cache_dir cfg)
         (env_get "RMIG_L1_CACHE_DIR" (pc_l1_cache_dir paths)) |>
    <| cfg_report_sync := env_bool "RM_REPORT_SYNC" (ec_report_sync ex) (cfg_report_sync cfg) |>
    <| cfg_log_level := default (cfg_log_level cfg) (env_get "RM_LOG_LEVEL" (ec_log_level ex)) |>
    <| cfg_server := default "" (env_get "RM_DB_SERVER" (dc_server db)) |>
    <| cfg_port := default (cfg_port cfg) (env_get "RM_DB_PORT" (pretty <$> dc_port db)) |>
    <| cfg_database := "" |>
    <| cfg_db_auth := default (cfg_db_auth cfg) (env_get "RM_DB_AUTH" (dc_auth db)) |>
    <| cfg_user := default "" (env_text (env "RM_DB_USER")) |>
    <| cfg_password := default "" (env_text (env "RM_DB_PASSWORD")) |>
    <| cfg_skip_git := env_bool "RM_SKIP_GIT" (ec_skip_git ex) (cfg_skip_git cfg) |>
    <| cfg_inspect_full := env_bool "RMIG_INSPECT_FULL" (ec_inspect_full ex) (cfg_inspect_full cfg) |>
    <| cfg_catalog_cache :=
         env_bool "RMIG_CATALOG_CACHE" (ec_catalog_cache ex) (cfg_catalog_cache cfg) |>
    <| cfg_allow_adopt := env_bool "RMIG_ALLOW_ADOPT" (ec_allow_adopt ex) (cfg_allow_adopt cfg) |>
    <| cfg_session_socket := default "" (env_get "RMIG_SESSION" (tc_session_socket file)) |>
    <| cfg_session_token := default "" (env_text (env "RMIG_SESSION_TOKEN")) |>
    <| cfg_lock_timeout := set_timeout
         (default "" (env_get "RM_LOCK_TIMEOUT" (ec_lock_timeout ex))) (cfg_lock_timeout cfg) |>
    <| cfg_command_timeout := set_timeout
         (default "" (env_get "RM_COMMAND_TIMEOUT" (ec_command_timeout ex)))
         (cfg_command_timeout cfg) |> in
  let cfg := apply_tls cfg in
  match parse_i64 (default "" (env_get "RMIG_SLO_MAX_CLI_WALL_MS"
                                 (pretty <$> ec_slo_max_cli_wall_ms ex))) with
  | Some n => if (0 <? n)%Z then cfg <| cfg_slo_max_cli_wall_ms := n |> else cfg
  | None => cfg
  end.
End build.

(** ** TOML loading ([toml_config.rs]) *)

Definition SECRET_KEYS : list (string * string * string) :=
  [("database", "user", "RM_DB_USER"); ("database", "password", "RM_DB_PASSWORD");
   ("session", "token", "RMIG_SESSION_TOKEN")].

Definition secret_present (value : TomlValue) (section key : string) : bool :=
  match toml_get value section with
  | Some t => toml_is_table t && bool_decide (is_Some (toml_get t key))
  | None => false
  end.

Fixpoint reject_secrets_in (value : TomlValue) (keys : list (string * string * string)) : M unit :=
  match keys with
  | [] => Ok tt
  | (section, key, var) :: keys =>
      if secret_present value section key then
        Err (Errors.Config (section +:+ "." +:+ key +:+ " is not allowed in TOML; set " +:+ var
                     +:+ " in the process environment"))
      else reject_secrets_in value keys
  end.
Definition reject_secrets (value : TomlValue) : M unit := reject_secrets_in value SECRET_KEYS.

(** [load_toml_config_inner]: [text] is what [read_to_string] gives, [parse] and
    [typed] are the TOML parser and the typed conversion, all with rendered errors. *)
Definition load_toml_config_inner (path : string) (exists_ required : bool)
    (text : string + string) (parse : string → string + TomlValue)
    (typed : TomlValue → string + TomlConfig) : M TomlConfig :=
  if negb exists_ && negb required then Ok TomlConfig_default
  else match text with
  | inl e => Err (Errors.Config ("config file unreadable: " +:+ path +:+ ": " +:+ e))
  | inr text =>
      match parse text with
      | inl e => Err (Errors.Config ("invalid TOML config " +:+ path +:+ ": " +:+ e))
      | inr value =>
          reject_secrets value;;
          match typed value with
          | inl e => Err (Errors.Config ("invalid config " +:+ path +:+ ": " +:+ e))
          | inr c => Ok c
          end
      end
  end.

(** ** Catalog discovery ([catalog.rs]) *)

Definition is_dir (n : FsNode) : bool :=
  match n with FDir _ | FDirErr _ => true | _ => false end.

Definition catalog_database_dir_has_schema (path : string) (db : FsNode) : M bool :=
  match db with
  | FDir entries => Ok (existsb (λ e, is_dir e.2) entries)
  | FDirErr e => Err (Errors.Config ("cannot read catalog candidate " +:+ path +:+ ": " +:+ error_fmt e))
  | _ => Ok false
  end.

Definition catalog_candidate (root : string) (names : list string) (e : string * FsNode)
    : M (list string) :=
  if negb (is_dir e.2) then Ok names
  else if starts_with "." e.1 then Ok names
  else
    has ← catalog_database_dir_has_schema (root +:+ "/" +:+ e.1) e.2;
    Ok (if has : bool then names ++ [e.1] else names).

Definition discover_catalog_databases (root : string) (tree : FsNode) : M (list string) :=
  match tree with
  | FDir entries =>
      names ← foldM (catalog_candidate root) [] entries;
      let names := sort_by String.leb names in
      if bool_decide (names = []) then
        Err (Errors.Config ("no catalog databases under " +:+ root
                     +:+ " (expected <sql_root>/<database>/<schema>/...)"))
      else Ok names
  | FDirErr e => Err e
  | _ => Err (Errors.Config ("RM_SQL_ROOT is not a directory: " +:+ root))
  end.

(** ** Validation ([validate.rs]) *)

(** [char::is_control]: C0, DEL and C1 in UTF-8. *)
Fixpoint has_control_bytes (l : list N) : bool :=
  match l with
  | [] => false
  | b :: l' =>
      (b <? 32)%N || (b =? 127)%N
      || match l' with
         | c :: _ => (b =? 194)%N && (128 <=? c)%N && (c <=? 159)%N
         | [] => false
         end
      || has_control_bytes l'
  end.

Definition reject_control_chars (field value : string) : M unit :=
  if has_control_bytes (bytes_of value)
  then Err (Errors.Config (field +:+ " contains control characters")) else Ok tt.

Definition normalize_catalog_paths (tree : FsNode) (cfg : Config) : M Config :=
  let cfg := if String.eqb (cfg_sql_base cfg) ""
             then cfg <| cfg_sql_base := cfg_sql_root cfg |> else cfg in
  dbs ← discover_catalog_databases (cfg_sql_root cfg) tree;
  match dbs with
  | [db] => Ok (if String.eqb (cfg_database cfg) "" then cfg <| cfg_database := db |> else cfg)
  | _ => Ok cfg
  end.

Definition missing_if (missing : bool) (name : string) : list string :=
  if missing then [name] else [].

Definition is_empty_str (s : string) : bool := String.eqb s "".

Definition valid_port (port : string) : bool :=
  match parse_u16 port with Some p => (1 <=? p)%N | None => false end.

Definition validate_config (env : string → EnvVar) (tree : FsNode) (cfg : Config) : M Config :=
  validate_boolean_envs env;;
  let missing := missing_if (is_empty_str (cfg_server cfg)) "RM_DB_SERVER"
                 ++ missing_if (is_empty_str (cfg_sql_root cfg)) "RM_SQL_ROOT" in
  let missing_secrets := missing_if (is_empty_str (cfg_user cfg)) "RM_DB_USER"
                         ++ missing_if (is_empty_str (cfg_password cfg)) "RM_DB_PASSWORD" in
  if negb (bool_decide (missing_secrets = [])) then
    Err (Errors.Config ("missing required process environment variable(s): "
      +:+ str_join ", " missing_secrets
      +:+ "; SQL credentials are not read from config.toml"))
  else if negb (is_empty_str (cfg_session_socket cfg)) && is_empty_str (cfg_session_token cfg) then
    Err (Errors.Config ("RMIG_SESSION_TOKEN is required in the process environment when using rmigd; "
      +:+ "the token is not read from config.toml"))
  else if negb (bool_decide (missing = [])) then
    Err (Errors.Config ("missing required variables: " +:+ str_join ", " missing))
  else
    reject_control_chars "RM_DB_SERVER" (cfg_server cfg);;
    reject_control_chars "database name" (cfg_database cfg);;
    if negb (is_empty_str (cfg_port cfg)) && negb (valid_port (cfg_port cfg)) then
      Err (Errors.Config ("RM_DB_PORT is not a valid TCP port (1-65535): " +:+ cfg_port cfg))
    else normalize_catalog_paths tree cfg.

Definition validate_daemon_config (env : string → EnvVar) (tree : FsNode) (cfg : Config)
    : M Config :=
  cfg ← validate_config env tree cfg;
  if is_empty_str (cfg_session_token cfg) then
    Err (Errors.Config ("RMIG_SESSION_TOKEN is required in the process environment for rmigd; "
      +:+ "the token is not read from config.toml"))
  else Ok cfg.

(** ** What validation guarantees *)

Definition boolean_ok (v : EnvVar) : Prop :=
  match v with EnvUnset => True | EnvNotUtf8 => False | EnvText s => recognized_bool s = true end.

Lemma validate_booleans_spec env names :
  validate_booleans env names = Ok tt ↔ Forall (λ n, boolean_ok (env n)) names.
Proof.
  induction names as [|n names IH]; [by split|]. rewrite Forall_cons. cbn [validate_booleans].
  destruct (env n) as [| |v]; cbn [boolean_ok].
  - rewrite IH. tauto.
  - split; [done|tauto].
  - unfold validate_boolean_value. destruct (recognized_bool v); cbn [mbind outcome_bind].
    + rewrite IH. tauto.
    + by split; [|intros []].
Qed.

Lemma empty_str_spec s : is_empty_str s = true ↔ s = "".
Proof. apply String.eqb_eq. Qed.
Lemma empty_str_false s : is_empty_str s = false ↔ s ≠ "".
Proof. apply String.eqb_neq. Qed.

(** The candidates of a list of entries, in their order. *)
Definition is_candidate (e : string * FsNode) : bool :=
  is_dir e.2 && negb (starts_with "." e.1)
  && match e.2 with FDir es => existsb (λ x, is_dir x.2) es | _ => false end.

Lemma catalog_candidate_Ok root names e names' :
  catalog_candidate root names e = Ok names' →
  names' = names ++ if is_candidate e then [e.1] else [].
Proof.
  destruct e as [nm n]. unfold catalog_candidate, is_candidate. cbn [fst snd].
  destruct (is_dir n) eqn:Hd; cbn [negb andb]; [|intros [= <-]; by rewrite app_nil_r].
  destruct (starts_with "." nm); cbn [negb andb]; [intros [= <-]; by rewrite app_nil_r|].
  destruct n as [|e|es|]; try done. cbn [catalog_database_dir_has_schema mbind outcome_bind].
  destruct (existsb _ es); intros [= <-]; by rewrite ?app_nil_r.
Qed.

Lemma candidates_fold root entries : ∀ names names',
  foldM (catalog_candidate root) names entries = Ok names' →
  names' = names ++ map fst (filter (λ e, is_candidate e = true) entries).
Proof.
  induction entries as [|e entries IH]; intros names names'.
  - cbn. rewrite app_nil_r. congruence.
  - cbn [foldM]. intros (l & Hl%catalog_candidate_Ok & ->%IH)%outcome_bind_Ok. subst l.
    rewrite filter_cons, <- app_assoc. f_equal.
    by case_decide as Hc; [rewrite Hc|apply not_true_is_false in Hc; rewrite Hc].
Qed.

(** The catalog databases of a source tree are found in sorted order and are
    exactly its visible top-level directories that hold a schema directory; a
    tree without one, and a directory that cannot be listed, are errors. *)
Theorem discover_catalog_databases_spec root entries names :
  discover_catalog_databases root (FDir entries) = Ok names →
  names ≠ [] ∧ StronglySorted String.leb names ∧
  (∀ db, db ∈ names ↔ ∃ es, (db, FDir es) ∈ entries ∧ starts_with "." db = false ∧
                            ∃ s, s ∈ es ∧ is_dir s.2 = true) ∧
  (∀ db e, (db, FDirErr e) ∈ entries → starts_with "." db = true).
Proof.
  cbn [discover_catalog_databases]. intros H.
  apply outcome_bind_Ok in H as (l & Hl & H). case_bool_decide as Hn; [done|].
  injection H as <-. split; [done|]. split.
  { apply sort_by_sorted; [apply String.leb_total|apply leb_trans]. }
  split.
  - intros db. rewrite sort_by_perm. rewrite (candidates_fold _ _ _ _ Hl). cbn [app].
    rewrite list_elem_of_fmap. split.
    + intros ([nm n] & -> & He). apply list_elem_of_filter in He as [Hc He].
      unfold is_candidate in Hc. cbn [fst snd] in Hc. simpl_bool.
      destruct n as [| |es|]; try done. exists es. split; [done|]. split; [done|].
      match goal with H : existsb _ _ = true |- _ => apply existsb_exists in H as (s & Hs & ?) end.
      exists s. by rewrite list_elem_of_In.
    + intros (es & He & Hdot & s & Hs & Hd). exists (db, FDir es). split; [done|].
      apply list_elem_of_filter. split; [|done]. unfold is_candidate. cbn [fst snd is_dir].
      rewrite Hdot. cbn [negb andb]. apply existsb_exists. exists s.
      by rewrite <- list_elem_of_In.
  - intros db e He. clear Hn. revert Hl. generalize (@nil string) as names. revert He.
    induction entries as [|[nm n] entries IH]; intros He names; [by apply elem_of_nil in He|].
    cbn [foldM]. intros Hl. apply outcome_bind_Ok in Hl as (names' & Hc & Hl).
    apply elem_of_cons in He as [[= <- <-]|He]; [|by apply (IH He names')].
    unfold catalog_candidate in Hc. cbn [fst snd is_dir negb] in Hc.
    by destruct (starts_with "." db).
Qed.

(** What [normalize_catalog_paths] fills in, for the databases found. *)
Definition normalized_config (cfg : Config) (dbs : list string) : Config :=
  cfg <| cfg_sql_base := if is_empty_str (cfg_sql_base cfg) then cfg_sql_root cfg
                         else cfg_sql_base cfg |>
      <| cfg_database := match dbs with
                         | [db] => if is_empty_str (cfg_database cfg) then db
                                   else cfg_database cfg
                         | _ => cfg_database cfg
                         end |>.

Lemma normalize_catalog_paths_spec tree cfg cfg' :
  normalize_catalog_paths tree cfg = Ok cfg' ↔
  ∃ dbs, discover_catalog_databases (cfg_sql_root cfg) tree = Ok dbs ∧
         cfg' = normalized_config cfg dbs.
Proof.
  unfold normalize_catalog_paths, normalized_config. fold (is_empty_str (cfg_sql_base cfg)).
  set (cfg1 := if is_empty_str _ then _ else _).
  assert (E : cfg1 = cfg <| cfg_sql_base := if is_empty_str (cfg_sql_base cfg)
                            then cfg_sql_root cfg else cfg_sql_base cfg |>).
  { subst cfg1. destruct (is_empty_str (cfg_sql_base cfg)); [done|by destruct cfg]. }
  rewrite E. cbn [cfg_sql_root cfg_database upd]. clear E cfg1.
  rewrite outcome_bind_Ok.
  apply exist_proper. intros dbs. apply and_iff_compat_l.
  unfold is_empty_str. destruct dbs as [|db [|? ?]]; (split; [intros [= <-]|intros ->]);
    try case_match; by destruct cfg.
Qed.

(** Validation lets a configuration through exactly when every boolean
    variable is readable, server, source root, user and password are set, a
    daemon socket comes with its token, no control character hides in the
    connection identity, the port is a TCP port, and the source tree names a
    catalog; it then only fills the base path and a single database's name. *)
Theorem validate_config_spec env tree cfg cfg' :
  validate_config env tree cfg = Ok cfg' ↔
  Forall (λ n, boolean_ok (env n)) BOOLEAN_NAMES ∧
  cfg_server cfg ≠ "" ∧ cfg_sql_root cfg ≠ "" ∧ cfg_user cfg ≠ "" ∧ cfg_password cfg ≠ "" ∧
  (cfg_session_socket cfg = "" ∨ cfg_session_token cfg ≠ "") ∧
  has_control_bytes (bytes_of (cfg_server cfg)) = false ∧
  has_control_bytes (bytes_of (cfg_database cfg)) = false ∧
  (cfg_port cfg = "" ∨ valid_port (cfg_port cfg) = true) ∧
  ∃ dbs, discover_catalog_databases (cfg_sql_root cfg) tree = Ok dbs ∧
    cfg' = normalized_config cfg dbs.
Proof.
  unfold validate_config, validate_boolean_envs.
  rewrite <- normalize_catalog_paths_spec, <- validate_booleans_spec, <- !empty_str_false, <- !empty_str_spec.
  destruct (validate_booleans env BOOLEAN_NAMES) as [[]| |]; cbn [mbind outcome_bind];
    [|by split; [|intros [[=] _]]..].
  destruct (is_empty_str (cfg_user cfg)), (is_empty_str (cfg_password cfg)); cbn [missing_if app bool_decide decide];
    [by split; [done|intuition done]..|].
  rewrite bool_decide_true by done. cbn [negb].
  destruct (is_empty_str (cfg_session_socket cfg)) eqn:Hsock,
    (is_empty_str (cfg_session_token cfg)) eqn:Htok; cbn [negb andb];
    try (by split; [done|intuition done]).
  all: destruct (is_empty_str (cfg_server cfg)), (is_empty_str (cfg_sql_root cfg));
    cbn [missing_if app]; try (by split; [done|intuition done]).
  all: rewrite bool_decide_true by done; cbn [negb]; unfold reject_control_chars.
  all: destruct (has_control_bytes (bytes_of (cfg_server cfg))); cbn [mbind outcome_bind];
    [by split; [done|intuition done]|].
  all: destruct (has_control_bytes (bytes_of (cfg_database cfg))); cbn [mbind outcome_bind];
    [by split; [done|intuition done]|].
  all: destruct (is_empty_str (cfg_port cfg)), (valid_port (cfg_port cfg)); cbn [negb andb];
    intuition done.
Qed.
End config.

(** ** Concrete inputs *)

Module ConfigSample.
#[local] Existing Instances Concrete.unicode.
Definition float_secs : FloatSecs := {| parse_f64_secs _ := None |}.
#[local] Existing Instance float_secs.

Definition env (name : string) : EnvVar :=
  if String.eqb name "RM_DB_SERVER" then EnvText "db.example"
  else if String.eqb name "RM_DB_USER" then EnvText "svc"
  else if String.eqb name "RM_DB_PASSWORD" then EnvText "pw"
  else if String.eqb name "RM_SQL_ROOT" then EnvText "/repo"
  else if String.eqb name "RM_SKIP_GIT" then EnvText " Yes "
  else if String.eqb name "RM_LOCK_TIMEOUT" then EnvText "5"
  else EnvUnset.
Definition cfg : Config := build_config env TomlConfig_default.
Definition entries : list (string * FsNode) :=
  [("Sales", FDir [("dbo", FDir [])]); (".git", FDirErr (Io "denied")); ("README.md", FFile);
   ("empty", FDir [("x.sql", FFile)])].

Example built : cfg_skip_git cfg = true ∧ cfg_lock_timeout cfg = (5 * NS_PER_SEC)%N ∧
  cfg_encrypt cfg = true.
Proof. by vm_compute. Qed.

Lemma discover_catalog_databases_spec_witness :
  discover_catalog_databases "/repo" (FDir entries) = Ok ["Sales"] ∧ ["Sales"] ≠ [].
Proof.
  split; [reflexivity|].
  exact (proj1 (discover_catalog_databases_spec "/repo" entries ["Sales"] eq_refl)).
Defined.

End ConfigSample.
