(* ===== verification/Plan.v ===== *)
(** * The migration plan: rows, side tables and their materialised form

    [export/plan_json/types.rs], [export/plan_side.rs], [export/materialize/] and
    [engine/run/merge.rs].  [PlanRow] is in [Action]. *)

From S2P Require Export Catalog.
From Stdlib Require Import Ascii.
From Stdlib Require String.

Record PlanGitOff := mk_PlanGitOff {
  pg_hash_off : StrOff;
  pg_author_off : StrOff;
  pg_date_off : StrOff;
}.
#[global] Instance PlanGitOff_eq_dec : EqDecision PlanGitOff.
Proof. solve_decision. Defined.

Definition plan_git_is_empty (g : PlanGitOff) : bool :=
  (so_len (pg_hash_off g) =? 0)%N && (so_len (pg_author_off g) =? 0)%N
  && (so_len (pg_date_off g) =? 0)%N.

Record PlannedSchema := mk_PlannedSchema { ps_action : SchemaAction; ps_schema_name : string }.

Record PlannedGit := mk_PlannedGit { pgit_hash : string; pgit_author : string; pgit_date : string }.

Record PlannedObject := mk_PlannedObject {
  po_normalized_key : string;
  po_object_path : string;
  po_schema_name : string;
  po_kind : string;
  po_object_name : string;
  po_database_name : string;
  po_parent_name : string;
  po_transition_paths : list string;
  po_git : option PlannedGit;
  po_checksum : digest;
  po_planned_action : Action;
  po_exists : bool;
}.
#[global] Instance PlannedObject_eta : Settable PlannedObject := λ o,
  mk_PlannedObject (po_normalized_key o) (po_object_path o) (po_schema_name o) (po_kind o)
    (po_object_name o) (po_database_name o) (po_parent_name o) (po_transition_paths o)
    (po_git o) (po_checksum o) (po_planned_action o) (po_exists o).

Definition po_git_hash (o : PlannedObject) : string :=
  match po_git o with Some g => pgit_hash g | None => "" end.
Definition po_git_author (o : PlannedObject) : string :=
  match po_git o with Some g => pgit_author g | None => "" end.
Definition po_git_date (o : PlannedObject) : string :=
  match po_git o with Some g => pgit_date g | None => "" end.

Record PlanSummary := mk_PlanSummary {
  sum_schema_count : nat;
  sum_object_count : nat;
  sum_create_count : nat;
  sum_adopt_count : nat;
  sum_skip_count : nat;
  sum_changed_count : nat;
  sum_blocked_count : nat;
}.
Definition PlanSummary_default : PlanSummary := mk_PlanSummary 0 0 0 0 0 0 0.

Record MigrationPlan := mk_MigrationPlan {
  mp_command : string;
  mp_planned_at : string;
  mp_blockers : list string;
  mp_schemas : list PlannedSchema;
  mp_rows : list PlanRow;
  mp_plan_git : gmap N PlanGitOff;
  mp_plan_transitions : gmap N (list StrOff);
  mp_objects : list PlannedObject;
  mp_summary : PlanSummary;
  mp_blocked : bool;
}.
#[global] Instance MigrationPlan_eta : Settable MigrationPlan := λ p,
  mk_MigrationPlan (mp_command p) (mp_planned_at p) (mp_blockers p) (mp_schemas p) (mp_rows p)
    (mp_plan_git p) (mp_plan_transitions p) (mp_objects p) (mp_summary p) (mp_blocked p).

Definition MigrationPlan_default : MigrationPlan :=
  mk_MigrationPlan "" "" [] [] [] ∅ ∅ [] PlanSummary_default false.

(** ** Side tables *)

Definition plan_git_off_from_script (w : Workspace) (script_id : N) : option PlanGitOff :=
  git ← ws_script_git w !! script_id;
  let off := mk_PlanGitOff (sg_hash_off git) (sg_author_off git) (sg_date_off git) in
  if plan_git_is_empty off then None else Some off.

Definition materialize_planned_git (w : Workspace) (off : PlanGitOff) : M PlannedGit :=
  h ← ws_shared_at w (pg_hash_off off);
  a ← ws_shared_at w (pg_author_off off);
  d ← ws_shared_at w (pg_date_off off);
  Ok (mk_PlannedGit h a d).

Definition materialize_transition_paths (w : Workspace) (offs : list StrOff) : M (list string) :=
  traverse (ws_shared_at w) offs.

(** [ObjectEntry::parent_name]. *)
Definition parent_name (w : Workspace) (child_row_id : N) : M string :=
  match ws_parent_by_row w !! child_row_id with
  | None => Ok ""
  | Some pref =>
      match row_index (parent_row_id pref) with
      | None => Ok ""
      | Some pi => ws_entry w pi;; entry_name_part w pi
      end
  end.

Definition materialize_planned_object (w : Workspace) (i : nat) (row : PlanRow)
    (plan_git : gmap N PlanGitOff) (plan_transitions : gmap N (list StrOff))
    : M PlannedObject :=
  obj ← ws_entry w i;
  let idx := as_u32 i in
  key ← entry_key w i;
  path ← object_path_at w i;
  parent ← parent_name w (row_id_at i);
  git ← match plan_git !! idx with
        | Some off => Some <$> materialize_planned_git w off
        | None => Ok None
        end;
  tps ← match plan_transitions !! idx with
        | Some offs => materialize_transition_paths w offs
        | None => Ok []
        end;
  Ok (mk_PlannedObject key path (schema_part key) (kind_part key) (name_part key)
        (database_name w (oe_db_id obj)) parent tps git (pr_checksum row)
        (planned_action row) (row_exists row)).

Definition materialize_all (p : MigrationPlan) (w : Workspace) : M (list PlannedObject) :=
  traverse (λ x, materialize_planned_object w x.1 x.2 (mp_plan_git p) (mp_plan_transitions p))
    (imap pair (mp_rows p)).

Definition ensure_objects_materialized (w : Workspace) (p : MigrationPlan) : M MigrationPlan :=
  match mp_rows p with
  | [] => Ok p
  | rows =>
      if Nat.eqb (length (mp_objects p)) (length rows) then Ok p
      else objs ← materialize_all p w; Ok (p <| mp_objects := objs |>)
  end.

Definition uses_slim_rows (p : MigrationPlan) : bool := negb (bool_decide (mp_rows p = [])).

(** [WireMigrationPlan::new] and the choice made by [write_plan_json]: the
    objects that reach the JSON document. *)
Definition wire_objects (p : MigrationPlan) (w : Workspace) : M (list PlannedObject) :=
  match mp_rows p with [] => Ok (mp_objects p) | _ => materialize_all p w end.

Definition json_objects (p : MigrationPlan) (w : option Workspace) : M (list PlannedObject) :=
  let fully := negb (bool_decide (mp_rows p = []))
               && Nat.eqb (length (mp_objects p)) (length (mp_rows p)) in
  if negb (bool_decide (mp_rows p = [])) && negb fully then
    match w with
    | None => Err (InvalidInput "write_plan_json: workspace required for slim plan rows")
    | Some w => wire_objects p w
    end
  else Ok (mp_objects p).

(** ** Dropping transitions that were already applied ([filter.rs])

    The error of the whole pass is the sorted list of tampered paths. *)

Section filter_applied.
Context `{HX : Hex}.

(** [applied_unchanged]: whether the path is dropped, and the paths recorded as
    tampered so far. *)
Definition applied_unchanged (path : string) (applied current : gmap string string)
    (tampered : list string) : bool * list string :=
  match applied !! path with
  | None => (false, tampered)
  | Some recorded =>
      match current !! path with
      | Some now =>
          if negb (String.eqb recorded "") && negb (String.eqb now recorded)
          then (true, tampered ++ [path]) else (true, tampered)
      | None => (true, tampered)
      end
  end.

Definition transition_checksums (w : Workspace) : M (gmap string string) :=
  foldM (λ m i,
    let id := as_u32 (i + 1) in
    kind ← script_kind w id;
    if bool_decide (kind = SkTransition) then
      match script_checksum w id with
      | Some cs => path ← script_path_str w id; Ok (<[path := hex_encode cs]> m)
      | None => Ok m
      end
    else Ok m) ∅ (seq 0 (length (ws_script_rows w))).

(** [Vec::retain] with the tampered list threaded through, paths already read. *)
Fixpoint retain_paths {A} (applied current : gmap string string) (l : list (A * string))
    (tampered : list string) : list A * list string :=
  match l with
  | [] => ([], tampered)
  | (a, p) :: l' =>
      let '(drop, tampered) := applied_unchanged p applied current tampered in
      let '(rest, tampered) := retain_paths applied current l' tampered in
      ((if drop then rest else a :: rest), tampered)
  end.

Definition filter_row (w : Workspace) (applied current : gmap string string)
    (st : gmap N (list StrOff) * list string) (x : nat * PlanRow)
    : M (gmap N (list StrOff) * list string) :=
  let '(trans, tampered) := st in
  if negb (bool_decide (planned_action x.2 = ReprocessChanged)) then Ok st
  else
    let idx := as_u32 x.1 in
    match trans !! idx with
    | None => Ok st
    | Some offs =>
        paths ← traverse (ws_str_at w) offs;
        let '(kept, tampered) := retain_paths applied current (zip offs paths) tampered in
        Ok (<[idx := kept]> trans, tampered)
    end.

Definition row_needs_filter (p : MigrationPlan) (x : nat * PlanRow) : bool :=
  bool_decide (planned_action x.2 = ReprocessChanged)
  && match mp_plan_transitions p !! as_u32 x.1 with
     | Some (_ :: _) => true
     | _ => false
     end.

Definition filter_rows (w : Workspace) (applied current : gmap string string)
    (p : MigrationPlan) : M (MigrationPlan * list string) :=
  if negb (existsb (row_needs_filter p) (imap pair (mp_rows p))) then Ok (p, [])
  else
    '(trans, tampered) ← foldM (filter_row w applied current) (mp_plan_transitions p, [])
                           (imap pair (mp_rows p));
    Ok (p <| mp_plan_transitions := trans |> <| mp_objects := [] |>, tampered).

Definition object_needs_filter (o : PlannedObject) : bool :=
  bool_decide (po_planned_action o = ReprocessChanged)
  && negb (bool_decide (po_transition_paths o = [])).

Definition filter_legacy_object (applied current : gmap string string)
    (st : list PlannedObject * list string) (o : PlannedObject)
    : list PlannedObject * list string :=
  let '(objs, tampered) := st in
  if negb (object_needs_filter o) then (objs ++ [o], tampered)
  else
    let '(kept, tampered) := retain_paths applied current
         (zip (po_transition_paths o) (po_transition_paths o)) tampered in
    (objs ++ [o <| po_transition_paths := kept |>], tampered).

Definition filter_legacy_objects (applied current : gmap string string) (p : MigrationPlan)
    : MigrationPlan * list string :=
  if negb (existsb object_needs_filter (mp_objects p)) then (p, [])
  else
    let '(objs, tampered) := foldl (filter_legacy_object applied current) ([], [])
                               (mp_objects p) in
    (p <| mp_objects := objs |>, tampered).

(** The plan after the pass, and the sorted tampered paths ([Err] when any). *)
Definition filter_applied_migrations_on_plan (w : Workspace) (applied : gmap string string)
    (p : MigrationPlan) : M (MigrationPlan * list string) :=
  current ← transition_checksums w;
  '(p, tampered) ← match mp_rows p with
                   | [] => Ok (filter_legacy_objects applied current p)
                   | _ => filter_rows w applied current p
                   end;
  Ok (p, sort_by String.leb tampered).
End filter_applied.

(** ** Merging the plans of several databases ([engine/run/merge.rs]) *)

Section merge.
Context `{HM : MapOrder}.

Definition add_summary (a b : PlanSummary) : PlanSummary :=
  mk_PlanSummary (sum_schema_count a + sum_schema_count b)
    (sum_object_count a + sum_object_count b) (sum_create_count a + sum_create_count b)
    (sum_adopt_count a + sum_adopt_count b) (sum_skip_count a + sum_skip_count b)
    (sum_changed_count a + sum_changed_count b) (sum_blocked_count a + sum_blocked_count b).

Definition shift_into {A} (row_offset : N) (dst src : gmap N A) : gmap N A :=
  foldl (λ m kv, <[((row_offset + kv.1) `mod` u32_size)%N := kv.2]> m) dst (iter_order src).

Definition merge_plan_into (dst src : MigrationPlan) : MigrationPlan :=
  let row_offset := as_u32 (length (mp_rows dst)) in
  mk_MigrationPlan
    (if String.eqb (mp_command dst) "" then mp_command src else mp_command dst)
    (if String.eqb (mp_planned_at dst) "" then mp_planned_at src else mp_planned_at dst)
    (mp_blockers dst ++ mp_blockers src)
    (mp_schemas dst ++ mp_schemas src)
    (mp_rows dst ++ mp_rows src)
    (shift_into row_offset (mp_plan_git dst) (mp_plan_git src))
    (shift_into row_offset (mp_plan_transitions dst) (mp_plan_transitions src))
    (mp_objects dst ++ mp_objects src)
    (add_summary (mp_summary dst) (mp_summary src))
    (mp_blocked dst || mp_blocked src).

Definition merge_plan (dst : option MigrationPlan) (src : MigrationPlan) : option MigrationPlan :=
  match dst with None => Some src | Some dst => Some (merge_plan_into dst src) end.
End merge.

(** ** The filter keeps exactly the unapplied transitions *)

Section filter_facts.
Context `{HX : Hex}.
Implicit Types (applied current : gmap string string).

(** Applied with a recorded checksum that the file no longer has. *)
Definition is_tampered applied current (path : string) : bool :=
  match applied !! path, current !! path with
  | Some recorded, Some now => negb (String.eqb recorded "") && negb (String.eqb now recorded)
  | _, _ => false
  end.

Lemma applied_unchanged_spec path applied current t :
  applied_unchanged path applied current t =
    (bool_decide (is_Some (applied !! path)),
     t ++ (if is_tampered applied current path then [path] else [])).
Proof.
  unfold applied_unchanged, is_tampered. destruct (applied !! path) as [r|]; cbn.
  - destruct (current !! path); [|by rewrite app_nil_r].
    destruct (_ && _); [done|by rewrite app_nil_r].
  - by rewrite app_nil_r.
Qed.

Lemma retain_paths_spec {A} applied current (l : list (A * string)) t :
  retain_paths applied current l t =
    ((filter (λ x, applied !! x.2 = None) l).*1,
     t ++ filter (λ p, is_tampered applied current p = true) l.*2).
Proof.
  revert t. induction l as [|[a p] l IH]; intros t; cbn [retain_paths]; [by rewrite app_nil_r|].
  rewrite applied_unchanged_spec. lazy beta iota zeta. rewrite IH. lazy beta iota zeta.
  rewrite fmap_cons, !filter_cons. cbn [snd]. f_equal.
  - by destruct (applied !! p).
  - rewrite <-app_assoc. f_equal. destruct (is_tampered applied current p) eqn:E.
    + by rewrite decide_True.
    + by rewrite decide_False.
Qed.

Lemma traverse_resolve {E A B} (f : A → outcome E B) (g : A → B) l :
  (∀ x, x ∈ l → f x = Ok (g x)) → traverse f l = Ok (g <$> l).
Proof.
  induction l as [|x l IH]; intros Hf; cbn; [done|].
  rewrite Hf by left. cbn. rewrite IH; [done|]. intros; apply Hf. by right.
Qed.

Lemma filter_zip_resolve applied (g : StrOff → string) offs :
  (filter (λ x, applied !! x.2 = None) (zip offs (g <$> offs))).*1 =
    filter (λ off, applied !! g off = None) offs.
Proof.
  induction offs as [|o offs IH]; [done|]. rewrite fmap_cons. cbn [zip zip_with].
  rewrite !filter_cons. cbn [snd]. case_decide; [|done]. by rewrite fmap_cons, IH.
Qed.

Definition keep_offs applied (g : StrOff → string) (row : PlanRow) (offs : list StrOff)
    : list StrOff :=
  if decide (planned_action row = ReprocessChanged)
  then filter (λ off, applied !! g off = None) offs else offs.

Definition row_tampered applied current (g : StrOff → string) (row : PlanRow)
    (offs : list StrOff) : list string :=
  if decide (planned_action row = ReprocessChanged)
  then filter (λ p, is_tampered applied current p = true) (g <$> offs) else [].

Lemma filter_row_spec w applied current g (st : gmap N (list StrOff) * list string) i row :
  (∀ offs off, st.1 !! as_u32 i = Some offs → off ∈ offs → ws_str_at w off = Ok (g off)) →
  filter_row w applied current st (i, row) =
    Ok (alter (keep_offs applied g row) (as_u32 i) st.1,
        st.2 ++ default [] (row_tampered applied current g row <$> st.1 !! as_u32 i)).
Proof.
  intros Hg. destruct st as [trans t]. unfold filter_row, keep_offs, row_tampered. cbn in *.
  destruct (decide (planned_action row = ReprocessChanged)) as [Ha|Ha].
  - rewrite bool_decide_eq_true_2 by done. cbn.
    destruct (trans !! as_u32 i) as [offs|] eqn:Hlk; cbn.
    + rewrite (traverse_resolve _ g) by (intros; by eapply Hg). cbn.
      rewrite retain_paths_spec, filter_zip_resolve, snd_zip by (by rewrite length_fmap).
      do 2 f_equal. apply map_eq. intros k. rewrite lookup_alter, lookup_insert.
      destruct (decide (as_u32 i = k)) as [<-|]; [by rewrite Hlk|done].
    + rewrite app_nil_r. do 2 f_equal. apply map_eq. intros k. rewrite lookup_alter.
      destruct (decide (as_u32 i = k)) as [<-|]; [by rewrite Hlk|done].
  - rewrite bool_decide_eq_false_2 by done. cbn.
    replace (alter (λ offs, offs) (as_u32 i) trans) with trans; [|by rewrite alter_id].
    destruct (trans !! as_u32 i); cbn; by rewrite app_nil_r.
Qed.

(** The rows from index [n] on, as the loop enumerates them. *)
Definition rows_from {A} (n : nat) (rows : list A) : list (nat * A) :=
  imap (λ i r, (n + i, r)) rows.

Lemma rows_from_cons {A} n (r : A) rows : rows_from n (r :: rows) = (n, r) :: rows_from (S n) rows.
Proof.
  unfold rows_from. rewrite imap_cons, Nat.add_0_r. f_equal. apply imap_ext.
  intros i x _. cbn. by rewrite Nat.add_succ_r.
Qed.

Definition row_from {A} (n : nat) (rows : list A) (k : N) : option A :=
  if decide (n ≤ N.to_nat k) then rows !! (N.to_nat k - n) else None.

Lemma row_from_cons {A} n (r : A) rows k :
  row_from n (r :: rows) k = if decide (k = N.of_nat n) then Some r else row_from (S n) rows k.
Proof.
  unfold row_from. destruct (decide (k = N.of_nat n)) as [->|Hne].
  - by rewrite Nat2N.id, decide_True, Nat.sub_diag.
  - destruct (decide (n ≤ N.to_nat k)), (decide (S n ≤ N.to_nat k)); try lia; [|done].
    by replace (N.to_nat k - n) with (S (N.to_nat k - S n)) by lia.
Qed.

(** The loop of [filter_rows]: every row's side-table entry is filtered once,
    and the tampered paths are those met on the way. *)
Lemma filter_rows_fold w applied current g rows n trans t :
  (N.of_nat (n + length rows) <= u32_size)%N →
  (∀ k offs off, trans !! k = Some offs → off ∈ offs → ws_str_at w off = Ok (g off)) →
  ∃ trans' t', foldM (filter_row w applied current) (trans, t) (rows_from n rows) = Ok (trans', t') ∧
    (∀ k, trans' !! k = match row_from n rows k with
                        | Some row => keep_offs applied g row <$> trans !! k
                        | None => trans !! k
                        end) ∧
    (∀ path, path ∈ t' ↔ path ∈ t ∨ ∃ k row offs, row_from n rows k = Some row ∧
       trans !! k = Some offs ∧ path ∈ row_tampered applied current g row offs).
Proof.
  revert n trans t. induction rows as [|row rows IH]; intros n trans t Hn Hg.
  { exists trans, t. split; [done|]. unfold row_from. split.
    - intros k. by destruct (decide _).
    - intros path. split; [by left|]. intros [?|(k & row & offs & Hk & _)]; [done|].
      by destruct (decide _). }
  cbn [length] in Hn. rewrite rows_from_cons. cbn [foldM].
  rewrite (filter_row_spec w applied current g) by (intros; by eapply Hg). cbn [fst snd].
  rewrite as_u32_small by lia. cbn.
  set (trans1 := alter _ _ _). set (t1 := t ++ _).
  destruct (IH (S n) trans1 t1) as (trans' & t' & Hf & Ht & Hp); [lia| |].
  { intros k offs off. unfold trans1. rewrite lookup_alter.
    destruct (decide (N.of_nat n = k)) as [<-|]; [|by apply Hg].
    destruct (trans !! N.of_nat n) as [offs0|] eqn:Hlk; [|done]. intros [= <-] Hoff.
    eapply Hg; [exact Hlk|]. unfold keep_offs in Hoff. destruct (decide _); [|done].
    by apply list_elem_of_filter in Hoff as [_ ?]. }
  exists trans', t'. split; [exact Hf|].
  assert (row_from (S n) rows (N.of_nat n) = None) as Hself
    by (unfold row_from; rewrite decide_False by lia; done).
  split.
  - intros k. rewrite Ht, row_from_cons. unfold trans1. rewrite lookup_alter.
    destruct (decide (N.of_nat n = k)) as [<-|Hne].
    + by rewrite Hself, decide_True.
    + by rewrite decide_False.
  - intros path. rewrite Hp. unfold t1. rewrite elem_of_app. split.
    + intros [[?|Hin]|(k & r & offs & Hk & Hlk & Hin)]; [by left| |].
      * right. exists (N.of_nat n), row. rewrite row_from_cons, decide_True by done.
        destruct (trans !! N.of_nat n) as [offs|]; [|by apply elem_of_nil in Hin]. eauto.
      * right. exists k, r, offs. rewrite row_from_cons.
        destruct (decide (k = N.of_nat n)) as [->|Hne]; [congruence|].
        unfold trans1 in Hlk. rewrite lookup_alter_ne in Hlk by done. done.
    + intros [?|(k & r & offs & Hk & Hlk & Hin)]; [by left; left|].
      rewrite row_from_cons in Hk. destruct (decide (k = N.of_nat n)) as [->|Hne].
      * injection Hk as <-. left. right. by rewrite Hlk.
      * right. exists k, r, offs. unfold trans1. by rewrite lookup_alter_ne.
Qed.

Lemma row_from_0 {A} (rows : list A) i r :
  rows !! i = Some r → row_from 0 rows (N.of_nat i) = Some r.
Proof. intros. unfold row_from. rewrite decide_True by lia. by rewrite Nat2N.id, Nat.sub_0_r. Qed.

(** When no row needs the pass, the pass would change nothing. *)
Lemma filter_rows_not_needed applied current g p :
  (N.of_nat (length (mp_rows p)) <= u32_size)%N →
  existsb (row_needs_filter p) (imap pair (mp_rows p)) = false →
  ∀ i row offs, mp_rows p !! i = Some row → mp_plan_transitions p !! N.of_nat i = Some offs →
    keep_offs applied g row offs = offs ∧ row_tampered applied current g row offs = [].
Proof.
  intros Hb Hex i row offs Hi Hlk. unfold keep_offs, row_tampered.
  destruct (decide _) as [Ha|]; [|done].
  cut (offs = []); [by intros ->|]. destruct offs as [|o offs]; [done|]. exfalso.
  apply not_true_iff_false in Hex. apply Hex, existsb_exists. exists (i, row).
  split; [apply list_elem_of_In, elem_of_lookup_imap; eauto|].
  unfold row_needs_filter. cbn [fst snd].
  apply lookup_lt_Some in Hi. rewrite as_u32_small by lia.
  by rewrite bool_decide_eq_true_2, Hlk.
Qed.

End filter_facts.

(** ** Merged plans keep every database's rows and side tables aligned *)

Section merge_facts.
Context `{HM : MapOrder}.

Lemma shift_fold {A} (off : N) (l : list (N * A)) (dst : gmap N A) :
  NoDup l.*1 → (∀ k v, (k, v) ∈ l → (off + k < u32_size)%N) →
  let m := foldl (λ m kv, <[((off + kv.1) `mod` u32_size)%N := kv.2]> m) dst l in
  (∀ k v, (k, v) ∈ l → m !! (off + k)%N = Some v) ∧
  (∀ j, (∀ k v, (k, v) ∈ l → j ≠ (off + k)%N) → m !! j = dst !! j).
Proof.
  revert dst. induction l as [|[k0 v0] l IH]; intros dst Hnd Hb; cbn.
  { split; [by intros k v ?%elem_of_nil|done]. }
  inversion Hnd as [|? ? Hnin Hnd']; subst.
  rewrite N.mod_small by (eapply Hb; by left).
  destruct (IH (<[(off + k0)%N := v0]> dst)) as [H1 H2]; [done|intros; eapply Hb; by right|].
  split.
  - intros k v [[= -> ->]|Hin]%elem_of_cons; [|by apply H1].
    rewrite H2, lookup_insert_eq; [done|]. intros k' v' Hin' Heq.
    assert (k' = k0) as -> by lia. destruct Hnin. apply list_elem_of_fmap. by exists (k0, v').
  - intros j Hj. rewrite H2, lookup_insert_ne; [done| |].
    + intros <-. eapply Hj; [by left|done].
    + intros k v Hin. apply (Hj k v). by right.
Qed.

Lemma shift_into_lookup {A} (off : N) (dst src : gmap N A) :
  (∀ k, is_Some (src !! k) → (off + k < u32_size)%N) →
  (∀ k, is_Some (dst !! k) → (k < off)%N) →
  (∀ k, shift_into off dst src !! (off + k)%N = src !! k) ∧
  (∀ j, (j < off)%N → shift_into off dst src !! j = dst !! j).
Proof.
  intros Hs Hd. unfold shift_into.
  destruct (shift_fold off (iter_order src) dst) as [H1 H2].
  { rewrite iter_order_perm. apply NoDup_fst_map_to_list. }
  { intros k v Hin%iter_order_elem. apply Hs. eauto. }
  split.
  - intros k. destruct (src !! k) as [v|] eqn:Hk.
    + apply H1. by apply iter_order_elem.
    + rewrite H2.
      * apply eq_None_not_Some. intros Hsome%Hd. lia.
      * intros k' v' Hin%iter_order_elem Heq. assert (k' = k) as -> by lia. congruence.
  - intros j Hj. apply H2. intros k v _. lia.
Qed.

(** Side-table keys are row indices. *)
Record plan_wf (p : MigrationPlan) : Prop := {
  pw_git : ∀ k, is_Some (mp_plan_git p !! k) → (k < N.of_nat (length (mp_rows p)))%N;
  pw_transitions : ∀ k, is_Some (mp_plan_transitions p !! k) → (k < N.of_nat (length (mp_rows p)))%N;
}.

Lemma shift_into_bounded {A} (n m : nat) (dst src : gmap N A) :
  (N.of_nat (n + m) < u32_size)%N →
  (∀ k, is_Some (dst !! k) → (k < N.of_nat n)%N) → (∀ k, is_Some (src !! k) → (k < N.of_nat m)%N) →
  ∀ k, is_Some (shift_into (N.of_nat n) dst src !! k) → (k < N.of_nat (n + m))%N.
Proof.
  intros Hb Hd Hs k Hk.
  destruct (shift_into_lookup (N.of_nat n) dst src) as [H1 H2];
    [intros j Hj; specialize (Hs j Hj); lia|done|].
  destruct (decide (k < N.of_nat n)%N); [lia|].
  replace k with (N.of_nat n + (k - N.of_nat n))%N in Hk |- * by lia.
  rewrite H1 in Hk. apply Hs in Hk. lia.
Qed.

(** Merging the plan of one more database appends its rows, objects,
    blockers and schemas, adds its counters, blocks if either is blocked, and
    shifts its side tables by the number of rows already there: every row of
    either plan finds its own git and transition data, and nothing else does. *)
Theorem merge_plan_spec dst src :
  plan_wf dst → plan_wf src →
  (N.of_nat (length (mp_rows dst) + length (mp_rows src)) < u32_size)%N →
  let p := merge_plan_into dst src in
  let n := N.of_nat (length (mp_rows dst)) in
  plan_wf p ∧ mp_rows p = mp_rows dst ++ mp_rows src ∧
  mp_objects p = mp_objects dst ++ mp_objects src ∧
  mp_blocked p = mp_blocked dst || mp_blocked src ∧
  length (mp_blockers p) = length (mp_blockers dst) + length (mp_blockers src) ∧
  sum_blocked_count (mp_summary p)
    = sum_blocked_count (mp_summary dst) + sum_blocked_count (mp_summary src) ∧
  (∀ k, (k < n)%N → mp_plan_git p !! k = mp_plan_git dst !! k ∧
                    mp_plan_transitions p !! k = mp_plan_transitions dst !! k) ∧
  (∀ k, mp_plan_git p !! (n + k)%N = mp_plan_git src !! k ∧
        mp_plan_transitions p !! (n + k)%N = mp_plan_transitions src !! k).
Proof.
  intros Hd Hs Hb. cbv zeta. unfold merge_plan_into.
  rewrite as_u32_small by lia.
  assert (∀ k, is_Some (mp_plan_git src !! k) →
    (N.of_nat (length (mp_rows dst)) + k < u32_size)%N) as B1
    by (intros k Hk%(pw_git _ Hs); lia).
  assert (∀ k, is_Some (mp_plan_transitions src !! k) →
    (N.of_nat (length (mp_rows dst)) + k < u32_size)%N) as B2
    by (intros k Hk%(pw_transitions _ Hs); lia).
  destruct (shift_into_lookup _ _ _ B1 (pw_git _ Hd)) as [G1 G2].
  destruct (shift_into_lookup _ _ _ B2 (pw_transitions _ Hd)) as [T1 T2].
  split_and!; cbn; try done.
  - split; cbn; rewrite length_app; apply shift_into_bounded; try done; by destruct Hd, Hs.
  - by rewrite length_app.
  - intros k Hk. split; [by apply G2|by apply T2].
Qed.
End merge_facts.

(** ** Evaluated on a concrete plan *)

Module PlanSample.
#[local] Existing Instances Concrete.unicode Concrete.fingerprint Concrete.map_order Concrete.hex.

Definition arena : StringArena := register_all ["A/m1.sql"; "A/m2.sql"] builder_new.
Definition trow (off : N) : ScriptRow := mk_ScriptRow (mk_StrOff off 8) StrOff_EMPTY SkTransition.

(** One changed table with two migrations; the first is recorded as applied. *)
Definition w : Workspace :=
  Workspace_default <| ws_layout_arena := Some arena |>
    <| ws_script_rows := [trow 0; trow 8] |>
    <| ws_script_checksums := [Some zero_digest; Some zero_digest] |>.

Definition p : MigrationPlan :=
  MigrationPlan_default
    <| mp_rows := [mk_PlanRow (as_repr ReprocessChanged) 1 zero_digest] |>
    <| mp_plan_transitions := {[ 0%N := [mk_StrOff 0 8; mk_StrOff 8 8] ]} |>.

Definition path (off : StrOff) : string := if (so_off off =? 0)%N then "A/m1.sql" else "A/m2.sql".
Definition applied : gmap string string := {[ "A/m1.sql" := hex_encode zero_digest ]}.
Definition current : gmap string string :=
  {[ "A/m2.sql" := hex_encode zero_digest; "A/m1.sql" := hex_encode zero_digest ]}.

Lemma p_wf : plan_wf p.
Proof.
  split; intros k; cbn; [rewrite lookup_empty; by intros []|].
  intros [v [<- _]%lookup_singleton_Some]. done.
Qed.
End PlanSample.


Lemma merge_plan_spec_witness :
  let p := @merge_plan_into Concrete.map_order PlanSample.p PlanSample.p in
  let n := 1%N in
  plan_wf p ∧ mp_rows p = mp_rows PlanSample.p ++ mp_rows PlanSample.p ∧
  mp_objects p = [] ∧ mp_blocked p = false ∧ length (mp_blockers p) = 0 ∧
  sum_blocked_count (mp_summary p) = 0 ∧
  (∀ k, (k < n)%N → mp_plan_git p !! k = mp_plan_git PlanSample.p !! k ∧
                    mp_plan_transitions p !! k = mp_plan_transitions PlanSample.p !! k) ∧
  (∀ k, mp_plan_git p !! (n + k)%N = mp_plan_git PlanSample.p !! k ∧
        mp_plan_transitions p !! (n + k)%N = mp_plan_transitions PlanSample.p !! k).
Proof.
  exact (@merge_plan_spec Concrete.map_order PlanSample.p PlanSample.p
           PlanSample.p_wf PlanSample.p_wf eq_refl).
Defined.
