(* ===== verification/Diff.v ===== *)
(** * The diff: one scenario per object, one plan per workspace

    [plan/scenario.rs], [plan/scenario_resolve.rs], [plan/scenario_apply.rs],
    [plan/diff*.rs] and the fact-loading half of [plan/scope.rs].  Elapsed times
    are not modelled. *)

From S2P Require Export Plan.
From Stdlib Require Import Ascii.
From Stdlib Require String.

(** ** Scenarios *)

Inductive PlanScenario : Type :=
| Create
| Adopt
| ScSkipUnchanged
| TableReprocess
| TableBlockedNoTransitions
| TriggerUpdateModule
| TriggerBlockedParentMissing
| TriggerBlockedParentChanging
| ModuleUpdate
| Reprocess
| StructuralChangeBlocked
| LiveStructuralDriftBlocked.
#[global] Instance PlanScenario_eq_dec : EqDecision PlanScenario.
Proof. solve_decision. Defined.

Definition scenario_action (s : PlanScenario) : Action :=
  match s with
  | Create => CreateObject
  | Adopt => AdoptExisting
  | ScSkipUnchanged => SkipUnchanged
  | TableReprocess | Reprocess => ReprocessChanged
  | StructuralChangeBlocked | LiveStructuralDriftBlocked => Fail
  | TableBlockedNoTransitions | TriggerBlockedParentMissing
  | TriggerBlockedParentChanging => ReprocessChangedBlocked
  | TriggerUpdateModule | ModuleUpdate => UpdateExistingModule
  end.

Definition scenario_with_git (s : PlanScenario) : bool :=
  match s with ScSkipUnchanged => false | _ => true end.

Definition blocked_delta (s : PlanScenario) : nat :=
  match s with
  | TableBlockedNoTransitions | StructuralChangeBlocked | LiveStructuralDriftBlocked
  | TriggerBlockedParentMissing | TriggerBlockedParentChanging => 1
  | _ => 0
  end.

Inductive CounterKind : Type := CkCreate | CkAdopt | CkSkip | CkChanged.
#[global] Instance CounterKind_eq_dec : EqDecision CounterKind.
Proof. solve_decision. Defined.

Definition counter_kind (s : PlanScenario) : CounterKind :=
  match s with
  | Create => CkCreate
  | Adopt => CkAdopt
  | ScSkipUnchanged => CkSkip
  | _ => CkChanged
  end.

Record ScenarioInput := mk_ScenarioInput {
  si_exists : bool;
  si_prior : option digest;
  si_checksum : digest;
  si_kind_code : N;
  si_ws : Workspace;
  si_prior_digests : list (option digest);
  si_child_row_id : N;
  si_has_transition_paths : bool;
  si_live_definition_drift : bool;
}.

Definition prior_digest_present (priors : list (option digest)) (row_index : nat) : bool :=
  match priors !! row_index with
  | Some (Some cs) => negb (String.eqb cs zero_digest)
  | _ => false
  end.

Definition changed_default_scenario (kind_code : N) : PlanScenario :=
  if is_module_kind_code kind_code then ModuleUpdate else StructuralChangeBlocked.

Definition resolve_changed_scenario (kind_code : N) (w : Workspace)
    (prior_digests : list (option digest)) (child_row_id : N) (has_transition_paths : bool)
    : PlanScenario :=
  if (kind_code =? KIND_TABLES)%N then
    if negb has_transition_paths then TableBlockedNoTransitions else TableReprocess
  else if (kind_code =? KIND_TRIGGERS)%N then
    match ws_parent_by_row w !! child_row_id with
    | None => changed_default_scenario kind_code
    | Some pref =>
        match row_index (parent_row_id pref) with
        | None => TriggerBlockedParentMissing
        | Some parent_i =>
            if negb (catalog_has_row w parent_i) then TriggerBlockedParentMissing
            else if negb (prior_digest_present prior_digests parent_i)
            then TriggerBlockedParentChanging
            else TriggerUpdateModule
        end
    end
  else changed_default_scenario kind_code.

Definition resolve_plan_scenario (i : ScenarioInput) : PlanScenario :=
  if negb (si_exists i) then Create
  else if bool_decide (si_prior i = None) || bool_decide (si_prior i = Some zero_digest)
  then Adopt
  else if si_live_definition_drift i then
    if is_module_kind_code (si_kind_code i) then ModuleUpdate else LiveStructuralDriftBlocked
  else if bool_decide (si_prior i = Some (si_checksum i)) then ScSkipUnchanged
  else resolve_changed_scenario (si_kind_code i) (si_ws i) (si_prior_digests i)
         (si_child_row_id i) (si_has_transition_paths i).

Definition parent_table_label (w : Workspace) (child_row_id : N) : M string :=
  match ws_parent_by_row w !! child_row_id with
  | None => Ok "?"
  | Some pref =>
      match row_index (parent_row_id pref) with
      | None => Ok "?"
      | Some pi => ws_entry w pi;; entry_name_part w pi
      end
  end.

(** The blocker message a scenario appends, if any. *)
Definition scenario_blocker (s : PlanScenario) (w : Workspace) (child_row_id : N)
    : M (list string) :=
  let i := Nat.pred (N.to_nat child_row_id) in
  match s with
  | TableBlockedNoTransitions =>
      key ← entry_key w i;
      Ok ["table " +:+ key +:+ " changed but has no non-scaffold transition scripts"]
  | StructuralChangeBlocked =>
      key ← entry_key w i;
      Ok [key +:+ " changed but this object kind has no safe in-place update path"]
  | LiveStructuralDriftBlocked =>
      key ← entry_key w i;
      Ok ["live " +:+ key +:+ " differs from its last audited structural state"]
  | TriggerBlockedParentMissing =>
      key ← entry_key w i;
      parent ← parent_table_label w child_row_id;
      Ok ["trigger " +:+ key +:+ " parent table " +:+ parent +:+ " not found"]
  | TriggerBlockedParentChanging =>
      key ← entry_key w i;
      parent ← parent_table_label w child_row_id;
      Ok ["trigger " +:+ key +:+ " parent table " +:+ parent +:+ " is changing"]
  | _ => Ok []
  end.

Definition apply_scenario (s : PlanScenario) (w : Workspace) (child_row_id : N)
    (blockers : list string) : M (Action * list string) :=
  msgs ← scenario_blocker s w child_row_id;
  Ok (scenario_action s, blockers ++ msgs).

(** ** One object *)

Record DiffCounters := mk_DiffCounters {
  dc_create : nat; dc_adopt : nat; dc_skip : nat; dc_changed : nat; dc_blocked : nat;
}.
Definition DiffCounters_default : DiffCounters := mk_DiffCounters 0 0 0 0 0.

Definition count_kind (k : CounterKind) (c : DiffCounters) : DiffCounters :=
  let '(mk_DiffCounters cr ad sk ch bl) := c in
  match k with
  | CkCreate => mk_DiffCounters (S cr) ad sk ch bl
  | CkAdopt => mk_DiffCounters cr (S ad) sk ch bl
  | CkSkip => mk_DiffCounters cr ad (S sk) ch bl
  | CkChanged => mk_DiffCounters cr ad sk (S ch) bl
  end.

Definition count_blocked (n : nat) (c : DiffCounters) : DiffCounters :=
  let '(mk_DiffCounters cr ad sk ch bl) := c in mk_DiffCounters cr ad sk ch (bl + n).

Record ObjectDecision := mk_ObjectDecision {
  od_action : Action;
  od_with_git : bool;
  od_exists : bool;
}.

Section diff.
Context `{HU : Unicode} `{HF : Fingerprint} `{HM : MapOrder}.

(** The scenario [decide_object_at] resolves for the object at index [i]. *)
Definition scenario_at (w : Workspace) (checksums : ChecksumMap) (i : nat) (kind_code : N)
    : M PlanScenario :=
  obj ← ws_entry w i;
  prior ← or_panic (ws_prior_by_row w !! i);
  key ← entry_key w i;
  Ok (resolve_plan_scenario (mk_ScenarioInput (db_exists obj) prior (oe_checksum obj) kind_code w
        (ws_prior_by_row w) (row_id_at i)
        ((kind_code =? KIND_TABLES)%N && row_has_transition_paths w i)
        (has_live_definition_drift checksums key))).

Definition decide_object_at (w : Workspace) (i : nat) (kind_code : N) (checksums : ChecksumMap)
    (counters : DiffCounters) (p : MigrationPlan)
    : M (ObjectDecision * DiffCounters * MigrationPlan) :=
  scenario ← scenario_at w checksums i kind_code;
  obj ← ws_entry w i;
  let blocked_inc := blocked_delta scenario in
  let counters := count_blocked blocked_inc (count_kind (counter_kind scenario) counters) in
  let p := if Nat.ltb 0 blocked_inc then p <| mp_blocked := true |> else p in
  '(action, blockers) ← apply_scenario scenario w (row_id_at i) (mp_blockers p);
  Ok (mk_ObjectDecision action (scenario_with_git scenario) (db_exists obj), counters,
      p <| mp_blockers := blockers |>).

Definition skip_fill_unchanged (obj : ObjectEntry) (row : PlanRow) (d : ObjectDecision) : bool :=
  bool_decide (planned_action row = od_action d)
  && Bool.eqb (row_exists row) (od_exists d)
  && String.eqb (pr_checksum row) (oe_checksum obj).

Definition insert_or_remove {A} (k : N) (o : option A) (m : gmap N A) : gmap N A :=
  match o with Some a => <[k := a]> m | None => delete k m end.

(** [fill_plan_row]: the row and the two side-table entries of index [i]. *)
Definition fill_plan_row (w : Workspace) (i : nat) (d : ObjectDecision) (p : MigrationPlan)
    : M MigrationPlan :=
  row ← or_panic (mp_rows p !! i);
  obj ← ws_entry w i;
  if skip_fill_unchanged obj row d then Ok p
  else
    let idx := as_u32 i in
    let row := set_row_exists (od_exists d) (set_planned_action (od_action d) row)
               <| pr_checksum := oe_checksum obj |> in
    let git := if od_with_git d then plan_git_off_from_script w (oe_script_id obj) else None in
    let transitions :=
      if bool_decide (od_action d = ReprocessChanged)
      then ws_transition_path_cache w ≫= λ m, m !! row_id_at i else None in
    Ok (p <| mp_rows ::= <[i := row]> |>
          <| mp_plan_git ::= insert_or_remove idx git |>
          <| mp_plan_transitions ::= insert_or_remove idx transitions |>).

(** ** Facts from the database ([plan/scope.rs]) *)

Definition apply_catalog_row (catalog : CatalogState) (catalog_fp : gset N) (w : Workspace)
    (i : nat) : M Workspace :=
  key ← entry_key w i;
  let in_catalog := bool_decide (key_fingerprint key ∈ catalog_fp) in
  entries ← list_modify i (set_db_exists in_catalog) (ws_object_entries w);
  cat_rows ← (if in_catalog then list_set i 1%N (ws_catalog_row w) else Ok (ws_catalog_row w));
  let w := w <| ws_object_entries := entries |> <| ws_catalog_row := cat_rows |> in
  match cs_objects catalog !! key ≫= co_parent with
  | Some parent =>
      let parent_key := object_key_new (schema_part key) "tables" parent in
      Ok (w <| ws_parent_by_row ::=
            <[row_id_at i := mk_ParentRef (key_index_of w parent_key)]> |>)
  | None => Ok w
  end.

Definition catalog_fps (catalog : CatalogState) : gset N :=
  list_to_set (map (λ kv, key_fingerprint kv.1) (map_to_list (cs_objects catalog))).

Definition apply_catalog (w : Workspace) (catalog : CatalogState) : M Workspace :=
  let n := object_count w in
  let w := w <| ws_catalog_row ::= resize n 0%N |> in
  foldM (apply_catalog_row catalog (catalog_fps catalog)) w (seq 0 n).

Definition apply_catalog_if_needed (w : Workspace) (catalog : CatalogState) : M Workspace :=
  if catalog_applied w then Ok w
  else w ← apply_catalog w catalog; Ok (mark_catalog_applied w).

Definition apply_checksum_row (checksums : ChecksumMap) (w : Workspace) (i : nat) : M Workspace :=
  key ← entry_key w i;
  match get_key checksums key with
  | Some cs => priors ← list_set i (Some cs) (ws_prior_by_row w);
               Ok (w <| ws_prior_by_row := priors |>)
  | None => Ok w
  end.

Definition apply_checksums_if_needed (w : Workspace) (checksums : ChecksumMap) : M Workspace :=
  if checksums_applied w then Ok w
  else
    let n := object_count w in
    let w := w <| ws_prior_by_row ::= resize n None |> in
    w ← foldM (apply_checksum_row checksums) w (seq 0 n);
    Ok (mark_checksums_applied w).

(** ** [compute_diff_into] *)

Definition empty_plan_row : PlanRow := mk_PlanRow (as_repr SkipUnchanged) 0 zero_digest.

Definition ensure_plan_rows (n : nat) (p : MigrationPlan) : MigrationPlan :=
  p <| mp_rows ::= resize n empty_plan_row |> <| mp_objects := [] |>.

Definition ensure_plan_schemas (n : nat) (p : MigrationPlan) : MigrationPlan :=
  p <| mp_schemas ::= resize n (mk_PlannedSchema SchemaExists "") |>.

Definition update_schema_slot (catalog : CatalogState) (slot : PlannedSchema) (s : SchemaEntry)
    : PlannedSchema :=
  let name := if String.eqb (ps_schema_name slot) (se_name s) then ps_schema_name slot
              else se_name s in
  let new_action := if bool_decide (se_normalized s ∈ cs_schemas catalog)
                    then SchemaExists else CreateSchema in
  let action := if bool_decide (ps_action slot = new_action) then ps_action slot
                else new_action in
  mk_PlannedSchema action name.

Definition diff_object (w : Workspace) (checksums : ChecksumMap)
    (st : DiffCounters * MigrationPlan) (i : nat) : M (DiffCounters * MigrationPlan) :=
  row ← ws_row w i;
  '(d, counters, p) ← decide_object_at w i (or_kind_code row) checksums st.1 st.2;
  p ← fill_plan_row w i d p;
  Ok (counters, p).

Definition needs_finalize (w : Workspace) : bool :=
  negb (bool_decide (ws_object_entries w = []))
  && (bool_decide (ws_object_rows w = [])
      || negb (Nat.eqb (length (ws_object_rows w)) (length (ws_object_entries w)))).

Definition prepare_diff (w : Workspace) (catalog : CatalogState) (checksums : ChecksumMap)
    : M Workspace :=
  w ← (if needs_finalize w then finalize_object_layout w else Ok w);
  w ← apply_catalog_if_needed w catalog;
  w ← apply_checksums_if_needed w checksums;
  ensure_path_caches w.

Definition summary_of (w : Workspace) (c : DiffCounters) : PlanSummary :=
  mk_PlanSummary (length (ws_schemas w)) (object_count w) (dc_create c) (dc_adopt c) (dc_skip c)
    (dc_changed c) (dc_blocked c).

Definition compute_diff_into (w : Workspace) (catalog : CatalogState) (checksums : ChecksumMap)
    (p : MigrationPlan) : M (Workspace * MigrationPlan) :=
  w ← prepare_diff w catalog checksums;
  let n := object_count w in
  let p := p <| mp_blocked := false |> <| mp_blockers := [] |> in
  let p := ensure_plan_schemas (length (ws_schemas w)) (ensure_plan_rows n p) in
  let p := p <| mp_schemas ::= λ slots, zip_with (update_schema_slot catalog) slots (ws_schemas w) |> in
  '(counters, p) ← foldM (diff_object w checksums) (DiffCounters_default, p) (seq 0 n);
  Ok (w, p <| mp_summary := summary_of w counters |>).

Definition compute_diff (w : Workspace) (catalog : CatalogState) (checksums : ChecksumMap)
    : M (Workspace * MigrationPlan) :=
  compute_diff_into w catalog checksums MigrationPlan_default.
End diff.

(** ** Scenario resolution fails closed *)

(** A usable baseline is recorded and the file or the live object left it. *)
Definition changed_input (i : ScenarioInput) : Prop :=
  si_exists i = true ∧ ∃ d, si_prior i = Some d ∧ d ≠ zero_digest ∧
    (si_live_definition_drift i = true ∨ d ≠ si_checksum i).

Lemma scenario_blocked_action s :
  blocked_delta s = 1 ↔ scenario_action s = Fail ∨ scenario_action s = ReprocessChangedBlocked.
Proof. destruct s; cbn; intuition congruence. Qed.

Lemma blocked_delta_01 s : blocked_delta s = 0 ∨ blocked_delta s = 1.
Proof. destruct s; auto. Qed.

(** What [resolve_changed_scenario] may answer. *)
Lemma resolve_changed_cases kc w pd r tp :
  let s := resolve_changed_scenario kc w pd r tp in
  blocked_delta s = 1 ∨
  (scenario_action s = UpdateExistingModule ∧ is_module_kind_code kc = true) ∨
  (scenario_action s = ReprocessChanged ∧ kc = KIND_TABLES ∧ tp = true).
Proof.
  cbv zeta. unfold resolve_changed_scenario, changed_default_scenario.
  destruct (N.eqb_spec kc KIND_TABLES) as [->|_].
  { destruct tp; cbn; auto. }
  destruct (N.eqb_spec kc KIND_TRIGGERS) as [->|_].
  - destruct (ws_parent_by_row w !! r) as [pref|]; [|cbn; auto].
    destruct (row_index _); [|by left]. destruct (catalog_has_row _ _); [|by left].
    destruct (prior_digest_present _ _); [right; left; done|by left].
  - destruct (is_module_kind_code kc); cbn; auto.
Qed.

(** C10. Planning fails closed.  An object is skipped only if it exists, its
    recorded checksum is real and equal to the file's and no live drift was
    reported; it is created exactly when it is absent; and once its file or live
    definition left a usable baseline it is either blocked, or a module that is
    updated in place, or a table with transition scripts and no live drift: it
    is never skipped, adopted or re-created. *)
Theorem resolve_plan_scenario_fail_closed i :
  let s := resolve_plan_scenario i in
  (scenario_action s = SkipUnchanged ↔
     si_exists i = true ∧ si_prior i = Some (si_checksum i) ∧ si_checksum i ≠ zero_digest ∧
     si_live_definition_drift i = false) ∧
  (scenario_action s = CreateObject ↔ si_exists i = false) ∧
  (changed_input i →
     blocked_delta s = 1 ∨
     (scenario_action s = UpdateExistingModule ∧ is_module_kind_code (si_kind_code i) = true) ∨
     (scenario_action s = ReprocessChanged ∧ si_kind_code i = KIND_TABLES ∧
      si_has_transition_paths i = true ∧ si_live_definition_drift i = false)).
Proof.
  cbv zeta. unfold resolve_plan_scenario, changed_input.
  destruct i as [ex prior cs kc w pd r tp drift]. cbn.
  pose proof (resolve_changed_cases kc w pd r tp) as Hch. cbv zeta in Hch.
  destruct ex; cbn; [|split_and!; [split; [done|by intros (? & _)]|done|by intros (? & _)]].
  destruct (bool_decide_reflect (prior = None)) as [->|Hp]; cbn.
  { split_and!; [split; [done|by intros (_ & ? & _)]|done|by intros (_ & d & ? & _)]. }
  destruct (bool_decide_reflect (prior = Some zero_digest)) as [->|Hz]; cbn.
  { split_and!; [split; [done|intros (_ & [= <-] & [] & _); done]|done|].
    intros (_ & d & [= <-] & [] & _). done. }
  destruct drift.
  { destruct (is_module_kind_code kc) eqn:E; cbn.
    - split_and!; [split; [done|by intros (_ & _ & _ & ?)]|done|auto].
    - split_and!; [split; [done|by intros (_ & _ & _ & ?)]|done|auto]. }
  destruct (bool_decide_reflect (prior = Some cs)) as [->|Hcs]; cbn.
  { split_and!; [split; [|done]|done|].
    - intros _. split_and!; [done|done| |done]. by intros ->.
    - intros (_ & d & [= <-] & _ & [?|?]); done. }
  destruct Hch as [Hb|[[Ha Hm]|[Ha [Hk Ht]]]].
  - apply scenario_blocked_action in Hb as Hact.
    split_and!; [split; [|by intros (_ & ? & _)]|split; [|done]|by left];
      destruct Hact as [-> | ->]; done.
  - rewrite Ha. split_and!; [split; [done|by intros (_ & ? & _)]|done|auto].
  - rewrite Ha. split_and!; [split; [done|by intros (_ & ? & _)]|done|].
    intros _. right. right. done.
Qed.

(** ** The object loop *)

Section diff_facts.
Context `{HU : Unicode} `{HF : Fingerprint} `{HM : MapOrder}.

(** A workspace whose columns are aligned and whose facts were loaded. *)
Record diff_ready (w : Workspace) : Prop := {
  dr_keys : length (ws_object_keys w) = object_count w;
  dr_rows : length (ws_object_rows w) = object_count w;
  dr_priors : length (ws_prior_by_row w) = object_count w;
  dr_small : (N.of_nat (object_count w) < u32_size)%N;
  dr_parents : ∀ r pref, ws_parent_by_row w !! r = Some pref →
    (parent_row_id pref <= N.of_nat (object_count w))%N;
}.

(** The scenario of object [i], from its own kind code. *)
Definition object_scenario (w : Workspace) (cm : ChecksumMap) (i : nat) (s : PlanScenario) : Prop :=
  ∃ row, ws_object_rows w !! i = Some row ∧ scenario_at w cm i (or_kind_code row) = Ok s.

Lemma ready_lookup w i :
  diff_ready w → i < object_count w →
  ∃ obj key row prior, ws_object_entries w !! i = Some obj ∧ entry_key w i = Ok key ∧
    ws_object_rows w !! i = Some row ∧ ws_prior_by_row w !! i = Some prior.
Proof.
  intros [Hk Hr Hp Hs Hpar] Hi.
  destruct (lookup_lt_is_Some_2 (ws_object_entries w) i) as [obj Ho]; [done|].
  destruct (lookup_lt_is_Some_2 (ws_object_keys w) i) as [key Hkey]; [by rewrite Hk|].
  destruct (lookup_lt_is_Some_2 (ws_object_rows w) i) as [row Hrow]; [by rewrite Hr|].
  destruct (lookup_lt_is_Some_2 (ws_prior_by_row w) i) as [prior Hprior]; [by rewrite Hp|].
  exists obj, key, row, prior. rewrite entry_key_aligned, Hkey by done. done.
Qed.

Lemma parent_label_ready w r : diff_ready w → ∃ l, parent_table_label w r = Ok l.
Proof.
  intros Hw. unfold parent_table_label.
  destruct (ws_parent_by_row w !! r) as [pref|] eqn:Hp; [|eauto].
  destruct (row_index (parent_row_id pref)) as [pi|] eqn:Hi; [|eauto].
  apply row_index_Some in Hi. apply (dr_parents _ Hw) in Hp.
  destruct (ready_lookup w pi Hw) as (o & k & _ & _ & Ho & Hk & _); [lia|].
  unfold ws_entry. rewrite Ho. cbn. unfold entry_name_part. rewrite Hk. cbn. eauto.
Qed.

Lemma row_id_at_pred i : (N.of_nat (S i) < u32_size)%N → Nat.pred (N.to_nat (row_id_at i)) = i.
Proof. intros. unfold row_id_at. rewrite as_u32_small by lia. lia. Qed.

(** A blocked scenario explains itself with exactly one blocker. *)
Lemma scenario_blocker_ready w s i :
  diff_ready w → i < object_count w → 
  ∃ msgs, scenario_blocker s w (row_id_at i) = Ok msgs ∧ length msgs = blocked_delta s.
Proof.
  intros Hw Hi. pose proof (dr_small _ Hw).
  destruct (ready_lookup w i Hw Hi) as (_ & key & _ & _ & _ & Hk & _).
  destruct (parent_label_ready w (row_id_at i) Hw) as [l Hl].
  unfold scenario_blocker. rewrite row_id_at_pred, Hk by lia. cbn.
  destruct s; rewrite ?Hl; cbn; eauto.
Qed.

Lemma scenario_at_ready w cm i :
  diff_ready w → i < object_count w → ∃ s, object_scenario w cm i s.
Proof.
  intros Hw Hi. destruct (ready_lookup w i Hw Hi) as (o & k & row & pr & Ho & Hk & Hr & Hp).
  eexists. exists row. split; [done|]. unfold scenario_at, ws_entry. rewrite Ho, Hp, Hk. done.
Qed.

(** Row [i] of the plan says what scenario [s] prescribes for object [i]. *)
Definition row_matches (w : Workspace) (p : MigrationPlan) (i : nat) (s : PlanScenario) : Prop :=
  ∃ obj row, ws_object_entries w !! i = Some obj ∧ mp_rows p !! i = Some row ∧
    planned_action row = scenario_action s ∧ row_exists row = db_exists obj ∧
    pr_checksum row = oe_checksum obj.

(** The side-table entries scenario [s] prescribes. *)
Definition side_git (w : Workspace) (i : nat) (s : PlanScenario) : option PlanGitOff :=
  obj ← ws_object_entries w !! i;
  if scenario_with_git s then plan_git_off_from_script w (oe_script_id obj) else None.

Definition side_transitions (w : Workspace) (i : nat) (s : PlanScenario) : option (list StrOff) :=
  if bool_decide (scenario_action s = ReprocessChanged)
  then ws_transition_path_cache w ≫= λ m, m !! row_id_at i else None.

(** Nothing was planned for row [i] yet. *)
Definition row_fresh (p : MigrationPlan) (i : nat) : Prop :=
  mp_rows p !! i = Some empty_plan_row ∧ mp_plan_git p !! as_u32 i = None ∧
  mp_plan_transitions p !! as_u32 i = None.

Definition side_matches (w : Workspace) (p : MigrationPlan) (i : nat) (s : PlanScenario) : Prop :=
  mp_plan_git p !! as_u32 i = side_git w i s ∧
  mp_plan_transitions p !! as_u32 i = side_transitions w i s.

(** The parts of the plan that belong to other rows. *)
Definition same_elsewhere (p p' : MigrationPlan) (i : nat) : Prop :=
  length (mp_rows p') = length (mp_rows p) ∧ mp_schemas p' = mp_schemas p ∧
  (∀ j, j ≠ i → mp_rows p' !! j = mp_rows p !! j) ∧
  (∀ k, k ≠ as_u32 i → mp_plan_git p' !! k = mp_plan_git p !! k ∧
                       mp_plan_transitions p' !! k = mp_plan_transitions p !! k).

Lemma lookup_insert_or_remove {A} k (o : option A) (m : gmap N A) :
  insert_or_remove k o m !! k = o ∧ ∀ j, j ≠ k → insert_or_remove k o m !! j = m !! j.
Proof.
  destruct o; cbn; split.
  - by rewrite lookup_insert_eq.
  - intros. by rewrite lookup_insert_ne.
  - by rewrite lookup_delete_eq.
  - intros. by rewrite lookup_delete_ne.
Qed.

Lemma fill_plan_row_spec w p i s obj row :
  ws_object_entries w !! i = Some obj → mp_rows p !! i = Some row →
  ∃ p', fill_plan_row w i
      (mk_ObjectDecision (scenario_action s) (scenario_with_git s) (db_exists obj)) p = Ok p' ∧
    row_matches w p' i s ∧ same_elsewhere p p' i ∧
    mp_blocked p' = mp_blocked p ∧ mp_blockers p' = mp_blockers p ∧
    (row_fresh p i → side_matches w p' i s).
Proof.
  intros Ho Hr. unfold fill_plan_row, ws_entry. rewrite Ho, Hr. cbn [or_panic mbind outcome_bind].
  destruct (skip_fill_unchanged _ _ _) eqn:Hskip.
  - exists p. split; [done|]. unfold skip_fill_unchanged in Hskip. cbn in Hskip. simpl_bool.
    split_and!; [|done|done|done|].
    + exists obj, row. split_and!; [done|done|done|by apply eqb_prop|by apply String.eqb_eq].
    + intros (Hrow & Hg & Ht). rewrite Hr in Hrow. injection Hrow as ->.
      unfold side_matches, side_git, side_transitions. rewrite Ho, Hg, Ht. cbn.
      by destruct s.
  - eexists. split; [done|]. split_and!; [| |done|done|].
    + exists obj. eexists. split; [done|]. cbn [mp_rows upd]. rewrite list_lookup_insert_eq
        by (by eapply lookup_lt_Some). split; [done|]. split_and!; [| |done].
      * change (planned_action (set_row_exists (db_exists obj)
          (set_planned_action (scenario_action s) row)) = scenario_action s).
        by rewrite planned_action_set_exists, planned_action_set.
      * apply (row_exists_set (db_exists obj)).
    + split_and!; [apply length_insert|done| |].
      * intros j Hj. by apply list_lookup_insert_ne.
      * intros k Hk. split; by apply lookup_insert_or_remove.
    + intros _. unfold side_matches, side_git, side_transitions. rewrite Ho.
      split; apply lookup_insert_or_remove.
Qed.

Definition count_scenario (c : DiffCounters) (s : PlanScenario) : DiffCounters :=
  count_blocked (blocked_delta s) (count_kind (counter_kind s) c).

(** One iteration of the loop. *)
Lemma diff_object_step w cm c p i :
  diff_ready w → i < object_count w → length (mp_rows p) = object_count w →
  ∃ s p', object_scenario w cm i s ∧ diff_object w cm (c, p) i = Ok (count_scenario c s, p') ∧
    row_matches w p' i s ∧ same_elsewhere p p' i ∧
    mp_blocked p' = mp_blocked p || Nat.ltb 0 (blocked_delta s) ∧
    length (mp_blockers p') = length (mp_blockers p) + blocked_delta s ∧
    (row_fresh p i → side_matches w p' i s).
Proof.
  intros Hw Hi Hlen. destruct (scenario_at_ready w cm i Hw Hi) as [s Hs].
  pose proof Hs as (row & Hrow & Hsc).
  destruct (ready_lookup w i Hw Hi) as (obj & _ & _ & _ & Ho & _).
  destruct (scenario_blocker_ready w s i Hw Hi) as (msgs & Hmsg & Hmlen).
  destruct (lookup_lt_is_Some_2 (mp_rows p) i) as [prow Hp]; [by rewrite Hlen|].
  set (p1 := if Nat.ltb 0 (blocked_delta s) then p <| mp_blocked := true |> else p).
  set (p2 := p1 <| mp_blockers := mp_blockers p1 ++ msgs |>).
  assert (mp_rows p2 = mp_rows p ∧ mp_plan_git p2 = mp_plan_git p ∧
    mp_plan_transitions p2 = mp_plan_transitions p ∧ mp_schemas p2 = mp_schemas p ∧
    mp_blocked p2 = mp_blocked p || Nat.ltb 0 (blocked_delta s) ∧
    mp_blockers p2 = mp_blockers p ++ msgs) as (E1 & E2 & E3 & E4 & E5 & E6).
  { unfold p2, p1. destruct (Nat.ltb _ _); cbn; by rewrite ?orb_true_r, ?orb_false_r. }
  destruct (fill_plan_row_spec w p2 i s obj prow Ho) as (p' & Hfill & Hm & Hse & Hb & Hbl & Hf);
    [by rewrite E1|].
  exists s, p'. split; [done|]. split_and!; try done.
  - unfold diff_object, ws_row. rewrite Hrow. cbn [or_panic mbind outcome_bind fst snd].
    unfold decide_object_at. rewrite Hsc. cbn [mbind outcome_bind].
    unfold ws_entry. rewrite Ho. cbn [or_panic mbind outcome_bind].
    fold p1. unfold apply_scenario. rewrite Hmsg. cbn [mbind outcome_bind].
    fold p2. rewrite Hfill. done.
  - destruct Hse as (Hl & Hsch & Hr & Hk). split_and!.
    + by rewrite Hl, E1.
    + by rewrite Hsch, E4.
    + intros j Hj. by rewrite Hr, E1.
    + intros k Hk'. by rewrite <-E2, <-E3; apply Hk.
  - by rewrite Hb, E5.
  - by rewrite Hbl, E6, length_app, Hmlen.
  - unfold row_fresh. rewrite <-E1, <-E2, <-E3. exact Hf.
Qed.

Lemma row_matches_elsewhere w p p' i j s :
  same_elsewhere p p' i → j ≠ i → row_matches w p j s → row_matches w p' j s.
Proof.
  intros (_ & _ & Hr & _) Hj (obj & row & Ho & Hrow & Hm). exists obj, row.
  split; [done|]. split; [by rewrite Hr|done].
Qed.

Lemma side_elsewhere w p p' i j s :
  same_elsewhere p p' i → as_u32 j ≠ as_u32 i →
  (side_matches w p j s → side_matches w p' j s).
Proof.
  intros (_ & _ & _ & Hk) Hj. unfold side_matches. by destruct (Hk _ Hj) as [-> ->].
Qed.

Lemma fresh_elsewhere p p' i j :
  same_elsewhere p p' i → j ≠ i → as_u32 j ≠ as_u32 i → row_fresh p j → row_fresh p' j.
Proof.
  intros (_ & _ & Hr & Hk) Hj Hj'. unfold row_fresh. rewrite Hr by done.
  by destruct (Hk _ Hj') as [-> ->].
Qed.

Lemma as_u32_ne i j n :
  (N.of_nat n < u32_size)%N → i < n → j < n → i ≠ j → as_u32 i ≠ as_u32 j.
Proof. intros ????. rewrite !as_u32_small by lia. lia. Qed.

(** What the loop leaves in the plan after visiting the rows of [ss] from [k]. *)
Definition loop_done (w : Workspace) (cm : ChecksumMap) (p p' : MigrationPlan) (k : nat)
    (ss : list PlanScenario) : Prop :=
  length (mp_rows p') = length (mp_rows p) ∧ mp_schemas p' = mp_schemas p ∧
  mp_blocked p' = mp_blocked p || existsb (λ s, Nat.ltb 0 (blocked_delta s)) ss ∧
  length (mp_blockers p') = length (mp_blockers p) + sum_list_with blocked_delta ss ∧
  (∀ j s, ss !! j = Some s → object_scenario w cm (k + j) s ∧ row_matches w p' (k + j) s ∧
     (row_fresh p (k + j) → side_matches w p' (k + j) s)) ∧
  (∀ i s, i < k → row_matches w p i s → row_matches w p' i s) ∧
  (∀ i s, i < k → side_matches w p i s → side_matches w p' i s).

Lemma diff_loop w cm m : ∀ k c p,
  diff_ready w → k + m = object_count w → length (mp_rows p) = object_count w →
  ∃ ss p', foldM (diff_object w cm) (c, p) (seq k m) = Ok (foldl count_scenario c ss, p') ∧
    length ss = m ∧ loop_done w cm p p' k ss.
Proof.
  induction m as [|m IH]; intros k c p Hw Hkm Hlen.
  { exists [], p. split; [done|]. split; [done|]. unfold loop_done. rewrite orb_false_r.
    cbn. split_and!; try done. }
  destruct (diff_object_step w cm c p k Hw) as (s & p1 & Hs & Hd & Hm & Hse & Hb & Hbl & Hf);
    [lia|done|].
  pose proof Hse as (Hl & Hsch & _ & _).
  destruct (IH (S k) (count_scenario c s) p1 Hw) as (ss & p' & Hfold & Hls & Hdone);
    [lia|by rewrite Hl|].
  destruct Hdone as (D1 & D2 & D3 & D4 & D5 & D6 & D7).
  exists (s :: ss), p'. cbn [seq foldM]. rewrite Hd. cbn [mbind outcome_bind].
  split; [exact Hfold|]. split; [cbn; by rewrite Hls|].
  pose proof (dr_small _ Hw) as Hsm. unfold loop_done. split_and!.
  - by rewrite D1.
  - by rewrite D2.
  - rewrite D3, Hb. cbn. by rewrite orb_assoc.
  - rewrite D4, Hbl. cbn. lia.
  - intros [|j] s' Hj; cbn in Hj.
    + injection Hj as <-. rewrite Nat.add_0_r. split_and!; [done|by apply D6; [lia|]|].
      intros Hfr. apply D7; [lia|]. by apply Hf.
    + rewrite Nat.add_succ_r. apply lookup_lt_Some in Hj as Hjl.
      destruct (D5 j s' Hj) as (H1 & H2 & H3). split_and!; [done|done|].
      intros Hfr. apply H3. eapply fresh_elsewhere; [exact Hse|lia| |exact Hfr].
      eapply as_u32_ne; [exact Hsm|lia..].
  - intros i s' Hi Hrm. apply D6; [lia|]. eapply row_matches_elsewhere; [exact Hse|lia|done].
  - intros i s' Hi Hsm'. apply D7; [lia|]. eapply side_elsewhere; [exact Hse| |done].
    eapply as_u32_ne; [exact Hsm|lia..].
Qed.

(** The counters are the sizes of the scenario classes. *)
Lemma count_scenarios c ss :
  let c' := foldl count_scenario c ss in
  dc_create c' = dc_create c + length (filter (λ s, counter_kind s = CkCreate) ss) ∧
  dc_adopt c' = dc_adopt c + length (filter (λ s, counter_kind s = CkAdopt) ss) ∧
  dc_skip c' = dc_skip c + length (filter (λ s, counter_kind s = CkSkip) ss) ∧
  dc_changed c' = dc_changed c + length (filter (λ s, counter_kind s = CkChanged) ss) ∧
  dc_blocked c' = dc_blocked c + sum_list_with blocked_delta ss.
Proof.
  revert c. induction ss as [|s ss IH]; intros c; cbn [foldl]; [cbn; lia|].
  destruct (IH (count_scenario c s)) as (H1 & H2 & H3 & H4 & H5). cbv zeta.
  rewrite H1, H2, H3, H4, H5, !filter_cons. destruct c as [cr ad sk ch bl].
  destruct s; repeat first [rewrite decide_True by done | rewrite decide_False by done];
    cbn [length sum_list_with]; cbn -[filter length sum_list_with]; split_and!; lia.
Qed.

Lemma counter_classes ss :
  length (filter (λ s, counter_kind s = CkCreate) ss)
  + length (filter (λ s, counter_kind s = CkAdopt) ss)
  + length (filter (λ s, counter_kind s = CkSkip) ss)
  + length (filter (λ s, counter_kind s = CkChanged) ss) = length ss.
Proof.
  induction ss as [|s ss IH]; [done|]. rewrite !filter_cons.
  destruct s; repeat first [rewrite decide_True by done | rewrite decide_False by done];
    cbn [length]; lia.
Qed.

(** The plan the object loop starts from. *)
Definition loop_start (w : Workspace) (catalog : CatalogState) (p : MigrationPlan)
    : MigrationPlan :=
  let p := p <| mp_blocked := false |> <| mp_blockers := [] |> in
  let p := ensure_plan_schemas (length (ws_schemas w)) (ensure_plan_rows (object_count w) p) in
  p <| mp_schemas ::= λ slots, zip_with (update_schema_slot catalog) slots (ws_schemas w) |>.

Lemma compute_diff_run w catalog cm p w' :
  prepare_diff w catalog cm = Ok w' → diff_ready w' →
  ∃ ss p1, compute_diff_into w catalog cm p =
      Ok (w', p1 <| mp_summary := summary_of w' (foldl count_scenario DiffCounters_default ss) |>) ∧
    length ss = object_count w' ∧ loop_done w' cm (loop_start w' catalog p) p1 0 ss.
Proof.
  intros Hprep Hw.
  destruct (diff_loop w' cm (object_count w') 0 DiffCounters_default (loop_start w' catalog p) Hw)
    as (ss & p1 & Hfold & Hls & Hdone); [done|cbn; apply length_resize|].
  exists ss, p1. unfold compute_diff_into. rewrite Hprep. cbn [mbind outcome_bind].
  fold (loop_start w' catalog p). rewrite Hfold. done.
Qed.

(** C9. The diff is total on a prepared workspace and plans every object from
    its own facts: row [i] carries the action of the scenario resolved for
    object [i], its existence flag and its file checksum; the plan is blocked
    exactly when some object's scenario is, with one blocker message per blocked
    object; and the four action counters partition the objects.  This holds
    whatever plan the diff starts from. *)
Theorem compute_diff_into_spec w catalog cm p w' :
  prepare_diff w catalog cm = Ok w' → diff_ready w' →
  ∃ p' ss, compute_diff_into w catalog cm p = Ok (w', p') ∧
    length ss = object_count w' ∧ length (mp_rows p') = object_count w' ∧
    (∀ i s, ss !! i = Some s → object_scenario w' cm i s ∧ row_matches w' p' i s) ∧
    (mp_blocked p' = true ↔ ∃ s, s ∈ ss ∧ blocked_delta s = 1) ∧
    length (mp_blockers p') = sum_blocked_count (mp_summary p') ∧
    sum_blocked_count (mp_summary p') = sum_list_with blocked_delta ss ∧
    sum_create_count (mp_summary p') + sum_adopt_count (mp_summary p')
      + sum_skip_count (mp_summary p') + sum_changed_count (mp_summary p')
      = sum_object_count (mp_summary p') ∧
    sum_object_count (mp_summary p') = object_count w' ∧
    sum_create_count (mp_summary p') = length (filter (λ s, counter_kind s = CkCreate) ss).
Proof.
  intros Hprep Hw.
  destruct (compute_diff_run w catalog cm p w' Hprep Hw) as (ss & p1 & Hrun & Hls & Hd).
  destruct Hd as (D1 & D2 & D3 & D4 & D5 & _ & _).
  destruct (count_scenarios DiffCounters_default ss) as (C1 & C2 & C3 & C4 & C5).
  cbv zeta in C1, C2, C3, C4, C5. pose proof (counter_classes ss) as Hcls.
  eexists _, ss. split; [exact Hrun|]. cbn [mp_summary upd summary_of
    sum_blocked_count sum_create_count sum_adopt_count sum_skip_count sum_changed_count
    sum_object_count]. split_and!.
  - done.
  - cbn. rewrite D1. cbn. apply length_resize.
  - intros i s Hi. destruct (D5 i s Hi) as (H1 & H2 & _). done.
  - cbn. rewrite D3. cbn. rewrite existsb_exists. split.
    + intros (s & Hin%list_elem_of_In & Hlt). exists s. split; [done|].
      by destruct (blocked_delta_01 s) as [E|E]; [rewrite E in Hlt|].
    + intros (s & Hin%list_elem_of_In & Heq). exists s. split; [done|]. by rewrite Heq.
  - cbn. rewrite D4, C5. done.
  - rewrite C5. done.
  - rewrite C1, C2, C3, C4. cbn [DiffCounters_default dc_create dc_adopt dc_skip dc_changed]. lia.
  - done.
  - rewrite C1. done.
Qed.

(** C30. A plan computed from scratch has exact side tables: row [i] lists git
    data iff its scenario records it and the script has some, and transition
    paths iff it reprocesses a table, namely the cached paths of that row. *)
Theorem compute_diff_side_tables w catalog cm w' :
  prepare_diff w catalog cm = Ok w' → diff_ready w' →
  ∃ p' ss, compute_diff w catalog cm = Ok (w', p') ∧ length ss = object_count w' ∧
    ∀ i s, ss !! i = Some s → object_scenario w' cm i s ∧ side_matches w' p' i s.
Proof.
  intros Hprep Hw.
  destruct (compute_diff_run w catalog cm MigrationPlan_default w' Hprep Hw)
    as (ss & p1 & Hrun & Hls & Hd).
  destruct Hd as (_ & _ & _ & _ & D5 & _ & _).
  eexists _, ss. split; [exact Hrun|]. split; [done|]. intros i s Hi.
  destruct (D5 i s Hi) as (H1 & _ & H3). split; [done|]. apply H3. split_and!; [|done|done].
  apply lookup_lt_Some in Hi. cbn. rewrite resize_nil.
  apply lookup_replicate. split; [done|]. by rewrite <-Hls.
Qed.

(** ** Loading the facts *)

(** A finalised workspace before any fact was loaded: aligned columns, path
    caches in place, and an index that points at rows. *)
Record layout_ready (w : Workspace) : Prop := {
  lr_keys : length (ws_object_keys w) = object_count w;
  lr_rows : length (ws_object_rows w) = object_count w;
  lr_small : (N.of_nat (object_count w) < u32_size)%N;
  lr_index : ∀ k id, ws_key_index w !! k = Some id → (id <= N.of_nat (object_count w))%N;
  lr_flags : catalog_applied w = false ∧ checksums_applied w = false;
  lr_clean : ws_parent_by_row w = ∅ ∧ ws_catalog_row w = [] ∧ ws_prior_by_row w = [];
  lr_paths : ws_object_path_cache w ≠ None;
  lr_tpaths : ws_transitions_by_row w = ∅ ∨ ws_transition_path_cache w ≠ None;
}.

Definition in_catalog (catalog : CatalogState) (key : object_key) : bool :=
  bool_decide (key_fingerprint key ∈ catalog_fps catalog).

(** The parent table the catalog names for a key. *)
Definition catalog_parent (w : Workspace) (catalog : CatalogState) (key : object_key)
    : option ParentRef :=
  parent ← cs_objects catalog !! key ≫= co_parent;
  Some (mk_ParentRef (key_index_of w (object_key_new (schema_part key) "tables" parent))).

Lemma in_catalog_spec catalog key :
  in_catalog catalog key = true ↔
    ∃ k, is_Some (cs_objects catalog !! k) ∧ key_fingerprint k = key_fingerprint key.
Proof.
  unfold in_catalog, catalog_fps. rewrite bool_decide_eq_true, elem_of_list_to_set.
  rewrite list_elem_of_fmap. split.
  - intros ([k o] & -> & Hin%elem_of_map_to_list). exists k. eauto.
  - intros (k & [o Ho] & Hfp). exists (k, o). split; [done|]. by apply elem_of_map_to_list.
Qed.

(** The workspace between two iterations of [apply_catalog]: the rows below [i]
    carry their facts, the others are untouched. *)
Record catalog_upto (w0 : Workspace) (catalog : CatalogState) (i : nat) (w : Workspace) : Prop := {
  cu_keys : ws_object_keys w = ws_object_keys w0;
  cu_rows : ws_object_rows w = ws_object_rows w0;
  cu_index : ws_key_index w = ws_key_index w0;
  cu_flags : ws_catalog_flags w = ws_catalog_flags w0;
  cu_priors : ws_prior_by_row w = ws_prior_by_row w0;
  cu_paths : ws_object_path_cache w = ws_object_path_cache w0 ∧
    ws_transition_path_cache w = ws_transition_path_cache w0 ∧
    ws_transitions_by_row w = ws_transitions_by_row w0 ∧
    ws_has_transition_paths_row w = ws_has_transition_paths_row w0;
  cu_entries : length (ws_object_entries w) = length (ws_object_entries w0);
  cu_cat_rows : length (ws_catalog_row w) = length (ws_object_entries w0);
  cu_entry : ∀ j o, ws_object_entries w0 !! j = Some o →
    ws_object_entries w !! j = Some (if decide (j < i)
      then match ws_object_keys w0 !! j with
           | Some k => set_db_exists (in_catalog catalog k) o
           | None => o
           end
      else o);
  cu_cat : ∀ j k, ws_object_keys w0 !! j = Some k →
    catalog_has_row w j = if decide (j < i) then in_catalog catalog k else false;
  cu_parent : ∀ j k, ws_object_keys w0 !! j = Some k →
    ws_parent_by_row w !! row_id_at j = if decide (j < i) then catalog_parent w0 catalog k else None;
  cu_parents : ∀ r pref, ws_parent_by_row w !! r = Some pref →
    ∃ j k, r = row_id_at j ∧ ws_object_keys w0 !! j = Some k ∧ catalog_parent w0 catalog k = Some pref;
}.

Lemma row_id_at_inj n i j :
  (N.of_nat n < u32_size)%N → i < n → j < n → row_id_at i = row_id_at j → i = j.
Proof. unfold row_id_at. intros ???. rewrite !as_u32_small by lia. lia. Qed.

Lemma catalog_has_row_set w l i j :
  i < length l →
  catalog_has_row (w <| ws_catalog_row := <[i := 1%N]> l |>) j =
    if decide (i = j) then true else catalog_has_row (w <| ws_catalog_row := l |>) j.
Proof.
  intros Hi. unfold catalog_has_row. cbn. destruct (decide (i = j)) as [<-|Hne].
  - by rewrite list_lookup_insert_eq.
  - by rewrite list_lookup_insert_ne.
Qed.

(** One row of [apply_catalog], as the three columns it writes. *)
Lemma apply_catalog_row_eq catalog w i key o :
  entry_key w i = Ok key → ws_object_entries w !! i = Some o → i < length (ws_catalog_row w) →
  apply_catalog_row catalog (catalog_fps catalog) w i = Ok (
    w <| ws_object_entries := <[i := set_db_exists (in_catalog catalog key) o]> (ws_object_entries w) |>
      <| ws_catalog_row := if in_catalog catalog key then <[i := 1%N]> (ws_catalog_row w)
                           else ws_catalog_row w |>
      <| ws_parent_by_row ::= λ m, match catalog_parent w catalog key with
                                   | Some p => <[row_id_at i := p]> m
                                   | None => m
                                   end |>).
Proof.
  intros Hk Ho Hi. unfold apply_catalog_row, catalog_parent. rewrite Hk. cbn [mbind outcome_bind].
  fold (in_catalog catalog key). unfold list_modify. rewrite Ho. cbn [mbind outcome_bind].
  destruct (in_catalog catalog key); [rewrite list_set_Ok by done|];
    cbn [mbind outcome_bind]; by destruct (cs_objects catalog !! key ≫= co_parent).
Qed.

Lemma apply_catalog_row_step w0 catalog i w :
  length (ws_object_keys w0) = length (ws_object_entries w0) →
  (N.of_nat (length (ws_object_entries w0)) < u32_size)%N →
  i < length (ws_object_entries w0) → catalog_upto w0 catalog i w →
  ∃ w1, apply_catalog_row catalog (catalog_fps catalog) w i = Ok w1 ∧ catalog_upto w0 catalog (S i) w1.
Proof.
  intros Hal Hsm Hi Hw.
  destruct (lookup_lt_is_Some_2 (ws_object_entries w0) i Hi) as [o Ho].
  destruct (lookup_lt_is_Some_2 (ws_object_keys w0) i) as [key Hkey]; [by rewrite Hal|].
  pose proof (cu_entry _ _ _ _ Hw i o Ho) as Hoi. rewrite decide_False in Hoi by lia.
  assert (entry_key w i = Ok key) as Hk.
  { rewrite entry_key_aligned by (rewrite (cu_entries _ _ _ _ Hw), ?(cu_keys _ _ _ _ Hw); lia).
    by rewrite (cu_keys _ _ _ _ Hw), Hkey. }
  eexists. split.
  { apply apply_catalog_row_eq; [done|done|]. by rewrite (cu_cat_rows _ _ _ _ Hw). }
  assert (catalog_parent w catalog key = catalog_parent w0 catalog key) as ->
    by (unfold catalog_parent, key_index_of; by rewrite (cu_index _ _ _ _ Hw)).
  destruct Hw as [H1 H2 H3 H4 H5 H6 H7 H8 H9 H10 H11 H12].
  split; try assumption; cbn -[catalog_has_row].
  - by rewrite length_insert.
  - destruct (in_catalog catalog key); by rewrite ?length_insert.
  - intros j oj Hj. destruct (decide (i = j)) as [<-|Hne].
    + rewrite list_lookup_insert_eq by (rewrite H7; done).
      rewrite decide_True, Hkey by lia. congruence.
    + rewrite list_lookup_insert_ne, (H9 j oj Hj) by done. do 2 case_decide; (done || lia).
  - intros j k Hj. specialize (H10 j k Hj). unfold catalog_has_row in *. cbn.
    destruct (decide (i = j)) as [<-|Hne].
    + rewrite decide_False in H10 by lia. rewrite decide_True by lia.
      assert (k = key) as -> by congruence.
      destruct (in_catalog catalog key); [|done].
      by rewrite list_lookup_insert_eq by (rewrite H8; done).
    + replace (decide (j < S i)) with (decide (j < S i)) by done.
      destruct (in_catalog catalog key); [rewrite list_lookup_insert_ne by done|];
        rewrite H10; do 2 case_decide; (done || lia).
  - intros j k Hj. pose proof (lookup_lt_Some _ _ _ Hj) as Hjl. rewrite Hal in Hjl.
    specialize (H11 j k Hj). destruct (decide (i = j)) as [<-|Hne].
    + rewrite decide_False in H11 by lia. rewrite decide_True by lia.
      assert (k = key) as -> by congruence.
      destruct (catalog_parent w0 catalog key); [by rewrite lookup_insert_eq|done].
    + assert (row_id_at i ≠ row_id_at j) as Hr
        by (intros E; apply Hne; by eapply row_id_at_inj).
      destruct (catalog_parent w0 catalog key); [rewrite lookup_insert_ne by done|];
        rewrite H11; do 2 case_decide; (done || lia).
  - intros r pref. destruct (catalog_parent w0 catalog key) as [p|] eqn:Hp; [|by apply H12].
    intros [[<- <-]|[_ Hr]]%lookup_insert_Some; [|by apply H12]. by exists i, key.
Qed.

Lemma apply_catalog_spec w catalog :
  layout_ready w →
  ∃ w1, apply_catalog w catalog = Ok w1 ∧ catalog_upto w catalog (object_count w) w1.
Proof.
  intros [Hk Hr Hs Hix Hf (Hc1 & Hc2 & Hc3) Hp Htp]. unfold apply_catalog.
  destruct (foldM_seq (catalog_upto w catalog) (apply_catalog_row catalog (catalog_fps catalog))
    (object_count w) 0 (w <| ws_catalog_row ::= resize (object_count w) 0%N |>)) as (w1 & Hf1 & Hw1).
  - split; try done; cbn -[catalog_has_row].
    + by rewrite length_resize.
    + intros j k Hj. unfold catalog_has_row. cbn. rewrite Hc2, resize_nil.
      apply lookup_lt_Some in Hj. rewrite Hk in Hj.
      by rewrite lookup_replicate_2.
    + intros j k _. by rewrite Hc1, lookup_empty.
    + intros r pref. by rewrite Hc1, lookup_empty.
  - intros i w1 Hi. apply apply_catalog_row_step; [done|done|]. unfold object_count in Hi. lia.
  - exists w1. done.
Qed.

(** The prior-checksum column after [i] rows. *)
Lemma apply_checksum_rows w cm :
  length (ws_object_keys w) = object_count w → length (ws_prior_by_row w) = object_count w →
  (∀ i x, ws_prior_by_row w !! i = Some x → x = None) →
  ∃ priors, foldM (apply_checksum_row cm) w (seq 0 (object_count w))
      = Ok (w <| ws_prior_by_row := priors |>) ∧
    length priors = object_count w ∧
    ∀ i k, ws_object_keys w !! i = Some k → priors !! i = Some (get_key cm k).
Proof.
  intros Hk Hl Hnone.
  destruct (foldM_seq (λ i w1, ∃ priors, w1 = w <| ws_prior_by_row := priors |> ∧
      length priors = object_count w ∧ ∀ j k, ws_object_keys w !! j = Some k →
        priors !! j = Some (if decide (j < i) then get_key cm k else None))
    (apply_checksum_row cm) (object_count w) 0 w) as (w1 & Hf & priors & -> & Hlp & Hpri).
  - exists (ws_prior_by_row w). split; [by destruct w|]. split; [done|]. intros j k Hj.
    apply lookup_lt_Some in Hj.
    destruct (lookup_lt_is_Some_2 (ws_prior_by_row w) j) as [x Hx]; [lia|].
    by rewrite Hx, (Hnone _ _ Hx).
  - intros i w1 Hi (priors & -> & Hlp & Hpri).
    destruct (lookup_lt_is_Some_2 (ws_object_keys w) i) as [key Hkey]; [lia|].
    unfold apply_checksum_row.
    change (entry_key (w <| ws_prior_by_row := priors |>) i) with (entry_key w i).
    rewrite entry_key_aligned, Hkey by (unfold object_count in *; lia). cbn [or_panic mbind outcome_bind].
    assert (∀ l, length l = object_count w →
      (∀ j k, ws_object_keys w !! j = Some k →
         l !! j = if decide (i = j) then Some (get_key cm key) else priors !! j) →
      ∀ j k, ws_object_keys w !! j = Some k →
        l !! j = Some (if decide (j < S i) then get_key cm k else None)) as Hstep.
    { intros l _ Hlk j k Hj. rewrite (Hlk j k Hj). destruct (decide (i = j)) as [<-|Hne].
      - rewrite decide_True by lia. by rewrite Hkey in Hj; injection Hj as <-.
      - rewrite (Hpri j k Hj). do 2 case_decide; (done || lia). }
    destruct (get_key cm key) as [cs|] eqn:Hcs.
    + cbn [ws_prior_by_row upd]. rewrite list_set_Ok by (cbn; lia). cbn [mbind outcome_bind].
      eexists. split; [done|]. exists (<[i := Some cs]> priors). split; [done|].
      split; [by rewrite length_insert|]. apply Hstep; [by rewrite length_insert|].
      intros j k Hj. destruct (decide (i = j)) as [<-|];
        [rewrite list_lookup_insert_eq; [done|lia]|by rewrite list_lookup_insert_ne].
    + eexists. split; [done|]. exists priors. split; [done|]. split; [done|].
      apply Hstep; [done|]. intros j k Hj. destruct (decide (i = j)) as [<-|]; [|done].
      rewrite (Hpri i k Hj), decide_False by lia. done.
  - exists priors. split; [exact Hf|]. split; [done|]. intros i k Hi.
    rewrite (Hpri i k Hi), decide_True; [done|]. apply lookup_lt_Some in Hi. lia.
Qed.

Lemma db_exists_set e o : db_exists (set_db_exists e o) = e.
Proof.
  unfold db_exists, set_db_exists. destruct e; cbn.
  - by rewrite flag_test_set.
  - by rewrite flag_test_clear.
Qed.

Lemma ensure_path_caches_noop w :
  ws_object_path_cache w ≠ None →
  (ws_transitions_by_row w = ∅ ∨ ws_transition_path_cache w ≠ None) →
  ensure_path_caches w = Ok w.
Proof.
  intros Hp Htp. unfold ensure_path_caches.
  rewrite (bool_decide_eq_false_2 _ Hp), andb_false_r.
  destruct Htp as [-> |Htp]; [done|]. by rewrite (bool_decide_eq_false_2 _ Htp), andb_false_r.
Qed.

Lemma aligned_not_finalized w :
  length (ws_object_rows w) = object_count w → needs_finalize w = false.
Proof.
  unfold needs_finalize, object_count. intros Hr. rewrite Hr, Nat.eqb_refl, orb_false_r.
  destruct (ws_object_entries w); [done|]. by destruct (ws_object_rows w).
Qed.

(** Preparing a finalised workspace loads exactly the database's facts: an
    object exists iff its key is in the inspected catalog, its prior checksum is
    the one recorded for its key, its parent table is the row of the table the
    catalog names, and its file checksum, kind and key are left alone; and the
    diff is then defined on the result. *)
Theorem prepare_diff_spec w catalog cm :
  layout_ready w →
  ∃ w', prepare_diff w catalog cm = Ok w' ∧ diff_ready w' ∧
    ws_object_keys w' = ws_object_keys w ∧ ws_object_rows w' = ws_object_rows w ∧
    ∀ i key o, ws_object_keys w !! i = Some key → ws_object_entries w !! i = Some o →
      (∃ o', ws_object_entries w' !! i = Some o' ∧ db_exists o' = in_catalog catalog key ∧
         oe_checksum o' = oe_checksum o) ∧
      ws_prior_by_row w' !! i = Some (get_key cm key) ∧
      catalog_has_row w' i = in_catalog catalog key ∧
      ws_parent_by_row w' !! row_id_at i = catalog_parent w catalog key.
Proof.
  intros Hw. pose proof Hw as [Hk Hr Hs Hix [Hf1 Hf2] (Hc1 & Hc2 & Hc3) Hp Htp].
  unfold prepare_diff. rewrite aligned_not_finalized by done.
  cbn [mbind outcome_bind]. unfold apply_catalog_if_needed. rewrite Hf1.
  destruct (apply_catalog_spec w catalog Hw) as (w1 & -> & Hu). cbn [mbind outcome_bind].
  set (n := object_count w) in *. destruct Hu as [U1 U2 U3 U4 U5 U6 U7 U8 U9 U10 U11 U12].
  unfold apply_checksums_if_needed.
  replace (checksums_applied (mark_catalog_applied w1)) with false; cycle 1.
  { symmetry. unfold checksums_applied, mark_catalog_applied in *. cbn. rewrite U4.
    by rewrite N.land_lor_distr_l, N.lor_0_r. }
  set (w2 := mark_catalog_applied w1 <| ws_prior_by_row ::= resize _ None |>).
  destruct (apply_checksum_rows w2 cm) as (priors & Hfold & Hlp & Hpri).
  { cbn. by rewrite U1, U7. }
  { cbn. by rewrite length_resize. }
  { cbn. rewrite U5, Hc3, resize_nil. intros i x Hx. by apply lookup_replicate in Hx as [-> _]. }
  change (object_count (mark_catalog_applied w1)) with (object_count w2).
  rewrite Hfold. cbn [mbind outcome_bind].
  set (w3 := mark_checksums_applied _). destruct U6 as (P1 & P2 & P3 & P4).
  assert (ensure_path_caches w3 = Ok w3) as ->.
  { apply ensure_path_caches_noop; [exact (eq_ind_r (.≠ None) Hp P1)|].
    destruct Htp as [Htp|Htp]; [left; exact (eq_trans P3 Htp)|right].
    exact (eq_ind_r (.≠ None) Htp P2). }
  exists w3. split; [done|]. assert (object_count w3 = n) as Hn by (unfold n; exact U7).
  split; [|split; [exact U1|split; [exact U2|]]].
  - split; rewrite ?Hn; [exact (eq_trans (f_equal length U1) Hk)| | |done|].
    + exact (eq_trans (f_equal length U2) Hr).
    + rewrite <-Hn. exact Hlp.
    + intros r pref (j & k & _ & _ & Hcp)%U12. unfold catalog_parent in Hcp.
      destruct (cs_objects catalog !! k ≫= co_parent) as [parent|]; [|done].
      injection Hcp as <-. cbn. unfold key_index_of.
      destruct (ws_key_index w !! _) as [id|] eqn:Hid; cbn; [by eapply Hix|lia].
  - intros i key o Hi Ho. pose proof (lookup_lt_Some _ _ _ Ho) as Hil.
    split_and!.
    + eexists. split; [exact (U9 i o Ho)|]. rewrite decide_True, Hi by done.
      split; [apply db_exists_set|]. by destruct (in_catalog catalog key).
    + change (priors !! i = Some (get_key cm key)). apply Hpri. cbn. by rewrite U1.
    + pose proof (U10 i key Hi) as E. by rewrite decide_True in E.
    + pose proof (U11 i key Hi) as E. by rewrite decide_True in E.
Qed.
End diff_facts.

(** ** Evaluated on a small repository *)

#[local] Existing Instances Concrete.unicode Concrete.fingerprint Concrete.map_order
  Concrete.hex.

(** The diff fills rows; it never makes objects. *)
Lemma compute_diff_no_objects `{HU : Unicode} `{HF : Fingerprint} `{HM : MapOrder} w catalog cm w' p : compute_diff w catalog cm = Ok (w', p) → mp_objects p = [].
Proof.
  unfold compute_diff, compute_diff_into. intros (w1 & _ & H)%outcome_bind_Ok.
  apply outcome_bind_Ok in H as ([c p1] & Hf & [= _ <-]). cbn.
  refine (foldM_inv (λ st : DiffCounters * MigrationPlan, mp_objects st.2 = []) _ _ _ (c, p1) _ _ Hf);
    [reflexivity|].
  intros [c0 p0] i [c2 p2] _ Hp. unfold diff_object.
  intros (row & _ & ([[d c3] p3] & Hd & (p4 & Hfill & [= _ <-])%outcome_bind_Ok)%outcome_bind_Ok)%outcome_bind_Ok.
  cbn [fst snd] in *.
  assert (mp_objects p3 = []) as H3.
  { unfold decide_object_at in Hd.
    apply outcome_bind_Ok in Hd as (sc & _ & (obj & _ & ([a b] & _ & [= _ _ <-])%outcome_bind_Ok)%outcome_bind_Ok).
    destruct (Nat.ltb _ _); exact Hp. }
  unfold fill_plan_row in Hfill.
  apply outcome_bind_Ok in Hfill as (r0 & _ & (o & _ & H)%outcome_bind_Ok).
  destruct (skip_fill_unchanged o r0 d); injection H as <-; done.
Qed.

Module DiffSample.
Definition d (n : N) : digest := of_bytes (n :: replicate 31 0%N).

Definition script (path : string) (cs : digest) : Script :=
  mk_Script path SkObject ("/r/" +:+ path) (Some cs).

(** A table, a trigger on it and a view, scanned, interned and cached. *)
Definition scanned : M Workspace :=
  '(w, db) ← intern_database "A" Workspace_default;
  '(w, t) ← insert_script (script "A/dbo/tables/t.sql" (d 1)) w;
  '(w, tr) ← insert_script (script "A/dbo/triggers/tr.sql" (d 2)) w;
  '(w, v) ← insert_script (script "A/dbo/views/v.sql" (d 3)) w;
  w ← push_object "dbo/tables/t" (mk_ObjectEntry (d 1) StrOff_EMPTY t db 0) w;
  w ← push_object "dbo/triggers/tr" (mk_ObjectEntry (d 2) StrOff_EMPTY tr db 0) w;
  w ← push_object "dbo/views/v" (mk_ObjectEntry (d 3) StrOff_EMPTY v db 0) w;
  w ← finalize_object_layout w;
  w ← intern_workspace_strings w;
  rebuild_path_caches w.

Definition w : Workspace := match scanned with Ok w => w | _ => Workspace_default end.

(** The table and the trigger exist in the database; both were edited. *)
Definition catalog : CatalogState :=
  mk_CatalogState {[ "dbo" ]}
    {[ "dbo/tables/t" := catalog_object "dbo" "tables" "t" None;
       "dbo/triggers/tr" := catalog_object "dbo" "triggers" "tr" (Some "t") ]}.

Definition checksums : ChecksumMap :=
  insert_key "dbo/tables/t" (d 9) (insert_key "dbo/triggers/tr" (d 9) ChecksumMap_new).

Definition w' : Workspace :=
  match prepare_diff w catalog checksums with Ok w' => w' | _ => Workspace_default end.

Lemma w_ready : layout_ready w.
Proof.
  split; try (vm_compute; reflexivity).
  - change (map_Forall (λ _ id, (id <= N.of_nat (object_count w))%N) (ws_key_index w)).
    apply (bool_decide_unpack _). by vm_compute.
  - split; vm_compute; reflexivity.
  - split_and!; vm_compute; reflexivity.
  - intros E. by vm_compute in E.
  - left. by vm_compute.
Qed.

Lemma w'_ready : prepare_diff w catalog checksums = Ok w' ∧ diff_ready w'.
Proof.
  split; [by vm_compute|]. split; try (vm_compute; reflexivity).
  change (map_Forall (λ _ pref, (parent_row_id pref <= N.of_nat (object_count w'))%N)
            (ws_parent_by_row w')).
  apply (bool_decide_unpack _). by vm_compute.
Qed.

(** The plan: the edited table has no migration, so it blocks; the trigger is
    updated in place; the view is created. *)
Example planned_actions :
  (x ← compute_diff w catalog checksums;
   Ok (map planned_action (mp_rows x.2), mp_blocked x.2, mp_blockers x.2)) =
  Ok ([ReprocessChangedBlocked; UpdateExistingModule; CreateObject], true,
      ["table dbo/tables/t changed but has no non-scaffold transition scripts"]).
Proof. by vm_compute. Qed.

(** Re-running the diff into the plan it produced, after a second migration was
    added to a table whose row did not change otherwise. *)
Definition changed_table (offs : list StrOff) : Workspace :=
  w' <| ws_has_transition_paths_row := [1%N] |>
     <| ws_transitions_by_row := {[ 1%N := [] ]} |>
     <| ws_transition_path_cache := Some {[ 1%N := offs ]} |>.

Definition one : list StrOff := [mk_StrOff 0 1].
Definition two : list StrOff := [mk_StrOff 0 1; mk_StrOff 1 1].
End DiffSample.

Lemma warmed_plan_keeps_stale_transitions :
  (x ← compute_diff (DiffSample.changed_table DiffSample.one) DiffSample.catalog
         DiffSample.checksums;
   y ← compute_diff_into (DiffSample.changed_table DiffSample.two) DiffSample.catalog
         DiffSample.checksums x.2;
   Ok (mp_plan_transitions y.2 !! 0%N)) = Ok (Some DiffSample.one).
Proof. by vm_compute. Qed.

Lemma compute_diff_into_spec_witness :
  ∃ p' ss, compute_diff_into DiffSample.w DiffSample.catalog DiffSample.checksums
      MigrationPlan_default = Ok (DiffSample.w', p') ∧
    length ss = object_count DiffSample.w' ∧ length (mp_rows p') = object_count DiffSample.w' ∧
    (∀ i s, ss !! i = Some s →
       object_scenario DiffSample.w' DiffSample.checksums i s ∧ row_matches DiffSample.w' p' i s) ∧
    (mp_blocked p' = true ↔ ∃ s, s ∈ ss ∧ blocked_delta s = 1) ∧
    length (mp_blockers p') = sum_blocked_count (mp_summary p') ∧
    sum_blocked_count (mp_summary p') = sum_list_with blocked_delta ss ∧
    sum_create_count (mp_summary p') + sum_adopt_count (mp_summary p')
      + sum_skip_count (mp_summary p') + sum_changed_count (mp_summary p')
      = sum_object_count (mp_summary p') ∧
    sum_object_count (mp_summary p') = object_count DiffSample.w' ∧
    sum_create_count (mp_summary p') = length (filter (λ s, counter_kind s = CkCreate) ss).
Proof.
  destruct DiffSample.w'_ready as [Hp Hr].
  exact (compute_diff_into_spec DiffSample.w DiffSample.catalog DiffSample.checksums
           MigrationPlan_default DiffSample.w' Hp Hr).
Defined.

Lemma compute_diff_side_tables_witness :
  ∃ p' ss, compute_diff DiffSample.w DiffSample.catalog DiffSample.checksums
      = Ok (DiffSample.w', p') ∧ length ss = object_count DiffSample.w' ∧
    ∀ i s, ss !! i = Some s → object_scenario DiffSample.w' DiffSample.checksums i s ∧
      side_matches DiffSample.w' p' i s.
Proof.
  destruct DiffSample.w'_ready as [Hp Hr].
  exact (compute_diff_side_tables DiffSample.w DiffSample.catalog DiffSample.checksums
           DiffSample.w' Hp Hr).
Defined.

Lemma prepare_diff_spec_witness :
  let w := DiffSample.w in
  ∃ w', prepare_diff w DiffSample.catalog DiffSample.checksums = Ok w' ∧ diff_ready w' ∧
    ws_object_keys w' = ws_object_keys w ∧ ws_object_rows w' = ws_object_rows w ∧
    ∀ i key o, ws_object_keys w !! i = Some key → ws_object_entries w !! i = Some o →
      (∃ o', ws_object_entries w' !! i = Some o' ∧
         db_exists o' = in_catalog DiffSample.catalog key ∧ oe_checksum o' = oe_checksum o) ∧
      ws_prior_by_row w' !! i = Some (get_key DiffSample.checksums key) ∧
      catalog_has_row w' i = in_catalog DiffSample.catalog key ∧
      ws_parent_by_row w' !! row_id_at i = catalog_parent w DiffSample.catalog key.
Proof.
  exact (prepare_diff_spec DiffSample.w DiffSample.catalog DiffSample.checksums
           DiffSample.w_ready).
Defined.
