(* ===== verification/Effects.v ===== *)
(** * Talking to the server ([driver/timing.rs], [driver/db_client.rs], [sql/mod.rs])

    The program acts on the world through one SQL connection, the file system and
    a few process-wide caches.  [IO] threads that state; the server itself is an
    interface: [World] says only that a statement gets a reply, and [TxServer]
    adds what SQL Server documents about transactions, as laws on four
    observations (open transactions, rows of the history table committed and not
    yet committed).  [RefServer] is a server that satisfies the laws. *)

From S2P Require Export Config Plan Timings.
From Stdlib Require Import Ascii.
From Stdlib Require String.

(** ** Statements

    A batch that is put together from the constants of [sql/mod.rs]: a constant
    by name, the scope header with its parameters renumbered, or literal text. *)
Inductive Piece : Type :=
| Const (name : string)
| Renumbered (name : string)
| Lit (text : string).
#[global] Instance Piece_eq_dec : EqDecision Piece.
Proof. solve_decision. Defined.

(**
    The constants of [sql/mod.rs] that are sent on their own, by name, and text
    that is put together at run time: repository scripts and generated DDL. *)
Inductive Stmt : Type :=
| BOOTSTRAP_TABLES | BOOTSTRAP_INDEX | BOOTSTRAP_DRIFT
| HISTORY_EMPTY | HISTORY_EXISTS | LOAD_CHECKSUMS | INSERT_HISTORY | LOAD_ALL_MIGRATIONS
| CACHE_LOAD | CACHE_LOAD_RELAXED | CACHE_INVALIDATE
| BEGIN_TX | ASSERT_OPEN_TX | COMMIT_TX | ROLLBACK | ROLLBACK_IF_OPEN
| LOCK_ACQUIRE | LOCK_RELEASE | LOCK_RELEASE_IF_HELD
| SCOPED_HIT | INDEX_PARENTS | COLUMNS_OPENJSON | CACHE_SAVE_BATCH
| Batch (sql : list Piece)
| Text (sql : string).
#[global] Instance Stmt_eq_dec : EqDecision Stmt.
Proof. solve_decision. Defined.

(** A statement with its parameters, and the result sets of a reply. *)
Abbreviation request := (Stmt * list string)%type (only parsing).
Abbreviation result_sets := (list (list RowData)) (only parsing).

(** ** The world

    [w_sql bound stmt params w]: the reply, or [None] when [bound] nanoseconds
    have passed; a bound of zero waits for ever. *)
Class World (W : Type) := {
  w_sql : N → Stmt → list string → W → W * option (Error + result_sets);
  w_read_file : W → string → Error + string;
  w_is_dir : W → string → bool;
  w_remove_dir_all : string → W → W * option Error;
  w_unbounded stmt params w : (w_sql 0 stmt params w).2 ≠ None;
}.

(** [IoProfile], without the elapsed times. *)
Record IoProfile := mk_IoProfile { io_query_calls : N; io_exec_calls : N }.

(** [warm_snapshot.rs]: plan state kept between runs of one process. *)
Record WarmSnapshot := mk_WarmSnapshot {
  wsn_server_database : string;
  wsn_digest : digest;
  wsn_checksums : ChecksumMap;
  wsn_catalog : CatalogState;
}.

(** The connection ([TimingConn]: the client is gone once a call timed out), the
    process-wide caches (audit probes, inspected catalogs, the warm snapshot), and
    the log of statements that were sent. *)
Record St (W : Type) := mk_St {
  st_world : W;
  st_client : bool;
  st_timeout : N;
  st_io : IoProfile;
  st_ensured : gset string;
  st_history_empty : gmap string bool;
  st_inspect : gmap string CatalogState;
  st_warm : option WarmSnapshot;
  st_log : list request;
}.
Arguments mk_St {W}.
Arguments st_world {W} _.
Arguments st_client {W} _.
Arguments st_timeout {W} _.
Arguments st_io {W} _.
Arguments st_ensured {W} _.
Arguments st_history_empty {W} _.
Arguments st_inspect {W} _.
Arguments st_warm {W} _.
Arguments st_log {W} _.

(** ** The monad of effectful computations *)

Definition IO (W A : Type) : Type := St W → M A * St W.

Section io.
Context {W : Type}.

#[global] Instance io_ret : MRet (IO W) := λ A a s, (Ok a, s).
#[global] Instance io_bind : MBind (IO W) := λ A B f m s,
  match m s with
  | (Ok a, s) => f a s
  | (Err e, s) => (Err e, s)
  | (Panic, s) => (Panic, s)
  end.
#[global] Instance io_fmap : FMap (IO W) := λ A B f m s,
  match m s with
  | (Ok a, s) => (Ok (f a), s)
  | (Err e, s) => (Err e, s)
  | (Panic, s) => (Panic, s)
  end.

Definition lift {A} (m : M A) : IO W A := λ s, (m, s).
Definition get_st : IO W (St W) := λ s, (Ok s, s).
Definition modify_st (f : St W → St W) : IO W unit := λ s, (Ok tt, f s).

(** [match m.await]: a panic is not caught. *)
Definition attempt {A} (m : IO W A) : IO W (Error + A) := λ s,
  match m s with
  | (Ok a, s) => (Ok (inr a), s)
  | (Err e, s) => (Ok (inl e), s)
  | (Panic, s) => (Panic, s)
  end.

Context `{HW : World W}.

(** [std::fs::read] and [read_to_string] as seen from here. *)
Definition read_file (path : string) : IO W (Error + string) := λ s,
  (Ok (w_read_file (st_world s) path), s).

(** [Path::join]. *)
Definition path_join (root sub : string) : string :=
  if starts_with "/" sub || String.eqb root "" then sub
  else if ends_with "/" root then root +:+ sub else root +:+ "/" +:+ sub.

(** [L1Cache::invalidate_all]. *)
Definition l1_invalidate_all (root fp : string) : IO W unit := λ s,
  let dir := path_join root fp in
  if w_is_dir (st_world s) dir then
    let '(w, e) := w_remove_dir_all dir (st_world s) in
    (match e with Some e => Err e | None => Ok tt end,
     mk_St w (st_client s) (st_timeout s) (st_io s) (st_ensured s) (st_history_empty s)
    (st_inspect s) (st_warm s) (st_log s))
  else (Ok tt, s).

Definition set_world (w : W) (s : St W) : St W :=
  mk_St w (st_client s) (st_timeout s) (st_io s) (st_ensured s) (st_history_empty s)
    (st_inspect s) (st_warm s) (st_log s).
Definition set_client (b : bool) (s : St W) : St W :=
  mk_St (st_world s) b (st_timeout s) (st_io s) (st_ensured s) (st_history_empty s)
    (st_inspect s) (st_warm s) (st_log s).
Definition set_io (io : IoProfile) (s : St W) : St W :=
  mk_St (st_world s) (st_client s) (st_timeout s) io (st_ensured s) (st_history_empty s)
    (st_inspect s) (st_warm s) (st_log s).
Definition set_caches (en : gset string) (he : gmap string bool) (s : St W) : St W :=
  mk_St (st_world s) (st_client s) (st_timeout s) (st_io s) en he (st_inspect s) (st_warm s)
    (st_log s).
Definition set_inspect (m : gmap string CatalogState) (s : St W) : St W :=
  mk_St (st_world s) (st_client s) (st_timeout s) (st_io s) (st_ensured s) (st_history_empty s)
    m (st_warm s) (st_log s).
Definition set_warm (o : option WarmSnapshot) (s : St W) : St W :=
  mk_St (st_world s) (st_client s) (st_timeout s) (st_io s) (st_ensured s) (st_history_empty s)
    (st_inspect s) o (st_log s).
Definition log_request (r : request) (s : St W) : St W :=
  mk_St (st_world s) (st_client s) (st_timeout s) (st_io s) (st_ensured s) (st_history_empty s)
    (st_inspect s) (st_warm s) (st_log s ++ [r]).

Definition UNAVAILABLE : string := "TimingConn client is temporarily unavailable".
Definition timeout_message (op : string) (timeout : N) : string :=
  op +:+ " timed out after " +:+ duration_debug timeout.

(** One statement on the raw client: [client_mut()?] and then the call. *)
Definition send (bound : N) (stmt : Stmt) (params : list string)
    : IO W (option (Error + result_sets)) := λ s,
  if st_client s then
    let '(w, r) := w_sql bound stmt params (st_world s) in
    (Ok r, set_world w (log_request (stmt, params) s))
  else (Err (Sql UNAVAILABLE), s).

(** A call on the raw client, with no bound around it. *)
Definition client_call (stmt : Stmt) (params : list string) : IO W result_sets :=
  r ← send 0 stmt params;
  match r with
  | Some (inr rows) => mret rows
  | Some (inl e) => lift (Err e)
  | None => lift Panic
  end.

(** [run_bounded] and [timeout_err]. *)
Definition bounded_call (op : string) (stmt : Stmt) (params : list string) : IO W result_sets := λ s,
  (r ← send (st_timeout s) stmt params;
   match r with
   | Some (inr rows) => mret rows
   | Some (inl e) => lift (Err e)
   | None => modify_st (set_client false);; lift (Err (Sql (timeout_message op (st_timeout s))))
   end) s.

Definition count_exec (io : IoProfile) : IoProfile :=
  mk_IoProfile (io_query_calls io) (io_exec_calls io + 1).
Definition count_query (io : IoProfile) : IoProfile :=
  mk_IoProfile (io_query_calls io + 1) (io_exec_calls io).

(** Calls are counted whether they succeed or not, but not when there is no client. *)
Definition counted {A} (count : IoProfile → IoProfile) (m : IO W A) : IO W A := λ s,
  if st_client s then
    let '(r, s') := m s in (r, set_io (count (st_io s')) s')
  else m s.

Definition exec (stmt : Stmt) : IO W unit :=
  counted count_exec (bounded_call "exec" stmt []);; mret tt.
Definition query_all (stmt : Stmt) (params : list string) : IO W result_sets :=
  counted count_query (bounded_call "query" stmt params).
Definition first_set (r : result_sets) : list RowData := default [] (head r).
Definition query (stmt : Stmt) (params : list string) : IO W (list RowData) :=
  first_set <$> query_all stmt params.

(** ** Process-wide audit caches ([audit/load/cache.rs]) *)

Definition tables_ensured (fp : string) (s : St W) : bool := bool_decide (fp ∈ st_ensured s).
Definition history_empty_cached (fp : string) (s : St W) : option bool := st_history_empty s !! fp.
Definition history_known_empty (fp : string) (s : St W) : bool :=
  default false (history_empty_cached fp s).
Definition history_known_nonempty (fp : string) (s : St W) : bool :=
  bool_decide (history_empty_cached fp s = Some false).

Definition mark_tables_ensured (fp : string) (s : St W) : St W :=
  set_caches ({[fp]} ∪ st_ensured s) (st_history_empty s) s.
Definition cache_history_empty (fp : string) (empty : bool) (s : St W) : St W :=
  set_caches (st_ensured s) (<[fp := empty]> (st_history_empty s)) s.
Definition invalidate_audit_cache (fp : string) (s : St W) : St W :=
  set_caches (st_ensured s) (delete fp (st_history_empty s)) s.
Definition invalidate_audit_cache_all (fp : string) (s : St W) : St W :=
  let s := invalidate_audit_cache fp s in
  set_caches (st_ensured s ∖ {[fp]}) (st_history_empty s) s.

(** ** Audit tables ([audit/load/bootstrap.rs], [audit/history.rs]) *)

(** Both statements run on the raw client, outside the command timeout. *)
Definition ensure_tables (fp : string) : IO W unit :=
  client_call BOOTSTRAP_TABLES [];;
  client_call BOOTSTRAP_DRIFT [];;
  modify_st (mark_tables_ensured fp).

Definition probe_audit_tables_exist : IO W bool :=
  rows ← query HISTORY_EXISTS [];
  mret (negb (default 0%Z (head rows ≫= λ r, get_i32 r 0) =? 0)%Z).

Definition sync_tables_ensured (fp : string) : IO W unit :=
  ex ← probe_audit_tables_exist;
  if ex : bool then modify_st (mark_tables_ensured fp)
  else
    s ← get_st;
    if tables_ensured fp s then modify_st (invalidate_audit_cache_all fp) else mret tt.

Definition ensure_history_index : IO W unit := exec BOOTSTRAP_INDEX.
End io.

(** [serde_json::to_string] of history records, with the parser the server applies. *)
Class HistoryJson := {
  json_of_records : list HistoryRecord → string;
  records_of_json : string → option (list HistoryRecord);
  records_of_json_of_records l : records_of_json (json_of_records l) = Some l;
}.

Section history.
Context {W : Type} `{HW : World W} `{HJ : HistoryJson}.

Definition flush_history (records : list HistoryRecord) : IO W unit :=
  if bool_decide (records = []) then mret tt
  else query INSERT_HISTORY [json_of_records records];; mret tt.

(** [load_all_applied] on the raw client. *)
Definition load_all_applied : IO W (gmap string string) :=
  applied_from_rows ∘ first_set <$> client_call LOAD_ALL_MIGRATIONS [].

(** [db::invalidate]: marks the catalog cache stale. *)
Definition invalidate_catalog `{Unicode} (enabled : bool) : IO W unit :=
  if negb enabled then mret tt
  else
    r ← attempt (exec CACHE_INVALIDATE);
    match r with
    | inr tt => mret tt
    | inl e => if missing_catalog_table e then mret tt else lift (Err e)
    end.
End history.

(** ** SQL Server's transactions

    Observations of a server through this session: the number of open
    transactions, the rows of the history table that are committed, and those
    inserted by the open transaction.  The laws are about single statements; a
    reply of [None] leaves open whether the statement took effect.  Repository
    scripts may open, commit or roll back transactions as they like, but they do
    not write the history table (its schema is reserved for the tool). *)

Definition ok_reply (r : option (Error + result_sets)) : Prop :=
  match r with Some (inr _) => True | _ => False end.

Class TxServer (W : Type) `{HW : World W} `{HJ : HistoryJson} := {
  trancount : W → nat;
  history : W → list HistoryRecord;
  uncommitted : W → list HistoryRecord;

  tx_begin b w w' r : w_sql b BEGIN_TX [] w = (w', r) → uncommitted w = [] →
    history w' = history w ∧ uncommitted w' = [] ∧
    (ok_reply r → trancount w' = S (trancount w));
  tx_text b sql w w' r : w_sql b (Text sql) [] w = (w', r) → uncommitted w = [] →
    history w' = history w ∧ uncommitted w' = [];
  tx_assert b w w' r : w_sql b ASSERT_OPEN_TX [] w = (w', r) → uncommitted w = [] →
    history w' = history w ∧ uncommitted w' = [] ∧
    (ok_reply r → trancount w' = 1);
  tx_insert b l w w' r : w_sql b INSERT_HISTORY [json_of_records l] w = (w', r) →
    0 < trancount w →
    history w' = history w ∧
    (ok_reply r → uncommitted w' = uncommitted w ++ l ∧ trancount w' = trancount w);
  tx_insert_auto b l w w' r : w_sql b INSERT_HISTORY [json_of_records l] w = (w', r) →
    trancount w = 0 → uncommitted w = [] →
    uncommitted w' = [] ∧ trancount w' = 0 ∧
    match r with
    | Some (inr _) => history w' = history w ++ l
    | Some (inl _) => history w' = history w
    | None => history w' = history w ∨ history w' = history w ++ l
    end;
  tx_commit b w w' r : w_sql b COMMIT_TX [] w = (w', r) → trancount w = 1 →
    match r with
    | Some (inr _) => history w' = history w ++ uncommitted w ∧ uncommitted w' = [] ∧
                      trancount w' = 0
    | Some (inl _) => history w' = history w
    | None => history w' = history w ∨ history w' = history w ++ uncommitted w
    end;
  tx_rollback b w w' r : w_sql b ROLLBACK [] w = (w', r) →
    history w' = history w ∧ (ok_reply r → uncommitted w' = [] ∧ trancount w' = 0);
}.

(** ** What each step does to the log, the client and the server *)

Section steps.
Context {W : Type} `{HW : World W} `{HJ : HistoryJson}.

(** The state after sending [r] and getting the reply [w', o] with a client. *)
Definition sent (r : request) (w' : W) (dropped : bool) (count : IoProfile → IoProfile)
    (s : St W) : St W :=
  mk_St w' (negb dropped) (st_timeout s) (count (st_io s)) (st_ensured s) (st_history_empty s)
    (st_inspect s) (st_warm s) (st_log s ++ [r]).

Definition reply_result (op : string) (timeout : N) (o : option (Error + result_sets))
    : M result_sets :=
  match o with
  | Some (inr rows) => Ok rows
  | Some (inl e) => Err e
  | None => Err (Sql (timeout_message op timeout))
  end.

Lemma counted_call count op stmt params s :
  counted (W:=W) count (bounded_call op stmt params) s =
  if st_client s then
    let '(w', o) := w_sql (st_timeout s) stmt params (st_world s) in
    (reply_result op (st_timeout s) o,
     sent (stmt, params) w' (match o with None => true | _ => false end) count s)
  else (Err (Sql UNAVAILABLE), s).
Proof.
  unfold counted, bounded_call, send, mbind, io_bind. destruct (st_client s) eqn:E; [|done].
  destruct (w_sql _ _ _ _) as [w' [[e|rows]|]]; unfold sent, set_io, set_client, set_world; cbn;
    by rewrite ?E.
Qed.

Lemma exec_step stmt s :
  exec (W:=W) stmt s =
  if st_client s then
    let '(w', o) := w_sql (st_timeout s) stmt [] (st_world s) in
    ((λ _, tt) <$> reply_result "exec" (st_timeout s) o,
     sent (stmt, []) w' (match o with None => true | _ => false end) count_exec s)
  else (Err (Sql UNAVAILABLE), s).
Proof.
  unfold exec. unfold mbind at 1, io_bind. rewrite counted_call. destruct (st_client s); [|done].
  by destruct (w_sql _ _ _ _) as [w' [[e|rows]|]].
Qed.

Lemma query_step stmt params s :
  query (W:=W) stmt params s =
  if st_client s then
    let '(w', o) := w_sql (st_timeout s) stmt params (st_world s) in
    (first_set <$> reply_result "query" (st_timeout s) o,
     sent (stmt, params) w' (match o with None => true | _ => false end) count_query s)
  else (Err (Sql UNAVAILABLE), s).
Proof.
  unfold query, query_all. unfold fmap at 1, io_fmap. rewrite counted_call.
  destruct (st_client s); [|done]. by destruct (w_sql _ _ _ _) as [w' [[e|rows]|]].
Qed.
End steps.

(** ** Inversion *)

Section inversion.
Context {W A B : Type}.

Lemma io_bind_Ok (m : IO W A) (f : A → IO W B) s b s' :
  (m ≫= f) s = (Ok b, s') → ∃ a s1, m s = (Ok a, s1) ∧ f a s1 = (Ok b, s').
Proof. unfold mbind, io_bind. destruct (m s) as [[a| |] s1]; try done. intros. by exists a, s1. Qed.

Lemma lift_val (m : M A) (s : St W) a s' : lift m s = (Ok a, s') → m = Ok a.
Proof. by intros [= ? _]. Qed.

Lemma io_fmap_Ok (f : A → B) (m : IO W A) s b s' :
  (f <$> m) s = (Ok b, s') → ∃ a, m s = (Ok a, s') ∧ b = f a.
Proof.
  unfold fmap, io_fmap. destruct (m s) as [[a| |] s1]; try done. intros [= <- <-]. by exists a.
Qed.
End inversion.

(** ** Which statements a computation sends *)

Section emits.
Context {W : Type} `{HW : World W} `{HJ : HistoryJson}.

(** Whatever it starts from and however it ends, [m] adds to the log only
    requests that satisfy [P]. *)
Definition emits {A} (P : request → Prop) (m : IO W A) : Prop :=
  ∀ s, ∃ l, st_log (m s).2 = st_log s ++ l ∧ Forall P l.

Lemma emits_pure {A} P (m : IO W A) : (∀ s, st_log (m s).2 = st_log s) → emits P m.
Proof. intros H s. exists []. by rewrite H, app_nil_r. Qed.

Lemma emits_ret {A} P (a : A) : emits P (mret a).
Proof. by apply emits_pure. Qed.

Lemma emits_lift {A} P (m : M A) : emits P (lift m).
Proof. by apply emits_pure. Qed.

(** The continuation may rely on what [m] can return. *)
Lemma emits_bind_val {A B} P (R : A → Prop) (m : IO W A) (f : A → IO W B) :
  emits P m → (∀ s a s', m s = (Ok a, s') → R a) → (∀ a, R a → emits P (f a)) →
  emits P (m ≫= f).
Proof.
  intros Hm HR Hf s. unfold mbind, io_bind. destruct (Hm s) as (l & Hl & Hp).
  destruct (m s) as [[a|e|] s1] eqn:E; cbn in *; [|by exists l..].
  destruct (Hf a (HR _ _ _ E) s1) as (l' & Hl' & Hp'). exists (l ++ l').
  rewrite Hl', Hl, app_assoc. split; [done|by apply Forall_app_2].
Qed.

Lemma emits_bind {A B} P (m : IO W A) (f : A → IO W B) :
  emits P m → (∀ a, emits P (f a)) → emits P (m ≫= f).
Proof.
  intros Hm Hf. apply (emits_bind_val P (λ _, True)); auto.
Qed.

Lemma emits_fmap {A B} P (f : A → B) (m : IO W A) : emits P m → emits P (f <$> m).
Proof.
  intros Hm s. unfold fmap, io_fmap. destruct (Hm s) as (l & ?).
  destruct (m s) as [[]]; by exists l.
Qed.

Lemma emits_attempt {A} P (m : IO W A) : emits P m → emits P (attempt m).
Proof. intros Hm s. unfold attempt. destruct (Hm s) as (l & ?). destruct (m s) as [[]]; by exists l. Qed.

Lemma emits_impl {A} (P Q : request → Prop) (m : IO W A) :
  (∀ x, P x → Q x) → emits P m → emits Q m.
Proof.
  intros HPQ Hm s. destruct (Hm s) as (l & ? & Hp). exists l. split; [done|].
  by eapply Forall_impl.
Qed.

Lemma emits_exec (P : request → Prop) stmt : P (stmt, []) → emits P (exec stmt).
Proof.
  intros HP s. rewrite exec_step. destruct (st_client s); [|by exists []; rewrite app_nil_r].
  destruct (w_sql _ _ _ _) as [w' o]. exists [(stmt, [])]. auto.
Qed.

Lemma emits_query (P : request → Prop) stmt params : P (stmt, params) → emits P (query stmt params).
Proof.
  intros HP s. rewrite query_step. destruct (st_client s); [|by exists []; rewrite app_nil_r].
  destruct (w_sql _ _ _ _) as [w' o]. exists [(stmt, params)]. auto.
Qed.

Lemma emits_client_call (P : request → Prop) stmt params :
  P (stmt, params) → emits P (client_call stmt params).
Proof.
  intros HP. apply emits_bind.
  - intros s. unfold send. destruct (st_client s); [|by exists []; rewrite app_nil_r].
    destruct (w_sql _ _ _ _) as [w' o]. exists [(stmt, params)]. auto.
  - intros [[]|]; auto using emits_lift, emits_ret.
Qed.

Lemma emits_read_file P path : emits P (read_file path).
Proof. by apply emits_pure. Qed.
Lemma emits_get P : emits P get_st.
Proof. by apply emits_pure. Qed.
Lemma emits_l1_invalidate P root fp : emits P (l1_invalidate_all root fp).
Proof.
  apply emits_pure. intros s. unfold l1_invalidate_all. destruct (w_is_dir _ _); [|done].
  by destruct (w_remove_dir_all _ _).
Qed.
Lemma emits_caches P (f : St W → gset string) (g : St W → gmap string bool) :
  emits P (modify_st (λ s, set_caches (f s) (g s) s)).
Proof. by apply emits_pure. Qed.

Lemma emits_flush_history (P : request → Prop) records :
  P (INSERT_HISTORY, [json_of_records records]) → emits P (flush_history records).
Proof.
  intros HP. unfold flush_history. case_bool_decide; [apply emits_ret|].
  apply emits_bind; [by apply emits_query|]. intros. apply emits_ret.
Qed.

Lemma emits_ensure_tables (P : request → Prop) fp :
  P (BOOTSTRAP_TABLES, []) → P (BOOTSTRAP_DRIFT, []) → emits P (ensure_tables fp).
Proof.
  intros H1 H2. apply emits_bind; [by apply emits_client_call|]. intros _.
  apply emits_bind; [by apply emits_client_call|]. intros _. by apply emits_pure.
Qed.

Lemma emits_invalidate_catalog `{Unicode} (P : request → Prop) b :
  P (CACHE_INVALIDATE, []) → emits P (invalidate_catalog b).
Proof.
  intros HP. unfold invalidate_catalog. destruct b; [|apply emits_ret].
  apply emits_bind; [by apply emits_attempt, emits_exec|]. intros [e|[]]; [|apply emits_ret].
  case_match; auto using emits_lift, emits_ret.
Qed.
End emits.

Create HintDb emits.
#[export] Hint Resolve emits_ret emits_lift emits_read_file emits_get emits_l1_invalidate
  emits_caches emits_attempt emits_exec emits_query emits_client_call emits_flush_history
  emits_ensure_tables emits_invalidate_catalog emits_fmap : emits.

(** Splits a computation at its binds and conditionals. *)
Ltac emits_step :=
  lazymatch goal with
  | |- emits _ (_ ≫= _) => apply emits_bind; [|intros ?]
  | |- emits _ (_ <$> _) => apply emits_fmap
  | |- emits _ (let '(_, _) := ?x in _) => destruct x
  | |- emits _ (match ?x with _ => _ end) => destruct x
  | |- emits _ _ => solve [eauto with emits]
  end.

(** ** A server that satisfies the laws

    Its only tables are the history; a script is a list of words of which
    [COMMIT], [ROLLBACK] and [FAIL] act, and [faults] lists by position the
    statements that are to fail or to time out. *)
Module RefServer.
Inductive Fault := FaultError | FaultTimeout.
Record Server := mk_Server {
  srv_trancount : nat;
  srv_history : list HistoryRecord;
  srv_uncommitted : list HistoryRecord;
  srv_faults : list (option Fault);
  srv_files : gmap string string;
  srv_lock : bool;
}.

Definition ok_empty : option (Error + result_sets) := Some (inr []).
Definition err (m : string) : option (Error + result_sets) := Some (inl (Sql m)).
Definition set_tx (n : nat) (h u : list HistoryRecord) (w : Server) : Server :=
  mk_Server n h u (srv_faults w) (srv_files w) (srv_lock w).
Definition code_row (c : string) : option (Error + result_sets) :=
  Some (inr [[[CStr c]]]).

Section run.
Context `{HJ : HistoryJson}.

Definition perform (stmt : Stmt) (params : list string) (w : Server)
    : Server * option (Error + result_sets) :=
  let n := srv_trancount w in
  let h := srv_history w in
  let u := srv_uncommitted w in
  match stmt with
  | BEGIN_TX => (set_tx (S n) h u w, ok_empty)
  | ASSERT_OPEN_TX =>
      if Nat.eqb n 1 then (w, ok_empty) else (w, err "altered the executor transaction")
  | COMMIT_TX =>
      match n with
      | 0 => (w, err "no transaction")
      | 1 => (set_tx 0 (h ++ u) [] w, ok_empty)
      | S n => (set_tx n h u w, ok_empty)
      end
  | ROLLBACK | ROLLBACK_IF_OPEN => (set_tx 0 h [] w, ok_empty)
  | INSERT_HISTORY =>
      match params with
      | [p] => match records_of_json p with
               | Some l => if Nat.eqb n 0 then (set_tx 0 (h ++ l) u w, ok_empty)
                           else (set_tx n h (u ++ l) w, ok_empty)
               | None => (w, err "malformed payload")
               end
      | _ => (w, err "one parameter expected")
      end
  | HISTORY_EXISTS => (w, code_row "1")
  | LOCK_ACQUIRE => if srv_lock w then (w, code_row "-1")
                    else (mk_Server n h u (srv_faults w) (srv_files w) true, code_row "0")
  | LOCK_RELEASE => (mk_Server n h u (srv_faults w) (srv_files w) false, code_row "0")
  | Text sql =>
      if contains_str "COMMIT" sql then (set_tx (n - 1) (if Nat.eqb n 1 then h ++ u else h)
                                           (if Nat.eqb n 1 then [] else u) w, ok_empty)
      else if contains_str "FAIL" sql then (w, err "script failed")
      else (w, ok_empty)
  | _ => (w, ok_empty)
  end.

Definition run (bound : N) (stmt : Stmt) (params : list string) (w : Server)
    : Server * option (Error + result_sets) :=
  match srv_faults w with
  | [] => perform stmt params w
  | f :: fs =>
      let w := mk_Server (srv_trancount w) (srv_history w) (srv_uncommitted w) fs
                 (srv_files w) (srv_lock w) in
      match f with
      | Some FaultError => (w, err "server error")
      | Some FaultTimeout => if (bound =? 0)%N then (w, err "server error") else (w, None)
      | None => perform stmt params w
      end
  end.

Definition read (w : Server) (path : string) : Error + string :=
  match srv_files w !! path with Some t => inr t | None => inl (Io "no such file") end.

#[global] Program Instance world : World Server := {
  w_sql := run;
  w_read_file := read;
  w_is_dir _ _ := false;
  w_remove_dir_all _ w := (w, None);
}.
Next Obligation.
  intros stmt params w. unfold run, perform, code_row, err, ok_empty. by repeat case_match.
Qed.

Lemma run_perform (P : Server → option (Error + result_sets) → Prop) b stmt params w w' r :
  run b stmt params w = (w', r) →
  (∀ w0, srv_trancount w0 = srv_trancount w → srv_history w0 = srv_history w →
         srv_uncommitted w0 = srv_uncommitted w →
     P w0 None ∧ (∀ e, P w0 (Some (inl e))) ∧
     P (perform stmt params w0).1 (perform stmt params w0).2) →
  P w' r.
Proof.
  unfold run. intros H HP.
  destruct (srv_faults w) as [|[[]|] fs] eqn:Ef.
  - destruct (HP w) as (_ & _ & Hp); [done..|]. by rewrite H in Hp.
  - injection H as <- <-. by apply HP.
  - destruct (b =? 0)%N; injection H as <- <-; by apply HP.
  - match type of H with perform _ _ ?w0 = _ => destruct (HP w0) as (_ & _ & Hp); [done..|] end.
    by rewrite H in Hp.
Qed.

#[global] Program Instance tx_server : TxServer Server := {
  trancount := srv_trancount;
  history := srv_history;
  uncommitted := srv_uncommitted;
}.
Next Obligation.
  intros b w w' r H Hu. pattern w', r. eapply run_perform; [exact H|].
  intros w0 Hn Hh Hw. cbn. by rewrite Hn, Hh, Hw.
Qed.
Next Obligation.
  intros b sql w w' r H Hu. pattern w', r. eapply run_perform; [exact H|].
  intros w0 Hn Hh Hw. cbn. rewrite Hu in Hw.
  repeat case_match; cbn; rewrite ?Hw, ?Hh, ?app_nil_r; by repeat case_match.
Qed.
Next Obligation.
  intros b w w' r H Hu. pattern w', r. eapply run_perform; [exact H|].
  intros w0 Hn Hh Hw. cbn. rewrite Hu in Hw.
  destruct (Nat.eqb_spec (srv_trancount w0) 1); cbn; by rewrite ?Hw, ?Hh.
Qed.
Next Obligation.
  intros b l w w' r H Hn. pattern w', r. eapply run_perform; [exact H|].
  intros w0 Hn0 Hh Hw. cbn. rewrite records_of_json_of_records.
  destruct (Nat.eqb_spec (srv_trancount w0) 0); [lia|]. cbn. by rewrite Hn0, Hw, Hh.
Qed.
Next Obligation.
  intros b l w w' r H Hn Hu. pattern w', r. eapply run_perform; [exact H|].
  intros w0 Hn0 Hh Hw. cbn. rewrite records_of_json_of_records.
  rewrite Hn0, Hn, Hh, Hw, Hu. cbn. repeat split; auto.
Qed.
Next Obligation.
  intros b w w' r H Hn. pattern w', r. eapply run_perform; [exact H|].
  intros w0 Hn0 Hh Hw. cbn. rewrite Hn0, Hn, Hh, Hw. cbn. repeat split; auto.
Qed.
Next Obligation.
  intros b w w' r H. pattern w', r. eapply run_perform; [exact H|].
  intros w0 Hn0 Hh Hw. cbn. by rewrite Hh.
Qed.
End run.

(** A payload format: the records' code as a binary numeral. *)
Definition record_tuple (r : HistoryRecord) :=
  (hr_normalized_key r, hr_kind r, hr_checksum r, hr_git_hash r, hr_git_author r, hr_git_date r,
   hr_event r, hr_error_text r).
Definition tuple_record (t : string * string * string * string * string * string * string * string)
    : HistoryRecord :=
  let '(a, b, c, d, e, f, g, h) := t in mk_HistoryRecord a b c d e f g h.

Fixpoint pos_string (p : positive) : string :=
  match p with
  | xH => ""
  | xO p => String "0" (pos_string p)
  | xI p => String "1" (pos_string p)
  end.
Fixpoint string_pos (s : string) : positive :=
  match s with
  | EmptyString => xH
  | String c s => if bool_decide (c = "0"%char) then xO (string_pos s) else xI (string_pos s)
  end.
Lemma string_pos_string p : string_pos (pos_string p) = p.
Proof. induction p; cbn; by f_equal. Qed.

#[global] Program Instance json : HistoryJson := {
  json_of_records l := pos_string (encode (map record_tuple l));
  records_of_json s := map tuple_record <$> decode (string_pos s);
}.
Next Obligation.
  intros l. cbn. rewrite string_pos_string, decode_encode. cbn. f_equal.
  induction l as [|[] l IH]; [done|]. cbn. by rewrite IH.
Qed.

Definition start (files : list (string * string)) (faults : list (option Fault)) (timeout : N)
    : St Server :=
  mk_St (mk_Server 0 [] [] faults (list_to_map files) false) true timeout (mk_IoProfile 0 0) ∅ ∅ ∅ None [].
End RefServer.
