(* ===== verification/Apply.v ===== *)
(** * Applying a plan ([apply/*.rs])

    Scripts run one at a time, each in its own transaction together with the
    history rows that record it.  The result accumulator [ApplyResult] is passed
    along; a failure is an entry of it, and [finish] turns it into an error. *)

From S2P Require Export Effects.
From Stdlib Require Import Ascii.
From Stdlib Require String.

(** ** The accumulator ([result.rs]) *)

Record ApplyResult := mk_ApplyResult {
  ar_applied : nat;
  ar_skipped : nat;
  ar_failed : nat;
  ar_errors : list string;
  ar_wrote_history : bool;
}.
#[global] Instance ApplyResult_eta : Settable ApplyResult := λ r,
  mk_ApplyResult (ar_applied r) (ar_skipped r) (ar_failed r) (ar_errors r) (ar_wrote_history r).
Definition ApplyResult_default : ApplyResult := mk_ApplyResult 0 0 0 [] false.

Definition push_error (msg : string) (r : ApplyResult) : ApplyResult :=
  r <| ar_failed ::= S |> <| ar_errors ::= λ l, l ++ [msg] |>.
Definition push_errors (msgs : list string) (r : ApplyResult) : ApplyResult :=
  foldl (λ r m, push_error m r) r msgs.

(** ** Order of a batch ([kind.rs]) *)

(** The lexicographic order on [(kind_rank, normalized_key)]. *)
Definition batch_leb (a b : PlannedObject) : bool :=
  let ra := kind_rank (po_kind a) in
  let rb := kind_rank (po_kind b) in
  (ra <? rb)%Z || ((ra =? rb)%Z && String.leb (po_normalized_key a) (po_normalized_key b)).
Definition sort_tx_batch (batch : list PlannedObject) : list PlannedObject :=
  sort_by batch_leb batch.

(** ** Scripts of the workspace *)

Definition script_by_key (w : Workspace) (key : script_key) : option N := ws_script_key_index w !! key.

Fixpoint find_map {A B} (f : A → option B) (l : list A) : option B :=
  match l with
  | [] => None
  | x :: l => match f x with Some b => Some b | None => find_map f l end
  end.

Definition script_by_path (ws : Workspace) (database path : string) : option N :=
  find_map (λ p, script_by_key ws (script_key_from_path p)) (path_lookup_candidates database path).

Section apply.
Context {W : Type} `{HW : World W} `{HJ : HistoryJson}.
Context `{HU : Unicode} `{HS : Sha256} `{HX : Hex}.

(** [scripts_iter().find(..)]. *)
Fixpoint find_script_from (ws : Workspace) (key : string) (ids : list N) : M (option N) :=
  match ids with
  | [] => Ok None
  | id :: ids =>
      path ← script_path_str ws id;
      match object_key_parse path with
      | Some k => if String.eqb k key then Ok (Some id) else find_script_from ws key ids
      | None => find_script_from ws key ids
      end
  end.

Definition script_ids (ws : Workspace) : list N :=
  map row_id_at (seq 0 (length (ws_script_rows ws))).

Definition find_script (ws : Workspace) (obj : PlannedObject) : M (option N) :=
  match script_by_path ws (po_database_name obj) (po_object_path obj) with
  | Some id => Ok (Some id)
  | None => find_script_from ws (po_normalized_key obj) (script_ids ws)
  end.

(** ** Reading a script again ([script_read.rs]) *)

Definition verified_body (path : string) (expected : digest) (label : string)
    : IO W (string + string) :=
  data ← read_file path;
  mret match data with
  | inl e => inl (label +:+ ": read failed: " +:+ error_fmt e)
  | inr data =>
      if negb (String.eqb (content_checksum data) expected) then
        inl (label +:+ ": file changed after scan; aborting before execution")
      else if valid_utf8 data then inr data
      else inl (label +:+ ": script is not valid UTF-8")
  end.

Definition read_script (ws : Workspace) (obj : PlannedObject) : IO W (string + string) :=
  script ← lift (find_script ws obj);
  match script with
  | None => mret (inl (po_normalized_key obj +:+ ": script not found"))
  | Some id =>
      let expected := default (po_checksum obj) (script_checksum ws id) in
      path ← lift (script_abs_path ws id);
      verified_body path expected (po_normalized_key obj)
  end.

(** ** History ([history_write.rs], [table_records.rs]) *)

Definition commit_history (records : list HistoryRecord) (result : ApplyResult)
    : IO W (bool * ApplyResult) :=
  if bool_decide (records = []) then mret (true, result)
  else
    r ← attempt (flush_history records);
    mret match r with
    | inr _ => (true, result <| ar_wrote_history := true |>)
    | inl e => (false, push_error ("history write failed: " +:+ error_fmt e) result)
    end.

Definition rollback (result : ApplyResult) (label err : string) : IO W ApplyResult :=
  r ← attempt (exec ROLLBACK);
  let result := match r with
                | inl re => push_error (label +:+ ": rollback failed: " +:+ error_fmt re) result
                | inr _ => result
                end in
  mret (push_error (label +:+ ": " +:+ err) result).

(** One step of [apply_in_tx]: on an error, roll back and return [false]. *)
Definition tx_step (m : IO W unit) (wrap : string) (result : ApplyResult) (label : string)
    (next : IO W (bool * ApplyResult)) : IO W (bool * ApplyResult) :=
  r ← attempt m;
  match r with
  | inl e => result ← rollback result label (wrap +:+ error_fmt e); mret (false, result)
  | inr _ => next
  end.

Definition apply_in_tx (body : string) (records : list HistoryRecord) (result : ApplyResult)
    (label : string) : IO W (bool * ApplyResult) :=
  tx_step (exec BEGIN_TX) "" result label
  (tx_step (exec (Text body)) "" result label
  (tx_step (exec ASSERT_OPEN_TX) "" result label
  (tx_step (if bool_decide (records = []) then mret tt else flush_history records)
     "history write failed: " result label
  (tx_step (exec COMMIT_TX) "commit failed: " result label
  (mret (true, result <| ar_wrote_history := true |>)))))).

Definition object_record (event : string) (obj : PlannedObject) : HistoryRecord :=
  record_event (po_normalized_key obj) (po_checksum obj) (po_git_hash obj) (po_git_author obj)
    (po_git_date obj) "object" event.

(** The closure over the paths of a freshly created table's past transitions. *)
Definition past_transition_record (ws : Workspace) (obj : PlannedObject) (off : StrOff)
    : M HistoryRecord :=
  path ← ws_str_at ws off;
  let script := script_by_path ws (po_database_name obj) path in
  let cs := default (po_checksum obj) (script ≫= script_checksum ws) in
  match script with
  | Some id =>
      hash ← git_hash ws id;
      author ← git_author ws id;
      date ← git_date ws id;
      Ok (record_event path cs hash author date "migration" "applied")
  | None => Ok (record_event path cs (po_git_hash obj) (po_git_author obj) (po_git_date obj)
                  "migration" "applied")
  end.

Definition create_table_transition_records (ws : Workspace) (obj : PlannedObject)
    : M (list HistoryRecord) :=
  if negb (String.eqb (po_kind obj) "tables") then Ok []
  else
    let row_id := key_index_of ws (po_normalized_key obj) in
    match ws_transition_path_cache ws ≫= λ m, m !! row_id with
    | None => Ok []
    | Some paths => traverse (past_transition_record ws obj) paths
    end.

(** ** One object ([objects_exec.rs]) *)

Definition object_records (ws : Workspace) (obj : PlannedObject) : M (list HistoryRecord) :=
  let recs := [object_record "applied" obj] in
  if bool_decide (po_planned_action obj = CreateObject) then
    (λ l, recs ++ l) <$> create_table_transition_records ws obj
  else Ok recs.

Definition count_applied (r : bool * ApplyResult) : ApplyResult :=
  if r.1 then r.2 <| ar_applied ::= S |> else r.2.

Definition exec_object (ws : Workspace) (obj : PlannedObject) (result : ApplyResult)
    : IO W ApplyResult :=
  body ← read_script ws obj;
  match body with
  | inl msg => mret (push_error msg result)
  | inr body =>
      recs ← lift (object_records ws obj);
      count_applied <$> apply_in_tx body recs result (po_normalized_key obj)
  end.

(** ** Table transitions ([transitions.rs]) *)

Definition transition_records (ws : Workspace) (obj : PlannedObject) (path : string) (id : N)
    (cs : digest) (is_last : bool) : M (list HistoryRecord) :=
  hash ← git_hash ws id;
  author ← git_author ws id;
  date ← git_date ws id;
  let recs := [record_event path cs hash author date "migration" "applied"] in
  Ok (if is_last then recs ++ [object_record "applied" obj] else recs).

Definition apply_one_transition (ws : Workspace) (obj : PlannedObject) (path : string)
    (is_last : bool) (result : ApplyResult) : IO W ApplyResult :=
  match script_by_path ws (po_database_name obj) path with
  | None => mret (push_error (path +:+ ": transition script not found") result)
  | Some id =>
      let cs := default (po_checksum obj) (script_checksum ws id) in
      abs ← lift (script_abs_path ws id);
      body ← verified_body abs cs path;
      match body with
      | inl msg => mret (push_error msg result)
      | inr body =>
          recs ← lift (transition_records ws obj path id cs is_last);
          count_applied <$> apply_in_tx body recs result path
      end
  end.

(** The inner loop; the last path is the one with nothing after it. *)
Fixpoint apply_object_transitions (ws : Workspace) (obj : PlannedObject) (paths : list string)
    (result : ApplyResult) : IO W ApplyResult :=
  match paths with
  | [] => mret result
  | path :: rest =>
      result ← apply_one_transition ws obj path (bool_decide (rest = [])) result;
      if Nat.ltb 0 (ar_failed result) then mret result
      else apply_object_transitions ws obj rest result
  end.

Definition has_transitions_to_run (obj : PlannedObject) : bool :=
  bool_decide (po_planned_action obj = ReprocessChanged)
  && negb (bool_decide (po_transition_paths obj = [])).

Fixpoint apply_transitions (ws : Workspace) (objects : list PlannedObject) (result : ApplyResult)
    : IO W ApplyResult :=
  match objects with
  | [] => mret result
  | obj :: rest =>
      if negb (has_transitions_to_run obj) then apply_transitions ws rest result
      else
        result ← apply_object_transitions ws obj (po_transition_paths obj) result;
        if Nat.ltb 0 (ar_failed result) then mret result else apply_transitions ws rest result
  end.

(** ** Schemas ([schemas.rs]) *)

Fixpoint apply_schemas (schemas : list PlannedSchema) (result : ApplyResult) : IO W ApplyResult :=
  match schemas with
  | [] => mret result
  | s :: rest =>
      if negb (bool_decide (ps_action s = CreateSchema)) then
        apply_schemas rest (result <| ar_skipped ::= S |>)
      else
        match build_create_schema_sql (ps_schema_name s) with
        | Ok q =>
            r ← attempt (exec (Text q));
            match r with
            | inl e => mret (push_error ("schema " +:+ ps_schema_name s +:+ ": " +:+ error_fmt e) result)
            | inr _ => apply_schemas rest (result <| ar_applied ::= S |>)
            end
        | Err e => mret (push_error ("invalid schema name " +:+ ps_schema_name s +:+ ": "
                                     +:+ error_fmt e) result)
        | Panic => lift Panic
        end
  end.

(** ** Modules ([modules.rs]) *)

(** One turn of the [while] loop ends early on a failed rollback, or after trying
    every pending module. *)
Inductive Sweep : Type :=
| SweepAborted (result : ApplyResult)
| SweepDone (next : list PlannedObject) (progress : bool) (final_errors : list string)
    (result : ApplyResult).

Definition mentions_rollback (e : string) : bool := contains_str "rollback failed" e.

Fixpoint module_sweep (ws : Workspace) (pending next : list PlannedObject) (progress : bool)
    (final_errors : list string) (result : ApplyResult) : IO W Sweep :=
  match pending with
  | [] => mret (SweepDone next progress final_errors result)
  | obj :: rest =>
      let failed := ar_failed result in
      let n := length (ar_errors result) in
      result ← exec_object ws obj result;
      if Nat.eqb (ar_failed result) failed then module_sweep ws rest next true final_errors result
      else
        let errors := drop n (ar_errors result) in
        let result := result <| ar_errors := take n (ar_errors result) |> <| ar_failed := failed |> in
        if existsb mentions_rollback errors then mret (SweepAborted (push_errors errors result))
        else
          let e := default (po_normalized_key obj +:+ ": module apply failed") (last errors) in
          module_sweep ws rest (next ++ [obj]) progress (final_errors ++ [e]) result
  end.

(** The loop, for at most [fuel] turns; [None] when they do not suffice. *)
Fixpoint apply_modules_fuel (fuel : nat) (ws : Workspace) (pending : list PlannedObject)
    (result : ApplyResult) : IO W (option ApplyResult) :=
  match pending with
  | [] => mret (Some result)
  | _ =>
      match fuel with
      | 0 => mret None
      | S fuel =>
          sweep ← module_sweep ws pending [] false [] result;
          match sweep with
          | SweepAborted result => mret (Some result)
          | SweepDone next progress final_errors result =>
              if negb progress then mret (Some (push_errors final_errors result))
              else apply_modules_fuel fuel ws next result
          end
      end
  end.

(** Every turn but the last one applies a module, so their number is enough. *)
Definition apply_modules (ws : Workspace) (pending : list PlannedObject) (result : ApplyResult)
    : IO W ApplyResult :=
  r ← apply_modules_fuel (length pending) ws pending result;
  match r with Some result => mret result | None => lift Panic end.

(** ** Objects ([objects.rs]) *)

Definition adopt_record (obj : PlannedObject) : HistoryRecord := object_record "adopted" obj.

Definition should_apply (obj : PlannedObject) : bool :=
  match po_planned_action obj with CreateObject | UpdateExistingModule => true | _ => false end.
Definition should_count_skip (obj : PlannedObject) : bool :=
  match po_planned_action obj with
  | SkipUnchanged | ReprocessChanged | ReprocessChangedBlocked => true
  | _ => false
  end.

(** A changed object that nothing can bring up to date. *)
Definition cannot_apply (obj : PlannedObject) : bool :=
  bool_decide (po_planned_action obj = ReprocessChanged)
  && bool_decide (po_transition_paths obj = []) && negb (String.eqb (po_kind obj) "tables").

Record Batches := mk_Batches {
  ba_tx : list PlannedObject;
  ba_modules : list PlannedObject;
  ba_adopt : list HistoryRecord;
}.

(** The classification loop: [inl] when it fails closed. *)
Fixpoint classify (objects : list PlannedObject) (b : Batches) (result : ApplyResult)
    : ApplyResult + (Batches * ApplyResult) :=
  match objects with
  | [] => inr (b, result)
  | obj :: rest =>
      if bool_decide (po_planned_action obj = AdoptExisting) then
        classify rest (mk_Batches (ba_tx b) (ba_modules b) (ba_adopt b ++ [adopt_record obj]))
          (result <| ar_skipped ::= S |>)
      else if cannot_apply obj then
        inl (push_error (po_normalized_key obj
          +:+ ": changed object cannot be auto-applied (no transition script)") result)
      else if should_apply obj then
        if is_transactional_kind (po_kind obj)
        then classify rest (mk_Batches (ba_tx b ++ [obj]) (ba_modules b) (ba_adopt b)) result
        else classify rest (mk_Batches (ba_tx b) (ba_modules b ++ [obj]) (ba_adopt b)) result
      else if should_count_skip obj then classify rest b (result <| ar_skipped ::= S |>)
      else classify rest b result
  end.

Fixpoint exec_batch (ws : Workspace) (batch : list PlannedObject) (result : ApplyResult)
    : IO W ApplyResult :=
  match batch with
  | [] => mret result
  | obj :: rest =>
      result ← exec_object ws obj result;
      if Nat.ltb 0 (ar_failed result) then mret result else exec_batch ws rest result
  end.

Definition flush_tx (ws : Workspace) (batch : list PlannedObject) (result : ApplyResult)
    : IO W ApplyResult :=
  exec_batch ws (sort_tx_batch batch) result.

Definition apply_objects (ws : Workspace) (objects : list PlannedObject) (result : ApplyResult)
    : IO W ApplyResult :=
  match classify objects (mk_Batches [] [] []) result with
  | inl result => mret result
  | inr (b, result) =>
      '(ok, result) ← commit_history (ba_adopt b) result;
      if negb ok then mret result
      else
        result ← flush_tx ws (ba_tx b) result;
        if Nat.ltb 0 (ar_failed result) then mret result
        else apply_modules ws (sort_tx_batch (ba_modules b)) result
  end.

(** ** The whole plan ([mod.rs]) *)

Definition config_fingerprint (cfg : Config.Config) : string :=
  db_fingerprint (cfg_server cfg) (cfg_port cfg) (cfg_user cfg) (cfg_database cfg).

Definition finish (cfg : Config.Config) (result : ApplyResult) : IO W ApplyResult :=
  let fp := config_fingerprint cfg in
  (if ar_wrote_history result
   then modify_st (λ s, cache_history_empty fp false (invalidate_audit_cache fp s))
   else mret tt);;
  (if Nat.ltb 0 (ar_applied result) then
     attempt (invalidate_catalog (cfg_catalog_cache cfg));;
     attempt (l1_invalidate_all (cfg_l1_cache_dir cfg) fp);;
     mret tt
   else mret tt);;
  if Nat.ltb 0 (ar_failed result) then lift (Err (Sql (str_join "; " (ar_errors result))))
  else mret result.

Definition execute_plan (cfg : Config.Config) (ws : Workspace) (plan : MigrationPlan)
    : IO W (ApplyResult * MigrationPlan) :=
  if mp_blocked plan then lift (Err PlanBlocked)
  else
    plan ← lift (ensure_objects_materialized ws plan);
    let result := ApplyResult_default in
    ensure_tables (config_fingerprint cfg);;
    ensure_history_index;;
    result ← apply_schemas (mp_schemas plan) result;
    if Nat.ltb 0 (ar_failed result) then (λ r, (r, plan)) <$> finish cfg result
    else
      result ← apply_transitions ws (mp_objects plan) result;
      if Nat.ltb 0 (ar_failed result) then (λ r, (r, plan)) <$> finish cfg result
      else
        result ← apply_objects ws (mp_objects plan) result;
        (λ r, (r, plan)) <$> finish cfg result.

(** ** Audit metadata only ([metadata.rs]) *)

Inductive MetadataMode : Type := Baseline | RepairChecksum.
#[global] Instance MetadataMode_eq_dec : EqDecision MetadataMode.
Proof. solve_decision. Defined.

Definition repair_record (obj : PlannedObject) : HistoryRecord := object_record "applied" obj.

Definition metadata_record (mode : MetadataMode) (obj : PlannedObject) : option HistoryRecord :=
  match po_planned_action obj with
  | AdoptExisting => Some (adopt_record obj)
  | UpdateExistingModule | ReprocessChanged | ReprocessChangedBlocked | Fail =>
      if bool_decide (mode = RepairChecksum) then Some (repair_record obj) else None
  | _ => None
  end.

Definition execute_metadata_plan (cfg : Config.Config) (ws : Workspace) (plan : MigrationPlan)
    (mode : MetadataMode) : IO W (ApplyResult * MigrationPlan) :=
  if mp_blocked plan && negb (bool_decide (mode = RepairChecksum)) then lift (Err PlanBlocked)
  else
    plan ← lift (ensure_objects_materialized ws plan);
    ensure_tables (config_fingerprint cfg);;
    ensure_history_index;;
    let recs := omap (M:=list) (metadata_record mode) (mp_objects plan) in
    let result := ApplyResult_default <| ar_skipped := length (mp_objects plan) |> in
    '(_, result) ← commit_history recs result;
    (λ r, (r, plan)) <$> finish cfg result.

(** ** The order of a batch *)

Lemma batch_leb_total a b : batch_leb a b = true ∨ batch_leb b a = true.
Proof.
  unfold batch_leb.
  destruct (Z.lt_total (kind_rank (po_kind a)) (kind_rank (po_kind b))) as [H|[H|H]].
  - left. apply orb_true_iff. left. by apply Z.ltb_lt.
  - rewrite !H, Z.ltb_irrefl, Z.eqb_refl. cbn. apply String.leb_total.
  - right. apply orb_true_iff. left. by apply Z.ltb_lt.
Qed.

Lemma batch_leb_trans a b c : batch_leb a b = true → batch_leb b c = true → batch_leb a c = true.
Proof.
  unfold batch_leb. rewrite !orb_true_iff, !andb_true_iff, !Z.ltb_lt, !Z.eqb_eq.
  intros [?|[? ?]] [?|[? ?]]; [left; lia..|].
  right. split; [lia|]. by eapply leb_trans.
Qed.

(** ** Transactions *)

Context `{HT : !TxServer W}.

(** No transaction is open and the connection is usable. *)
Definition idle (s : St W) : Prop :=
  st_client s = true ∧ trancount (st_world s) = 0 ∧ uncommitted (st_world s) = [].
Definition committed (s : St W) : list HistoryRecord := history (st_world s).

(** What a failed step leaves behind: more failures, and either a usable
    connection or an error saying that the rollback failed. *)
Definition failed_with (r r' : ApplyResult) (s' : St W) : Prop :=
  ∃ errs, errs ≠ [] ∧ r' = push_errors errs r ∧ (idle s' ∨ existsb mentions_rollback errs = true).

Lemma contains_middle p a b : contains_str p (a +:+ p +:+ b) = true.
Proof.
  induction a as [|c a IH]; cbn [String.append contains_str].
  - destruct (p +:+ b) eqn:E; cbn [contains_str]; rewrite <- E, starts_with_app; done.
  - by rewrite IH, orb_true_r.
Qed.

Lemma rollback_mentioned label x l :
  existsb mentions_rollback ((label +:+ ": rollback failed: " +:+ x) :: l) = true.
Proof.
  unfold mentions_rollback. cbn [existsb].
  replace (label +:+ ": rollback failed: " +:+ x)
    with ((label +:+ ": ") +:+ "rollback failed" +:+ ": " +:+ x) by (by rewrite str_app_assoc).
  by rewrite contains_middle.
Qed.

Lemma rollback_spec r label err s :
  ∃ r' s', rollback r label err s = (Ok r', s') ∧ committed s' = committed s ∧
    failed_with r r' s' ∧ (st_client s = false → st_client s' = false) ∧
    st_timeout s' = st_timeout s.
Proof.
  unfold rollback, mbind, io_bind, attempt. rewrite exec_step.
  destruct (st_client s) eqn:Hc.
  - destruct (w_sql _ ROLLBACK [] (st_world s)) as [w' o] eqn:E. apply tx_rollback in E as [Hh Ho].
    destruct o as [[e|rows]|]; cbn.
    + do 2 eexists. split; [done|]. split; [done|]. split; [|done].
      eexists [_; label +:+ ": " +:+ err].
      split; [done|]. split; [done|]. right. apply rollback_mentioned.
    + do 2 eexists. split; [done|]. split; [done|]. split; [|done].
      exists [label +:+ ": " +:+ err]. split; [done|]. split; [done|]. left. by destruct (Ho I).
    + do 2 eexists. split; [done|]. split; [done|]. split; [|done].
      eexists [_; label +:+ ": " +:+ err].
      split; [done|]. split; [done|]. right. apply rollback_mentioned.
  - cbn. do 2 eexists. split; [done|]. split; [done|]. split; [|done].
    eexists [_; label +:+ ": " +:+ err].
    split; [done|]. split; [done|]. right. apply rollback_mentioned.
Qed.

(** [m] sends the one statement [stmt] and succeeds exactly when it does. *)
Definition calls (m : IO W unit) (stmt : Stmt) (params : list string) : Prop :=
  ∀ s w' o, st_client s = true → w_sql (st_timeout s) stmt params (st_world s) = (w', o) →
  ∃ r s1, m s = (r, s1) ∧ st_world s1 = w' ∧ st_timeout s1 = st_timeout s ∧
    match o with
    | Some (inr _) => r = Ok tt ∧ st_client s1 = true
    | Some (inl e) => r = Err e ∧ st_client s1 = true
    | None => (∃ e, r = Err e) ∧ st_client s1 = false ∧ st_timeout s ≠ 0%N
    end.

Lemma no_unbounded_timeout b stmt params (w w' : W) : w_sql b stmt params w = (w', None) → b ≠ 0%N.
Proof. intros E ->. apply (w_unbounded stmt params w). by rewrite E. Qed.

Lemma exec_calls stmt : calls (exec stmt) stmt [].
Proof.
  intros s w' o Hc E. rewrite exec_step, Hc, E. do 2 eexists. split; [done|].
  destruct o as [[e|rows]|]; [done..|]. cbn.
  split_and!; try done; [by eexists|by eapply no_unbounded_timeout].
Qed.

Lemma flush_calls records : records ≠ [] →
  calls (flush_history records) INSERT_HISTORY [json_of_records records].
Proof.
  intros Hr s w' o Hc E. unfold flush_history. rewrite (bool_decide_false _ Hr).
  unfold mbind, io_bind. rewrite query_step, Hc, E.
  destruct o as [[e|rows]|]; cbn; do 2 eexists; (split; [done|]); [done..|]. cbn.
  split_and!; try done; [by eexists|by eapply no_unbounded_timeout].
Qed.

Lemma tx_step_fail m wrap r label next s s1 e : m s = (Err e, s1) →
  ∃ r' s', tx_step m wrap r label next s = (Ok (false, r'), s') ∧
    committed s' = committed s1 ∧ failed_with r r' s' ∧
    (st_client s1 = false → st_client s' = false) ∧ st_timeout s' = st_timeout s1.
Proof.
  intros Hm. unfold tx_step, mbind, io_bind, attempt. rewrite Hm.
  destruct (rollback_spec r label (wrap +:+ error_fmt e) s1) as (r' & s' & Hr & Hrest).
  rewrite Hr. by exists r', s'.
Qed.

Lemma tx_step_ok m wrap r label next s s1 : m s = (Ok tt, s1) →
  tx_step m wrap r label next s = next s1.
Proof. intros Hm. unfold tx_step, mbind, io_bind, attempt. by rewrite Hm. Qed.

(** How a transaction that was not seen to commit ends: if the history changed
    all the same, the reply to the final [COMMIT] was lost with the connection. *)
Definition not_committed (r : ApplyResult) (h recs : list HistoryRecord) (t : N)
    (out : M (bool * ApplyResult) * St W) : Prop :=
  ∃ r' s', out = (Ok (false, r'), s') ∧ failed_with r r' s' ∧ st_timeout s' = t ∧
    (committed s' = h ∨ (committed s' = h ++ recs ∧ st_client s' = false ∧ t ≠ 0%N)).

(** A failing step that leaves the committed history alone. *)
Lemma tx_step_not_committed m wrap r label next s s1 e recs : m s = (Err e, s1) →
  committed s1 = committed s → st_timeout s1 = st_timeout s →
  not_committed r (committed s) recs (st_timeout s) (tx_step m wrap r label next s).
Proof.
  intros Hm Hh Ht. destruct (tx_step_fail m wrap r label next s s1 e Hm)
    as (r' & s' & E & Hh' & Hf & _ & Ht'). exists r', s'. rewrite E.
  split; [done|]. split; [done|]. split; [congruence|]. left. congruence.
Qed.

(** One statement of the protocol, for statements that commit nothing. *)
Lemma tx_step_or m stmt params wrap r label next s recs (Q : W → Prop) :
  calls m stmt params → st_client s = true →
  (∀ w' o, w_sql (st_timeout s) stmt params (st_world s) = (w', o) →
     history w' = committed s ∧ (ok_reply o → Q w')) →
  not_committed r (committed s) recs (st_timeout s) (tx_step m wrap r label next s) ∨
  ∃ s1 rows, w_sql (st_timeout s) stmt params (st_world s) = (st_world s1, Some (inr rows)) ∧
    st_client s1 = true ∧ committed s1 = committed s ∧ st_timeout s1 = st_timeout s ∧
    Q (st_world s1) ∧ tx_step m wrap r label next s = next s1.
Proof.
  intros Hm Hc HQ. destruct (w_sql _ stmt params (st_world s)) as [w' o] eqn:E.
  destruct (HQ w' o eq_refl) as [Hh Hq].
  destruct (Hm s w' o Hc E) as (x & s1 & Hx & Hw & Ht & Ho).
  assert (Hh1 : committed s1 = committed s) by (unfold committed in *; congruence).
  destruct o as [[e|rows]|].
  - destruct Ho as [-> _]. left. by eapply tx_step_not_committed.
  - destruct Ho as [-> Hc1]. right. exists s1, rows. rewrite (tx_step_ok _ _ _ _ _ _ _ Hx).
    subst w'. by repeat split; try apply Hq.
  - destruct Ho as ((e & ->) & _ & _). left. by eapply tx_step_not_committed.
Qed.

(** The final [COMMIT]: the one statement after which the rows are there. *)
Lemma tx_commit_or r label s recs :
  st_client s = true → trancount (st_world s) = 1 → uncommitted (st_world s) = recs →
  not_committed r (committed s) recs (st_timeout s)
    (tx_step (exec COMMIT_TX) "commit failed: " r label
       (mret (true, r <| ar_wrote_history := true |>)) s) ∨
  ∃ s1, tx_step (exec COMMIT_TX) "commit failed: " r label
          (mret (true, r <| ar_wrote_history := true |>)) s
        = (Ok (true, r <| ar_wrote_history := true |>), s1) ∧
    idle s1 ∧ committed s1 = committed s ++ recs ∧ st_timeout s1 = st_timeout s.
Proof.
  intros Hc Hn Hu. destruct (w_sql (st_timeout s) COMMIT_TX [] (st_world s)) as [w' o] eqn:E.
  destruct (exec_calls COMMIT_TX s w' o Hc E) as (x & s1 & Hx & Hw & Ht & Ho).
  apply tx_commit in E; [|done]. subst w'. destruct o as [[e|rows]|].
  - destruct Ho as [-> _]. left. by eapply tx_step_not_committed.
  - destruct Ho as [-> Hc1], E as (Hh & Hu' & Hn'). right. exists s1.
    rewrite (tx_step_ok _ _ _ _ _ _ _ Hx). unfold idle, committed. rewrite Hh, Hu. by repeat split.
  - destruct Ho as ((e & ->) & Hd & Hz). destruct E as [Hh|Hh].
    + left. by eapply tx_step_not_committed.
    + left. destruct (tx_step_fail _ "commit failed: " r label
        (mret (true, r <| ar_wrote_history := true |>)) s s1 e Hx)
        as (r' & s' & Hs & Hh' & Hf & Hcl & Ht').
      exists r', s'. rewrite Hs. split; [done|]. split; [done|]. split; [congruence|]. right.
      unfold committed in *. split; [congruence|]. auto.
Qed.

(** The body was started in the transaction opened for it and ran to its end. *)
Definition body_completed (body : string) (s : St W) : Prop :=
  ∃ w1 w2 rows1 rows2,
    w_sql (st_timeout s) BEGIN_TX [] (st_world s) = (w1, Some (inr rows1)) ∧
    w_sql (st_timeout s) (Text body) [] w1 = (w2, Some (inr rows2)).

Definition committed_with (r : ApplyResult) (recs : list HistoryRecord) (s : St W)
    (out : M (bool * ApplyResult) * St W) : Prop :=
  ∃ s', out = (Ok (true, r <| ar_wrote_history := true |>), s') ∧ idle s' ∧
    committed s' = committed s ++ recs ∧ st_timeout s' = st_timeout s.

Lemma apply_in_tx_outcome body recs r label s : idle s →
  (body_completed body s ∧
   (not_committed r (committed s) recs (st_timeout s) (apply_in_tx body recs r label s) ∨
    committed_with r recs s (apply_in_tx body recs r label s))) ∨
  not_committed r (committed s) [] (st_timeout s) (apply_in_tx body recs r label s).
Proof.
  intros (Hc & Hn & Hu). unfold apply_in_tx.
  edestruct (tx_step_or (exec BEGIN_TX)) with (s := s) (recs := @nil HistoryRecord)
    (Q := λ w, uncommitted w = [] ∧ trancount w = 1) as [H|(s1 & rows1 & E1 & Hc1 & Hh1 & Ht1 & [Hu1 Hn1] & ->)].
  { apply exec_calls. } { done. }
  { intros w' o E. apply tx_begin in E as (? & ? & Ho); [|done]. split; [done|].
    intros Hok%Ho. by rewrite Hok, Hn. }
  { by right. }
  rewrite <- Ht1, <- Hh1.
  edestruct (tx_step_or (exec (Text body))) with (s := s1) (recs := @nil HistoryRecord)
    (Q := λ w, uncommitted w = []) as [H|(s2 & rows2 & E2 & Hc2 & Hh2 & Ht2 & Hu2 & ->)].
  { apply exec_calls. } { done. }
  { intros w' o E. by apply tx_text in E as (? & ?). }
  { by right. }
  left. rewrite <- Hh2, <- Ht2. split.
  { exists (st_world s1), (st_world s2), rows1, rows2. rewrite <- Ht1. by rewrite <- Ht1 in E1. }
  edestruct (tx_step_or (exec ASSERT_OPEN_TX)) with (s := s2) (recs := recs)
    (Q := λ w, uncommitted w = [] ∧ trancount w = 1)
    as [H|(s3 & rows3 & _ & Hc3 & Hh3 & Ht3 & [Hu3 Hn3] & ->)].
  { apply exec_calls. } { done. }
  { intros w' o E. apply tx_assert in E as (? & ? & Ho); [|done]. split; [done|]. by intros ?%Ho. }
  { left. exact H. }
  rewrite <- Hh3, <- Ht3. case_bool_decide as Hr.
  - subst recs. rewrite (tx_step_ok _ _ _ _ _ s3 s3) by done.
    destruct (tx_commit_or r label s3 []) as [H|(s5 & E5 & Hi & Hh5 & Ht5)]; [done..|by left|].
    right. exists s5. rewrite E5. repeat split; try apply Hi; congruence.
  - edestruct (tx_step_or (flush_history recs)) with (s := s3) (recs := recs)
      (Q := λ w, uncommitted w = recs ∧ trancount w = 1)
      as [H|(s4 & rows4 & _ & Hc4 & Hh4 & Ht4 & [Hu4 Hn4] & ->)].
    { by apply flush_calls. } { done. }
    { intros w' o E. apply tx_insert in E as (? & Ho); [|lia]. split; [done|].
      intros [Hu' Hn']%Ho. by rewrite Hu', Hn', Hu3, Hn3. }
    { left. exact H. }
    rewrite <- Hh4, <- Ht4.
    destruct (tx_commit_or r label s4 recs) as [H|(s5 & E5 & Hi & Hh5 & Ht5)]; [done..|by left|].
    right. exists s5. rewrite E5. repeat split; try apply Hi; congruence.
Qed.


(** ** What is sent to the server *)

(** The fixed statements of an apply phase, or text that satisfies [Q]. *)
Definition apply_stmt (Q : string → Prop) (x : request) : Prop :=
  match x.1 with
  | Text b => Q b
  | BOOTSTRAP_TABLES | BOOTSTRAP_DRIFT | BOOTSTRAP_INDEX | INSERT_HISTORY | CACHE_INVALIDATE
  | BEGIN_TX | ASSERT_OPEN_TX | COMMIT_TX | ROLLBACK => True
  | _ => False
  end.

Lemma rollback_emits Q r label err : emits (apply_stmt Q) (rollback r label err).
Proof. unfold rollback. repeat emits_step. apply emits_attempt. by apply emits_exec. Qed.

Lemma tx_step_emits Q m wrap r label next :
  emits (apply_stmt Q) m → emits (apply_stmt Q) next →
  emits (apply_stmt Q) (tx_step m wrap r label next).
Proof.
  intros Hm Hn. unfold tx_step. apply emits_bind; [by apply emits_attempt|].
  intros [e|u]; [|done]. apply emits_bind; [apply rollback_emits|]. intros. apply emits_ret.
Qed.

Lemma apply_in_tx_emits (Q : string → Prop) body recs r label : Q body →
  emits (apply_stmt Q) (apply_in_tx body recs r label).
Proof.
  intros HQ. unfold apply_in_tx. repeat apply tx_step_emits; try by apply emits_exec.
  - case_bool_decide; [apply emits_ret|by apply emits_flush_history].
  - apply emits_ret.
Qed.

(** The text of a script that is what was planned. *)
Definition text_of (expected : digest) (b : string) : Prop := content_checksum b = expected.

Lemma verified_body_val path expected label s x s' :
  verified_body path expected label s = (Ok x, s') →
  match x with inr b => text_of expected b | inl _ => True end.
Proof.
  unfold verified_body, mbind, io_bind, read_file. intros [= <- <-].
  destruct (w_read_file _ _) as [e|d]; [done|].
  destruct (String.eqb_spec (content_checksum d) expected); cbn; [|done].
  by destruct (valid_utf8 d).
Qed.

(** What [obj]'s own script was planned with. *)
Definition object_text (ws : Workspace) (obj : PlannedObject) (b : string) : Prop :=
  ∃ id, find_script ws obj = Ok (Some id) ∧
        text_of (default (po_checksum obj) (script_checksum ws id)) b.

Lemma exec_object_emits (Q : string → Prop) ws obj r :
  (∀ b, object_text ws obj b → Q b) → emits (apply_stmt Q) (exec_object ws obj r).
Proof.
  intros HQ. unfold exec_object.
  apply (emits_bind_val _ (λ x, match x with inr b => object_text ws obj b | inl _ => True end)).
  - unfold read_script. repeat emits_step.
  - intros s x s'. unfold read_script, mbind, io_bind, lift.
    destruct (find_script ws obj) as [[id|]| |] eqn:Ef; try done; [|by intros [= <- <-]].
    destruct (script_abs_path ws id); try done. intros H%verified_body_val.
    destruct x; [done|]. by exists id.
  - intros [msg|b] Hb; [apply emits_ret|]. apply emits_bind; [apply emits_lift|]. intros recs.
    apply emits_fmap, apply_in_tx_emits. auto.
Qed.

(** What one of [obj]'s transition scripts was planned with. *)
Definition transition_text (ws : Workspace) (obj : PlannedObject) (b : string) : Prop :=
  ∃ path id, path ∈ po_transition_paths obj ∧
    script_by_path ws (po_database_name obj) path = Some id ∧
    text_of (default (po_checksum obj) (script_checksum ws id)) b.

Lemma apply_one_transition_emits (Q : string → Prop) ws obj path last r :
  path ∈ po_transition_paths obj → (∀ b, transition_text ws obj b → Q b) →
  emits (apply_stmt Q) (apply_one_transition ws obj path last r).
Proof.
  intros Hp HQ. unfold apply_one_transition.
  destruct (script_by_path _ _ _) as [id|] eqn:Es; [|apply emits_ret].
  apply emits_bind; [apply emits_lift|]. intros abs.
  apply (emits_bind_val _ (λ x, match x with
    inr b => text_of (default (po_checksum obj) (script_checksum ws id)) b | inl _ => True end)).
  - unfold verified_body. repeat emits_step.
  - intros s x s' H. by apply verified_body_val in H.
  - intros [msg|b] Hb; [apply emits_ret|]. apply emits_bind; [apply emits_lift|]. intros recs.
    apply emits_fmap, apply_in_tx_emits, HQ. by exists path, id.
Qed.

Lemma apply_transitions_emits (Q : string → Prop) ws objects : ∀ r,
  (∀ obj b, obj ∈ objects → has_transitions_to_run obj = true → transition_text ws obj b → Q b) →
  emits (apply_stmt Q) (apply_transitions ws objects r).
Proof.
  induction objects as [|obj objects IH]; intros r HQ; [apply emits_ret|].
  assert (IH' : ∀ r, emits (apply_stmt Q) (apply_transitions ws objects r)).
  { intros r'. apply IH. intros o b Ho. apply HQ. by right. }
  cbn [apply_transitions]. destruct (has_transitions_to_run obj) eqn:Hrun; cbn [negb]; [|apply IH'].
  apply emits_bind.
  - assert (Hin : ∀ p, p ∈ po_transition_paths obj → p ∈ po_transition_paths obj) by done.
    revert Hin. generalize (po_transition_paths obj) at 1 3 as paths. intros paths. revert r.
    induction paths as [|p paths IHp]; intros r Hin; [apply emits_ret|].
    cbn [apply_object_transitions]. apply emits_bind.
    + apply apply_one_transition_emits; [apply Hin; by left|]. intros b. apply HQ; [by left|done].
    + intros r'. destruct (Nat.ltb _ _); [apply emits_ret|]. apply IHp. intros q Hq. apply Hin.
      by right.
  - intros r'. destruct (Nat.ltb _ _); [apply emits_ret|apply IH'].
Qed.

Definition schema_text (schemas : list PlannedSchema) (b : string) : Prop :=
  ∃ x, x ∈ schemas ∧ ps_action x = CreateSchema ∧ build_create_schema_sql (ps_schema_name x) = Ok b.

Lemma apply_schemas_emits (Q : string → Prop) schemas : ∀ r,
  (∀ b, schema_text schemas b → Q b) → emits (apply_stmt Q) (apply_schemas schemas r).
Proof.
  induction schemas as [|x schemas IH]; intros r HQ; [apply emits_ret|].
  assert (IH' : ∀ r, emits (apply_stmt Q) (apply_schemas schemas r)).
  { intros r'. apply IH. intros b (y & ? & ?). apply HQ. exists y. split; [by right|done]. }
  cbn [apply_schemas]. case_bool_decide as Ha; cbn [negb]; [|apply IH'].
  destruct (build_create_schema_sql _) as [q|e|] eqn:E; [|apply emits_ret|apply emits_lift].
  apply emits_bind.
  - apply emits_attempt, emits_exec, HQ. exists x. split; [by left|done].
  - intros [e|u]; [apply emits_ret|apply IH'].
Qed.

Lemma module_sweep_emits (Q : string → Prop) ws pending : ∀ next progress errs r,
  (∀ obj b, obj ∈ pending → object_text ws obj b → Q b) →
  emits (apply_stmt Q) (module_sweep ws pending next progress errs r).
Proof.
  induction pending as [|obj pending IH]; intros next progress errs r HQ; [apply emits_ret|].
  cbn [module_sweep]. apply emits_bind.
  - apply exec_object_emits. intros b. apply HQ. by left.
  - intros r'. assert (∀ n p e r, emits (apply_stmt Q) (module_sweep ws pending n p e r)).
    { intros. apply IH. intros o b Ho. apply HQ. by right. }
    repeat case_match; auto using emits_ret.
Qed.

(** What is left over is part of what was pending. *)
Lemma module_sweep_next ws pending : ∀ next progress errs r s sw s',
  module_sweep ws pending next progress errs r s = (Ok sw, s') →
  match sw with
  | SweepDone next' _ _ _ => ∀ o, o ∈ next' → o ∈ next ∨ o ∈ pending
  | SweepAborted _ => True
  end.
Proof.
  induction pending as [|obj pending IH]; intros next progress errs r s sw s'.
  - intros [= <- <-] o. auto.
  - cbn [module_sweep]. unfold mbind, io_bind.
    destruct (exec_object ws obj r s) as [[r1| |] s1]; try done.
    destruct (Nat.eqb _ _); [|destruct (existsb _ _)]; [| |].
    + intros H%IH. destruct sw; [done|]. intros o Ho. destruct (H o Ho); [by left|by right; right].
    + by intros [= <- <-].
    + intros H%IH. destruct sw; [done|]. intros o [Ho|Ho]%H; [|by right; right].
      apply elem_of_app in Ho as [Ho|Ho]; [by left|].
      apply list_elem_of_singleton in Ho as ->. right. by left.
Qed.

Lemma apply_modules_fuel_emits (Q : string → Prop) ws fuel : ∀ pending r,
  (∀ obj b, obj ∈ pending → object_text ws obj b → Q b) →
  emits (apply_stmt Q) (apply_modules_fuel fuel ws pending r).
Proof.
  induction fuel as [|fuel IH]; intros pending r HQ.
  - destruct pending; apply emits_ret.
  - destruct pending as [|o l] eqn:E; [apply emits_ret|]. rewrite <- E in *.
    replace (apply_modules_fuel (S fuel) ws pending r) with
      (sweep ← module_sweep ws pending [] false [] r;
       match sweep with
       | SweepAborted result => mret (Some result)
       | SweepDone next progress final_errors result =>
           if negb progress then mret (Some (push_errors final_errors result))
           else apply_modules_fuel fuel ws next result
       end) by (by rewrite E).
    apply (emits_bind_val _ (λ sw, match sw with
      SweepDone next _ _ _ => ∀ o, o ∈ next → o ∈ pending | _ => True end)).
    + by apply module_sweep_emits.
    + intros s sw s' H%module_sweep_next. destruct sw; [done|]. intros o' [Ho|Ho]%H; [|done].
      by apply elem_of_nil in Ho.
    + intros [r'|next progress errs r'] Hn; [apply emits_ret|].
      destruct progress; [|apply emits_ret]. apply IH. intros o' b Ho. by apply HQ, Hn.
Qed.

Lemma apply_modules_emits (Q : string → Prop) ws pending r :
  (∀ obj b, obj ∈ pending → object_text ws obj b → Q b) →
  emits (apply_stmt Q) (apply_modules ws pending r).
Proof.
  intros HQ. apply emits_bind; [by apply apply_modules_fuel_emits|].
  intros []; [apply emits_ret|apply emits_lift].
Qed.

Lemma exec_batch_emits (Q : string → Prop) ws batch : ∀ r,
  (∀ obj b, obj ∈ batch → object_text ws obj b → Q b) →
  emits (apply_stmt Q) (exec_batch ws batch r).
Proof.
  induction batch as [|obj batch IH]; intros r HQ; [apply emits_ret|]. cbn [exec_batch].
  apply emits_bind; [apply exec_object_emits; intros b; apply HQ; by left|].
  intros r'. destruct (Nat.ltb _ _); [apply emits_ret|]. apply IH. intros o b Ho. apply HQ.
  by right.
Qed.

(** The batches hold objects of the plan that are to be created or updated. *)
Lemma classify_batches objects : ∀ b r b' r',
  classify objects b r = inr (b', r') →
  (∀ o, o ∈ ba_tx b' → o ∈ ba_tx b ∨ (o ∈ objects ∧ should_apply o = true)) ∧
  (∀ o, o ∈ ba_modules b' → o ∈ ba_modules b ∨ (o ∈ objects ∧ should_apply o = true)).
Proof.
  induction objects as [|obj objects IH]; intros b r b' r'.
  - intros [= <- <-]. auto.
  - cbn [classify]. set_unfold.
    repeat case_match; try done; intros Hc%IH; cbn [ba_tx ba_modules] in *; set_unfold;
      destruct Hc as [Htx Hmod]; split; intros o Ho; specialize (Htx o); specialize (Hmod o);
      naive_solver.
Qed.

Lemma apply_objects_emits (Q : string → Prop) ws objects r :
  (∀ obj b, obj ∈ objects → should_apply obj = true → object_text ws obj b → Q b) →
  emits (apply_stmt Q) (apply_objects ws objects r).
Proof.
  intros HQ. unfold apply_objects. destruct (classify _ _ _) as [|[b r1]] eqn:Ec; [apply emits_ret|].
  apply classify_batches in Ec as [H1 H2]. cbn in H1, H2.
  assert (Hin : ∀ o t, o ∈ ba_tx b ∨ o ∈ ba_modules b → object_text ws o t → Q t).
  { intros o t Ho. set_unfold. destruct Ho as [Ho|Ho]; [apply H1 in Ho|apply H2 in Ho];
      apply HQ; naive_solver. }
  apply emits_bind.
  { unfold commit_history. case_bool_decide; [apply emits_ret|].
    apply emits_bind; [by apply emits_attempt, emits_flush_history|]. intros []; apply emits_ret. }
  intros [ok r2]. destruct ok; [|apply emits_ret]. apply emits_bind.
  - apply exec_batch_emits. intros o t Ho. apply Hin. left. revert Ho.
    unfold sort_tx_batch. by rewrite sort_by_perm.
  - intros r3. destruct (Nat.ltb _ _); [apply emits_ret|]. apply apply_modules_emits.
    intros o t Ho. apply Hin. right. revert Ho. unfold sort_tx_batch. by rewrite sort_by_perm.
Qed.

Lemma finish_emits Q cfg r : emits (apply_stmt Q) (finish cfg r).
Proof.
  unfold finish. apply emits_bind.
  { destruct (ar_wrote_history r); [by apply emits_pure|apply emits_ret]. }
  intros _. apply emits_bind.
  - destruct (Nat.ltb _ _); [|apply emits_ret].
    apply emits_bind; [by apply emits_attempt, emits_invalidate_catalog|]. intros _.
    apply emits_bind; [apply emits_attempt, emits_l1_invalidate|]. intros _. apply emits_ret.
  - intros _. destruct (Nat.ltb _ _); [apply emits_lift|apply emits_ret].
Qed.

(** The text a plan stands for: generated DDL for the schemas to create, the
    scripts of objects to create or update, and the transition scripts of changed
    tables, each with the checksum it was planned with. *)
Definition planned_text (ws : Workspace) (plan : MigrationPlan) (b : string) : Prop :=
  schema_text (mp_schemas plan) b ∨
  (∃ obj, obj ∈ mp_objects plan ∧ should_apply obj = true ∧ object_text ws obj b) ∨
  (∃ obj, obj ∈ mp_objects plan ∧ has_transitions_to_run obj = true ∧ transition_text ws obj b).

Lemma finish_Ok cfg r s r' s' : finish cfg r s = (Ok r', s') → r' = r ∧ ar_failed r = 0.
Proof.
  unfold finish. intros (? & s1 & _ & (? & s2 & _ & Hf)%io_bind_Ok)%io_bind_Ok. revert Hf.
  destruct (Nat.ltb_spec 0 (ar_failed r)); [done|]. intros [= <- <-]. split; [done|lia].
Qed.

Lemma fmap_finish_Ok cfg r (p : MigrationPlan) s x p' s' :
  ((λ r, (r, p)) <$> finish cfg r) s = (Ok (x, p'), s') → ar_failed x = 0.
Proof. by intros (a & [-> ?]%finish_Ok & [= -> ->])%io_fmap_Ok. Qed.

(** C8. A blocked plan does nothing at all.  A plan that is not blocked sends,
    besides the tool's own statements, only text it stands for: schema DDL it
    announced, and scripts whose bytes still have the checksum they were planned
    with. Success means that nothing failed. *)
Theorem execute_plan_sends_planned_text cfg ws plan s :
  (mp_blocked plan = true → execute_plan cfg ws plan s = (Err PlanBlocked, s)) ∧
  (∀ plan', ensure_objects_materialized ws plan = Ok plan' →
     emits (apply_stmt (planned_text ws plan')) (execute_plan cfg ws plan)) ∧
  (∀ r plan' s', execute_plan cfg ws plan s = (Ok (r, plan'), s') → ar_failed r = 0).
Proof.
  split; [|split].
  - unfold execute_plan. by intros ->.
  - intros plan' Hp. unfold execute_plan. destruct (mp_blocked plan); [apply emits_lift|].
    apply (emits_bind_val _ (λ x, x = plan')); [apply emits_lift|intros ??? ?%lift_val; congruence|].
    intros x ->. apply emits_bind; [by apply emits_ensure_tables|]. intros _.
    apply emits_bind; [by apply emits_exec|]. intros _. apply emits_bind.
    { apply apply_schemas_emits. intros b ?. by left. }
    intros r. destruct (Nat.ltb _ _); [apply emits_fmap, finish_emits|]. apply emits_bind.
    { apply apply_transitions_emits. intros o b ???. right. right. by exists o. }
    intros r'. destruct (Nat.ltb _ _); [apply emits_fmap, finish_emits|]. apply emits_bind.
    { apply apply_objects_emits. intros o b ???. right. left. by exists o. }
    intros r''. apply emits_fmap, finish_emits.
  - intros r plan' s'. unfold execute_plan. destruct (mp_blocked plan); [done|].
    intros (p1 & s1 & _ & (? & s2 & _ & (? & s3 & _ & (r1 & s4 & _ & H)%io_bind_Ok)%io_bind_Ok)
      %io_bind_Ok)%io_bind_Ok. revert H.
    destruct (Nat.ltb 0 (ar_failed r1)); [apply fmap_finish_Ok|].
    intros (r2 & s5 & _ & H)%io_bind_Ok. revert H.
    destruct (Nat.ltb 0 (ar_failed r2)); [apply fmap_finish_Ok|].
    intros (r3 & s6 & _ & H)%io_bind_Ok. revert H. apply fmap_finish_Ok.
Qed.

(** The one insertion a metadata command makes. *)
Definition metadata_stmt (recs : list HistoryRecord) (x : request) : Prop :=
  match x.1 with
  | BOOTSTRAP_TABLES | BOOTSTRAP_DRIFT | BOOTSTRAP_INDEX | CACHE_INVALIDATE => True
  | INSERT_HISTORY => x.2 = [json_of_records recs]
  | _ => False
  end.

(** C20. [baseline] and [repair-checksum] never run repository SQL: whatever the
    plan, they send only the tool's own audit statements, and the only rows they
    insert are the records of [metadata_record]: an "adopted" row for an object
    to adopt and, only when repairing, an "applied" row for an existing object
    whose checksum differs or whose change is blocked.  [baseline] refuses a
    blocked plan before it sends anything. *)
Theorem execute_metadata_plan_audit_only cfg ws plan mode s :
  (mp_blocked plan = true → mode = Baseline →
     execute_metadata_plan cfg ws plan mode s = (Err PlanBlocked, s)) ∧
  (∀ plan', ensure_objects_materialized ws plan = Ok plan' →
     emits (metadata_stmt (omap (M:=list) (metadata_record mode) (mp_objects plan')))
       (execute_metadata_plan cfg ws plan mode)) ∧
  (∀ obj rec, metadata_record mode obj = Some rec ↔
     po_planned_action obj = AdoptExisting ∧ rec = object_record "adopted" obj ∨
     mode = RepairChecksum ∧ rec = object_record "applied" obj ∧
       po_planned_action obj ∈ [UpdateExistingModule; ReprocessChanged; ReprocessChangedBlocked; Fail]).
Proof.
  unfold execute_metadata_plan. split; [|split].
  - by intros -> ->.
  - intros plan' Hp. destruct (mp_blocked plan && _); [apply emits_lift|].
    apply (emits_bind_val _ (λ x, x = plan')); [apply emits_lift|intros ??? ?%lift_val; congruence|].
    intros x ->. apply emits_bind; [by apply emits_ensure_tables|]. intros _.
    apply emits_bind; [by apply emits_exec|]. intros _. apply emits_bind.
    { unfold commit_history. case_bool_decide; [apply emits_ret|].
      apply emits_bind; [by apply emits_attempt, emits_flush_history|]. intros []; apply emits_ret. }
    intros [ok r]. apply emits_fmap. unfold finish. apply emits_bind.
    { destruct (ar_wrote_history r); [by apply emits_pure|apply emits_ret]. }
    intros _. apply emits_bind.
    + destruct (Nat.ltb _ _); [|apply emits_ret].
      apply emits_bind; [by apply emits_attempt, emits_invalidate_catalog|]. intros _.
      apply emits_bind; [apply emits_attempt, emits_l1_invalidate|]. intros _. apply emits_ret.
    + intros _. destruct (Nat.ltb _ _); [apply emits_lift|apply emits_ret].
  - intros obj rec. unfold metadata_record, adopt_record, repair_record.
    destruct mode;
      [rewrite bool_decide_eq_false_2 by done|rewrite bool_decide_eq_true_2 by done];
      destruct (po_planned_action obj); rewrite ?elem_of_cons, elem_of_nil; intuition congruence.
Qed.

(** ** The module loop *)

Definition applied_one (r : ApplyResult) : ApplyResult :=
  r <| ar_wrote_history := true |> <| ar_applied ::= S |>.

(** An object either counts as applied or leaves errors, and nothing else changes. *)
Definition one_outcome (r : ApplyResult) (m : M ApplyResult) : Prop :=
  match m with
  | Ok r' => r' = applied_one r ∨ ∃ errs, errs ≠ [] ∧ r' = push_errors errs r
  | _ => True
  end.
Definition tx_outcome (r : ApplyResult) (m : M (bool * ApplyResult)) : Prop :=
  m = Ok (true, r <| ar_wrote_history := true |>) ∨
  ∃ errs, errs ≠ [] ∧ m = Ok (false, push_errors errs r).

Definition safe {A} (m : IO W A) : Prop := ∀ s, (m s).1 ≠ Panic.

Lemma exec_safe stmt : safe (exec stmt).
Proof.
  intros s. rewrite exec_step. destruct (st_client s); [|done].
  by destruct (w_sql _ _ _ _) as [w' [[]|]].
Qed.

Lemma flush_history_safe l : safe (flush_history l).
Proof.
  intros s. unfold flush_history. case_bool_decide; [done|]. unfold mbind, io_bind.
  rewrite query_step. destruct (st_client s); [|done]. by destruct (w_sql _ _ _ _) as [w' [[]|]].
Qed.

Lemma rollback_shape r label err s : ∃ errs,
  errs ≠ [] ∧ (rollback r label err s).1 = Ok (push_errors errs r).
Proof.
  unfold rollback, mbind, io_bind, attempt. pose proof (exec_safe ROLLBACK s) as Hs.
  destruct (exec ROLLBACK s) as [[a|e|] s1]; [| |done].
  - by exists [label +:+ ": " +:+ err].
  - by eexists [_; label +:+ ": " +:+ err].
Qed.

Lemma tx_step_shape m wrap r label next : safe m → (∀ s, tx_outcome r (next s).1) →
  ∀ s, tx_outcome r (tx_step m wrap r label next s).1.
Proof.
  intros Hm Hn s. unfold tx_step, mbind, io_bind, attempt. specialize (Hm s).
  destruct (m s) as [[a|e|] s1]; [apply Hn| |done].
  destruct (rollback_shape r label (wrap +:+ error_fmt e) s1) as (errs & Hne & Hr).
  destruct (rollback _ _ _ s1) as [x s2]. cbn in Hr. subst x. right. by exists errs.
Qed.

Lemma apply_in_tx_shape body recs r label s : tx_outcome r (apply_in_tx body recs r label s).1.
Proof.
  unfold apply_in_tx. revert s.
  repeat (apply tx_step_shape; [first [apply exec_safe|case_bool_decide; [done|apply flush_history_safe]]|]).
  intros s. by left.
Qed.

Lemma exec_object_shape ws obj r s : one_outcome r (exec_object ws obj r s).1.
Proof.
  unfold exec_object, mbind, io_bind. destruct (read_script ws obj s) as [[[msg|body]| |] s1]; try done.
  - right. by exists [msg].
  - destruct (lift _ s1) as [[recs| |] s2]; try done. unfold fmap, io_fmap.
    destruct (apply_in_tx_shape body recs r (po_normalized_key obj) s2) as [H|(errs & Hne & H)];
      destruct (apply_in_tx _ _ _ _ s2) as [x s3]; cbn in H; subst x; [by left|].
    right. by exists errs.
Qed.

Lemma push_errors_spec errs : ∀ r,
  push_errors errs r = r <| ar_errors := ar_errors r ++ errs |>
                         <| ar_failed := ar_failed r + length errs |>.
Proof.
  induction errs as [|e errs IH]; intros r.
  - destruct r. cbn. by rewrite app_nil_r, Nat.add_0_r.
  - cbn [push_errors foldl length]. fold (push_errors errs (push_error e r)). rewrite IH.
    destruct r. cbn. by rewrite <- app_assoc, Nat.add_succ_r.
Qed.

(** Taking the errors of one module back restores the result. *)
Lemma undo_errors errs r :
  push_errors errs r <| ar_errors := take (length (ar_errors r)) (ar_errors (push_errors errs r)) |>
    <| ar_failed := ar_failed r |> = r.
Proof. rewrite push_errors_spec. destruct r. cbn. by rewrite take_app_length. Qed.

Definition applied_n (n : nat) (r : ApplyResult) : ApplyResult := Nat.iter n applied_one r.

Lemma applied_n_counts n r : ar_applied (applied_n n r) = n + ar_applied r ∧
  ar_failed (applied_n n r) = ar_failed r ∧ ar_errors (applied_n n r) = ar_errors r ∧
  ar_skipped (applied_n n r) = ar_skipped r.
Proof.
  induction n as [|n (IH1 & IH2 & IH3 & IH4)]; [done|].
  change (applied_n (S n) r) with (applied_one (applied_n n r)).
  destruct (applied_n n r). cbn in *. by subst.
Qed.

Lemma applied_n_S n r : applied_n n (applied_one r) = applied_n (S n) r.
Proof. unfold applied_n. by rewrite <- Nat.iter_succ_r. Qed.

Lemma module_sweep_counts ws pending : ∀ next progress errs r s sw s',
  module_sweep ws pending next progress errs r s = (Ok sw, s') →
  match sw with
  | SweepDone next' progress' errs' r' =>
      ∃ done left, r' = applied_n done r ∧ done + left = length pending ∧
        length next' = length next + left ∧ length errs' = length errs + left ∧
        progress' = (progress || Nat.ltb 0 done)
  | SweepAborted r' => ∃ done es, r' = push_errors es (applied_n done r) ∧
        existsb mentions_rollback es = true
  end.
Proof.
  induction pending as [|obj pending IH]; intros next progress errs r s sw s'.
  - intros [= <- <-]. exists 0, 0. cbn. rewrite orb_false_r. by repeat split.
  - cbn [module_sweep]. intros (r1 & s1 & Ho & Hrest)%io_bind_Ok. revert Hrest.
    pose proof (exec_object_shape ws obj r s) as Hs. rewrite Ho in Hs. cbn in Hs.
    destruct Hs as [->|(es & Hne & ->)].
    + change (ar_failed (applied_one r)) with (ar_failed r). rewrite Nat.eqb_refl.
      intros H%IH. destruct sw as [r'|next' progress' errs' r'].
      * destruct H as (d & es & -> & ?). exists (S d), es. by rewrite applied_n_S.
      * destruct H as (d & lf & -> & ? & ? & ? & ->). exists (S d), lf. rewrite applied_n_S.
        cbn [length]. rewrite orb_true_l, orb_true_r. repeat split; lia.
    + assert (Hf : Nat.eqb (ar_failed (push_errors es r)) (ar_failed r) = false).
      { rewrite push_errors_spec. cbn. destruct es; [done|]. apply Nat.eqb_neq. cbn. lia. }
      rewrite Hf, undo_errors.
      replace (drop _ _) with es by (rewrite push_errors_spec; cbn; by rewrite drop_app_length).
      destruct (existsb mentions_rollback es) eqn:Hm.
      * intros [= <- <-]. by exists 0, es.
      * intros H%IH. destruct sw as [r'|next' progress' errs' r']; [done|].
        destruct H as (d & lf & -> & ? & Hn & He & ->). exists d, (S lf).
        rewrite !length_app in *. cbn [length] in *. repeat split; lia.
Qed.

Lemma apply_modules_fuel_counts ws fuel : ∀ pending r s o s', length pending ≤ fuel →
  apply_modules_fuel fuel ws pending r s = (Ok o, s') →
  ∃ r' done errs, o = Some r' ∧ r' = push_errors errs (applied_n done r) ∧
    (existsb mentions_rollback errs = true ∨ done + length errs = length pending).
Proof.
  induction fuel as [|fuel IH]; intros pending r s o s' Hl.
  - destruct pending; [|cbn in Hl; lia]. intros [= <- <-]. exists r, 0, []. auto.
  - destruct pending as [|obj pending'] eqn:E; [intros [= <- <-]; exists r, 0, []; auto|].
    rewrite <- E in *.
    replace (apply_modules_fuel (S fuel) ws pending r) with
      (sweep ← module_sweep ws pending [] false [] r;
       match sweep with
       | SweepAborted result => mret (Some result)
       | SweepDone next progress final_errors result =>
           if negb progress then mret (Some (push_errors final_errors result))
           else apply_modules_fuel fuel ws next result
       end) by (by rewrite E).
    intros (sw & s1 & Hsw%module_sweep_counts & Hrest)%io_bind_Ok. revert Hrest.
    destruct sw as [r'|next progress errs r'].
    + destruct Hsw as (d & es & -> & Hm). intros [= <- <-]. eexists _, d, es. by repeat split; left.
    + destruct Hsw as (d & lf & -> & Hd & Hn & He & ->). cbn in Hn, He.
      destruct (Nat.ltb_spec 0 d); cbn [orb negb].
      * intros H'%IH; [|lia]. destruct H' as (r2 & d2 & es & -> & -> & Hc).
        eexists _, (d2 + d), es. split; [done|]. split.
        { unfold applied_n. by rewrite Nat.iter_add. }
        destruct Hc; [by left|right; lia].
      * intros [= <- <-]. eexists _, d, errs. repeat split. right. lia.
Qed.


(** ** The history a run of transitions leaves *)

(** One transition script to run, and whether it is its table's last. *)
Abbreviation step := (PlannedObject * string * bool)%type (only parsing).

Fixpoint steps_of (obj : PlannedObject) (paths : list string) : list step :=
  match paths with
  | [] => []
  | p :: rest => (obj, p, bool_decide (rest = [])) :: steps_of obj rest
  end.
Definition planned_steps (objects : list PlannedObject) : list step :=
  concat (map (λ o, if has_transitions_to_run o then steps_of o (po_transition_paths o) else [])
            objects).

Fixpoint run_steps (ws : Workspace) (steps : list step) (r : ApplyResult) : IO W ApplyResult :=
  match steps with
  | [] => mret r
  | (o, p, l) :: rest =>
      r ← apply_one_transition ws o p l r;
      if Nat.ltb 0 (ar_failed r) then mret r else run_steps ws rest r
  end.

Lemma run_steps_app ws o paths rest : ∀ r s, ar_failed r = 0 →
  run_steps ws (steps_of o paths ++ rest) r s =
  (r ← apply_object_transitions ws o paths r;
   if Nat.ltb 0 (ar_failed r) then mret r else run_steps ws rest r) s.
Proof.
  induction paths as [|p paths IH]; intros r s Hr.
  - cbn. unfold mbind, io_bind, mret, io_ret. by rewrite Hr.
  - cbn [steps_of app run_steps apply_object_transitions]. unfold mbind, io_bind in *.
    destruct (apply_one_transition _ _ _ _ _ _) as [[r1| |] s1]; [|done..].
    destruct (Nat.ltb_spec 0 (ar_failed r1)) as [Hf|Hf].
    + unfold mret, io_ret. by destruct (Nat.ltb_spec 0 (ar_failed r1)); [|lia].
    + apply IH. lia.
Qed.

Lemma apply_transitions_steps ws objects : ∀ r s, ar_failed r = 0 →
  apply_transitions ws objects r s = run_steps ws (planned_steps objects) r s.
Proof.
  induction objects as [|o objects IH]; intros r s Hr; [done|].
  unfold planned_steps. cbn [map concat apply_transitions].
  destruct (has_transitions_to_run o); cbn [negb]; [|by apply IH].
  rewrite run_steps_app by done. unfold mbind, io_bind.
  destruct (apply_object_transitions _ _ _ _ _) as [[r1| |] s1]; [|done..].
  destruct (Nat.ltb_spec 0 (ar_failed r1)); [done|]. apply IH. lia.
Qed.

(** The rows that record a transition script: its own, and for the last one of a
    table also the table's new baseline. *)
Definition recorded (ws : Workspace) (x : step) (recs : list HistoryRecord) : Prop :=
  ∃ id, script_by_path ws (po_database_name x.1.1) x.1.2 = Some id ∧
    transition_records ws x.1.1 x.1.2 id
      (default (po_checksum x.1.1) (script_checksum ws id)) x.2 = Ok recs.

Lemma apply_one_transition_history ws x r s r' s' : idle s →
  apply_one_transition ws x.1.1 x.1.2 x.2 r s = (Ok r', s') →
  (r' = applied_one r ∧ idle s' ∧ ∃ recs, recorded ws x recs ∧ committed s' = committed s ++ recs) ∨
  (∃ errs, errs ≠ [] ∧ r' = push_errors errs r ∧
     (committed s' = committed s ∨ ∃ recs, recorded ws x recs ∧ committed s' = committed s ++ recs)).
Proof.
  intros Hi. unfold apply_one_transition, recorded.
  destruct (script_by_path _ _ _) as [id|]; [|intros [= <- <-]; right; eexists [_]; by auto].
  intros (abs & s1 & [= _ <-] & (body & s2 & Hb & Hrest)%io_bind_Ok)%io_bind_Ok.
  unfold verified_body in Hb. apply io_bind_Ok in Hb as (d & s3 & [= _ <-] & [= _ <-]).
  revert Hrest. destruct body as [msg|body]; [intros [= <- <-]; right; exists [msg]; by auto|].
  intros (recs & s4 & [= Hrecs <-] & (a & Htx & ->)%io_fmap_Ok)%io_bind_Ok.
  destruct (apply_in_tx_outcome body recs r x.1.2 s Hi) as [[_ [H|H]]|H].
  - destruct H as (r1 & s5 & E & (errs & ? & ? & ?) & _ & Hh). rewrite E in Htx.
    injection Htx as <- <-. right. exists errs. split; [done|]. split; [done|].
    destruct Hh as [?|[? _]]; [by left|right]. exists recs. eauto.
  - destruct H as (s5 & E & ? & ? & _). rewrite E in Htx. injection Htx as <- <-. left.
    split; [done|]. split; [done|]. exists recs. eauto.
  - destruct H as (r1 & s5 & E & (errs & ? & ? & ?) & _ & Hh). rewrite E in Htx.
    injection Htx as <- <-. right. exists errs. split; [done|]. split; [done|]. left.
    rewrite app_nil_r in Hh. tauto.
Qed.

(** C13. However a run of table transitions ends, the history has grown by the
    rows of a prefix of the planned scripts, script by script in plan order,
    each with its own record and a table's last one also with the table's new
    baseline; if nothing failed, by the rows of all of them. *)
Theorem apply_transitions_history ws objects r s r' s' :
  idle s → ar_failed r = 0 → apply_transitions ws objects r s = (Ok r', s') →
  ∃ done rest groups, planned_steps objects = done ++ rest ∧
    Forall2 (recorded ws) done groups ∧ committed s' = committed s ++ concat groups ∧
    (ar_failed r' = 0 → rest = [] ∧ idle s' ∧ ar_applied r' = length done + ar_applied r).
Proof.
  intros Hi Hr. rewrite apply_transitions_steps by done. revert r s Hi Hr.
  induction (planned_steps objects) as [|x steps IH]; intros r s Hi Hr.
  - intros [= <- <-]. exists [], [], []. cbn. rewrite app_nil_r. split; [done|]. split; [constructor|]. split; [done|]. auto.
  - destruct x as [[o p] l]. cbn [run_steps]. intros (r1 & s1 & Ho & Hrest)%io_bind_Ok.
    apply (apply_one_transition_history ws (o, p, l)) in Ho; [|done].
    revert Hrest. destruct Ho as [(-> & Hi1 & recs & Hrec & Hh)|(errs & Hne & -> & Hh)].
    + change (ar_failed (applied_one r)) with (ar_failed r). rewrite Hr. cbn [Nat.ltb Nat.leb].
      intros H'. apply IH in H' as (d & rest & groups & -> & Hf & Hc & Hok); [|done..].
      exists ((o, p, l) :: d), rest, (recs :: groups). split; [done|]. split; [by constructor|].
      split; [cbn; by rewrite app_assoc, <- Hh|]. intros Hz. destruct (Hok Hz) as (? & ? & ->).
      split; [done|]. split; [done|]. cbn. lia.
    + assert (Hf : 0 < ar_failed (push_errors errs r)).
      { rewrite push_errors_spec. cbn. destruct errs; [done|]. cbn. lia. }
      destruct (Nat.ltb_spec 0 (ar_failed (push_errors errs r))); [|lia]. intros [= <- <-].
      destruct Hh as [Hh|(recs & Hrec & Hh)].
      * exists [], ((o, p, l) :: steps), []. cbn. rewrite app_nil_r.
        split; [done|]. split; [constructor|]. split; [done|lia].
      * exists [(o, p, l)], steps, [recs]. cbn. rewrite app_nil_r.
        split; [done|]. split; [by repeat constructor|]. split; [done|lia].
Qed.
End apply.

(** A batch is run in the order of its kinds, types before tables before
    views before procedures, and by key within a kind; nothing is lost or
    duplicated, and objects with the same kind and key keep their order. *)
Theorem sort_tx_batch_spec batch :
  sort_tx_batch batch ≡ₚ batch ∧
  StronglySorted batch_leb (sort_tx_batch batch) ∧
  ∀ o, filter (λ x, equiv_to batch_leb o x = true) (sort_tx_batch batch)
       = filter (λ x, equiv_to batch_leb o x = true) batch.
Proof.
  split; [apply sort_by_perm|]. split.
  - apply sort_by_sorted; [apply batch_leb_total|apply batch_leb_trans].
  - intros o. apply sort_by_stable; [apply batch_leb_total|apply batch_leb_trans].
Qed.

(** ** Concrete inputs *)

Module ApplySample.
#[local] Existing Instances Concrete.unicode Concrete.fingerprint Concrete.map_order
  Concrete.digest Concrete.hex RefServer.world RefServer.json RefServer.tx_server.

Definition table_path : string := "App/dbo/tables/users.sql".
Definition script1 : string := "App/dbo/tables/_migrations/users/001_abcdef1_add.sql".
Definition script2 : string := "App/dbo/tables/_migrations/users/002_abcdef2_fill.sql".
Definition files : list (string * string) :=
  [("/repo/" +:+ table_path, "CREATE TABLE users");
   ("/repo/" +:+ script1, "ALTER TABLE users ADD a");
   ("/repo/" +:+ script2, "UPDATE users SET a = 0")].
Definition read (p : string) : M string :=
  match (list_to_map files : gmap string string) !! p with Some t => Ok t | None => Err (Io "") end.
Definition tree : FsNode :=
  FDir [("App", FDir [("dbo", FDir [("tables", FDir [("users.sql", FFile);
    ("_migrations", FDir [("users", FDir [("001_abcdef1_add.sql", FFile);
                                          ("002_abcdef2_fill.sql", FFile)])])])])])].

Definition ws : Workspace :=
  match Scan.populate read 4 (λ w, Ok w) true Workspace_default (Ok "/repo") tree with
  | Ok w => w | _ => Workspace_default end.
Definition users : PlannedObject :=
  mk_PlannedObject "dbo/tables/users" table_path "dbo" "tables" "users" "App" ""
    [script1; script2] None (content_checksum "CREATE TABLE users") ReprocessChanged true.

Definition s0 (faults : list (option RefServer.Fault)) : St RefServer.Server :=
  RefServer.start files faults 30.

Definition keys_after (faults : list (option RefServer.Fault)) : list (string * string) :=
  map (λ r, (hr_normalized_key r, hr_kind r))
    (committed (apply_transitions ws [users] ApplyResult_default (s0 faults)).2).

Example all_applied : keys_after [] =
  [(script1, "migration"); (script2, "migration"); ("dbo/tables/users", "object")].
Proof. vm_compute. reflexivity. Qed.

(** The history insertion of the second script fails: only the first is there. *)
Example second_fails : keys_after (replicate 8 None ++ [Some RefServer.FaultError])
  = [(script1, "migration")].
Proof. vm_compute. reflexivity. Qed.

Definition row : HistoryRecord := mk_HistoryRecord "k" "object" "" "" "" "" "applied" "".

Lemma apply_transitions_history_witness :
  let out := apply_transitions ws [users] ApplyResult_default (s0 []) in
  ∃ done rest groups, planned_steps [users] = done ++ rest ∧
    Forall2 (recorded ws) done groups ∧ committed out.2 = committed (s0 []) ++ concat groups ∧
    (0 = 0 → rest = [] ∧ idle out.2 ∧ 2 = length done + 0).
Proof.
  refine (apply_transitions_history ws [users] ApplyResult_default (s0 [])
            (mk_ApplyResult 2 0 0 [] true) _ _ eq_refl _).
  - by repeat split.
  - refine (eq_trans (surjective_pairing _) (f_equal (λ x, (x, _)) _)). vm_compute. reflexivity.
Defined.
End ApplySample.
