(* ===== verification/Gate.v ===== *)
(** * The incremental plan gate ([gate/])

    Snapshots of plans and their comparison ([snapshot.rs], [compare/]), the
    go/no-go decision ([evaluate.rs]), and the objects a change touches
    ([delta.rs], [domain/workspace/views/paths.rs]).  Sets of keys are hash sets:
    a loop over one runs in an unspecified order. *)

From S2P Require Export Timings Config Plan.
From Stdlib Require Import Ascii.
From Stdlib Require String.

(** ** Snapshots ([snapshot.rs]) *)

Definition SNAPSHOT_VERSION : string := "2".

Record SnapshotObject := mk_SnapshotObject {
  so_object_path : string;
  so_planned_action : string;
  so_checksum_hex : string;
  so_exists : bool;
}.
#[global] Instance SnapshotObject_eq_dec : EqDecision SnapshotObject.
Proof. solve_decision. Defined.

Record PlanSnapshot := mk_PlanSnapshot {
  snap_objects : gmap string SnapshotObject;
  snap_version : string;
  snap_blocked : bool;
}.

Definition snapshot_key (obj : PlannedObject) : string :=
  if String.eqb (po_database_name obj) "" then po_normalized_key obj
  else po_database_name obj +:+ "/" +:+ po_normalized_key obj.

Definition snapshot_object `{HX : Hex} (obj : PlannedObject) : SnapshotObject :=
  mk_SnapshotObject (po_object_path obj) (action_str (po_planned_action obj))
    (hex_encode (po_checksum obj)) (po_exists obj).

Definition from_plan `{HX : Hex} (plan : MigrationPlan) : PlanSnapshot :=
  mk_PlanSnapshot
    (foldl (λ m obj, <[snapshot_key obj := snapshot_object obj]> m) ∅ (mp_objects plan))
    SNAPSHOT_VERSION (mp_blocked plan).

(** ** Comparison ([compare_core.rs]) *)

Record CompareOptions := mk_CompareOptions {
  co_delta_keys : gset string;
  co_strict_unexpected : bool;
}.

Record CompareResult := mk_CompareResult {
  cr_passed : bool;
  cr_messages : list string;
  cr_unexpected : list string;
}.
#[global] Instance CompareResult_eta : Settable CompareResult := λ r,
  mk_CompareResult (cr_passed r) (cr_messages r) (cr_unexpected r).

Definition diff_entry (b c : option SnapshotObject) : string :=
  match b, c with
  | None, None => ""
  | None, Some c => so_planned_action c
  | Some b, None => so_planned_action b
  | Some b, Some c =>
      if negb (String.eqb (so_planned_action b) (so_planned_action c)) then so_planned_action c
      else if negb (String.eqb (so_checksum_hex b) (so_checksum_hex c)) then "checksum"
      else if negb (Bool.eqb (so_exists b) (so_exists c)) then "exists"
      else ""
  end.

Definition is_risky_action (action : string) : bool :=
  String.eqb action "fail" || String.eqb action "reprocess_changed_blocked".

Definition push_message (m : string) (r : CompareResult) : CompareResult :=
  r <| cr_passed := false |> <| cr_messages ::= λ l, l ++ [m] |>.

(** The body of the loop over the keys of both snapshots. *)
Definition compare_key (baseline current : PlanSnapshot) (opts : CompareOptions)
    (res : CompareResult) (key : string) : CompareResult :=
  let diffs := diff_entry (snap_objects baseline !! key) (snap_objects current !! key) in
  if String.eqb diffs "" then res
  else if bool_decide (key ∈ co_delta_keys opts) then
    match snap_objects current !! key with
    | Some c =>
        if is_risky_action (so_planned_action c)
        then push_message ("risky action for " +:+ key +:+ ": " +:+ so_planned_action c) res
        else res
    | None => res
    end
  else if co_strict_unexpected opts then
    res <| cr_passed := false |>
        <| cr_unexpected ::= λ l, l ++ ["unexpected plan change outside delta: " +:+ key] |>
  else res.

Section compare.
Context `{HM : MapOrder}.

(** A loop over a [HashSet]. *)
Definition set_order (X : gset string) : list string := (iter_order (gset_to_gmap tt X)).*1.

Definition union_keys (a b : PlanSnapshot) : gset string :=
  dom (snap_objects a) ∪ dom (snap_objects b).

Definition compare_snapshots (baseline current : PlanSnapshot) (opts : CompareOptions)
    : CompareResult :=
  let res := mk_CompareResult true [] [] in
  if negb (String.eqb (snap_version baseline) (snap_version current)) then
    push_message ("snapshot version mismatch: baseline=" +:+ snap_version baseline
                    +:+ " current=" +:+ snap_version current) res
  else
    let res := if snap_blocked current && negb (snap_blocked baseline)
               then push_message "plan became blocked" res else res in
    let res := foldl (compare_key baseline current opts) res
                 (set_order (union_keys baseline current)) in
    if negb (cr_passed res) && bool_decide (cr_messages res = [])
    then res <| cr_messages := ["incremental plan gate failed"] |> else res.

(** ** Full equality of snapshots ([parity.rs]) *)

Definition parity_field (key field e a : string) : list string :=
  if String.eqb e a then []
  else [key +:+ " " +:+ field +:+ ": baseline=" +:+ e +:+ " actual=" +:+ a].

Definition parity_object_fields (key : string) (e a : SnapshotObject) (msgs : list string)
    : list string :=
  msgs
    ++ parity_field key "object_path" (so_object_path e) (so_object_path a)
    ++ parity_field key "planned_action" (so_planned_action e) (so_planned_action a)
    ++ parity_field key "checksum_hex" (so_checksum_hex e) (so_checksum_hex a)
    ++ (if Bool.eqb (so_exists e) (so_exists a) then []
        else [key +:+ " exists: baseline=" +:+ bool_to_string (so_exists e)
                +:+ " actual=" +:+ bool_to_string (so_exists a)]).

Definition parity_key (expected actual : PlanSnapshot) (msgs : list string) (key : string)
    : list string :=
  match snap_objects expected !! key, snap_objects actual !! key with
  | None, Some _ => msgs ++ ["missing in baseline snapshot: " +:+ key]
  | Some _, None => msgs ++ ["missing in actual snapshot: " +:+ key]
  | Some e, Some a => parity_object_fields key e a msgs
  | None, None => msgs
  end.

Definition parity_messages (expected actual : PlanSnapshot) : list string :=
  let msgs := if String.eqb (snap_version expected) (snap_version actual) then []
              else ["version: baseline=" +:+ snap_version expected +:+ " actual="
                      +:+ snap_version actual] in
  let msgs := if Bool.eqb (snap_blocked expected) (snap_blocked actual) then msgs
              else msgs ++ ["blocked: baseline=" +:+ bool_to_string (snap_blocked expected)
                              +:+ " actual=" +:+ bool_to_string (snap_blocked actual)] in
  foldl (parity_key expected actual) msgs (set_order (union_keys expected actual)).

(** ** The decision ([evaluate.rs]) *)

Record GateInput := mk_GateInput {
  gi_blocked : bool;
  gi_timings : PhaseTimings;
  gi_max_plan_wall_ms : Z;
  gi_baseline : PlanSnapshot;
  gi_current : PlanSnapshot;
  gi_delta_keys : gset string;
}.

Record GateResult := mk_GateResult {
  gr_passed : bool;
  gr_messages : list string;
  gr_compare : CompareResult;
  gr_timings : PhaseTimings;
  gr_delta_key_count : nat;
}.

Definition slo_exceeded (i : GateInput) : bool :=
  (0 <? gi_max_plan_wall_ms i)%Z && (gi_max_plan_wall_ms i <=? pt_plan_wall_ms (gi_timings i))%Z.

Definition evaluate_gate (i : GateInput) : GateResult :=
  let passed := true in
  let messages := [] in
  let '(passed, messages) :=
    if gi_blocked i then (false, messages ++ ["plan blocked"]) else (passed, messages) in
  let cmp := compare_snapshots (gi_baseline i) (gi_current i)
               (mk_CompareOptions (gi_delta_keys i) true) in
  let passed := if negb (cr_passed cmp) then false else passed in
  let messages := messages ++ cr_messages cmp ++ cr_unexpected cmp in
  let '(passed, messages) :=
    if slo_exceeded i
    then (false, messages ++ ["plan wall SLO exceeded: "
                                +:+ pretty (pt_plan_wall_ms (gi_timings i)) +:+ "ms >= "
                                +:+ pretty (gi_max_plan_wall_ms i) +:+ "ms"])
    else (passed, messages) in
  mk_GateResult passed messages cmp (gi_timings i) (size (gi_delta_keys i)).
End compare.

(** A present value must be a positive number: a typo must not disable the limit. *)
Definition max_plan_wall_ms_from_env `{HU : Unicode} (env : string → EnvVar)
    : string + Z :=
  match env "RMIG_GATE_MAX_PLAN_WALL_MS" with
  | EnvText v =>
      if String.eqb (trim v) "" then inr 0%Z
      else
        let error := "RMIG_GATE_MAX_PLAN_WALL_MS must be a positive integer (ms), got "
                       +:+ debug_str v in
        match parse_i64 (trim v) with
        | Some n => if (0 <? n)%Z then inr n else inl error
        | None => inl error
        end
  | _ => inr 0%Z
  end.

(** ** Paths and objects ([views/paths.rs]) *)

Definition objects_by_path (w : Workspace) : M (gmap string object_key) :=
  foldM (λ out '(i, obj),
    path ← entry_script_path w obj;
    key ← entry_key w i;
    Ok (<[path := key]> out)) ∅ (imap pair (ws_object_entries w)).

Section delta.
Context `{HM : MapOrder}.

(** A row id of 0 would underflow: a panic, or an index no table has. *)
Definition transition_paths_by_script (w : Workspace) : M (gmap string string) :=
  foldM (λ out '(row_id, entries),
    i ← or_panic (row_index row_id);
    table_key ← entry_key w i;
    foldM (λ out e,
      path ← script_path_str w (te_script_id e);
      Ok (<[path := table_key]> out)) out entries) ∅ (iter_order (ws_transitions_by_row w)).

(** ** Changed paths to keys ([delta.rs]) *)

Definition qualified_key (path key : string) : string :=
  let db := default "" (head (split_on "/" path)) in
  if negb (String.eqb db "") then db +:+ "/" +:+ key else key.

(** A changed path that is no script's path matches by suffix, either way. *)
Definition suffix_match (path p : string) : bool := ends_with p path || ends_with path p.

Definition add_suffix_matches (p : string) (m : gmap string string) (keys : gset string)
    : gset string :=
  foldl (λ keys '(path, key),
    if suffix_match path p then {[qualified_key path key]} ∪ keys else keys) keys (iter_order m).

Definition keys_for_path (by_path trans_paths : gmap string string) (keys : gset string)
    (raw : string) : gset string :=
  let p := replace_char "\" "/" (trim raw) in
  if String.eqb p "" then keys
  else match by_path !! p with
  | Some k => {[qualified_key p k]} ∪ keys
  | None =>
      match trans_paths !! p with
      | Some table_key => {[qualified_key p table_key]} ∪ keys
      | None => add_suffix_matches p trans_paths (add_suffix_matches p by_path keys)
      end
  end.

Definition keys_for_changed_paths (w : Workspace) (changed_paths : list string)
    : M (gset string) :=
  if bool_decide (changed_paths = []) then Ok ∅
  else
    by_path ← objects_by_path w;
    trans_paths ← transition_paths_by_script w;
    Ok (foldl (keys_for_path by_path trans_paths) ∅ changed_paths).
End delta.

(** ** Triggers pull in their tables *)

(** [format!("{db}/{key}")] for the entry at [i]. *)
Definition entry_gate_key (w : Workspace) (i : nat) : M string :=
  obj ← ws_entry w i;
  key ← entry_key w i;
  Ok (database_name w (oe_db_id obj) +:+ "/" +:+ key).

(** The body of the inner loop; [added] counts the keys that were new. *)
Definition expand_entry (w : Workspace) (st : gset string * nat) (i : nat)
    : M (gset string * nat) :=
  let '(delta, added) := st in
  k ← entry_gate_key w i;
  if bool_decide (k ∈ delta) then
    kind ← entry_kind_part w i;
    if String.eqb kind "triggers" then
      match ws_parent_by_row w !! row_id_at i with
      | Some pref =>
          match row_index (parent_row_id pref) with
          | Some pi =>
              pk ← entry_gate_key w pi;
              if bool_decide (pk ∈ delta) then Ok (delta, added)
              else Ok ({[pk]} ∪ delta, S added)
          | None => Ok st
          end
      | None => Ok st
      end
    else Ok st
  else Ok st.

Definition expand_pass (w : Workspace) (delta : gset string) : M (gset string * nat) :=
  foldM (expand_entry w) (delta, 0) (seq 0 (object_count w)).

(** The [loop]; out of fuel is [Panic], which [expand_delta_closure_spec] excludes. *)
Fixpoint expand_loop (fuel : nat) (w : Workspace) (delta : gset string) : M (gset string) :=
  match fuel with
  | 0 => Panic
  | S fuel =>
      '(delta, added) ← expand_pass w delta;
      if Nat.eqb added 0 then Ok delta else expand_loop fuel w delta
  end.

(** Each pass but the last adds the parent of some entry. *)
Definition expand_delta_closure (w : Workspace) (delta : gset string) : M (gset string) :=
  if bool_decide (delta = ∅) then Ok delta
  else expand_loop (S (object_count w)) w delta.

(** ** Facts: loops over key sets *)

Section gate_facts.
Context `{HM : MapOrder}.

Lemma set_order_elem (X : gset string) k : k ∈ set_order X ↔ k ∈ X.
Proof.
  unfold set_order. rewrite iter_order_perm, list_elem_of_fmap. split.
  - intros ([k' []] & -> & Hk%elem_of_map_to_list). by apply lookup_gset_to_gmap_Some in Hk as [? _].
  - intros Hk. exists (k, tt). split; [done|]. apply elem_of_map_to_list.
    by apply lookup_gset_to_gmap_Some.
Qed.

Lemma union_keys_elem a b k :
  k ∈ set_order (union_keys a b) ↔ is_Some (snap_objects a !! k) ∨ is_Some (snap_objects b !! k).
Proof. unfold union_keys. by rewrite set_order_elem, elem_of_union, !elem_of_dom. Qed.

(** A loop that only appends. *)
Lemma foldl_append {X A} (f : list A → X → list A) (g : X → list A) l msgs :
  (∀ msgs x, f msgs x = msgs ++ g x) → foldl f msgs l = msgs ++ (l ≫= g).
Proof.
  intros Hf. revert msgs. induction l as [|x l IH]; intros msgs; cbn.
  - by rewrite app_nil_r.
  - by rewrite IH, Hf, app_assoc.
Qed.

Lemma bind_nil {X A} (g : X → list A) l : l ≫= g = [] ↔ ∀ x, x ∈ l → g x = [].
Proof.
  induction l as [|x l IH]; cbn; [split; [intros _ x Hx; by inversion Hx|done]|].
  rewrite app_nil, IH. split.
  - intros [Hx Hl] y [->|Hy]%elem_of_cons; eauto.
  - intros Hall. split; [apply Hall; by left|]. intros y Hy. apply Hall. by right.
Qed.

(** ** Facts: the gate's decision *)

(** What the gate looks at: the file's path may change freely. *)
Definition observed (o : SnapshotObject) : string * string * bool :=
  (so_planned_action o, so_checksum_hex o, so_exists o).

(** Every entry has an action label, as in every snapshot taken from a plan. *)
Definition labelled (s : PlanSnapshot) : Prop :=
  ∀ k o, snap_objects s !! k = Some o → so_planned_action o ≠ "".

Definition risky (c : option SnapshotObject) : bool :=
  match c with Some c => is_risky_action (so_planned_action c) | None => false end.

Lemma diff_entry_observed b c :
  (∀ o, b = Some o ∨ c = Some o → so_planned_action o ≠ "") →
  diff_entry b c = "" ↔ observed <$> b = observed <$> c.
Proof.
  intros Hlab. destruct b as [b|], c as [c|]; cbn;
    [|split; [intros E; by destruct (Hlab b (or_introl eq_refl))|done]
     |split; [intros E; by destruct (Hlab c (or_intror eq_refl))|done]|done].
  assert (Hc : so_planned_action c ≠ "") by eauto.
  unfold observed. split.
  - destruct (String.eqb_spec (so_planned_action b) (so_planned_action c)) as [->|]; cbn; [|done].
    destruct (String.eqb_spec (so_checksum_hex b) (so_checksum_hex c)) as [->|]; cbn; [|done].
    by destruct (so_exists b), (so_exists c).
  - intros [= -> -> ->]. by rewrite !String.eqb_refl, Bool.eqb_reflx.
Qed.

(** What one key contributes to a strict comparison. *)
Definition key_messages (b c : PlanSnapshot) (delta : gset string) (k : string) : list string :=
  if String.eqb (diff_entry (snap_objects b !! k) (snap_objects c !! k)) "" then []
  else if bool_decide (k ∈ delta) then
    match snap_objects c !! k with
    | Some o => if is_risky_action (so_planned_action o)
                then ["risky action for " +:+ k +:+ ": " +:+ so_planned_action o] else []
    | None => []
    end
  else [].
Definition key_unexpected (b c : PlanSnapshot) (delta : gset string) (k : string) : list string :=
  if String.eqb (diff_entry (snap_objects b !! k) (snap_objects c !! k)) "" then []
  else if bool_decide (k ∈ delta) then []
  else ["unexpected plan change outside delta: " +:+ k].
Definition key_ok (b c : PlanSnapshot) (delta : gset string) (k : string) : bool :=
  bool_decide (key_messages b c delta k = [] ∧ key_unexpected b c delta k = []).

Lemma compare_key_eq b c delta res k :
  compare_key b c (mk_CompareOptions delta true) res k =
  mk_CompareResult (cr_passed res && key_ok b c delta k)
    (cr_messages res ++ key_messages b c delta k)
    (cr_unexpected res ++ key_unexpected b c delta k).
Proof.
  unfold compare_key, key_ok, key_messages, key_unexpected, push_message. cbn.
  destruct res as [p m u]. cbn.
  destruct (String.eqb _ ""); [by rewrite !app_nil_r, andb_true_r|].
  destruct (bool_decide (k ∈ delta)); [|cbn; by rewrite app_nil_r, andb_false_r].
  destruct (snap_objects c !! k) as [o|]; [|by rewrite !app_nil_r, andb_true_r].
  destruct (is_risky_action _); cbn; by rewrite !app_nil_r, ?andb_true_r, ?andb_false_r.
Qed.

Lemma compare_keys_fold b c delta l res :
  foldl (compare_key b c (mk_CompareOptions delta true)) res l =
  mk_CompareResult (cr_passed res && forallb (key_ok b c delta) l)
    (cr_messages res ++ (l ≫= key_messages b c delta))
    (cr_unexpected res ++ (l ≫= key_unexpected b c delta)).
Proof.
  revert res. induction l as [|k l IH]; intros res; cbn.
  - destruct res; cbn. by rewrite !app_nil_r, andb_true_r.
  - rewrite IH, compare_key_eq. cbn. by rewrite <- !app_assoc, <- andb_assoc.
Qed.

Lemma key_ok_spec b c delta k :
  labelled b → labelled c →
  key_ok b c delta k = true ↔
  (observed <$> snap_objects b !! k ≠ observed <$> snap_objects c !! k →
   k ∈ delta ∧ risky (snap_objects c !! k) = false).
Proof.
  intros Hb Hc. unfold key_ok. rewrite bool_decide_eq_true. unfold key_messages, key_unexpected.
  assert (Hd := diff_entry_observed (snap_objects b !! k) (snap_objects c !! k)
                  ltac:(intros o [?|?]; eauto)).
  destruct (String.eqb_spec (diff_entry (snap_objects b !! k) (snap_objects c !! k)) "") as [E|E].
  { split; [|done]. intros _ Hne. by apply Hd in E. }
  assert (observed <$> snap_objects b !! k ≠ observed <$> snap_objects c !! k) as Hne
    by (intros ?; by apply E, Hd).
  case_bool_decide as Hin.
  - destruct (snap_objects c !! k) as [o|] eqn:Ho; cbn; [|split; done].
    destruct (is_risky_action _) eqn:Hr; [|split; done].
    split; [intros [? _]; done|]. intros Hgo. by destruct (Hgo Hne).
  - split; [intros [_ ?]; done|]. intros Hgo. by destruct (Hgo Hne).
Qed.

Lemma from_plan_labelled `{HX : Hex} plan : labelled (from_plan plan).
Proof.
  unfold labelled, from_plan. cbn. induction (mp_objects plan) as [|x l IH] using rev_ind.
  { intros k o Ho. cbn in Ho. by rewrite lookup_empty in Ho. }
  intros k o. rewrite foldl_app. cbn. rewrite lookup_insert_Some. intros [[_ <-]|[_ Ho]]; [|eauto].
  cbn. by destruct (po_planned_action x).
Qed.

Lemma flat_forallb b c delta l :
  forallb (key_ok b c delta) l = true ↔
  (l ≫= key_messages b c delta) = [] ∧ (l ≫= key_unexpected b c delta) = [].
Proof.
  rewrite forallb_forall, !bind_nil. unfold key_ok. setoid_rewrite bool_decide_eq_true.
  setoid_rewrite <- list_elem_of_In. naive_solver.
Qed.

(** A strict comparison passes exactly when it has nothing to report. *)
Lemma compare_passed b c delta :
  let r := compare_snapshots b c (mk_CompareOptions delta true) in
  (cr_passed r = true ↔
     snap_version b = snap_version c ∧ (snap_blocked c = true → snap_blocked b = true) ∧
     ∀ k, k ∈ set_order (union_keys b c) → key_ok b c delta k = true) ∧
  (cr_messages r ++ cr_unexpected r = [] ↔ cr_passed r = true).
Proof.
  cbv zeta. unfold compare_snapshots.
  destruct (String.eqb_spec (snap_version b) (snap_version c)) as [Ev|Ev]; cbn -[compare_key];
    [|split; [naive_solver|split; done]].
  rewrite compare_keys_fold. cbn.
  set (r0 := if snap_blocked c && negb (snap_blocked b) then _ else _).
  set (l := set_order (union_keys b c)).
  assert (cr_passed r0 = true ∧ cr_messages r0 = [] ∧ cr_unexpected r0 = [] ∧
            (snap_blocked c = true → snap_blocked b = true) ∨
          cr_passed r0 = false ∧ cr_messages r0 ≠ [] ∧
            ¬ (snap_blocked c = true → snap_blocked b = true)) as Hr0.
  { unfold r0. destruct (snap_blocked c), (snap_blocked b); cbn; naive_solver. }
  destruct Hr0 as [(Hp & Hm & Hu & Hb)|(Hp & Hm & Hb)].
  - rewrite Hp, Hm, Hu. cbn. destruct (forallb (key_ok b c delta) l) eqn:Hall; cbn.
    + rewrite app_nil. pose proof Hall as [-> ->]%flat_forallb.
      rewrite forallb_forall in Hall. setoid_rewrite list_elem_of_In. naive_solver.
    + assert (¬ ∀ k, k ∈ l → key_ok b c delta k = true) as Hno.
      { intros Hk. apply not_true_iff_false in Hall. apply Hall, forallb_forall.
        intros k. rewrite <- list_elem_of_In. apply Hk. }
      case_bool_decide as Hmsg; cbn; (split; [naive_solver|]); [done|].
      rewrite app_nil. naive_solver.
  - rewrite Hp. cbn. rewrite bool_decide_false; [|intros [? _]%app_nil; done]. cbn.
    rewrite !app_nil. naive_solver.
Qed.


Lemma parity_field_nil key field e a : parity_field key field e a = [] ↔ e = a.
Proof. unfold parity_field. destruct (String.eqb_spec e a); split; done. Qed.

Lemma bool_message_nil (e a : bool) (m : string) : (if Bool.eqb e a then [] else [m]) = [] ↔ e = a.
Proof. by destruct e, a. Qed.

Lemma parity_key_nil e a k :
  parity_key e a [] k = [] ↔ snap_objects e !! k = snap_objects a !! k.
Proof.
  unfold parity_key, parity_object_fields.
  destruct (snap_objects e !! k) as [[p l c x]|], (snap_objects a !! k) as [[p' l' c' x']|];
    cbn; [|split; done..].
  rewrite !app_nil, !parity_field_nil, bool_message_nil. naive_solver.
Qed.

(** The parity check of end-to-end baselines reports nothing exactly when the
    two snapshots are equal: version, blocked flag, the set of keys and every
    field of every object, in whatever order the keys are visited. *)
Theorem parity_messages_spec (e a : PlanSnapshot) : parity_messages e a = [] ↔ e = a.
Proof.
  unfold parity_messages.
  rewrite (foldl_append _ (parity_key e a [])).
  2:{ intros msgs k. unfold parity_key, parity_object_fields.
      destruct (snap_objects e !! k), (snap_objects a !! k); cbn; by rewrite ?app_nil_r. }
  rewrite app_nil, bind_nil. destruct e as [eo ev eb], a as [ao av ab]. cbn -[parity_key].
  split.
  - intros [Hhd Hk].
    destruct (String.eqb_spec ev av) as [->|], (Bool.eqb eb ab) eqn:Eb; try done.
    apply eqb_prop in Eb as ->. f_equal. apply map_eq. intros k.
    destruct (decide (k ∈ set_order (union_keys (mk_PlanSnapshot eo av ab) (mk_PlanSnapshot ao av ab))))
      as [Hin|Hin]; [by apply Hk, parity_key_nil in Hin|].
    rewrite union_keys_elem in Hin. cbn in Hin. rewrite <- !not_eq_None_Some in Hin.
    destruct (eo !! k), (ao !! k); naive_solver.
  - intros [= -> -> ->]. rewrite String.eqb_refl, Bool.eqb_reflx. split; [done|].
    intros k _. by apply parity_key_nil.
Qed.

(** A difference is invisible when the label it would be reported by is empty. *)
Lemma unlabelled_change_is_hidden path sum ex :
  diff_entry (Some (mk_SnapshotObject path "" sum ex)) None = "".
Proof. done. Qed.
End gate_facts.

(** ** Facts: the closure under trigger → table *)

Section closure.
Context {K : Type} `{Countable K}.

(** The pass over a list of edges. *)
Definition edge_step (st : gset K * nat) (e : K * K) : gset K * nat :=
  if bool_decide (e.1 ∈ st.1) then
    if bool_decide (e.2 ∈ st.1) then st else ({[e.2]} ∪ st.1, S st.2)
  else st.
Definition edge (E : list (K * K)) (a b : K) : Prop := (a, b) ∈ E.
Definition targets (E : list (K * K)) : gset K := list_to_set E.*2.

Record pass_post (E : list (K * K)) (d : gset K) (n : nat) (st : gset K * nat) : Prop := {
  pp_sub : d ⊆ st.1;
  pp_targets : st.1 ⊆ d ∪ targets E;
  pp_size : size st.1 + n = size d + st.2;
  pp_reach k : k ∈ st.1 → ∃ k0, k0 ∈ d ∧ rtc (edge E) k0 k;
}.

Lemma list_to_set_size_le (l : list K) : size (list_to_set l : gset K) ≤ length l.
Proof.
  induction l as [|x l IH]; cbn; [by rewrite size_empty|].
  pose proof (size_union_alt ({[x]} : gset K) (list_to_set l)) as Hs.
  rewrite size_singleton in Hs. rewrite Hs.
  pose proof (subseteq_size (list_to_set l ∖ {[x]}) (list_to_set l : gset K)). set_solver by lia.
Qed.

Lemma pass_spec E E' d n st :
  E' ⊆ E → pass_post E d n st → pass_post E d n (foldl edge_step st E').
Proof.
  revert st. induction E' as [|e E' IH]; intros st Hin Hst; [done|]. cbn.
  apply IH; [intros x Hx; apply Hin; by right|]. destruct Hst as [H1 H2 H3 H4].
  assert (e ∈ E) as He by (apply Hin; by left).
  unfold edge_step. case_bool_decide; [|done]. case_bool_decide; [done|]. split; cbn.
  - set_solver.
  - assert (e.2 ∈ targets E).
    { apply elem_of_list_to_set, list_elem_of_fmap. eauto. }
    set_solver.
  - rewrite size_union, size_singleton by set_solver. lia.
  - intros k [->%elem_of_singleton|Hk]%elem_of_union; [|eauto].
    destruct (H4 e.1) as (k0 & Hk0 & Hr); [done|]. exists k0. split; [done|].
    eapply rtc_r; [exact Hr|]. unfold edge. by destruct e.
Qed.

Lemma pass_mono E st : (foldl edge_step st E).2 ≥ st.2.
Proof.
  revert st. induction E as [|e E IH]; intros st; cbn; [lia|].
  specialize (IH (edge_step st e)). unfold edge_step in *. repeat case_bool_decide; cbn in *; lia.
Qed.

(** A pass that adds nothing has found the set closed. *)
Lemma pass_closed E d n :
  (foldl edge_step (d, n) E).2 = n →
  foldl edge_step (d, n) E = (d, n) ∧ ∀ a b, edge E a b → a ∈ d → b ∈ d.
Proof.
  induction E as [|e E IH]; cbn; intros Hn.
  { split; [done|]. intros a b Hab. by apply elem_of_nil in Hab. }
  assert (edge_step (d, n) e = (d, n) ∧ (e.1 ∈ d → e.2 ∈ d)) as [He Hc].
  { pose proof (pass_mono E (edge_step (d, n) e)) as Hm. unfold edge_step in *. cbn in *.
    repeat case_bool_decide; cbn in *; [done|lia|done]. }
  rewrite He in *. destruct (IH Hn) as [-> Hcl]. split; [done|].
  intros a b [E1|Hab]%elem_of_cons; [|by apply Hcl]. by destruct e; injection E1 as -> ->.
Qed.

Lemma closed_rtc (E : list (K * K)) (d : gset K) a b :
  (∀ a b, edge E a b → a ∈ d → b ∈ d) → rtc (edge E) a b → a ∈ d → b ∈ d.
Proof. intros Hc Hr. induction Hr; eauto. Qed.

(** How many passes are still needed: targets that are not in the set. *)
Lemma missing_decreases E d :
  (foldl edge_step (d, 0) E).2 ≠ 0 →
  size (targets E ∖ (foldl edge_step (d, 0) E).1) < size (targets E ∖ d).
Proof.
  intros Hn. destruct (pass_spec E E d 0 (d, 0)) as [H1 H2 H3 _]; [done| |].
  { split; cbn; [done|set_solver|lia|]. intros k Hk. exists k. split; [done|constructor]. }
  set (d' := (foldl edge_step (d, 0) E).1) in *. set (a := (foldl edge_step (d, 0) E).2) in *.
  apply subset_size. split; [set_solver|]. intros Hsub.
  assert (d' ⊆ d) as Hd.
  { intros k Hk. destruct (decide (k ∈ d)); [done|].
    assert (k ∈ targets E ∖ d') by set_solver. set_solver. }
  assert (d' = d) as E' by set_solver. rewrite E' in H3. lia.
Qed.
End closure.

Section expand.
Context (w : Workspace).

(** Every entry has its key, and recorded parents are entries. *)
Record gate_wf : Prop := {
  gw_keys i : i < object_count w → is_Ok (entry_key w i);
  gw_parents row pref : ws_parent_by_row w !! row = Some pref →
    N.to_nat (parent_row_id pref) ≤ object_count w;
}.

Definition gate_key (i : nat) : string :=
  match entry_gate_key w i with Ok k => k | _ => "" end.

(** The trigger at row [i] and the table it hangs on. *)
Definition trigger_parent (i : nat) : option (string * string) :=
  match entry_kind_part w i with
  | Ok kind =>
      if String.eqb kind "triggers" then
        pref ← ws_parent_by_row w !! row_id_at i;
        pi ← row_index (parent_row_id pref);
        Some (gate_key i, gate_key pi)
      else None
  | _ => None
  end.
Definition trigger_edges : list (string * string) :=
  omap trigger_parent (seq 0 (object_count w)).

Context (Hwf : gate_wf).

Lemma entry_gate_key_Ok i : i < object_count w → entry_gate_key w i = Ok (gate_key i).
Proof.
  intros Hi. unfold gate_key, entry_gate_key, ws_entry.
  destruct (gw_keys Hwf i Hi) as [k ->].
  destruct (lookup_lt_is_Some_2 _ _ Hi) as [o ->]. done.
Qed.

Lemma parent_lt row pref pi :
  ws_parent_by_row w !! row = Some pref → row_index (parent_row_id pref) = Some pi →
  pi < object_count w.
Proof. intros Hp%(gw_parents Hwf) Hi%row_index_Some. lia. Qed.

Lemma expand_entry_edge st i :
  i < object_count w →
  expand_entry w st i = Ok (match trigger_parent i with Some e => edge_step st e | None => st end).
Proof.
  intros Hi. destruct st as [d a]. unfold expand_entry, trigger_parent, edge_step, entry_kind_part.
  rewrite (entry_gate_key_Ok i) by done. destruct (gw_keys Hwf i Hi) as [k ->]. cbn -[gate_key].
  destruct (String.eqb _ "triggers"); [|by case_bool_decide].
  destruct (ws_parent_by_row w !! row_id_at i) as [pref|] eqn:Hp; cbn -[gate_key];
    [|by case_bool_decide].
  destruct (row_index _) as [pi|] eqn:Hpi; cbn -[gate_key]; [|by case_bool_decide].
  rewrite (entry_gate_key_Ok pi) by eauto using parent_lt. cbn -[gate_key].
  repeat case_bool_decide; done.
Qed.

Lemma expand_pass_edges d : expand_pass w d = Ok (foldl edge_step (d, 0) trigger_edges).
Proof.
  unfold expand_pass, trigger_edges.
  assert (∀ l st, Forall (λ i, i < object_count w) l →
    foldM (expand_entry w) st l = Ok (foldl edge_step st (omap trigger_parent l))) as Hl.
  { induction l as [|i l IH]; intros st Hall; [done|]. inversion Hall; subst. cbn.
    rewrite expand_entry_edge by done. cbn. rewrite IH by done.
    by destruct (trigger_parent i). }
  apply Hl, Forall_forall. intros i Hi%list_elem_of_In%in_seq. lia.
Qed.

Lemma expand_loop_spec fuel d :
  size (targets trigger_edges ∖ d) < fuel →
  ∃ d', expand_loop fuel w d = Ok d' ∧
    ∀ k, k ∈ d' ↔ ∃ k0, k0 ∈ d ∧ rtc (edge trigger_edges) k0 k.
Proof.
  revert d. induction fuel as [|fuel IH]; intros d Hf; [lia|]. cbn.
  rewrite expand_pass_edges. cbn.
  set (st := foldl edge_step (d, 0) trigger_edges). destruct st as [d1 added] eqn:Est. cbn.
  destruct (pass_spec trigger_edges trigger_edges d 0 (d, 0)) as [H1 H2 H3 H4]; [done| |].
  { split; cbn; [done|set_solver|lia|]. intros k Hk. exists k. split; [done|constructor]. }
  unfold st in Est. rewrite Est in H1, H2, H3, H4. cbn in *.
  destruct (Nat.eqb_spec added 0) as [->|Hadd].
  - destruct (pass_closed trigger_edges d 0) as [Heq Hcl]; [by rewrite Est|].
    rewrite Est in Heq. injection Heq as ->. exists d. split; [done|]. intros k. split.
    + intros Hk. exists k. split; [done|constructor].
    + intros (k0 & Hk0 & Hr). eauto using closed_rtc.
  - destruct (IH d1) as (d' & Hd' & Hk).
    { pose proof (missing_decreases trigger_edges d) as Hm. rewrite Est in Hm. cbn in Hm.
      specialize (Hm Hadd). lia. }
    exists d'. split; [done|]. intros k. rewrite Hk. split.
    + intros (k1 & (k0 & Hk0 & Hr0)%H4 & Hr1). exists k0. split; [done|]. by etrans.
    + intros (k0 & Hk0 & Hr). exists k0. split; [|done]. by apply H1.
Qed.

(** C28. Expanding a set of changed objects terminates, and the result is the least
    set that contains them and, with every trigger, the table it hangs on: the
    keys reachable from the changed ones through recorded parents. *)
Theorem expand_delta_closure_spec (delta : gset string) :
  ∃ d, expand_delta_closure w delta = Ok d ∧
    ∀ k, k ∈ d ↔ ∃ k0, k0 ∈ delta ∧ rtc (edge trigger_edges) k0 k.
Proof.
  unfold expand_delta_closure. case_bool_decide as He.
  { exists delta. split; [done|]. subst. intros k. set_solver. }
  apply expand_loop_spec. apply Nat.lt_succ_r.
  etrans; [apply subseteq_size, subseteq_difference_l; reflexivity|].
  unfold targets. etrans; [apply list_to_set_size_le|].
  rewrite length_fmap. unfold trigger_edges.
  rewrite <- (length_seq (object_count w) 0) at 2.
  generalize (seq 0 (object_count w)). intros l. induction l as [|i l IH]; cbn; [done|].
  destruct (trigger_parent i); cbn; lia.
Qed.
End expand.

(** ** Facts: changed paths *)

Section path_facts.
Context `{HM : MapOrder}.

(** What one normalised path contributes. *)
Definition path_hits (bp tp : gmap string string) (p k : string) : Prop :=
  match bp !! p, tp !! p with
  | Some key, _ => k = qualified_key p key
  | None, Some key => k = qualified_key p key
  | None, None => ∃ path key, (bp !! path = Some key ∨ tp !! path = Some key) ∧
      suffix_match path p = true ∧ k = qualified_key path key
  end.

Lemma add_suffix_matches_elem p m keys k :
  k ∈ add_suffix_matches p m keys ↔
  k ∈ keys ∨ ∃ path key, m !! path = Some key ∧ suffix_match path p = true ∧
    k = qualified_key path key.
Proof.
  unfold add_suffix_matches. setoid_rewrite <- (iter_order_elem m).
  revert keys. induction (iter_order m) as [|[path key] l IH]; intros keys; cbn.
  { split; [by left|]. intros [?|(? & ? & Hin & _)]; [done|by inversion Hin]. }
  rewrite IH. setoid_rewrite elem_of_cons.
  assert (k ∈ (if suffix_match path p then {[qualified_key path key]} ∪ keys else keys) ↔
    suffix_match path p = true ∧ k = qualified_key path key ∨ k ∈ keys) as ->.
  { destruct (suffix_match path p); [rewrite elem_of_union, elem_of_singleton; tauto|].
    intuition congruence. }
  split.
  - intros [[[? ?]|?]|(path' & key' & ? & ? & ?)]; eauto 9.
  - intros [?|(path' & key' & [E|?] & ? & ?)]; eauto 9. injection E as -> ->. auto.
Qed.

(** Whatever order the hash maps are visited in, the keys found for a list of
    changed paths are those of the objects and owner tables whose script has one
    of the paths (trimmed, with forward slashes), and, only for a path that no
    script has, of those whose path ends in it or that it ends in. *)
Theorem keys_for_changed_paths_spec (w : Workspace) paths bp tp :
  objects_by_path w = Ok bp → transition_paths_by_script w = Ok tp →
  ∃ keys, keys_for_changed_paths w paths = Ok keys ∧
    ∀ k, k ∈ keys ↔ ∃ raw, raw ∈ paths ∧ replace_char "\" "/" (trim raw) ≠ "" ∧
      path_hits bp tp (replace_char "\" "/" (trim raw)) k.
Proof.
  intros Hbp Htp. unfold keys_for_changed_paths. case_bool_decide as He.
  { exists ∅. split; [done|]. subst. set_solver. }
  rewrite Hbp. cbn. rewrite Htp. cbn. eexists. split; [done|]. clear He.
  assert (∀ keys k, k ∈ foldl (keys_for_path bp tp) keys paths ↔
    k ∈ keys ∨ ∃ raw, raw ∈ paths ∧ replace_char "\" "/" (trim raw) ≠ "" ∧
      path_hits bp tp (replace_char "\" "/" (trim raw)) k) as Hfold.
  { induction paths as [|raw paths IH]; intros keys k; cbn.
    { split; [by left|]. intros [?|(? & Hin & _)]; [done|by inversion Hin]. }
    rewrite IH. unfold keys_for_path. setoid_rewrite elem_of_cons.
    destruct (String.eqb_spec (replace_char "\" "/" (trim raw)) "") as [E|E].
    { split; [intros [?|(r & ? & ?)]; eauto 6|].
      intros [?|(r & [->|?] & ? & ?)]; [by left|done|right; eauto]. }
    assert (∀ A : Prop, (A ↔ k ∈ keys ∨ path_hits bp tp (replace_char "\" "/" (trim raw)) k) →
      (A ∨ (∃ raw0, raw0 ∈ paths ∧ replace_char "\" "/" (trim raw0) ≠ "" ∧
         path_hits bp tp (replace_char "\" "/" (trim raw0)) k)) ↔
      k ∈ keys ∨ ∃ raw0, (raw0 = raw ∨ raw0 ∈ paths) ∧ replace_char "\" "/" (trim raw0) ≠ "" ∧
         path_hits bp tp (replace_char "\" "/" (trim raw0)) k) as Hstep.
    { intros A ->. split; [intros [[?|?]|(r & ? & ? & ?)]; eauto 7|].
      intros [?|(r & [->|?] & ? & ?)]; eauto 7. }
    apply Hstep. unfold path_hits.
    destruct (bp !! _); [rewrite elem_of_union, elem_of_singleton; tauto|].
    destruct (tp !! _); [rewrite elem_of_union, elem_of_singleton; tauto|].
    rewrite !add_suffix_matches_elem. clear. split.
    - intros [[?|(x & y & ? & ? & ?)]|(x & y & ? & ? & ?)]; [by left|right; exists x, y; auto..].
    - intros [?|(x & y & [?|?] & ? & ?)]; [tauto|left; right; by exists x, y|right; by exists x, y]. }
  intros k. rewrite Hfold. set_solver.
Qed.
End path_facts.

(** ** A small repository *)

Module GateSample.
#[local] Existing Instances Concrete.unicode Concrete.fingerprint Concrete.map_order Concrete.hex.

Definition entry (script_id : N) : ObjectEntry := mk_ObjectEntry zero_digest StrOff_EMPTY script_id 1 0.
Definition script : ScriptRow := mk_ScriptRow StrOff_EMPTY StrOff_EMPTY SkObject.

(** A table, a trigger on it and a view, in database [A]. *)
Definition w : Workspace := Workspace_default
  <| ws_database_names := [""; "A"] |>
  <| ws_object_entries := [entry 1; entry 2; entry 3] |>
  <| ws_object_keys := ["dbo/tables/t"; "dbo/triggers/tr"; "dbo/views/v"] |>
  <| ws_script_rows := [script; script; script] |>
  <| ws_ingest_script_keys :=
       ["A/dbo/tables/t.sql"; "A/dbo/triggers/tr.sql"; "A/dbo/views/v.sql"] |>
  <| ws_parent_by_row := {[ 2%N := mk_ParentRef 1 ]} |>.

Lemma sample_gate_wf : gate_wf w.
Proof.
  split.
  - intros [|[|[|i]]] Hi; [by eexists..|]. unfold w, object_count in Hi. cbn in Hi. lia.
  - intros row pref. unfold w. cbn. intros [_ <-]%lookup_singleton_Some. cbn. lia.
Qed.

(** A changed trigger pulls in its table, and nothing else. *)
Lemma expand_delta_closure_spec_witness :
  gate_wf w ∧ ∃ d, expand_delta_closure w {[ "A/dbo/triggers/tr" ]} = Ok d ∧
    ("A/dbo/tables/t" ∈ d).
Proof.
  split; [exact sample_gate_wf|].
  destruct (expand_delta_closure_spec w sample_gate_wf {[ "A/dbo/triggers/tr" ]}) as (d & Hd & Hk).
  exists d. split; [exact Hd|]. apply Hk. exists "A/dbo/triggers/tr". split; [set_solver|].
  apply rtc_once. unfold edge. apply list_elem_of_In. vm_compute. auto.
Defined.

Definition bp : gmap string string := match objects_by_path w with Ok m => m | _ => ∅ end.
Definition tp : gmap string string :=
  match transition_paths_by_script w with Ok m => m | _ => ∅ end.
Definition ok {A} (m : M A) : bool := match m with Ok _ => true | _ => false end.

Lemma tables : objects_by_path w = Ok bp ∧ transition_paths_by_script w = Ok tp.
Proof.
  unfold bp, tp. split.
  - assert (ok (objects_by_path w) = true) as E by (by vm_compute).
    by destruct (objects_by_path w).
  - assert (ok (transition_paths_by_script w) = true) as E by (by vm_compute).
    by destruct (transition_paths_by_script w).
Qed.

Lemma keys_for_changed_paths_spec_witness :
  objects_by_path w = Ok bp ∧ transition_paths_by_script w = Ok tp ∧
  ∃ keys, keys_for_changed_paths w [" A\dbo\triggers\tr.sql "] = Ok keys ∧
    ("A/dbo/triggers/tr" ∈ keys).
Proof.
  destruct tables as [Hbp Htp]. split; [exact Hbp|]. split; [exact Htp|].
  destruct (keys_for_changed_paths_spec w [" A\dbo\triggers\tr.sql "] bp tp Hbp Htp)
    as (keys & Hkeys & Hk).
  exists keys. split; [exact Hkeys|]. apply Hk.
  eexists. split; [by left|]. split; [by vm_compute|].
  change (replace_char "\" "/" (trim " A\dbo\triggers\tr.sql ")) with "A/dbo/triggers/tr.sql".
  unfold path_hits.
  assert (bp !! "A/dbo/triggers/tr.sql" = Some "dbo/triggers/tr") as -> by (by vm_compute).
  by vm_compute.
Defined.

(** A path that is no script matches every script whose path ends in it. *)
Lemma short_path_matches_by_suffix :
  elements <$> keys_for_changed_paths w ["v.sql"] = Ok ["A/dbo/views/v"].
Proof. by vm_compute. Qed.

Definition planned (key : string) (a : Action) : PlannedObject :=
  mk_PlannedObject key key "dbo" "tables" "t" "A" "" [] None zero_digest a true.
Definition baseline : PlanSnapshot :=
  from_plan (MigrationPlan_default <| mp_objects := [planned "dbo/tables/t" SkipUnchanged] |>).
Definition current : PlanSnapshot :=
  from_plan (MigrationPlan_default <| mp_objects := [planned "dbo/tables/t" ReprocessChanged] |>).
Definition input : GateInput :=
  mk_GateInput false PhaseTimings_default 0 baseline current {[ "A/dbo/tables/t" ]}.

End GateSample.
