(* ===== verification/Git.v ===== *)
(** * Git: metadata of scripts and changed paths

    [git/], [scan/git_preload.rs], [gate/git_diff.rs], [gate/changed_paths/] and
    [gate/changed_paths_ci.rs].  The git program, the file system below the
    repository root and the CI event file are interfaces. *)

From S2P Require Export Gate Scan.
From Stdlib Require Import Ascii.
From Stdlib Require String.

(** [g] is the state of the repository.  [git_stdout]: what a git command prints,
    decoded lossily, if it succeeds; [git_fetch] is the one command that is run
    for its effect.  A canonical path is the list of its components. *)
Class GitTool (G : Type) := {
  git_stdout : G → list string → option string;
  git_fetch : list string → G → G;
}.
Class HostFiles := {
  canonicalize : string → option (list string);
  path_exists : list string → bool;
  event_base_sha : string → option string;
}.

(** ** Text *)

(** [char] 0x1f. *)
Definition FIELD_SEP : ascii := ascii_of_N 31.
Definition COMMIT_PREFIX : string := "COMMIT" +:+ String FIELD_SEP "".
Definition LF : ascii := ascii_of_N 10.
Definition CR : string := String (ascii_of_N 13) "".

(** [str::lines]: no line after a final line feed, and no carriage return before one. *)
Definition lines (s : string) : list string :=
  let pieces := split_on LF s in
  let pieces := match last pieces with
                | Some "" => take (length pieces - 1) pieces
                | _ => pieces
                end in
  map (λ l, default l (strip_suffix CR l)) pieces.

Definition normalize_git_path (p : string) : string := replace_char "\" "/" p.

(** [parse_name_only]. *)
Definition parse_name_only (stdout : string) : list string :=
  List.filter (λ l, negb (String.eqb l "")) (map (λ l, replace_char "\" "/" (trim l)) (lines stdout)).

Record GitMeta := mk_GitMeta { gm_hash : string; gm_author : string; gm_date : string }.
#[global] Instance GitMeta_eq_dec : EqDecision GitMeta.
Proof. solve_decision. Defined.

Definition parse_commit_line (line : string) : option GitMeta :=
  rest ← strip_prefix COMMIT_PREFIX line;
  '(hash, rest) ← split_once FIELD_SEP rest;
  '(author, date) ← split_once FIELD_SEP rest;
  if String.eqb hash "" then None else Some (mk_GitMeta hash author date).

(** ** Repositories ([repo.rs]) *)

Definition path_string (p : list string) : string := "/" +:+ str_join "/" p.

Section git.
Context {G : Type} `{HG : GitTool G} `{HF : HostFiles}.

(** The path from its last component up: [pop] fails at the root. *)
Fixpoint walk_up (rev_dir : list string) : option (list string) :=
  if path_exists (rev (".git" :: rev_dir)) then Some (rev rev_dir)
  else match rev_dir with [] => None | _ :: up => walk_up up end.

Definition find_repo_root (start : string) : option (list string) :=
  dir ← canonicalize start; walk_up (rev dir).

Definition has_git_repo (start : string) : bool := bool_decide (is_Some (find_repo_root start)).

Fixpoint strip_components (root p : list string) : option (list string) :=
  match root, p with
  | [], _ => Some p
  | a :: root, b :: p => if String.eqb a b then strip_components root p else None
  | _ :: _, [] => None
  end.

Definition sql_prefix_in_repo (repo_root : list string) (sql_root : string) : option string :=
  sql ← canonicalize sql_root;
  rel ← strip_components repo_root sql;
  if bool_decide (rel = []) then None
  else
    let s := replace_char "\" "/" (str_join "/" rel) in
    Some (if ends_with "/" s then s else s +:+ "/").

Definition sql_path_prefix (sql_root : string) : option string :=
  repo ← find_repo_root sql_root; sql_prefix_in_repo repo sql_root.

(** ** Diffs ([diff.rs]) *)

Definition diff_name_only (g : G) (repo base head : string) : option (list string) :=
  if starts_with "-" base || starts_with "-" head then None
  else parse_name_only <$> git_stdout g ["-C"; repo; "diff"; "--name-only"; base; head].

Definition changed_paths_from_git (g : G) (repo base_ref : string) : option (list string) :=
  diff_name_only g repo base_ref "HEAD".

Definition merge_base (g : G) (repo head other : string) : option string :=
  if starts_with "-" head || starts_with "-" other then None
  else
    out ← git_stdout g ["-C"; repo; "merge-base"; head; other];
    let s := trim out in
    if String.eqb s "" then None else Some s.

Definition diff_since_merge_base (g : G) (repo remote : string) : option (list string) :=
  base ← merge_base g repo "HEAD" remote; diff_name_only g repo base "HEAD".

Fixpoint first_some {A B} (f : A → option B) (l : list A) : option B :=
  match l with
  | [] => None
  | x :: l => match f x with Some b => Some b | None => first_some f l end
  end.

Definition merge_base_paths (g : G) (sql_root : string) : option (list string) :=
  root ← find_repo_root sql_root;
  first_some (diff_since_merge_base g (path_string root))
    ["origin/main"; "origin/master"; "main"; "master"].

(** ** Logs ([log.rs]) *)

Definition batched_git_log (g : G) (root : string) : option string :=
  git_stdout g ["-C"; root; "log"; "--name-only"; "--format=COMMIT%x1f%H%x1f%an%x1f%aI"].

(** [Path::parent] and [file_name] of a file found by the walk. *)
Definition split_file (path : string) : option (string * string) :=
  match rev (split_on "/" path) with
  | [] | [""] => None
  | name :: up =>
      if String.eqb name "" || String.eqb name "." || String.eqb name ".." then None
      else Some (match up with [""] => "/" | _ => str_join "/" (rev up) end, name)
  end.

Definition git_info_file (g : G) (abs_path : string) : option GitMeta :=
  '(dir, name) ← split_file abs_path;
  text ← git_stdout g ["-C"; dir; "log"; "-1"; "--format=%H%n%an%n%aI"; "--"; name];
  match lines (trim text) with
  | hash :: author :: date :: _ => Some (mk_GitMeta hash author date)
  | _ => None
  end.
End git.

(** ** Metadata of every script ([git_preload.rs]) *)

Section preload.
Context {G : Type} `{HG : GitTool G} `{HF : HostFiles} `{HM : MapOrder}.

Definition staged_meta (m : GitMeta) : ScriptGitStaging :=
  mk_ScriptGitStaging (Some (gm_hash m)) (Some (gm_author m)) (Some (gm_date m)).

Definition apply_meta (script_id : N) (m : GitMeta) (w : Workspace) : Workspace :=
  w <| ws_script_git_staging ::= <[script_id := staged_meta m]> |>.

(** Every script's path, and its key. *)
Definition build_targets (w : Workspace) : M (gmap string script_key) :=
  foldM (λ m i,
    path ← script_path_str w (row_id_at i);
    key ← script_key_of w (row_id_at i);
    Ok (<[path := key]> m)) ∅ (seq 0 (length (ws_script_rows w))).

Definition layout_key_for_git_line (line : string) (prefix : option string) : string :=
  let p := normalize_git_path line in
  default p (prefix ≫= λ pref, strip_prefix pref p).

(** The current commit, the paths still without metadata, and the workspace. *)
Definition batch_line (prefix : option string)
    (st : option GitMeta * gmap string script_key * Workspace) (line : string)
    : option GitMeta * gmap string script_key * Workspace :=
  let '(cur, remaining, w) := st in
  let line := trim line in
  if String.eqb line "" then st
  else match parse_commit_line line with
  | Some meta => (Some meta, remaining, w)
  | None =>
      let rel := layout_key_for_git_line line prefix in
      match remaining !! rel with
      | None => st
      | Some key =>
          let remaining := delete rel remaining in
          match cur with
          | None => (cur, remaining, w)
          | Some meta =>
              match ws_script_key_index w !! key with
              | None => (cur, remaining, w)
              | Some id => (cur, remaining, apply_meta id meta w)
              end
          end
      end
  end.

Definition apply_batched (out : string) (prefix : option string)
    (remaining : gmap string script_key) (w : Workspace) : gmap string script_key * Workspace :=
  let '(_, remaining, w) := foldl (batch_line prefix) (None, remaining, w) (lines out) in
  (remaining, w).

Definition preload (g : G) (sql_root : string) (w : Workspace) : M Workspace :=
  if negb (has_git_repo sql_root) then Ok w
  else match canonicalize sql_root with
  | None => Ok w
  | Some root =>
      let prefix := sql_path_prefix sql_root in
      targets ← build_targets w;
      if bool_decide (targets = ∅) then Ok w
      else
        let '(remaining, w) := match batched_git_log g (path_string root) with
                               | Some out => apply_batched out prefix targets w
                               | None => (targets, w)
                               end in
        foldM (λ w '(_, key),
          match ws_script_key_index w !! key with
          | None => Ok w
          | Some id =>
              abs ← script_abs_path w id;
              Ok (match git_info_file g abs with Some m => apply_meta id m w | None => w end)
          end) w (iter_order remaining)
  end.

(** ** Facts: the newest commit wins *)

(** The commit under which the first line for path [p] stands, if there is one. *)
Fixpoint newest (prefix : option string) (cur : option GitMeta) (ls : list string) (p : string)
    : option (option GitMeta) :=
  match ls with
  | [] => None
  | line :: ls =>
      let line := trim line in
      if String.eqb line "" then newest prefix cur ls p
      else match parse_commit_line line with
      | Some meta => newest prefix (Some meta) ls p
      | None => if String.eqb (layout_key_for_git_line line prefix) p then Some cur
                else newest prefix cur ls p
      end
  end.

(** Distinct paths belong to distinct scripts. *)
Definition targets_wf (index : gmap string N) (targets : gmap string script_key) : Prop :=
  ∀ p p' key key' id, targets !! p = Some key → targets !! p' = Some key' →
    index !! key = Some id → index !! key' = Some id → p = p'.

Lemma newest_cons_skip prefix cur line ls p :
  trim line ≠ "" → parse_commit_line (trim line) = None →
  newest prefix cur (line :: ls) p =
  if String.eqb (layout_key_for_git_line (trim line) prefix) p then Some cur
  else newest prefix cur ls p.
Proof. intros Hl Hc. cbn [newest]. destruct (String.eqb_spec (trim line) ""); [done|]. by rewrite Hc. Qed.

(** A script none of the remaining paths belongs to is not written again. *)
Lemma batch_gone prefix p id ls cur targets w :
  (∀ p key, targets !! p = Some key → ws_script_key_index w !! key ≠ Some id) →
  targets !! p = None →
  let '(_, remaining, w') := foldl (batch_line prefix) (cur, targets, w) ls in
  remaining !! p = None ∧ ws_script_git_staging w' !! id = ws_script_git_staging w !! id.
Proof.
  revert cur targets w. induction ls as [|line ls IH]; intros cur targets w Hno Hp; [done|].
  cbn [foldl]. unfold batch_line at 2. destruct (String.eqb _ ""); [by apply IH|].
  destruct (parse_commit_line _) as [meta|]; [by apply IH|].
  set (rel := layout_key_for_git_line _ _).
  destruct (targets !! rel) as [k|] eqn:Hk; [|by apply IH].
  assert (∀ p key, delete rel targets !! p = Some key → ws_script_key_index w !! key ≠ Some id)
    as Hno'.
  { intros q kq [_ Hq]%lookup_delete_Some. eauto. }
  assert (delete rel targets !! p = None) as Hp' by (apply lookup_delete_None; by right).
  destruct cur as [meta|]; [|by apply IH].
  destruct (ws_script_key_index w !! k) as [id'|] eqn:Hid; [|by apply IH].
  assert (id' ≠ id) by (intros ->; by apply (Hno _ _ Hk)).
  specialize (IH (Some meta) (delete rel targets) (apply_meta id' meta w) Hno' Hp').
  destruct (foldl _ _ _) as [[? ?] ?]. destruct IH as [? ->]. split; [done|].
  cbn. by rewrite lookup_insert_ne.
Qed.

Lemma batch_spec prefix ls cur targets w p key id :
  targets_wf (ws_script_key_index w) targets →
  targets !! p = Some key → ws_script_key_index w !! key = Some id →
  let '(_, remaining, w') := foldl (batch_line prefix) (cur, targets, w) ls in
  remaining !! p = match newest prefix cur ls p with Some _ => None | None => Some key end ∧
  ws_script_git_staging w' !! id =
    match newest prefix cur ls p with
    | Some (Some meta) => Some (staged_meta meta)
    | _ => ws_script_git_staging w !! id
    end.
Proof.
  revert cur targets w. induction ls as [|line ls IH]; intros cur targets w Hwf Hp Hid; [done|].
  cbn [foldl]. unfold batch_line at 2.
  destruct (String.eqb_spec (trim line) "") as [E|E].
  { specialize (IH cur targets w Hwf Hp Hid). cbn [newest]. rewrite (proj2 (String.eqb_eq _ _) E).
    exact IH. }
  destruct (parse_commit_line (trim line)) as [meta|] eqn:Hc.
  { specialize (IH (Some meta) targets w Hwf Hp Hid). cbn [newest].
    rewrite (proj2 (String.eqb_neq _ _) E), Hc. exact IH. }
  rewrite newest_cons_skip by done.
  set (rel := layout_key_for_git_line (trim line) prefix).
  destruct (String.eqb_spec rel p) as [->|Hrel].
  - rewrite Hp. destruct cur as [meta|].
    + rewrite Hid. pose proof (batch_gone prefix p id ls (Some meta) (delete p targets) (apply_meta id meta w)) as Hgone.
      destruct (foldl _ _ _) as [[? ?] ?]. destruct Hgone as [? Hs]; [|apply lookup_delete_eq|].
      { intros q kq [Hne Hq]%lookup_delete_Some Hidq. apply Hne. by eapply Hwf. }
      split; [done|]. rewrite Hs. cbn. by rewrite lookup_insert_eq.
    + pose proof (batch_gone prefix p id ls None (delete p targets) w) as Hgone.
      destruct (foldl _ _ _) as [[? ?] ?]. destruct Hgone as [? Hs]; [|apply lookup_delete_eq|].
      { intros q kq [Hne Hq]%lookup_delete_Some Hidq. apply Hne. by eapply Hwf. }
      by split.
  - destruct (targets !! rel) as [k|] eqn:Hk; [|by apply IH].
    assert (targets_wf (ws_script_key_index w) (delete rel targets)) as Hwf'.
    { intros q q' kq kq' i [_ ?]%lookup_delete_Some [_ ?]%lookup_delete_Some. eauto. }
    assert (delete rel targets !! p = Some key) as Hp' by (by rewrite lookup_delete_ne).
    destruct cur as [meta|]; [|by apply IH].
    destruct (ws_script_key_index w !! k) as [id'|] eqn:Hid'; [|by apply IH].
    assert (id' ≠ id) by (intros ->; apply Hrel; by eapply Hwf).
    specialize (IH (Some meta) (delete rel targets) (apply_meta id' meta w) Hwf' Hp' Hid).
    destruct (foldl _ _ _) as [[? ?] ?]. destruct IH as [? ->]. split; [done|].
    cbn. by rewrite lookup_insert_ne.
Qed.

(** Reading one batched log, every script whose path it lists gets the metadata
    of the first commit that lists it, which is the newest one, and is then done;
    a script it does not list keeps what it had and stays to be looked up. *)
Theorem apply_batched_newest out prefix targets w p key id :
  targets_wf (ws_script_key_index w) targets →
  targets !! p = Some key → ws_script_key_index w !! key = Some id →
  let r := apply_batched out prefix targets w in
  r.1 !! p = match newest prefix None (lines out) p with Some _ => None | None => Some key end ∧
  ws_script_git_staging r.2 !! id =
    match newest prefix None (lines out) p with
    | Some (Some meta) => Some (staged_meta meta)
    | _ => ws_script_git_staging w !! id
    end.
Proof.
  intros Hwf Hp Hid. pose proof (batch_spec prefix (lines out) None targets w p key id Hwf Hp Hid).
  unfold apply_batched. cbv zeta. by destruct (foldl _ _ _) as [[? ?] ?].
Qed.
End preload.

(** ** Changed paths ([gate/changed_paths/], [gate/changed_paths_ci.rs]) *)

Record ChangedPathsResult := mk_ChangedPathsResult {
  cp_paths : list string;
  cp_full_inspect : bool;
  cp_source : string;
}.

Definition full (source : string) : ChangedPathsResult := mk_ChangedPathsResult [] true source.

Definition parse_csv_paths (raw : string) : option (list string) :=
  let paths := List.filter (λ s, negb (String.eqb s ""))
                 (map (λ s, replace_char "\" "/" (trim s)) (split_on "," raw)) in
  if bool_decide (paths = []) then None else Some paths.

Section changed.
Context {G : Type} `{HG : GitTool G} `{HF : HostFiles} (env : string → EnvVar).

Definition changed_paths_from_env : option (list string) :=
  match env_text (env "RMIG_GATE_CHANGED_FILES") ≫= parse_csv_paths with
  | Some paths => Some paths
  | None => env_text (env "RMIG_CHANGED_FILES") ≫= parse_csv_paths
  end.

(** The path relative to the SQL root: without the root's prefix, or else without [sql/]. *)
Definition normalize_git_path_to (prefix raw : string) : option string :=
  let p := replace_char "\" "/" (trim raw) in
  let p := match strip_prefix prefix p with
           | Some stripped => stripped
           | None => default p (strip_prefix "sql/" p)
           end in
  if String.eqb p "" then None else Some p.

Definition normalize_git_paths (sql_root : string) (paths : list string) : list string :=
  let prefix := default "sql/" (root ← find_repo_root sql_root; sql_prefix_in_repo root sql_root) in
  omap (normalize_git_path_to prefix) paths.

Definition git_paths_result (sql_root : string) (paths : list string) (source : string)
    : ChangedPathsResult :=
  mk_ChangedPathsResult (normalize_git_paths sql_root paths) false source.

Definition non_blank (s : string) : option string :=
  if String.eqb s "" then None else Some s.

Definition github_pr_paths (g : G) (repo_root : string) : option (list string) :=
  if negb (bool_decide (env_text (env "GITHUB_EVENT_NAME") = Some "pull_request")) then None
  else
    path ← env_text (env "GITHUB_EVENT_PATH");
    sha ← event_base_sha path;
    base ← non_blank (trim sha);
    diff_name_only g repo_root base "HEAD".

Definition gitlab_mr_paths (g : G) (repo_root : string) : option (list string) :=
  _ ← env_text (env "CI_MERGE_REQUEST_IID") ≫= non_blank;
  base ← env_text (env "CI_MERGE_REQUEST_DIFF_BASE_SHA");
  head ← env_text (env "CI_COMMIT_SHA");
  if String.eqb (trim base) "" || String.eqb (trim head) "" then None
  else diff_name_only g repo_root (trim base) (trim head).

(** The fetch's own status is ignored. *)
Definition azure_pr_paths (g : G) (repo_root : string) : G * option (list string) :=
  match env_text (env "SYSTEM_PULLREQUEST_TARGETBRANCH") ≫= λ s, non_blank (trim s) with
  | None => (g, None)
  | Some target =>
      let target := default target (strip_prefix "refs/heads/" target) in
      let remote := "origin/" +:+ target in
      let g := git_fetch ["-C"; repo_root; "fetch"; "origin"; target +:+ ":" +:+ target; "--depth=1"] g in
      (g, match merge_base g repo_root "HEAD" remote with
          | Some base => diff_name_only g repo_root base "HEAD"
          | None => changed_paths_from_git g repo_root remote
          end)
  end.

Definition try_ci_changed_paths (g : G) (repo_root : string)
    : G * option (list string * string) :=
  match github_pr_paths g repo_root with
  | Some paths => (g, Some (paths, "ci-github-pr"))
  | None =>
      match gitlab_mr_paths g repo_root with
      | Some paths => (g, Some (paths, "ci-gitlab-mr"))
      | None =>
          let '(g, r) := azure_pr_paths g repo_root in
          (g, paths ← r; Some (paths, "ci-ado-pr"))
      end
  end.

Definition nonempty_paths (o : option (list string)) : option (list string) :=
  paths ← o; if bool_decide (paths = []) then None else Some paths.

(** What is left when neither the environment nor a CI system names the change. *)
Definition paths_from_history (g : G) (sql_root repo_root : string) : ChangedPathsResult :=
  match nonempty_paths (merge_base_paths g sql_root) with
  | Some paths => git_paths_result sql_root paths "git-merge-base"
  | None =>
      match nonempty_paths (changed_paths_from_git g repo_root "HEAD") with
      | Some paths => git_paths_result sql_root paths "git-head"
      | None =>
          match nonempty_paths (changed_paths_from_git g repo_root "HEAD~1") with
          | Some paths => git_paths_result sql_root paths "git-head-parent"
          | None => mk_ChangedPathsResult [] false "git-head"
          end
      end
  end.

Definition resolve_changed_paths (g : G) (sql_root : string) : ChangedPathsResult :=
  if bool_decide (env_text (env "RMIG_INSPECT_FULL") = Some "1") then full "env-full-inspect"
  else match changed_paths_from_env with
  | Some paths => git_paths_result sql_root paths "env-changed-files"
  | None =>
      match env_text (env "RMIG_GATE_GIT_BASE") ≫= λ base, non_blank (trim base) with
      | Some base =>
          match find_repo_root sql_root with
          | Some root =>
              match changed_paths_from_git g (path_string root) base with
              | Some paths => git_paths_result sql_root paths "env-git-base"
              | None => full "env-git-base-failed"
              end
          | None => full "env-git-base-no-git"
          end
      | None =>
          match find_repo_root sql_root with
          | None => full "no-git"
          | Some repo_root =>
              let '(g, ci) := try_ci_changed_paths g (path_string repo_root) in
              match ci with
              | Some (paths, source) => git_paths_result sql_root paths source
              | None => paths_from_history g sql_root (path_string repo_root)
              end
          end
      end
  end.

(** No git command gets an argument that it could read as an option. *)
Lemma diff_name_only_args g repo base head paths :
  diff_name_only g repo base head = Some paths →
  starts_with "-" base = false ∧ starts_with "-" head = false ∧
  is_Some (git_stdout g ["-C"; repo; "diff"; "--name-only"; base; head]).
Proof.
  unfold diff_name_only. destruct (_ || _) eqn:E; [done|]. apply orb_false_iff in E as [? ?].
  destruct (git_stdout _ _); [|done]. eauto.
Qed.

Lemma normalize_sql_root_path prefix p :
  p ≠ "" → trim (prefix +:+ p) = prefix +:+ p → has_char "\" (prefix +:+ p) = false →
  normalize_git_path_to prefix (prefix +:+ p) = Some p.
Proof.
  intros Hp Ht Hb. unfold normalize_git_path_to. rewrite Ht, replace_char_id by done.
  assert (strip_prefix prefix (prefix +:+ p) = Some p) as -> by by apply strip_prefix_Some.
  by destruct (String.eqb_spec p "").
Qed.
End changed.

(** ** A log of two commits *)

Module GitSample.
#[local] Existing Instances Concrete.unicode Concrete.map_order.

Definition us : string := String FIELD_SEP "".
Definition nl : string := String LF "".
Definition log : string :=
  COMMIT_PREFIX +:+ "c2" +:+ us +:+ "Ann" +:+ us +:+ "2026-02-01" +:+ nl +:+ nl
    +:+ "sql/A/t.sql" +:+ nl
    +:+ COMMIT_PREFIX +:+ "c1" +:+ us +:+ "Bob | Co" +:+ us +:+ "2026-01-01" +:+ nl +:+ nl
    +:+ "sql/A/t.sql" +:+ nl +:+ "sql/A/v.sql" +:+ nl.
Definition w : Workspace :=
  Workspace_default <| ws_script_key_index := {[ "A/t.sql" := 1%N; "A/v.sql" := 2%N ]} |>.
Definition targets : gmap string script_key := {[ "A/t.sql" := "A/t.sql"; "A/v.sql" := "A/v.sql" ]}.

Lemma targets_ok : targets_wf (ws_script_key_index w) targets.
Proof.
  assert (∀ p key, targets !! p = Some key → p = key) as Hk.
  { intros p key. unfold targets. rewrite lookup_insert_Some, lookup_singleton_Some. naive_solver. }
  intros p p' key key' id <-%Hk <-%Hk. unfold w. cbn.
  rewrite !lookup_insert_Some, !lookup_singleton_Some. naive_solver.
Qed.

(** The table gets the newer of the two commits that changed it. *)
Lemma apply_batched_newest_witness :
  targets_wf (ws_script_key_index w) targets ∧ targets !! "A/t.sql" = Some "A/t.sql" ∧
  ws_script_key_index w !! "A/t.sql" = Some 1%N ∧
  ws_script_git_staging (apply_batched log (Some "sql/") targets w).2 !! 1%N =
    Some (staged_meta (mk_GitMeta "c2" "Ann" "2026-02-01")).
Proof.
  split_and!; [exact targets_ok|reflexivity..|].
  destruct (apply_batched_newest log (Some "sql/") targets w "A/t.sql" "A/t.sql" 1
              targets_ok eq_refl eq_refl) as [_ E].
  rewrite E. by vm_compute.
Defined.
End GitSample.
