(* ===== verification/Scope.v ===== *)
(** * What the planner inspects

    [domain/workspace/views/keys.rs] (the JSON documents that bind a query to its
    objects), [plan/scope.rs], [plan/scope_build.rs], [plan/scope_spot_check.rs],
    [plan/git_scope.rs] and the scope helpers of [db/plan_common/helpers.rs]. *)

From S2P Require Export Git.
From Stdlib Require Import Ascii.
From Stdlib Require String.

(** ** JSON text ([views/keys.rs]) *)

Definition QUOTE : ascii := ascii_of_N 34.
Definition BACKSLASH : ascii := ascii_of_N 92.

(** One character; bytes of longer characters are above 0x1f and pass unchanged. *)
Definition json_char (c : ascii) : string :=
  if bool_decide (c = QUOTE) then String BACKSLASH (String QUOTE "")
  else if bool_decide (c = BACKSLASH) then String BACKSLASH (String BACKSLASH "")
  else if (byte_of c <? 32)%N then
    String BACKSLASH (String "u" (String "0" (String "0"
      (String (Concrete.nibble (byte_of c / 16)) (String (Concrete.nibble (byte_of c `mod` 16)) "")))))
  else String c "".

Fixpoint push_json_str (s : string) : string :=
  match s with EmptyString => "" | String c s => json_char c +:+ push_json_str s end.

Definition quoted (s : string) : string := String QUOTE (push_json_str s +:+ String QUOTE "").

(** Both documents: an array of items, [[]] when there are none. *)
Definition json_array (items : list string) : string := "[" +:+ str_join "," items +:+ "]".

Definition normalized_keys (w : Workspace) : M (list string) :=
  traverse (entry_key w) (seq 0 (object_count w)).

Definition normalized_keys_json (w : Workspace) : M string :=
  keys ← normalized_keys w; Ok (json_array (quoted <$> keys)).

Abbreviation scope_part := (string * string * string)%type (only parsing).

Definition scope_item (p : scope_part) : string :=
  let '(schema, kind, object) := p in
  "{" +:+ quoted "schema" +:+ ":" +:+ quoted schema +:+ "," +:+ quoted "kind" +:+ ":"
    +:+ quoted kind +:+ "," +:+ quoted "object" +:+ ":" +:+ quoted object +:+ "}".

Definition key_parts (key : object_key) : scope_part := (schema_part key, kind_part key, name_part key).

Definition object_scope_json (w : Workspace) : M string :=
  keys ← normalized_keys w; Ok (json_array (scope_item ∘ key_parts <$> keys)).

(** *** A reader of such documents

    The part of the JSON grammar they use, written from the standard: what any
    JSON reader makes of them. *)

(** A string after its opening quote, and the rest; only [u]-escapes of ASCII
    characters are read. *)
Fixpoint read_string (s : string) : option (string * string) :=
  match s with
  | EmptyString => None
  | String c s =>
      if bool_decide (c = QUOTE) then Some ("", s)
      else if bool_decide (c = BACKSLASH) then
        match s with
        | String e s' =>
            if bool_decide (e = QUOTE) || bool_decide (e = BACKSLASH) then
              '(r, rest) ← read_string s'; Some (String e r, rest)
            else if bool_decide (e = "u"%char) then
              match s' with
              | String "0" (String "0" (String a (String b s'))) =>
                  x ← Concrete.unnibble a;
                  y ← Concrete.unnibble b;
                  if (16 * x + y <? 128)%N then
                    '(r, rest) ← read_string s'; Some (String (ascii_of_N (16 * x + y)) r, rest)
                  else None
              | _ => None
              end
            else None
        | EmptyString => None
        end
      else if (byte_of c <? 32)%N then None
      else '(r, rest) ← read_string s; Some (String c r, rest)
  end.

Definition read_quoted (s : string) : option (string * string) :=
  match s with
  | String c s => if bool_decide (c = QUOTE) then read_string s else None
  | EmptyString => None
  end.

(** A member of an object: its name, a colon and a string. *)
Definition read_member (name s : string) : option (string * string) :=
  '(n, s) ← read_quoted s;
  s ← strip_prefix ":" s;
  if String.eqb n name then read_quoted s else None.

Definition read_scope_item (s : string) : option (scope_part * string) :=
  s ← strip_prefix "{" s;
  '(schema, s) ← read_member "schema" s;
  s ← strip_prefix "," s;
  '(kind, s) ← read_member "kind" s;
  s ← strip_prefix "," s;
  '(object, s) ← read_member "object" s;
  s ← strip_prefix "}" s;
  Some ((schema, kind, object), s).

Section read_array.
Context {A : Type} (read : string → option (A * string)).

(** Items up to the closing bracket; [fuel] bounds their number. *)
Fixpoint read_items (fuel : nat) (s : string) : option (list A) :=
  match fuel with
  | 0 => None
  | S fuel =>
      '(a, s) ← read s;
      match strip_prefix "," s with
      | Some s => l ← read_items fuel s; Some (a :: l)
      | None => if String.eqb s "]" then Some [a] else None
      end
  end.

Definition read_array (s : string) : option (list A) :=
  if String.eqb s "[]" then Some []
  else s' ← strip_prefix "[" s; read_items (String.length s) s'.
End read_array.

(** *** Round trips *)

Lemma read_json_char c s :
  read_string (json_char c +:+ s) =
  '(r, rest) ← read_string s; Some (String c r, rest).
Proof. by destruct c as [[] [] [] [] [] [] [] []]. Qed.

Lemma read_push_json_str s rest :
  read_string (push_json_str s +:+ String QUOTE rest) = Some (s, rest).
Proof.
  induction s as [|c s IH]; [done|]. cbn [push_json_str].
  rewrite str_app_assoc, read_json_char, IH. done.
Qed.

Lemma read_quoted_spec s rest : read_quoted (quoted s +:+ rest) = Some (s, rest).
Proof.
  unfold quoted. cbn [String.append]. cbn [read_quoted]. rewrite bool_decide_true by done.
  rewrite str_app_assoc. apply read_push_json_str.
Qed.

Lemma strip_prefix_app p s : strip_prefix p (p +:+ s) = Some s.
Proof. by apply strip_prefix_Some. Qed.

Lemma read_member_spec name s rest :
  read_member name (quoted name +:+ ":" +:+ quoted s +:+ rest) = Some (s, rest).
Proof.
  unfold read_member. rewrite read_quoted_spec. cbn [mbind option_bind].
  rewrite strip_prefix_app. cbn [mbind option_bind]. rewrite String.eqb_refl. apply read_quoted_spec.
Qed.

Lemma read_scope_item_spec p rest : read_scope_item (scope_item p +:+ rest) = Some (p, rest).
Proof.
  destruct p as [[schema kind] object]. unfold read_scope_item, scope_item.
  rewrite !str_app_assoc, strip_prefix_app. cbn [mbind option_bind].
  do 2 (rewrite read_member_spec; cbn [mbind option_bind]; rewrite strip_prefix_app;
        cbn [mbind option_bind]).
  rewrite read_member_spec. cbn [mbind option_bind]. by rewrite strip_prefix_app.
Qed.

Lemma str_join_nonempty {A} (write : A → string) a l :
  write a ≠ "" → str_join "," (write <$> a :: l) ≠ "".
Proof.
  intros Ha E. destruct l as [|b l]; cbn [fmap list_fmap] in E; [done|].
  rewrite str_join_cons in E by done. apply (f_equal String.length) in E.
  rewrite !str_length_app in E. cbn in E. lia.
Qed.

Lemma json_array_nil {A} (write : A → string) l :
  (∀ a, write a ≠ "") → json_array (write <$> l) = "[]" ↔ l = [].
Proof.
  intros Hne. split; [|by intros ->]. destruct l as [|a l]; [done|]. intros E. exfalso.
  apply (str_join_nonempty write a l); [done|]. unfold json_array in E. revert E.
  generalize (str_join "," (write <$> a :: l)). intros [|c s] E; [done|]. injection E as _ E.
  apply (f_equal String.length) in E. rewrite str_length_app in E. cbn in E. lia.
Qed.

Lemma read_array_spec {A} (read : string → option (A * string)) (write : A → string) l :
  (∀ a, write a ≠ "") → (∀ a rest, read (write a +:+ rest) = Some (a, rest)) →
  read_array read (json_array (write <$> l)) = Some l.
Proof.
  intros Hne Hrw. unfold read_array. destruct l as [|a l]; [done|].
  assert (∀ l a fuel, length l < fuel →
    read_items read fuel (str_join "," (write <$> a :: l) +:+ "]") = Some (a :: l)) as Hitems.
  { clear a l. induction l as [|b l IH]; intros a fuel Hf; (destruct fuel as [|fuel]; [lia|]).
    - cbn [fmap list_fmap str_join read_items]. by rewrite Hrw.
    - cbn [fmap list_fmap length] in *. rewrite str_join_cons by done. cbn [read_items].
      rewrite !str_app_assoc, Hrw. cbn [mbind option_bind]. rewrite strip_prefix_app.
      cbn [fmap list_fmap] in IH. rewrite (IH b) by lia. done. }
  destruct (String.eqb_spec (json_array (write <$> a :: l)) "[]") as [E|_].
  { by apply json_array_nil in E. }
  unfold json_array at 2. rewrite strip_prefix_app. cbn [mbind option_bind]. apply Hitems.
  unfold json_array. rewrite !str_length_app.
  enough (length l ≤ String.length (str_join "," (write <$> a :: l))) by (cbn in *; lia).
  clear. revert a. induction l as [|b l IH]; intros a; [cbn; lia|].
  cbn [fmap list_fmap length]. rewrite str_join_cons by done. rewrite !str_length_app.
  specialize (IH b). cbn [fmap list_fmap] in IH. cbn [String.length]. lia.
Qed.

(** The key list bound to the checksum query is valid JSON that any reader turns
    back into exactly the workspace's keys, whatever characters the names hold
    (quotes, backslashes, control characters); and it is the document [[]], on
    which the query is skipped, only for an empty workspace. *)
Theorem normalized_keys_json_roundtrip w keys :
  normalized_keys w = Ok keys →
  ∃ json, normalized_keys_json w = Ok json ∧ read_array read_quoted json = Some keys ∧
    (json = "[]" ↔ object_count w = 0).
Proof.
  intros Hk. unfold normalized_keys_json. rewrite Hk. eexists. split; [done|]. split.
  - apply read_array_spec; [done|]. intros. apply read_quoted_spec.
  - rewrite json_array_nil by done. apply traverse_length in Hk. rewrite length_seq in Hk.
    rewrite <- Hk. by destruct keys.
Qed.

(** The object list bound to a full inspection reads back as the schema, kind
    and name of every object of the workspace, in order. *)
Theorem object_scope_json_roundtrip w keys :
  normalized_keys w = Ok keys →
  ∃ json, object_scope_json w = Ok json ∧ read_array read_scope_item json = Some (key_parts <$> keys).
Proof.
  intros Hk. unfold object_scope_json. rewrite Hk. eexists. split; [done|].
  rewrite list_fmap_compose. apply read_array_spec.
  - by intros [[? ?] ?].
  - intros. apply read_scope_item_spec.
Qed.

(** ** The inspect scope ([scope.rs], [scope_build.rs]) *)

(** [serde_json] on values that are strings: the text it writes for a list of
    scope parts, and what it reads from text the reader above accepts. *)
Class SerdeJson := {
  scope_to_string : list scope_part → string;
  strings_to_string : list string → string;
  strings_from_str : string → option (list string);
  scope_to_string_nil l : scope_to_string l = "[]" ↔ l = [];
  strings_from_str_read s l : read_array read_quoted s = Some l → strings_from_str s = Some l;
}.

Record InspectScope := mk_InspectScope {
  is_full_inspect : bool;
  is_hot_keys : gset string;
  is_stable_objects : gmap string CatalogObject;
  is_allow_l1_skip : bool;
}.

(** The lexicographic order of string triples. *)
Definition part_leb (a b : scope_part) : bool :=
  let '(a1, a2, a3) := a in
  let '(b1, b2, b3) := b in
  if negb (String.eqb a1 b1) then String.leb a1 b1
  else if negb (String.eqb a2 b2) then String.leb a2 b2
  else String.leb a3 b3.

Definition scope_key_parts (key : string) : option scope_part :=
  match split_on "/" key with
  | schema :: kind :: object :: _ => Some (schema, kind, object)
  | _ => None
  end.

(** The eight bytes of [u64::from_le_bytes], least significant first. *)
Fixpoint from_le_bytes (l : list N) : N :=
  match l with [] => 0 | b :: l => b + 256 * from_le_bytes l end%N.

(** [format!("{}/{k}")] of entry [i]. *)
Definition qualified_entry_key (w : Workspace) (obj : ObjectEntry) (key : string) : string :=
  database_name w (oe_db_id obj) +:+ "/" +:+ key.

Section scope.
Context `{HU : Unicode} `{HF : Fingerprint} `{HM : MapOrder} `{HX : Hex} `{HS : Sha256} `{HJS : SerdeJson}.
Context (env : string → EnvVar).

Definition scope_parts (hot_keys : gset string) : list scope_part :=
  sort_by part_leb (omap scope_key_parts (set_order hot_keys)).

Definition build_scope_json (scope : InspectScope) : string :=
  scope_to_string (scope_parts (is_hot_keys scope)).

Definition spot_check_count_from_env : N :=
  default 8%N (env_text (env "RMIG_CATALOG_SPOTCHECK") ≫= parse_u64).

Definition spot_check_rank (key layout_digest : string) : N :=
  from_le_bytes (take 8 (bytes_of
    (sha256 (layout_digest +:+ String (ascii_of_N 0) "" +:+ key)))).

(** Promotes the first [n] stable keys by rank to hot ones. *)
Definition promote_spot_check_keys (w : Workspace)
    (st : gset string * gmap string CatalogObject) : gset string * gmap string CatalogObject :=
  let '(hot, stable) := st in
  let n := spot_check_count_from_env in
  if (n =? 0)%N || bool_decide (stable = ∅) then st
  else
    let digest := hex_encode (ws_layout_digest w) in
    let keys := sort_by (λ a b, (spot_check_rank a digest <=? spot_check_rank b digest)%N)
                  (iter_order stable).*1 in
    foldl (λ '(hot, stable) key, ({[key]} ∪ hot, delete key stable)) (hot, stable)
      (take (N.to_nat (N.min n (N.of_nat (size stable)))) keys).

(** The catalog entry a stable object is given without asking the server. *)
Definition assumed_object (w : Workspace) (i : nat) (key : string) : M CatalogObject :=
  parent ← (match ws_parent_by_row w !! row_id_at i with
            | Some pref =>
                if (0 <? parent_row_id pref)%N then Some <$> parent_name w (row_id_at i)
                else Ok None
            | None => Ok None
            end);
  Ok (catalog_object_parts (schema_part key) (kind_part key) (name_part key) parent).

(** Not recorded, recorded by the bootstrap as all zeroes, or recorded for other
    contents. *)
Definition checksum_unsettled (prior : option digest) (file_cs : digest) : bool :=
  match prior with
  | None => true
  | Some p => String.eqb p zero_digest || negb (String.eqb p file_cs)
  end.

Definition classify_entry (w : Workspace) (delta : gset string) (checksums : ChecksumMap)
    (st : gset string * gmap string CatalogObject) (i : nat)
    : M (gset string * gmap string CatalogObject) :=
  let '(hot, stable) := st in
  obj ← ws_entry w i;
  k ← entry_key w i;
  row ← ws_row w i;
  if is_module_kind_code (or_kind_code row) then Ok ({[k]} ∪ hot, stable)
  else if bool_decide (qualified_entry_key w obj k ∈ delta) then Ok ({[k]} ∪ hot, stable)
  else if checksum_unsettled (get_key checksums k) (oe_checksum obj) then Ok ({[k]} ∪ hot, stable)
  else o ← assumed_object w i k; Ok (hot, <[k := o]> stable).

Definition build_inspect_scope (w : Workspace) (changed_paths : list string)
    (full_inspect : bool) (checksums : ChecksumMap) : M InspectScope :=
  if full_inspect then
    keys ← normalized_keys w; Ok (mk_InspectScope true (list_to_set keys) ∅ false)
  else
    delta ← keys_for_changed_paths w changed_paths;
    delta ← expand_delta_closure w delta;
    let total := object_count w in
    st ← foldM (classify_entry w delta checksums) (∅, ∅) (seq 0 total);
    let '(hot, stable) := promote_spot_check_keys w st in
    if Nat.eqb (size hot) total then Ok (mk_InspectScope true hot ∅ false)
    else Ok (mk_InspectScope false hot stable (bool_decide (hot = ∅))).

Definition build_scope_and_json (w : Workspace) (changed_paths : list string)
    (full_inspect : bool) (checksums : ChecksumMap) : M (InspectScope * string) :=
  scope ← build_inspect_scope w changed_paths full_inspect checksums;
  scope_json ← (if full_inspect then object_scope_json w else Ok (build_scope_json scope));
  Ok (scope, scope_json).

(** ** Scopes of a git delta ([git_scope.rs], [helpers.rs]) *)

(** The entries whose qualified key is in the delta of the changed paths. *)
Definition delta_entries (w : Workspace) (changed_paths : list string) : M (list object_key) :=
  delta ← keys_for_changed_paths w changed_paths;
  delta ← expand_delta_closure w delta;
  foldM (λ out i,
    obj ← ws_entry w i;
    key ← entry_key w i;
    Ok (if bool_decide (qualified_entry_key w obj key ∈ delta) then out ++ [key] else out))
    [] (seq 0 (object_count w)).

Definition git_hot_scope_json (w : Workspace) (changed_paths : list string) : M string :=
  keys ← delta_entries w changed_paths;
  Ok (build_scope_json (mk_InspectScope false (list_to_set keys) ∅ false)).

Definition kinds_for_git_delta (w : Workspace) (changed_paths : list string) : M (list string) :=
  keys ← delta_entries w changed_paths; Ok (map kind_part keys).

Definition kinds_for_scope (w : Workspace) (scope : InspectScope) : M (list string) :=
  keys ← normalized_keys w;
  Ok (map kind_part (List.filter
        (λ k, is_full_inspect scope || bool_decide (k ∈ is_hot_keys scope)) keys)).

Definition schemas_json (w : Workspace) : string :=
  strings_to_string (se_normalized <$> ws_schemas w).

Definition should_query_catalog (full : bool) (scope : InspectScope) (scope_json : string) : bool :=
  negb (String.eqb scope_json "[]") && (full || negb (bool_decide (is_hot_keys scope = ∅))).

(** [empty_checksums_from_keys_json]. *)
Definition empty_checksums_from_keys_json (keys_json : string) : ChecksumMap :=
  empty_checksums (default [] (strings_from_str keys_json)).
End scope.

(** ** Facts: the inspect scope *)

Section scope_facts.
Context `{HU : Unicode} `{HF : Fingerprint} `{HM : MapOrder} `{HX : Hex} `{HS : Sha256} `{HJS : SerdeJson}.
Context (env : string → EnvVar).

(** Aligned columns with distinct keys, as [for_catalog_database] leaves them. *)
Record scope_wf (w : Workspace) (keys : list object_key) : Prop := {
  sw_gate : gate_wf w;
  sw_keys : normalized_keys w = Ok keys;
  sw_nodup : NoDup keys;
  sw_rows : length (ws_object_rows w) = object_count w;
}.

Lemma scope_wf_lookup w keys i :
  scope_wf w keys → i < object_count w →
  ∃ obj row k, ws_entry w i = Ok obj ∧ ws_row w i = Ok row ∧ entry_key w i = Ok k ∧
    keys !! i = Some k.
Proof.
  intros [_ Hk _ Hr] Hi. unfold ws_entry, ws_row.
  destruct (lookup_lt_is_Some_2 (ws_object_entries w) i) as [obj ->]; [done|].
  destruct (lookup_lt_is_Some_2 (ws_object_rows w) i) as [row ->]; [by rewrite Hr|].
  apply traverse_Ok in Hk. destruct (Forall2_lookup_l _ _ _ i i Hk) as (k & Hki & Hek).
  { by apply lookup_seq. }
  by exists obj, row, k.
Qed.

Lemma assumed_object_Ok w keys i k :
  scope_wf w keys → ∃ o, assumed_object w i k = Ok o.
Proof.
  intros Hw. unfold assumed_object.
  destruct (ws_parent_by_row w !! row_id_at i) as [pref|] eqn:Hp; [|cbn; eauto].
  destruct (0 <? parent_row_id pref)%N; [|cbn; eauto]. unfold parent_name. rewrite Hp.
  destruct (row_index (parent_row_id pref)) as [pi|] eqn:Hpi; [|cbn; eauto].
  destruct (scope_wf_lookup w keys pi) as (obj & row & k' & -> & _ & E & _);
    [done|eapply parent_lt; [apply Hw|done..]|].
  unfold entry_name_part. rewrite E. cbn. eauto.
Qed.

(** Entry [i] with key [k] is settled: its recorded digest is that of its file, and
    it is neither a module nor among the changed objects. *)
Definition settled (w : Workspace) (delta : gset string) (cm : ChecksumMap) (i : nat) (k : object_key)
    : Prop :=
  ∃ obj row, ws_entry w i = Ok obj ∧ ws_row w i = Ok row ∧
    is_module_kind_code (or_kind_code row) = false ∧ (qualified_entry_key w obj k ∉ delta) ∧
    get_key cm k = Some (oe_checksum obj) ∧ oe_checksum obj ≠ zero_digest.

(** The split of the first [n] keys. *)
Record split_of (w : Workspace) (delta : gset string) (cm : ChecksumMap) (keys : list object_key)
    (st : gset string * gmap string CatalogObject) : Prop := {
  so_all k : k ∈ keys ↔ k ∈ st.1 ∨ is_Some (st.2 !! k);
  so_disj k : k ∈ st.1 → st.2 !! k = None;
  so_settled i k : entry_key w i = Ok k → i < object_count w → is_Some (st.2 !! k) →
    settled w delta cm i k;
}.

Lemma unsettled_false prior d :
  checksum_unsettled prior d = false → prior = Some d ∧ d ≠ zero_digest.
Proof.
  destruct prior as [p|]; [|done]. cbn.
  destruct (String.eqb_spec p zero_digest), (String.eqb_spec p d); cbn; naive_solver.
Qed.

Lemma keys_index w keys i j k :
  scope_wf w keys → i < object_count w → entry_key w i = Ok k → keys !! j = Some k → i = j.
Proof.
  intros Hw Hi Hk Hj. destruct (scope_wf_lookup w keys i Hw Hi) as (_ & _ & k' & _ & _ & Hk' & Hki).
  assert (k' = k) as -> by congruence. eapply NoDup_lookup; [apply (sw_nodup _ _ Hw)|done..].
Qed.

Lemma classify_step w keys delta cm i st :
  scope_wf w keys → i < object_count w → split_of w delta cm (take i keys) st →
  ∃ st', classify_entry w delta cm st i = Ok st' ∧ split_of w delta cm (take (S i) keys) st'.
Proof.
  intros Hw Hi Hst. destruct st as [hot stable].
  destruct (scope_wf_lookup w keys i Hw Hi) as (obj & row & k & Ho & Hr & Hk & Hki).
  assert (Hfresh : k ∉ take i keys).
  { intros (j & Hj%lookup_take_Some)%list_elem_of_lookup. destruct Hj as [Hj Hlt].
    assert (i = j) by (by eapply keys_index). lia. }
  assert (Hnh : (k ∉ hot) ∧ stable !! k = None).
  { rewrite (so_all _ _ _ _ _ Hst) in Hfresh. cbn in Hfresh.
    split; [tauto|]. destruct (stable !! k) eqn:E; [|done]. exfalso. apply Hfresh. eauto. }
  destruct Hnh as [Hnhot Hnst]. destruct Hst as [Hall Hdisj Hset]. cbn in *.
  assert (Hhot : split_of w delta cm (take (S i) keys) ({[k]} ∪ hot, stable)).
  { split; cbn; [|set_solver|exact Hset]. intros x.
    rewrite (take_S_r _ _ _ Hki), elem_of_app, list_elem_of_singleton, Hall. set_solver. }
  unfold classify_entry. rewrite Ho, Hk, Hr. cbn.
  destruct (is_module_kind_code _) eqn:Hm; [eauto|]. case_bool_decide as Hd; [eauto|].
  destruct (checksum_unsettled _ _) eqn:Hc; [eauto|]. apply unsettled_false in Hc as [Hc Hz].
  destruct (assumed_object_Ok w keys i k Hw) as [o ->]. cbn. eexists. split; [done|].
  split; cbn.
  - intros x. rewrite (take_S_r _ _ _ Hki), elem_of_app, list_elem_of_singleton, Hall.
    rewrite lookup_insert_is_Some'. set_solver.
  - intros x Hx. rewrite lookup_insert_ne by set_solver. by apply Hdisj.
  - intros j x Hj Hlt. rewrite lookup_insert_is_Some'. intros [<-|Hx]; [|by apply Hset].
    assert (j = i) as -> by (by eapply keys_index). by exists obj, row.
Qed.

Lemma promote_split w delta cm keys st :
  split_of w delta cm keys st → split_of w delta cm keys (promote_spot_check_keys env w st).
Proof.
  intros Hst. unfold promote_spot_check_keys. destruct st as [hot stable].
  destruct (_ || _); [done|].
  set (l := take _ _).
  assert (Hl : ∀ k, k ∈ l → k ∈ keys).
  { intros k Hk. apply (so_all _ _ _ _ _ Hst). right.
    apply subseteq_take in Hk.
    rewrite sort_by_perm in Hk.
    apply list_elem_of_fmap in Hk as ([k' o] & -> & Hk%iter_order_elem). cbn. eauto. }
  clearbody l. revert hot stable Hst. induction l as [|x l IH]; intros hot stable Hst; [done|].
  cbn. apply IH; [intros; apply Hl; by right|]. destruct Hst as [Hall Hdisj Hset].
  assert (Hx : x ∈ keys) by (apply Hl; by left). split; cbn in *.
  - intros k. rewrite lookup_delete_is_Some. destruct (decide (k = x)) as [->|Hne]; [set_solver|].
    rewrite Hall. set_solver.
  - intros k [->%elem_of_singleton|Hk]%elem_of_union; [apply lookup_delete_eq|].
    apply lookup_delete_None. right. by apply Hdisj.
  - intros i k Hk Hi [_ Hs]%lookup_delete_is_Some. eauto.
Qed.

(** A scope that asks for everything asks for every key. *)
Lemma full_of_size (keys : list object_key) (hot : gset string) :
  NoDup keys → (∀ k, k ∈ hot → k ∈ keys) → size hot = length keys →
  ∀ k, k ∈ keys → k ∈ hot.
Proof.
  intros Hnd Hsub Hsize k Hk.
  assert (hot = list_to_set keys) as ->; [|set_solver].
  apply set_subseteq_size_eq; [set_solver|]. rewrite size_list_to_set by done. lia.
Qed.

End scope_facts.

(** ** Facts: the scope as a cache key *)

(** Case on the equality of two strings the goal compares; the first name survives. *)
Ltac string_case x y :=
  let E := fresh in
  destruct (String.string_dec x y) as [E|E];
  [destruct E; rewrite ?String.eqb_refl
  |rewrite ?(proj2 (String.eqb_neq x y) E), ?(proj2 (String.eqb_neq y x) (not_eq_sym E))]; cbn.

Lemma part_leb_total a b : part_leb a b = true ∨ part_leb b a = true.
Proof.
  destruct a as [[a1 a2] a3], b as [[b1 b2] b3]. cbn.
  string_case a1 b1; [|apply String.leb_total]. string_case a2 b2; apply String.leb_total.
Qed.

Lemma leb_neq_antisym a b (P : Prop) :
  a ≠ b → String.leb a b = true → String.leb b a = true → P.
Proof. intros Hne H1 H2. destruct Hne. by apply String.leb_antisym. Qed.

Lemma part_leb_antisym a b : part_leb a b = true → part_leb b a = true → a = b.
Proof.
  destruct a as [[a1 a2] a3], b as [[b1 b2] b3]. cbn.
  string_case a1 b1; [|by apply leb_neq_antisym]. string_case a2 b2; [|by apply leb_neq_antisym].
  intros H1 H2. f_equal. by apply String.leb_antisym.
Qed.

Lemma part_leb_trans a b c : part_leb a b = true → part_leb b c = true → part_leb a c = true.
Proof.
  destruct a as [[a1 a2] a3], b as [[b1 b2] b3], c as [[c1 c2] c3]. cbn.
  string_case a1 b1.
  - string_case a1 c1; [|done]. string_case a2 b2.
    + string_case a2 c2; [apply leb_trans|done].
    + string_case b2 c2; [by rewrite (proj2 (String.eqb_neq a2 b2))|]. string_case a2 c2; [by apply leb_neq_antisym|apply leb_trans].
  - string_case b1 c1; [by rewrite (proj2 (String.eqb_neq a1 b1))|]. string_case a1 c1; [by apply leb_neq_antisym|apply leb_trans].
Qed.

(** The JSON by which an inspection is cached depends only on which objects are
    to be inspected, not on the order in which a hash set yields them. *)
Theorem build_scope_json_deterministic (o1 o2 : MapOrder) `{HJS : SerdeJson} (scope : InspectScope) :
  build_scope_json (HM := o1) scope = build_scope_json (HM := o2) scope.
Proof.
  unfold build_scope_json. f_equal. unfold scope_parts.
  apply (sorted_perm_unique part_leb); [apply part_leb_antisym| | |].
  1,2: apply sort_by_sorted; [apply part_leb_total|apply part_leb_trans].
  rewrite !sort_by_perm. apply omap_Permutation. unfold set_order. by rewrite !iter_order_perm.
Qed.

(** ** A database of three objects *)

Module ScopeSample.
#[local] Existing Instances Concrete.unicode Concrete.fingerprint Concrete.map_order Concrete.hex
  Concrete.digest.

(** [serde_json] with the documents of this file. *)
#[global] Program Instance serde : SerdeJson := {
  scope_to_string l := json_array (scope_item <$> l);
  strings_to_string l := json_array (quoted <$> l);
  strings_from_str := read_array read_quoted;
}.
Next Obligation. intros l. apply json_array_nil. by intros [[? ?] ?]. Qed.
Next Obligation. done. Qed.

Definition d (n : N) : digest := of_bytes (n :: replicate 31 0%N).
Definition entry (script_id n : N) : ObjectEntry := mk_ObjectEntry (d n) StrOff_EMPTY script_id 1 0.
Definition w : Workspace := GateSample.w
  <| ws_object_entries := [entry 1 1; entry 2 2; entry 3 3] |>
  <| ws_object_rows := [mk_ObjectRow 1 KIND_TABLES; mk_ObjectRow 1 KIND_TRIGGERS;
                        mk_ObjectRow 1 KIND_VIEWS] |>.
Definition keys : list object_key := ["dbo/tables/t"; "dbo/triggers/tr"; "dbo/views/v"].
Definition env (name : string) : EnvVar :=
  if String.eqb name "RMIG_CATALOG_SPOTCHECK" then EnvText "0" else EnvUnset.
(** The table's script was applied as it is. *)
Definition recorded : ChecksumMap := insert_key "dbo/tables/t" (d 1) ChecksumMap_new.

Lemma sample_scope_wf : scope_wf w keys.
Proof.
  split; [|done| |done].
  - split.
    + intros [|[|[|i]]] Hi; [by eexists..|]. unfold w, object_count in Hi. cbn in Hi. lia.
    + intros row pref. unfold w, GateSample.w. cbn. intros [_ <-]%lookup_singleton_Some. cbn. lia.
  - apply (bool_decide_unpack _). by vm_compute.
Qed.

Lemma no_changes : keys_for_changed_paths w [] = Ok ∅.
Proof. done. Qed.


Lemma stable_table :
  match build_inspect_scope env w [] false recorded with
  | Ok s => bool_decide (is_Some (is_stable_objects s !! "dbo/tables/t"))
            && negb (bool_decide ("dbo/tables/t" ∈ is_hot_keys s))
            && bool_decide ("dbo/views/v" ∈ is_hot_keys s)
  | _ => false
  end = true.
Proof. by vm_compute. Qed.

Lemma normalized_keys_json_roundtrip_witness :
  normalized_keys w = Ok keys ∧
  ∃ json, normalized_keys_json w = Ok json ∧ read_array read_quoted json = Some keys.
Proof.
  split; [done|].
  destruct (normalized_keys_json_roundtrip w keys eq_refl) as (json & H1 & H2 & _).
  exists json. split; [exact H1|exact H2].
Defined.

Lemma object_scope_json_roundtrip_witness :
  normalized_keys w = Ok keys ∧
  ∃ json, object_scope_json w = Ok json ∧ read_array read_scope_item json = Some (key_parts <$> keys).
Proof.
  split; [done|]. exact (object_scope_json_roundtrip w keys eq_refl).
Defined.
End ScopeSample.
