(* ===== verification/PlanDb.v ===== *)
(** * The database half of planning ([db/])

    How a plan's facts are obtained from the server and from the caches in front
    of it: statement batches ([batch.rs], [catalog.rs]), the process-wide caches
    ([catalog_inspect_cache.rs], [warm_snapshot.rs]), the L1 files ([cache/l1.rs]),
    the cache tables ([catalog_cache*.rs]) and the phase itself ([plan_common/],
    [plan_snapshot.rs]).  Elapsed times are not modelled. *)

From S2P Require Export Effects Scope.
From Stdlib Require Import Ascii.
From Stdlib Require String.

(** ** Batches ([batch.rs], [catalog.rs]) *)

Definition NL : Piece := Lit (String LF "").
Definition BOOTSTRAP_NAMES : list string := ["audit::BOOTSTRAP_TABLES"; "audit::BOOTSTRAP_DRIFT"].

Definition cte (name constant : string) : list Piece :=
  [Lit (", " +:+ name +:+ " AS ("); Const constant; Lit ")"].

(** [push_source] for each name in turn. *)
Definition push_sources (names : list string) : list Piece :=
  match names with
  | [] => []
  | name :: names =>
      [Lit " "; Const "catalog::ROWS_PROJECTION"; Lit " "; Lit name]
        ++ (names ≫= λ name, [Lit " UNION ALL "; Const "catalog::ROWS_PROJECTION"; Lit " "; Lit name])
  end.

Definition has_kind (kind : string) (kinds : list string) : bool := existsb (String.eqb kind) kinds.
Definition has_sys_kind (kinds : list string) : bool :=
  existsb (λ k, negb (String.eqb k "types" || String.eqb k "indexes")) kinds.

Definition build_catalog_from_header (header : Piece) (kinds : list string) (skip_schema_rows : bool)
    : list Piece :=
  let has_sys := has_sys_kind kinds in
  let has_types := has_kind "types" kinds in
  let has_indexes := has_kind "indexes" kinds in
  [header]
    ++ (if skip_schema_rows then [] else cte "schema_rows" "catalog::SCHEMA_ROWS")
    ++ (if has_sys then cte "sys_object_rows" "catalog::SYS_OBJECTS" else [])
    ++ (if has_types then cte "type_rows" "catalog::TYPES" else [])
    ++ (if has_indexes then cte "index_rows" "catalog::INDEXES" else [])
    ++ push_sources ((if skip_schema_rows then [] else ["schema_rows"])
         ++ (if has_sys then ["sys_object_rows"] else [])
         ++ (if has_types then ["type_rows"] else [])
         ++ (if has_indexes then ["index_rows"] else [])).

(** The header's parameters move up by one: scope [@p2], schemas [@p3]. *)
Definition build_catalog_sql_batch (kinds : list string) (skip_schema_rows : bool) : list Piece :=
  build_catalog_from_header (Renumbered "catalog::SCOPE_HEADER") kinds skip_schema_rows.

Definition plan_db_batch_sql (kinds : list string)
    (bootstrap catalog skip_schema_rows relaxed_cache : bool) : list Piece :=
  (if bootstrap then [Const "audit::BOOTSTRAP_TABLES"; NL; Const "audit::BOOTSTRAP_DRIFT"; NL] else [])
    ++ (if relaxed_cache then [Const "catalog::CACHE_LOAD_RELAXED"; NL] else [])
    ++ (if catalog then build_catalog_sql_batch kinds skip_schema_rows else []).

(** ** Interning a catalog ([state.rs]) *)

Section intern.
Context `{HM : MapOrder}.

Definition object_texts (o : CatalogObject) : list string :=
  [co_schema o; co_kind o; co_name o] ++ opt_list (co_parent o).
Definition catalog_texts (st : CatalogState) : list string :=
  set_order (cs_schemas st) ++ ((iter_order (cs_objects st)).*2 ≫= object_texts).

Definition intern_object (arena : StringArena) (o : CatalogObject) : M CatalogObject :=
  schema ← arena_get arena (co_schema o);
  kind ← arena_get arena (co_kind o);
  name ← arena_get arena (co_name o);
  parent ← (match co_parent o with Some p => Some <$> arena_get arena p | None => Ok None end);
  Ok (mk_CatalogObject schema kind name parent).

Definition intern_catalog_state (st : CatalogState) : M CatalogState :=
  if bool_decide (cs_objects st = ∅) && bool_decide (cs_schemas st = ∅) then Ok st
  else
    let arena := finish (register_all (catalog_texts st) builder_new) in
    schemas ← traverse (arena_get arena) (set_order (cs_schemas st));
    objects ← foldM (λ m '(k, o), o ← intern_object arena o; Ok (<[k := o]> m)) ∅
                (iter_order (cs_objects st));
    Ok (mk_CatalogState (list_to_set schemas) objects).
End intern.

(** ** Trace ([plan_db_trace.rs], [trace.rs]) *)

Inductive PlanDbPath : Type := CacheHit | WarmSnapshotPath | GitDelta | ColdFull | Incremental.

Record PlanDbTrace := mk_PlanDbTrace {
  tr_path : option PlanDbPath;
  tr_query_calls : N;
  tr_round_trips : Z;
  tr_bootstrap : bool;
  tr_scoped_hit : bool;
  tr_catalog_queried : bool;
  tr_history_empty : bool;
  tr_checksums_skipped : bool;
}.
#[global] Instance PlanDbTrace_eta : Settable PlanDbTrace := λ t,
  mk_PlanDbTrace (tr_path t) (tr_query_calls t) (tr_round_trips t) (tr_bootstrap t)
    (tr_scoped_hit t) (tr_catalog_queried t) (tr_history_empty t) (tr_checksums_skipped t).
Definition PlanDbTrace_default : PlanDbTrace := mk_PlanDbTrace None 0 0 false false false false false.

Definition path_as_str (p : PlanDbPath) : string :=
  match p with
  | CacheHit => "cache_hit"
  | WarmSnapshotPath => "warm_snapshot"
  | GitDelta => "git_delta"
  | ColdFull => "cold_full"
  | Incremental => "incremental"
  end.
Definition plan_db_path_from_label (label : string) : option PlanDbPath :=
  match_str label [("cache_hit", Some CacheHit); ("warm_snapshot", Some WarmSnapshotPath);
    ("git_delta", Some GitDelta); ("cold_full", Some ColdFull); ("incremental", Some Incremental)] None.
Definition path_label (t : PlanDbTrace) : string :=
  match tr_path t with Some p => path_as_str p | None => "unknown" end.
Definition plan_db_slo_exempt (label : string) (l1_cache_hit : bool) : bool :=
  l1_cache_hit || String.eqb label "cold_full".

Definition merge_trace (dst src : PlanDbTrace) : PlanDbTrace :=
  dst <| tr_scoped_hit ::= orb (tr_scoped_hit src) |>
      <| tr_catalog_queried ::= orb (tr_catalog_queried src) |>
      <| tr_history_empty ::= orb (tr_history_empty src) |>
      <| tr_checksums_skipped ::= orb (tr_checksums_skipped src) |>
      <| tr_round_trips ::= Z.max (tr_round_trips src) |>.

(** ** Interfaces *)

(** The hash of an inspect-cache key in lower-case hex, and the JSON payloads of
    the cache table and of an L1 file ([serde_json]); a payload that does not
    parse is a miss. *)
Class CacheFormats := {
  inspect_hash : string → digest → string → string;
  rows_to_string : list (string * string * string * string * string) → string;
  l1_encode : digest → ChecksumMap → CatalogState → string;
  l1_decode : string → option (digest * ChecksumMap * CatalogState);
}.

(** The file-system calls of the L1 cache: [w_file_len] is [None] unless the path
    is a regular file. *)
Class Files (W : Type) := {
  w_file_len : W → string → option N;
  w_create_dir_all : string → W → W * option Error;
  w_write : string → string → W → W * option Error;
  w_rename : string → string → W → W * option Error;
  w_process_id : W → N;
}.

(** Time as the bound around several calls sees it. *)
Class Clock (W : Type) := { w_clock : W → N }.

Section plan_db.
Context {W : Type} `{HW : World W} `{HFi : Files W} `{HCl : Clock W}.
Context `{HU : Unicode} `{HF : Fingerprint} `{HM : MapOrder} `{HX : Hex} `{HS : Sha256}.
Context `{HJS : SerdeJson} `{HC : CacheFormats}.
Context (env : string → EnvVar).

(** ** The inspect cache ([catalog_inspect_cache.rs]) *)

Definition inspect_key (db_fp : string) (d : digest) (scope_json : string) : string :=
  db_fp +:+ ":" +:+ inspect_hash db_fp d scope_json.

Definition inspect_store (db_fp : string) (d : digest) (scope_json : string) (st : CatalogState)
    : IO W unit :=
  modify_st (λ s, set_inspect (<[inspect_key db_fp d scope_json := st]> (st_inspect s)) s).

Definition inspect_invalidate_db (db_fp : string) : IO W unit :=
  modify_st (λ s, set_inspect (filter (λ kv, starts_with db_fp kv.1 = false) (st_inspect s)) s).

Definition catalog_is_empty (st : CatalogState) : bool :=
  bool_decide (cs_objects st = ∅) && bool_decide (cs_schemas st = ∅).

Definition try_get_unless_bypassed (bypass : bool) (db_fp : string) (d : digest)
    (scope_json : string) : IO W (option CatalogState) :=
  if bypass then mret None
  else
    s ← get_st;
    mret (st ← st_inspect s !! inspect_key db_fp d scope_json;
          if catalog_is_empty st then None else Some st).

Definition store_inspect_cache (db_fp : string) (d : digest) (scope_json : string)
    (loaded : CatalogState) : IO W unit :=
  if catalog_is_empty loaded then mret tt else inspect_store db_fp d scope_json loaded.

(** ** The warm snapshot ([warm_snapshot.rs]) *)

Definition reuse_enabled : bool :=
  match env_text (env "RMIG_INTEGRATION_WARM_SNAPSHOT") with
  | Some v => String.eqb v "1" || String.eqb v "true" || String.eqb v "yes"
  | None => false
  end.

Definition warm_store (server_database : string) (d : digest) (checksums : ChecksumMap)
    (catalog : CatalogState) : IO W unit :=
  if negb reuse_enabled then mret tt
  else modify_st (set_warm (Some (mk_WarmSnapshot server_database d checksums catalog))).

Definition warm_reuse (server_database : string) (d : digest)
    : IO W (option (ChecksumMap * CatalogState)) :=
  if negb reuse_enabled then mret None
  else
    s ← get_st;
    mret (sn ← st_warm s;
          if negb (String.eqb (wsn_server_database sn) server_database)
             || negb (String.eqb (wsn_digest sn) d) then None
          else Some (wsn_checksums sn, wsn_catalog sn)).

Definition warm_clear : IO W unit := modify_st (set_warm None).

(** ** The L1 files ([cache/l1.rs]) *)

Definition MAX_L1_CACHE_BYTES : N := 67108864.

Definition l1_file (root fingerprint : string) (d : digest) (extension : string) : string :=
  path_join (path_join root fingerprint) (hex_encode d +:+ extension).

Definition l1_try_load (root fingerprint : string) (d : digest)
    : IO W (option (ChecksumMap * CatalogState)) :=
  let path := l1_file root fingerprint d ".json" in
  s ← get_st;
  match w_file_len (st_world s) path with
  | None => mret None
  | Some len =>
      if (MAX_L1_CACHE_BYTES <? len)%N then mret None
      else
        data ← read_file path;
        match data with
        | inl e => lift (Err e)
        | inr data =>
            mret ('(d', checksums, catalog) ← l1_decode data;
                  if String.eqb d' d then Some (checksums, catalog) else None)
        end
  end.

(** One file-system call that changes the world. *)
Definition fs_call (f : W → W * option Error) : IO W unit := λ s,
  let '(w, e) := f (st_world s) in
  (match e with Some e => Err e | None => Ok tt end, set_world w s).

Definition l1_save (root fingerprint : string) (d : digest) (checksums : ChecksumMap)
    (catalog : CatalogState) : IO W unit :=
  fs_call (w_create_dir_all (path_join root fingerprint));;
  let data := l1_encode d checksums catalog in
  if (MAX_L1_CACHE_BYTES <? N.of_nat (String.length data))%N then mret tt
  else
    s ← get_st;
    let tmp := l1_file root fingerprint d ("." +:+ pretty (w_process_id (st_world s)) +:+ ".tmp") in
    fs_call (w_write tmp data);;
    fs_call (w_rename tmp (l1_file root fingerprint d ".json")).

(** ** The cache tables ([catalog_cache.rs], [catalog_cache_save/]) *)

Definition catalog_try_load (d : digest) (object_count : nat) : IO W (option CatalogState) :=
  r ← attempt (query CACHE_LOAD [hex_encode d; pretty object_count]);
  match r with
  | inl e => if missing_catalog_table e then mret None else lift (Err e)
  | inr rows =>
      match catalog_of_cache_rows rows object_count with
      | None => mret None
      | Some st => st ← lift (intern_catalog_state st); mret (Some st)
      end
  end.

Definition cache_row (kv : object_key * CatalogObject) : string * string * string * string * string :=
  let '(k, o) := kv in (k, co_schema o, co_kind o, co_name o, default "" (co_parent o)).
Definition marshal_rows (st : CatalogState) : string :=
  rows_to_string (map cache_row (iter_order (cs_objects st))).

Definition save_batched (d : digest) (ws : Workspace) (st : CatalogState) : IO W unit :=
  let n := object_count ws in
  if Nat.eqb n 0 then mret tt
  else
    filtered ← lift (filter_for_layout ws st);
    if negb (Nat.eqb (size (cs_objects filtered)) n) then mret tt
    else
      r ← attempt (query CACHE_SAVE_BATCH [marshal_rows filtered; hex_encode d; pretty n]);
      match r with
      | inl e => if missing_catalog_table e then mret tt else lift (Err e)
      | inr _ => mret tt
      end.

Definition no_parent (o : CatalogObject) : bool :=
  match co_parent o with None => true | Some p => String.eqb p "" end.

(** One row of [INDEX_PARENTS]: the parent of every index of that name without one. *)
Definition hydrate_row (st : CatalogState) (row : RowData) : CatalogState :=
  let schema := to_lowercase (str_or_empty row 0) in
  let index := to_lowercase (str_or_empty row 1) in
  let parent := str_or_empty row 2 in
  if String.eqb parent "" then st
  else st <| cs_objects ::= fmap (λ o,
    if String.eqb (co_kind o) "indexes" && eq_ignore_ascii_case (co_schema o) schema
       && eq_ignore_ascii_case (co_name o) index && no_parent o
    then mk_CatalogObject (co_schema o) (co_kind o) (co_name o) (Some parent) else o) |>.

Definition hydrate_index_parents_from_db (st : CatalogState) : IO W CatalogState :=
  if negb (existsb (λ kv, String.eqb (co_kind kv.2) "indexes" && no_parent kv.2)
             (map_to_list (cs_objects st))) then mret st
  else
    rows ← query INDEX_PARENTS [];
    mret (foldl hydrate_row st rows).

Definition workspace_catalog (ws : Workspace) : M CatalogState :=
  foldM (λ st i,
    key ← entry_key ws i;
    o ← assumed_object ws i key;
    Ok (st <| cs_schemas ::= λ s, {[ to_lowercase (schema_part key) ]} ∪ s |>
           <| cs_objects ::= <[key := o]> |>))
    CatalogState_default (seq 0 (object_count ws)).

Definition save_workspace_snapshot (d : digest) (ws : Workspace) (enabled : bool) : IO W unit :=
  if negb enabled || Nat.eqb (object_count ws) 0 then mret tt
  else
    st ← lift (workspace_catalog ws);
    st ← hydrate_index_parents_from_db st;
    save_batched d ws st.

(** ** Recorded checksums ([plan_common/checksums.rs], [probe.rs]) *)

Definition ensure_tables_plan (db_fp : string) : IO W unit :=
  exec BOOTSTRAP_TABLES;;
  exec BOOTSTRAP_DRIFT;;
  modify_st (mark_tables_ensured db_fp).

Definition history_table_exists : IO W bool :=
  rows ← query HISTORY_EXISTS [];
  mret (negb (default 0%Z (head rows ≫= λ r, get_i32 r 0) =? 0)%Z).

Definition probe_has_rows (rows : list RowData) : bool :=
  match head rows ≫= λ r, get_str r 0 with
  | Some s => let s := trim s in String.eqb s "1" || String.eqb s "true" || String.eqb s "True"
  | None => false
  end
  || match head rows ≫= λ r, get_i32 r 0 with Some n => negb (n =? 0)%Z | None => false end.

Definition history_table_is_empty_plan (db_fp : string) (allow_bootstrap : bool) : IO W bool :=
  s ← get_st;
  match history_empty_cached db_fp s with
  | Some empty => mret empty
  | None =>
      absent ← (if tables_ensured db_fp s then mret false
                else if allow_bootstrap then ensure_tables_plan db_fp;; mret false
                else negb <$> history_table_exists);
      if absent : bool then modify_st (cache_history_empty db_fp true);; mret true
      else
        rows ← query HISTORY_EMPTY [];
        modify_st (mark_tables_ensured db_fp);;
        let empty := negb (probe_has_rows rows) in
        (if empty then mret tt else inspect_invalidate_db db_fp);;
        modify_st (cache_history_empty db_fp empty);;
        mret empty
  end.

Definition load_checksums_query_plan (keys_json : string) (allow_repair : bool) : IO W ChecksumMap :=
  rows ← query LOAD_CHECKSUMS [keys_json];
  lift (checksum_map_from_rows_ws rows allow_repair).

Definition load_checksums_plan (db_fp keys_json : string) (allow_bootstrap allow_repair : bool)
    : IO W ChecksumMap :=
  if String.eqb keys_json "[]" then mret ChecksumMap_new
  else
    s ← get_st;
    if history_known_nonempty db_fp s then load_checksums_query_plan keys_json allow_repair
    else
      empty ← history_table_is_empty_plan db_fp allow_bootstrap;
      if empty : bool then mret (empty_checksums_from_keys_json keys_json)
      else load_checksums_query_plan keys_json allow_repair.

Definition set_checksum_trace (db_fp keys_json : string) (trace : PlanDbTrace) : IO W PlanDbTrace :=
  if String.eqb keys_json "[]" then mret trace
  else
    s ← get_st;
    mret match history_empty_cached db_fp s with
    | Some empty =>
        let trace := trace <| tr_history_empty := empty |> in
        if empty then trace <| tr_checksums_skipped := true |> else trace
    | None => trace
    end.

Definition checksum_query_round_trips (db_fp keys_json : string) : IO W Z :=
  if String.eqb keys_json "[]" then mret 0%Z
  else
    s ← get_st;
    mret (if history_known_nonempty db_fp s then 1%Z
          else if history_known_empty db_fp s then 1%Z else 2%Z).

(** ** The two bodies ([plan_common/types.rs], [body/]) *)

Record RunBodyContext := mk_RunBodyContext {
  rb_cfg : Config.Config;
  rb_ws : Workspace;
  rb_keys_json : string;
  rb_db_fp : string;
  rb_git : ChangedPathsResult;
  rb_full : bool;
  rb_git_delta : bool;
  rb_need_checksums : bool;
  rb_need_catalog : bool;
  rb_catalog_base : option CatalogState;
  rb_round_trips_start : Z;
  rb_bootstrap_in_sql : bool;
  rb_bypass : bool;
  rb_allow_checksum_repair : bool;
}.

Record BodyOutput := mk_BodyOutput {
  bo_checksums : ChecksumMap;
  bo_catalog : CatalogState;
  bo_trace : PlanDbTrace;
}.

Definition merge_catalog_sets (loaded : CatalogState) (sets : result_sets) : M CatalogState :=
  foldM (λ loaded rows, if looks_like_catalog_rows rows then merge_rows loaded rows else Ok loaded)
    loaded sets.

Definition layout_d (ctx : RunBodyContext) : digest := ws_layout_digest (rb_ws ctx).

(** [query_all] of a batch, its result sets merged into [loaded]. *)
Definition query_catalog_batch (sql : list Piece) (params : list string) (loaded : CatalogState)
    : IO W CatalogState :=
  sets ← query_all (Batch sql) params;
  lift (merge_catalog_sets loaded sets).

Definition load_standard_checksums (ctx : RunBodyContext) (round_trips : Z) (trace : PlanDbTrace)
    : IO W (ChecksumMap * Z * PlanDbTrace) :=
  s ← get_st;
  (if rb_bootstrap_in_sql ctx && negb (tables_ensured (rb_db_fp ctx) s)
   then ensure_tables_plan (rb_db_fp ctx) else mret tt);;
  checksums ← load_checksums_plan (rb_db_fp ctx) (rb_keys_json ctx) (rb_bypass ctx)
                (rb_allow_checksum_repair ctx);
  trace ← set_checksum_trace (rb_db_fp ctx) (rb_keys_json ctx) trace;
  n ← checksum_query_round_trips (rb_db_fp ctx) (rb_keys_json ctx);
  mret (checksums, (round_trips + n)%Z, trace).

(** [sys.objects] alone cannot prove such a scope empty. *)
Definition fast_empty_provable (kinds : list string) : bool :=
  negb (existsb (λ k, String.eqb k "indexes" || String.eqb k "types") kinds).

Definition try_fast_empty_catalog (scope_json : string) : IO W (option CatalogState) :=
  if String.eqb scope_json "[]" then mret (Some CatalogState_default)
  else
    rows ← query SCOPED_HIT [scope_json];
    mret (if bool_decide (rows = []) then Some CatalogState_default else None).

Definition load_full_catalog (ctx : RunBodyContext) (scope : InspectScope)
    (scope_json schemas : string) : IO W CatalogState :=
  kinds ← lift (kinds_for_scope (rb_ws ctx) scope);
  empty ← (if fast_empty_provable kinds then try_fast_empty_catalog scope_json else mret None);
  match empty with
  | Some empty => mret empty
  | None =>
      loaded ← query_catalog_batch (plan_db_batch_sql kinds false true false false)
                 ["[]"; scope_json; schemas] CatalogState_default;
      store_inspect_cache (rb_db_fp ctx) (layout_d ctx) scope_json loaded;;
      mret loaded
  end.

Definition load_incremental_catalog (ctx : RunBodyContext) (scope : InspectScope)
    (scope_json schemas : string) (trace : PlanDbTrace) : IO W CatalogState :=
  let single_rt := rb_bootstrap_in_sql ctx && tr_checksums_skipped trace in
  s ← get_st;
  (if rb_bootstrap_in_sql ctx && negb single_rt && negb (tables_ensured (rb_db_fp ctx) s)
   then ensure_tables_plan (rb_db_fp ctx) else mret tt);;
  kinds ← lift (kinds_for_scope (rb_ws ctx) scope);
  sets ← query_all (Batch (plan_db_batch_sql kinds single_rt true false false))
           ["[]"; scope_json; schemas];
  (if single_rt then modify_st (mark_tables_ensured (rb_db_fp ctx)) else mret tt);;
  loaded ← lift (merge_catalog_sets CatalogState_default sets);
  store_inspect_cache (rb_db_fp ctx) (layout_d ctx) scope_json loaded;;
  mret loaded.

(** The catalog of [run_standard_body]; a hit or a skipped query takes no round trip. *)
Definition standard_catalog (ctx : RunBodyContext) (checksums : ChecksumMap) (round_trips : Z)
    (trace : PlanDbTrace) : IO W (CatalogState * Z * PlanDbTrace) :=
  '(scope, scope_json) ← lift (build_scope_and_json env (rb_ws ctx) (cp_paths (rb_git ctx))
                                 (rb_full ctx || rb_bypass ctx) checksums);
  let schemas := schemas_json (rb_ws ctx) in
  let query_catalog := should_query_catalog (rb_full ctx) scope scope_json in
  let trace := trace <| tr_catalog_queried := query_catalog |> in
  '(loaded, round_trips, trace) ←
    (if query_catalog then
       cached ← try_get_unless_bypassed (rb_bypass ctx) (rb_db_fp ctx) (layout_d ctx) scope_json;
       match cached with
       | Some cached => mret (cached, round_trips, trace <| tr_scoped_hit := true |>)
       | None =>
           loaded ← (if rb_full ctx then load_full_catalog ctx scope scope_json schemas
                     else load_incremental_catalog ctx scope scope_json schemas trace);
           mret (loaded, (round_trips + 1)%Z, trace)
       end
     else mret (CatalogState_default, round_trips, trace));
  loaded ← lift (intern_catalog_state (merge_stable_catalog loaded (is_stable_objects scope)));
  mret (loaded, round_trips, trace).

Definition run_standard_body (ctx : RunBodyContext) : IO W BodyOutput :=
  '(checksums, round_trips, trace) ←
    (if rb_need_checksums ctx
     then load_standard_checksums ctx (rb_round_trips_start ctx) PlanDbTrace_default
     else mret (ChecksumMap_new, rb_round_trips_start ctx, PlanDbTrace_default));
  '(catalog, round_trips, trace) ←
    (if rb_need_catalog ctx then standard_catalog ctx checksums round_trips trace
     else mret (default CatalogState_default (rb_catalog_base ctx), round_trips, trace));
  mret (mk_BodyOutput checksums catalog (trace <| tr_round_trips := round_trips |>)).

(** *** After a git delta *)

Record GitDeltaWarmup := mk_GitDeltaWarmup {
  gw_checksums : ChecksumMap;
  gw_loaded : CatalogState;
  gw_partial_cache : bool;
  gw_relaxed : bool;
  gw_round_trips : Z;
  gw_trace : PlanDbTrace;
}.

Definition merge_relaxed_sets (loaded : CatalogState) (sets : result_sets) : CatalogState * bool :=
  foldl (λ '(loaded, relaxed) rows,
    if looks_like_cache_load_rows rows then (merge_load_rows loaded rows, true)
    else (loaded, relaxed)) (loaded, false) sets.

Definition warmup_git_delta (ctx : RunBodyContext) : IO W GitDeltaWarmup :=
  s ← get_st;
  let want_cache := cfg_catalog_cache (rb_cfg ctx) && tables_ensured (rb_db_fp ctx) s in
  let loaded := default CatalogState_default (rb_catalog_base ctx) in
  '(checksums, round_trips, trace) ←
    (if rb_need_checksums ctx then
       checksums ← load_checksums_plan (rb_db_fp ctx) (rb_keys_json ctx) (rb_bypass ctx)
                     (rb_allow_checksum_repair ctx);
       trace ← set_checksum_trace (rb_db_fp ctx) (rb_keys_json ctx) PlanDbTrace_default;
       n ← checksum_query_round_trips (rb_db_fp ctx) (rb_keys_json ctx);
       mret (checksums, (rb_round_trips_start ctx + n)%Z, trace)
     else mret (ChecksumMap_new, rb_round_trips_start ctx, PlanDbTrace_default));
  '(loaded, relaxed, round_trips) ←
    (if want_cache && bool_decide (cs_objects loaded = ∅) then
       sets ← query_all (Batch (plan_db_batch_sql [] false false false true))
                [rb_keys_json ctx; "[]"; "[]"; pretty (object_count (rb_ws ctx))];
       let '(loaded, relaxed) := merge_relaxed_sets loaded sets in
       mret (loaded, relaxed, (round_trips + 1)%Z)
     else mret (loaded, false, round_trips));
  if Nat.eqb (size (cs_objects loaded)) (object_count (rb_ws ctx)) then
    loaded ← lift (intern_catalog_state loaded);
    mret (mk_GitDeltaWarmup checksums loaded true relaxed round_trips trace)
  else mret (mk_GitDeltaWarmup checksums CatalogState_default false relaxed round_trips trace).

(** The loaded catalog, whether it came from the inspect cache, and round trips. *)
Definition load_git_delta_catalog (ctx : RunBodyContext) (warm : GitDeltaWarmup)
    (scope : InspectScope) (scope_json schemas : string) (loaded : CatalogState)
    : IO W (CatalogState * bool * Z) :=
  cached ← try_get_unless_bypassed (rb_bypass ctx) (rb_db_fp ctx) (layout_d ctx) scope_json;
  match cached with
  | Some cached => mret (cached, true, gw_round_trips warm)
  | None =>
      loaded ←
        (if gw_partial_cache warm then
           kinds ← lift (kinds_for_scope (rb_ws ctx) scope);
           query_catalog_batch (plan_db_batch_sql kinds false true true false)
             ["[]"; scope_json; schemas] loaded
         else
           hit_scope ← lift (git_hot_scope_json (rb_ws ctx) (cp_paths (rb_git ctx)));
           kinds ← lift (kinds_for_git_delta (rb_ws ctx) (cp_paths (rb_git ctx)));
           query_catalog_batch (plan_db_batch_sql kinds false true false false)
             ["[]"; hit_scope; schemas] loaded);
      store_inspect_cache (rb_db_fp ctx) (layout_d ctx) scope_json loaded;;
      mret (loaded, false, (gw_round_trips warm + 1)%Z)
  end.

Definition cache_covers_hot (partial_cache : bool) (scope : InspectScope) (loaded : CatalogState)
    : bool :=
  partial_cache && forallb (λ k, bool_decide (is_Some (cs_objects loaded !! k)))
                     (elements (is_hot_keys scope)).

(** The catalog, and the trace of the warm-up as this step leaves it. *)
Definition query_git_delta_catalog (ctx : RunBodyContext) (warm : GitDeltaWarmup)
    : IO W (CatalogState * PlanDbTrace) :=
  let schemas := schemas_json (rb_ws ctx) in
  scope ← lift (build_inspect_scope env (rb_ws ctx) (cp_paths (rb_git ctx)) (rb_bypass ctx)
                  (gw_checksums warm));
  let scope_json := build_scope_json scope in
  let query_catalog := should_query_catalog false scope scope_json in
  let trace := gw_trace warm <| tr_catalog_queried := query_catalog |> in
  let loaded := gw_loaded warm in
  '(loaded, hit, round_trips) ←
    (if query_catalog
        && negb (cache_covers_hot (gw_partial_cache warm && negb (gw_relaxed warm)) scope loaded)
     then load_git_delta_catalog ctx warm scope scope_json schemas loaded
     else mret (loaded, false, gw_round_trips warm));
  let trace := if hit : bool then trace <| tr_scoped_hit := true |> else trace in
  loaded ← lift (intern_catalog_state (merge_stable_catalog loaded (is_stable_objects scope)));
  mret (loaded, trace <| tr_round_trips := round_trips |>).

Definition run_git_delta_body (ctx : RunBodyContext) : IO W BodyOutput :=
  warm ← warmup_git_delta ctx;
  '(loaded, trace) ← query_git_delta_catalog ctx warm;
  mret (mk_BodyOutput (gw_checksums warm) loaded trace).

Definition run_body (ctx : RunBodyContext) : IO W BodyOutput :=
  if rb_git_delta ctx then run_git_delta_body ctx else run_standard_body ctx.

(** ** The phase ([plan_common/execute/], [plan_snapshot.rs]) *)

Record ExecuteSetup := mk_ExecuteSetup {
  es_db_fp : string;
  es_git : ChangedPathsResult;
  es_full : bool;
  es_git_delta : bool;
  es_need_bootstrap : bool;
  es_need_checksums : bool;
  es_need_catalog : bool;
  es_defer_bootstrap : bool;
  es_catalog_base : option CatalogState;
  es_bypass : bool;
  es_allow_checksum_repair : bool;
}.

Definition cfg_fingerprint (cfg : Config.Config) : string :=
  db_fingerprint (cfg_server cfg) (cfg_port cfg) (cfg_user cfg) (cfg_database cfg).

(** [any]: the rows after the first module are not looked at. *)
Fixpoint any_module (ws : Workspace) (ids : list nat) : M bool :=
  match ids with
  | [] => Ok false
  | i :: ids =>
      row ← ws_row ws i;
      if is_module_kind_code (or_kind_code row) then Ok true else any_module ws ids
  end.

(** [git]: the result of [resolve_changed_paths] for the SQL root. *)
Definition prepare_execute (cfg : Config.Config) (git : ChangedPathsResult) (ws : Workspace)
    (keys_json : string) (bypass allow_checksum_repair : bool) : IO W (ExecuteSetup * PlanDbTrace) :=
  let db_fp := cfg_fingerprint cfg in
  (if bypass then modify_st (invalidate_audit_cache db_fp) else mret tt);;
  sync_tables_ensured db_fp;;
  let full := cfg_inspect_full cfg || cfg_skip_git cfg || cp_full_inspect git in
  let no_paths := bool_decide (cp_paths git = []) in
  let git_delta := negb full && negb no_paths && negb bypass in
  let need_bootstrap := bypass in
  let need_checksums := negb (String.eqb keys_json "[]") in
  let clean_git_tree := no_paths && (String.eqb (cp_source git) "git-head"
                                     || String.eqb (cp_source git) "git-merge-base") in
  has_modules ← lift (any_module ws (seq 0 (object_count ws)));
  s ← get_st;
  let try_cache := negb has_modules && negb bypass && cfg_catalog_cache cfg && tables_ensured db_fp s
                   && no_paths && negb full && negb clean_git_tree in
  let path := if full then ColdFull else if git_delta then GitDelta else Incremental in
  catalog_base ← (if try_cache then catalog_try_load (ws_layout_digest ws) (object_count ws)
                  else mret None);
  let found := bool_decide (is_Some catalog_base) in
  let need_catalog := negb found in
  let trace := PlanDbTrace_default <| tr_bootstrap := need_bootstrap |> <| tr_path := Some path |>
                 <| tr_round_trips := (if found then 1 else 0)%Z |> in
  mret (mk_ExecuteSetup db_fp git full git_delta need_bootstrap need_checksums need_catalog
          (need_bootstrap && need_catalog && negb full && negb git_delta && negb need_checksums)
          catalog_base bypass allow_checksum_repair, trace).

(** [bounded] around [audit::ensure_tables]: one bound for both statements, and the
    client stays in place when it runs out. *)
Definition bounded_ensure_tables (timeout : N) (db_fp : string) : IO W unit :=
  if (timeout =? 0)%N then ensure_tables db_fp
  else
    let bounded (bound : N) (stmt : Stmt) : IO W unit :=
      r ← send bound stmt [];
      match r with
      | Some (inr _) => mret tt
      | Some (inl e) => lift (Err e)
      | None => lift (Err (Sql (timeout_message "ensure tables" timeout)))
      end in
    s0 ← get_st;
    bounded timeout BOOTSTRAP_TABLES;;
    s1 ← get_st;
    let elapsed := (w_clock (st_world s1) - w_clock (st_world s0))%N in
    bounded (N.max 1 (timeout - elapsed)) BOOTSTRAP_DRIFT;;
    modify_st (mark_tables_ensured db_fp).

Definition run_plan_body (cfg : Config.Config) (ws : Workspace) (keys_json : string)
    (setup : ExecuteSetup) (trace : PlanDbTrace) : IO W (BodyOutput * PlanDbTrace) :=
  let direct := String.eqb (cfg_session_socket cfg) "" in
  let defer := es_defer_bootstrap setup && negb direct in
  (if es_need_bootstrap setup && negb defer then
     if direct then bounded_ensure_tables (cfg_command_timeout cfg) (es_db_fp setup)
     else ensure_tables (es_db_fp setup)
   else mret tt);;
  body ← run_body (mk_RunBodyContext cfg ws keys_json (es_db_fp setup) (es_git setup)
           (es_full setup) (es_git_delta setup) (es_need_checksums setup) (es_need_catalog setup)
           (es_catalog_base setup) (tr_round_trips trace) defer (es_bypass setup)
           (es_allow_checksum_repair setup));
  mret (body, merge_trace trace (bo_trace body)).

Record PlanDbResult := mk_PlanDbResult {
  pr_checksums : ChecksumMap;
  pr_catalog : CatalogState;
  pr_l1_hit : bool;
  pr_trace : PlanDbTrace;
}.

Definition execute (cfg : Config.Config) (git : ChangedPathsResult) (ws : Workspace)
    (keys_json fp : string) (bypass allow_checksum_repair : bool) : IO W PlanDbResult :=
  '(setup, trace) ← prepare_execute cfg git ws keys_json bypass allow_checksum_repair;
  '(body, trace) ← run_plan_body cfg ws keys_json setup trace;
  let catalog := bo_catalog body in
  s ← get_st;
  let trace := trace <| tr_query_calls := io_query_calls (st_io s) |> in
  (if cfg_catalog_cache cfg && negb (bool_decide (cs_objects catalog = ∅))
      && (es_need_catalog setup || es_git_delta setup)
   then attempt (save_batched (ws_layout_digest ws) ws catalog);; mret tt else mret tt);;
  (if Nat.eqb (object_count ws) 0
   then l1_save (cfg_l1_cache_dir cfg) fp (ws_layout_digest ws) (bo_checksums body) catalog
   else mret tt);;
  mret (mk_PlanDbResult (bo_checksums body) catalog false trace).

Definition empty_result (checksums : ChecksumMap) (catalog : CatalogState) (l1_hit : bool)
    (path : PlanDbPath) : PlanDbResult :=
  mk_PlanDbResult checksums catalog l1_hit (PlanDbTrace_default <| tr_path := Some path |>).

Definition run_plan_db_phase (cfg : Config.Config) (git : ChangedPathsResult) (ws : Workspace)
    (bypass_cache allow_checksum_repair : bool) : IO W PlanDbResult :=
  let fp := cfg_fingerprint cfg in
  let d := ws_layout_digest ws in
  let root := cfg_l1_cache_dir cfg in
  let requires_live_state := negb (Nat.eqb (object_count ws) 0) in
  l1 ← (if negb bypass_cache && negb requires_live_state then l1_try_load root fp d else mret None);
  match l1 with
  | Some (checksums, catalog) => mret (empty_result checksums catalog true CacheHit)
  | None =>
      warm ← warm_reuse fp d;
      match (if negb bypass_cache && negb requires_live_state then warm else None) with
      | Some (checksums, catalog) =>
          l1_save root fp d checksums catalog;;
          mret (empty_result checksums catalog false WarmSnapshotPath)
      | None =>
          keys_json ← lift (normalized_keys_json ws);
          execute cfg git ws keys_json fp bypass_cache allow_checksum_repair
      end
  end.
End plan_db.

(** ** Facts: read-only planning *)

(** What a plan may send when it must not change the server: probes, reads, and
    the refresh of the cache tables; no batch with a bootstrap script in it. *)
Definition bootstrap_piece (p : Piece) : bool :=
  match p with Const n => bool_decide (n ∈ BOOTSTRAP_NAMES) | _ => false end.
Definition plan_read (r : request) : Prop :=
  match r.1 with
  | HISTORY_EXISTS | HISTORY_EMPTY | LOAD_CHECKSUMS | CACHE_LOAD | SCOPED_HIT
  | CACHE_SAVE_BATCH => True
  | Batch sql => existsb bootstrap_piece sql = false
  | _ => False
  end.

Lemma push_sources_no_bootstrap names : existsb bootstrap_piece (push_sources names) = false.
Proof.
  destruct names as [|n names]; [done|]. cbn [push_sources]. rewrite existsb_app.
  induction names as [|m names IH]; [done|]. cbn [mbind list_bind]. rewrite existsb_app.
  apply orb_false_iff in IH as [_ IH]. cbn in IH |- *. exact IH.
Qed.

Lemma batch_no_bootstrap kinds catalog skip relaxed :
  existsb bootstrap_piece (plan_db_batch_sql kinds false catalog skip relaxed) = false.
Proof.
  unfold plan_db_batch_sql, build_catalog_sql_batch, build_catalog_from_header. cbv zeta.
  rewrite existsb_app. cbn [existsb orb]. rewrite existsb_app.
  destruct catalog; [|by destruct relaxed]. rewrite !existsb_app, push_sources_no_bootstrap.
  by destruct relaxed, skip, (has_sys_kind kinds), (has_kind "types" kinds), (has_kind "indexes" kinds).
Qed.

Section read_only.
Context {W : Type} `{HW : World W} `{HFi : Files W} `{HCl : Clock W}.
Context `{HU : Unicode} `{HF : Fingerprint} `{HM : MapOrder} `{HX : Hex} `{HS : Sha256}.
Context `{HJS : SerdeJson} `{HC : CacheFormats}.
Context (env : string → EnvVar).

Lemma emits_query_all (P : request → Prop) stmt params :
  P (stmt, params) → emits P (query_all stmt params).
Proof.
  intros HP s. unfold query_all. rewrite counted_call.
  destruct (st_client s); [|by exists []; rewrite app_nil_r].
  destruct (w_sql _ _ _ _) as [w' o]. exists [(stmt, params)]. auto.
Qed.

Lemma emits_modify (P : request → Prop) (f : St W → St W) :
  (∀ s, st_log (f s) = st_log s) → emits P (modify_st f).
Proof. intros Hf. by apply emits_pure. Qed.

Lemma emits_fs_call (P : request → Prop) (f : W → W * option Error) : emits P (fs_call f).
Proof. apply emits_pure. intros s. unfold fs_call. by destruct (f _). Qed.

End read_only.

#[export] Hint Resolve emits_query_all emits_fs_call : emits.
#[export] Hint Extern 2 (emits _ (modify_st _)) => apply emits_modify; done : emits.
#[export] Hint Extern 1 (plan_read _) => exact I : emits.
#[export] Hint Extern 1 (plan_read (Batch _, _)) => apply batch_no_bootstrap : emits.

Section read_only_phase.
Context {W : Type} `{HW : World W} `{HFi : Files W} `{HCl : Clock W}.
Context `{HU : Unicode} `{HF : Fingerprint} `{HM : MapOrder} `{HX : Hex} `{HS : Sha256}.
Context `{HJS : SerdeJson} `{HC : CacheFormats}.
Context (env : string → EnvVar).

Lemma emits_inspect_store fp d j st : emits (W:=W) plan_read (store_inspect_cache fp d j st).
Proof. unfold store_inspect_cache, inspect_store. repeat emits_step. Qed.
Lemma emits_try_get b fp d j : emits (W:=W) plan_read (try_get_unless_bypassed b fp d j).
Proof. unfold try_get_unless_bypassed. repeat emits_step. Qed.
Lemma emits_l1_save root fp d c st : emits (W:=W) plan_read (l1_save root fp d c st).
Proof. unfold l1_save. repeat emits_step. Qed.
Lemma emits_l1_load root fp d : emits (W:=W) plan_read (l1_try_load root fp d).
Proof. unfold l1_try_load. repeat emits_step. Qed.
Lemma emits_try_load d n : emits (W:=W) plan_read (catalog_try_load d n).
Proof. unfold catalog_try_load. repeat emits_step. Qed.
Lemma emits_save_batched d ws st : emits (W:=W) plan_read (save_batched d ws st).
Proof. unfold save_batched. repeat emits_step. Qed.
Lemma emits_warm_reuse fp d : emits (W:=W) plan_read (warm_reuse env fp d).
Proof. unfold warm_reuse. repeat emits_step. Qed.
Lemma emits_set_trace fp j t : emits (W:=W) plan_read (set_checksum_trace fp j t).
Proof. unfold set_checksum_trace. repeat emits_step. Qed.
Lemma emits_round_trips fp j : emits (W:=W) plan_read (checksum_query_round_trips fp j).
Proof. unfold checksum_query_round_trips. repeat emits_step. Qed.

Lemma emits_load_checksums fp j repair : emits (W:=W) plan_read (load_checksums_plan fp j false repair).
Proof.
  unfold load_checksums_plan, history_table_is_empty_plan, history_table_exists,
    load_checksums_query_plan, inspect_invalidate_db. repeat emits_step.
Qed.

Lemma emits_catalog_batch kinds c k r params loaded :
  emits (W:=W) plan_read (query_catalog_batch (plan_db_batch_sql kinds false c k r) params loaded).
Proof. unfold query_catalog_batch. repeat emits_step. Qed.

Lemma emits_sync fp : emits (W:=W) plan_read (sync_tables_ensured fp).
Proof. unfold sync_tables_ensured, probe_audit_tables_exist. repeat emits_step. Qed.
#[local] Hint Resolve emits_inspect_store emits_try_get emits_l1_save emits_l1_load emits_try_load
  emits_save_batched emits_warm_reuse emits_set_trace emits_round_trips emits_load_checksums
  emits_catalog_batch emits_sync : emits.

Lemma emits_standard_catalog ctx c n t :
  rb_bootstrap_in_sql ctx = false → emits (W:=W) plan_read (standard_catalog env ctx c n t).
Proof.
  intros Hb. unfold standard_catalog, load_full_catalog, load_incremental_catalog,
    try_fast_empty_catalog. rewrite Hb. cbn [andb]. repeat emits_step.
Qed.
#[local] Hint Resolve emits_standard_catalog : emits.

Lemma emits_body ctx :
  rb_bootstrap_in_sql ctx = false → rb_bypass ctx = false → emits (W:=W) plan_read (run_body env ctx).
Proof.
  intros Hb Hp. unfold run_body, run_git_delta_body, query_git_delta_catalog, warmup_git_delta, load_git_delta_catalog,
    run_standard_body, load_standard_checksums. rewrite Hb, Hp. cbn [andb]. repeat emits_step.
Qed.
#[local] Hint Resolve emits_body : emits.

Lemma prepare_read_only cfg git ws j repair s setup t s' :
  prepare_execute cfg git ws j false repair s = (Ok (setup, t), s') →
  es_need_bootstrap setup = false ∧ es_defer_bootstrap setup = false ∧ es_bypass setup = false.
Proof.
  unfold prepare_execute. intros E.
  repeat match type of E with
  | (_ ≫= _) _ = (Ok _, _) => apply io_bind_Ok in E as (? & ? & _ & E)
  end.
  by injection E as <- _ _.
Qed.

(** Whatever the state of its caches and however its statements end, the plan of a
    read-only command sends only probes of the audit tables, reads of checksums
    and of the catalog, and the refresh of the catalog cache. *)
Lemma emits_read_only_plan cfg git ws repair :
  emits (W:=W) plan_read (run_plan_db_phase env cfg git ws false repair).
Proof.
  unfold run_plan_db_phase. cbv zeta. repeat emits_step.
  unfold execute. apply (emits_bind_val _ (λ r, es_need_bootstrap r.1 = false ∧
    es_defer_bootstrap r.1 = false ∧ es_bypass r.1 = false)).
  - unfold prepare_execute. repeat emits_step.
  - intros s [setup t] s' E. by eapply prepare_read_only.
  - intros [setup t] (Hn & Hd & Hp). cbn in Hn, Hd, Hp. unfold run_plan_body.
    rewrite Hn, Hd. cbn [andb]. repeat emits_step.
Qed.
End read_only_phase.

(** ** Facts: a mutating command plans from the server

    Two states that differ only in what the process has cached. *)

Section blind.
Context {W : Type} `{HW : World W} `{HFi : Files W} `{HCl : Clock W}.

Record same_server (s1 s2 : St W) : Prop := {
  ss_world : st_world s1 = st_world s2;
  ss_client : st_client s1 = st_client s2;
  ss_timeout : st_timeout s1 = st_timeout s2;
  ss_io : st_io s1 = st_io s2;
  ss_ensured : st_ensured s1 = st_ensured s2;
  ss_log : st_log s1 = st_log s2;
}.

(** The same, and the same probe result for the database [fp]. *)
Definition same_facts (fp : string) (s1 s2 : St W) : Prop :=
  same_server s1 s2 ∧ st_history_empty s1 !! fp = st_history_empty s2 !! fp.

(** From states related by [Q], [m] computes the same and ends in states related by [Q']. *)
Definition carries {A} (Q Q' : St W → St W → Prop) (m : IO W A) : Prop :=
  ∀ s1 s2, Q s1 s2 → (m s1).1 = (m s2).1 ∧ Q' (m s1).2 (m s2).2.
Definition blind {A} (R : St W → St W → Prop) (m : IO W A) : Prop := carries R R m.

Lemma carries_bind {A B} Q Q1 Q2 (P : A → Prop) (m : IO W A) (f : A → IO W B) :
  carries Q Q1 m → (∀ s a s', m s = (Ok a, s') → P a) →
  (∀ a, P a → carries Q1 Q2 (f a)) → (∀ s1 s2, Q1 s1 s2 → Q2 s1 s2) → carries Q Q2 (m ≫= f).
Proof.
  intros Hm HP Hf Hw s1 s2 H. destruct (Hm s1 s2 H) as [E HR]. specialize (HP s1).
  unfold mbind, io_bind. destruct (m s1) as [r1 t1], (m s2) as [r2 t2]. cbn in *. subst r2.
  destruct r1; [|by auto|by auto]. apply Hf; [by eapply HP|done].
Qed.

Lemma carries_weaken {A} (Q Q' : St W → St W → Prop) (m : IO W A) :
  (∀ s1 s2, Q s1 s2 → Q' s1 s2) → blind Q m → carries Q Q' m.
Proof. intros Hw Hm s1 s2 H. destruct (Hm s1 s2 H). auto. Qed.

(** A read whose value does not matter. *)
Lemma carries_ignore {A B} Q Q' (m : IO W A) (f : A → IO W B) (k : IO W B) :
  (∀ s, ∃ a, m s = (Ok a, s)) → (∀ a, f a = k) → carries Q Q' k → carries Q Q' (m ≫= f).
Proof.
  intros Hm Hf Hk s1 s2 H. unfold mbind, io_bind.
  destruct (Hm s1) as [a1 ->], (Hm s2) as [a2 ->]. rewrite !Hf. by apply Hk.
Qed.

Context (fp : string).
Abbreviation R := (same_facts fp).

Lemma blind_ret {A} Q (a : A) : blind Q (mret a).
Proof. by intros s1 s2 H. Qed.
Lemma blind_lift {A} Q (m : M A) : blind Q (lift m).
Proof. by intros s1 s2 H. Qed.

Lemma blind_bind_val {A B} Q (P : A → Prop) (m : IO W A) (f : A → IO W B) :
  blind Q m → (∀ s a s', m s = (Ok a, s') → P a) → (∀ a, P a → blind Q (f a)) →
  blind Q (m ≫= f).
Proof. intros Hm HP Hf. by apply (carries_bind Q Q Q P). Qed.
Lemma blind_bind {A B} Q (m : IO W A) (f : A → IO W B) :
  blind Q m → (∀ a, blind Q (f a)) → blind Q (m ≫= f).
Proof. intros Hm Hf. by apply (blind_bind_val Q (λ _, True)). Qed.
Lemma blind_fmap {A B} Q (f : A → B) (m : IO W A) : blind Q m → blind Q (f <$> m).
Proof.
  intros Hm s1 s2 H. destruct (Hm s1 s2 H) as [E HR].
  unfold fmap, io_fmap. destruct (m s1) as [r1 t1], (m s2) as [r2 t2]. cbn in *. subst r2.
  by destruct r1.
Qed.
Lemma blind_attempt {A} Q (m : IO W A) : blind Q m → blind Q (attempt m).
Proof.
  intros Hm s1 s2 H. destruct (Hm s1 s2 H) as [E HR].
  unfold attempt. destruct (m s1) as [r1 t1], (m s2) as [r2 t2]. cbn in *. subst r2.
  by destruct r1.
Qed.

(** Reading the state: only what the two agree on may be used. *)
Lemma blind_get {A} Q (f : St W → IO W A) :
  (∀ s, blind Q (f s)) → (∀ s1 s2, Q s1 s2 → f s1 = f s2) → blind Q (get_st ≫= f).
Proof.
  intros Hf He s1 s2 H. unfold mbind, io_bind, get_st. rewrite (He s1 s2 H). by apply Hf.
Qed.
Lemma blind_modify Q (f : St W → St W) :
  (∀ s1 s2, Q s1 s2 → Q (f s1) (f s2)) → blind Q (modify_st f).
Proof. intros Hf s1 s2 H. split; [done|]. by apply Hf. Qed.

Lemma same_facts_sent r w dropped count s1 s2 :
  R s1 s2 → R (sent r w dropped count s1) (sent r w dropped count s2).
Proof.
  intros [[Hw Hc Ht Hi He Hl] Hh]. split; [split|]; cbn; congruence.
Qed.

Lemma blind_call count op stmt params : blind R (counted (W:=W) count (bounded_call op stmt params)).
Proof.
  intros s1 s2 H. pose proof H as [[Hw Hc Ht _ _ _] _]. rewrite !counted_call, Hc, Ht, Hw.
  destruct (st_client s2); [|done].
  destruct (w_sql _ _ _ _) as [w' o]. split; [done|]. cbn. by apply same_facts_sent.
Qed.
Lemma blind_exec stmt : blind R (exec (W:=W) stmt).
Proof. apply blind_bind; [apply blind_call|]. intros. apply blind_ret. Qed.
Lemma blind_query_all stmt params : blind R (query_all (W:=W) stmt params).
Proof. apply blind_call. Qed.
Lemma blind_query stmt params : blind R (query (W:=W) stmt params).
Proof. apply blind_fmap, blind_call. Qed.

Lemma blind_send bound stmt params : blind R (send (W:=W) bound stmt params).
Proof.
  intros s1 s2 H. pose proof H as [[Hw Hc Ht Hi He Hl] Hh]. unfold send. rewrite Hc, Hw.
  destruct (st_client s2) eqn:Ec; [|done].
  destruct (w_sql _ _ _ _) as [w' o]. repeat split; cbn; congruence.
Qed.
Lemma blind_client_call stmt params : blind R (client_call (W:=W) stmt params).
Proof.
  apply blind_bind; [apply blind_send|]. intros [[e|r]|]; [apply blind_lift|apply blind_ret|apply blind_lift].
Qed.
Lemma blind_fs_call (f : W → W * option Error) : blind R (fs_call f).
Proof.
  intros s1 s2 [[Hw Hc Ht Hi He Hl] Hh]. unfold fs_call. rewrite Hw.
  destruct (f _) as [w' e]. repeat split; cbn; congruence.
Qed.
Lemma blind_read_file path : blind R (read_file path).
Proof.
  intros s1 s2 H. unfold read_file. destruct (H) as [[Hw _ _ _ _ _] _]. by rewrite Hw.
Qed.

Lemma same_tables s1 s2 : R s1 s2 → tables_ensured fp s1 = tables_ensured fp s2.
Proof. intros [[_ _ _ _ He _] _]. unfold tables_ensured. by rewrite He. Qed.
Lemma same_cached s1 s2 : R s1 s2 → history_empty_cached fp s1 = history_empty_cached fp s2.
Proof. by intros [_ H]. Qed.
Lemma same_known s1 s2 :
  R s1 s2 → history_known_nonempty fp s1 = history_known_nonempty fp s2 ∧
            history_known_empty fp s1 = history_known_empty fp s2.
Proof.
  intros H%same_cached. unfold history_known_nonempty, history_known_empty. by rewrite H.
Qed.

(** The cache updates of the phase. *)
Lemma blind_mark : blind R (modify_st (mark_tables_ensured fp)).
Proof.
  apply blind_modify. intros s1 s2 [[Hw Hc Ht Hi He Hl] Hh]. repeat split; cbn; congruence.
Qed.
Lemma blind_cache_empty b : blind R (modify_st (cache_history_empty fp b)).
Proof.
  apply blind_modify. intros s1 s2 [[Hw Hc Ht Hi He Hl] Hh].
  repeat split; cbn; [congruence..|]. by rewrite !lookup_insert_eq.
Qed.
Lemma blind_invalidate_all : blind R (modify_st (invalidate_audit_cache_all fp)).
Proof.
  apply blind_modify. intros s1 s2 [[Hw Hc Ht Hi He Hl] Hh].
  repeat split; cbn; [congruence..|]. by rewrite !lookup_delete_eq.
Qed.
Lemma blind_set_inspect (g : gmap string CatalogState → gmap string CatalogState) :
  blind R (modify_st (λ s, set_inspect (g (st_inspect s)) s)).
Proof.
  apply blind_modify. intros s1 s2 [[Hw Hc Ht Hi He Hl] Hh]. repeat split; cbn; congruence.
Qed.
End blind.

Create HintDb blind.
#[export] Hint Resolve blind_ret blind_lift blind_attempt blind_exec blind_query_all blind_query
  blind_send blind_client_call blind_fs_call blind_read_file blind_mark blind_cache_empty
  blind_invalidate_all blind_set_inspect blind_fmap : blind.

(** Splits a computation at its binds and conditionals; a read of the state leaves
    the proof that the continuation uses only shared facts. *)
Ltac blind_step :=
  lazymatch goal with
  | |- blind _ (get_st ≫= _) => apply blind_get; [intros ?|]
  | |- blind _ (_ ≫= _) => apply blind_bind; [|intros ?]
  | |- blind _ (_ <$> _) => apply blind_fmap
  | |- blind _ (let '(_, _) := ?x in _) => destruct x
  | |- blind _ (match ?x with _ => _ end) => destruct x
  | |- blind _ _ => solve [eauto with blind]
  end.

Section blind_phase.
Context {W : Type} `{HW : World W} `{HFi : Files W} `{HCl : Clock W}.
Context `{HU : Unicode} `{HF : Fingerprint} `{HM : MapOrder} `{HX : Hex} `{HS : Sha256}.
Context `{HJS : SerdeJson} `{HC : CacheFormats}.
Context (env : string → EnvVar) (fp : string).
Abbreviation R := (same_facts (W:=W) fp).

(** The continuation of a read depends on the state through shared facts only. *)
Ltac shared_facts :=
  let H := fresh in
  intros ? ? H; cbv beta;
  rewrite ?(same_tables fp _ _ H), ?(same_cached fp _ _ H), ?(proj1 (same_known fp _ _ H)),
    ?(proj2 (same_known fp _ _ H)), ?(ss_io _ _ (proj1 H)), ?(ss_world _ _ (proj1 H)); reflexivity.
Ltac blind_all := repeat first [blind_step | shared_facts].

Lemma blind_inspect_store d j st : blind R (store_inspect_cache fp d j st).
Proof.
  unfold store_inspect_cache. destruct (catalog_is_empty st); [apply blind_ret|].
  apply (blind_set_inspect fp (<[inspect_key fp d j := st]>)).
Qed.
Lemma blind_inspect_invalidate : blind R (inspect_invalidate_db fp).
Proof. apply (blind_set_inspect fp (filter (λ kv, starts_with fp kv.1 = false))). Qed.
Lemma blind_try_get d j : blind R (try_get_unless_bypassed true fp d j).
Proof. apply blind_ret. Qed.
Lemma blind_l1_save root f d c st : blind R (l1_save root f d c st).
Proof. unfold l1_save. blind_all. Qed.
Lemma blind_save_batched d ws st : blind R (save_batched d ws st).
Proof. unfold save_batched. blind_all. Qed.
Lemma blind_try_load d n : blind R (catalog_try_load d n).
Proof. unfold catalog_try_load. blind_all. Qed.
Lemma blind_set_trace j t : blind R (set_checksum_trace fp j t).
Proof. unfold set_checksum_trace. blind_all. Qed.
Lemma blind_round_trips j : blind R (checksum_query_round_trips fp j).
Proof. unfold checksum_query_round_trips. blind_all. Qed.
Lemma blind_ensure_plan : blind R (ensure_tables_plan fp).
Proof. unfold ensure_tables_plan. blind_all. Qed.
Lemma blind_ensure : blind R (ensure_tables fp).
Proof. unfold ensure_tables. blind_all. Qed.
#[local] Hint Resolve blind_inspect_store blind_inspect_invalidate blind_try_get blind_l1_save
  blind_save_batched blind_try_load blind_set_trace blind_round_trips blind_ensure_plan blind_ensure : blind.

Lemma blind_load_checksums j bootstrap repair : blind R (load_checksums_plan fp j bootstrap repair).
Proof.
  unfold load_checksums_plan, history_table_is_empty_plan, history_table_exists,
    load_checksums_query_plan. blind_all.
Qed.
Lemma blind_catalog_batch sql params loaded : blind R (query_catalog_batch sql params loaded).
Proof. unfold query_catalog_batch. blind_all. Qed.
Lemma blind_sync : blind R (sync_tables_ensured fp).
Proof. unfold sync_tables_ensured, probe_audit_tables_exist. blind_all. Qed.
Lemma blind_bounded_ensure t : blind R (bounded_ensure_tables t fp).
Proof. unfold bounded_ensure_tables. blind_all. Qed.
#[local] Hint Resolve blind_load_checksums blind_catalog_batch blind_sync blind_bounded_ensure : blind.

Lemma blind_standard_body ctx :
  rb_db_fp ctx = fp → rb_bypass ctx = true → blind R (run_standard_body env ctx).
Proof.
  intros E Hb. unfold run_standard_body, load_standard_checksums, standard_catalog,
    load_full_catalog, load_incremental_catalog, try_fast_empty_catalog.
  rewrite E, Hb. blind_all.
Qed.

Lemma prepare_bypass cfg git ws j repair s setup t s' :
  prepare_execute cfg git ws j true repair s = (Ok (setup, t), s') →
  es_db_fp setup = cfg_fingerprint cfg ∧ es_git_delta setup = false ∧ es_bypass setup = true.
Proof.
  unfold prepare_execute. intros E.
  repeat match type of E with
  | (_ ≫= _) _ = (Ok _, _) => apply io_bind_Ok in E as (? & ? & _ & E)
  end.
  injection E as <- _ _. cbn. by rewrite !andb_false_r.
Qed.

Lemma blind_run_plan_body cfg ws j setup t :
  es_db_fp setup = fp → es_git_delta setup = false → es_bypass setup = true →
  blind R (run_plan_body env cfg ws j setup t).
Proof.
  intros Hf Hg Hb. unfold run_plan_body, run_body. rewrite Hf. cbn [rb_git_delta]. rewrite Hg.
  blind_all. apply blind_standard_body; [done|exact Hb].
Qed.

Lemma prepare_carries cfg git ws j repair :
  cfg_fingerprint cfg = fp →
  carries same_server R (prepare_execute cfg git ws j true repair).
Proof.
  intros E. unfold prepare_execute. rewrite E. cbv zeta.
  apply (carries_bind _ R _ (λ _, True)); [|done| |done].
  - intros s1 s2 [Hw Hc Ht Hi He Hl]. split; [done|]. split; [split; cbn; congruence|].
    cbn. by rewrite !lookup_delete_eq.
  - intros [] _. rewrite !andb_false_r.
    lazymatch goal with |- carries ?Q _ ?m => change (blind Q m) end. blind_all.
Qed.
End blind_phase.


(** ** Facts: interning keeps the catalog *)

Section intern_facts.
Context `{HM : MapOrder}.

Definition catalog_text_ok (st : CatalogState) : Prop :=
  (N.of_nat (total_len (catalog_texts st)) < u32_size)%N ∧
  ∀ t, t ∈ catalog_texts st → valid_utf8 t = true.

(** Inserting a map's entries, in any order, gives the map. *)
Lemma rebuild_map {A} (m : gmap string A) :
  foldl (λ m '(k, a), <[k := a]> m) ∅ (iter_order m) = m.
Proof.
  apply map_eq. intros k. apply option_eq. intros a.
  change (foldl (fill_step (V:=A) Some) ∅ (iter_order m) !! k = Some a ↔ m !! k = Some a).
  rewrite fill_map_lookup.
  - setoid_rewrite <- iter_order_elem. split; [by intros ([? ?] & ? & [= -> ->])|eauto].
  - intros [k1 a1] [k2 a2] ? ? ? H1%iter_order_elem H2%iter_order_elem [= -> ->] [= -> ->].
    congruence.
Qed.

Lemma arena_get_registered l s :
  (N.of_nat (total_len l) < u32_size)%N → s ∈ l → valid_utf8 s = true →
  arena_get (finish (register_all l builder_new)) s = Ok s.
Proof.
  intros Hl Hs Hv. unfold arena_get. destruct (String.eqb_spec s "") as [->|Hne]; [done|].
  destruct (offset_len_str_at (finish (register_all l builder_new)) s) as (off & len & -> & Hat & _);
    [by apply register_all_wf; [apply arena_wf_new|]|done|right; by apply register_all_complete|].
  exact Hat.
Qed.

(** Interning the strings of a catalog changes nothing in it, as long as their
    total size fits 32-bit offsets and they are valid text. *)
Theorem intern_catalog_state_id st : catalog_text_ok st → intern_catalog_state st = Ok st.
Proof.
  intros [Hl Hv]. unfold intern_catalog_state. destruct (_ && _); [done|].
  set (arena := finish _).
  assert (Hget : ∀ t, t ∈ catalog_texts st → arena_get arena t = Ok t).
  { intros t Ht. apply arena_get_registered; auto. }
  assert (traverse (arena_get arena) (set_order (cs_schemas st)) = Ok (set_order (cs_schemas st))) as ->.
  { apply traverse_Ok, Forall2_same_length_lookup_2; [done|]. intros i x y Hx Hy.
    assert (x = y) as -> by congruence. apply Hget, elem_of_app. left. by eapply list_elem_of_lookup_2. }
  cbn [mbind outcome_bind].
  assert (Ho : ∀ k o, (k, o) ∈ iter_order (cs_objects st) → intern_object arena o = Ok o).
  { intros k o Hk. unfold intern_object.
    assert (∀ t, t ∈ object_texts o → arena_get arena t = Ok t) as Hg.
    { intros t Ht. apply Hget, elem_of_app. right. apply list_elem_of_bind. exists o.
      split; [done|]. apply list_elem_of_fmap. by exists (k, o). }
    unfold object_texts in Hg. rewrite !Hg by (rewrite ?elem_of_app, ?elem_of_cons; auto 8). cbn.
    destruct o as [sc ki na [p|]]; cbn in *; [rewrite Hg by set_solver|]; done. }
  rewrite (foldM_pure (λ m '(k, o), <[k := o]> m)).
  2:{ intros m [k o] Hk. by rewrite (Ho k o Hk). }
  cbn [mbind outcome_bind]. f_equal. destruct st as [schemas objects]. cbn in *. f_equal.
  - apply set_eq. intros x. by rewrite elem_of_list_to_set, set_order_elem.
  - apply rebuild_map.
Qed.
End intern_facts.

(** ** A scripted server *)

Module PlanDbSample.
#[local] Existing Instances Concrete.unicode Concrete.fingerprint Concrete.map_order Concrete.hex
  Concrete.digest ScopeSample.serde.

(** The replies to come; then every statement succeeds with no rows. *)
Definition Script : Type := list (Error + result_sets).

#[global] Program Instance world : World Script := {
  w_sql _ _ _ w := match w with [] => ([], Some (inr [])) | r :: w => (w, Some r) end;
  w_read_file _ _ := inl (Io "no such file");
  w_is_dir _ _ := false;
  w_remove_dir_all _ w := (w, None);
}.
Next Obligation. by intros stmt params []. Qed.
#[global] Instance files : Files Script := {
  w_file_len _ _ := None;
  w_create_dir_all _ w := (w, None);
  w_write _ _ w := (w, None);
  w_rename _ _ w := (w, None);
  w_process_id _ := 1%N;
}.
#[global] Instance clock : Clock Script := { w_clock _ := 0%N }.
#[global] Instance formats : CacheFormats := {
  inspect_hash a b c := a +:+ b +:+ c;
  rows_to_string _ := "rows";
  l1_encode _ _ _ := "payload";
  l1_decode _ := None;
}.

Definition cfg : Config.Config := Config_default <| cfg_database := "A" |>.
Definition fp : string := cfg_fingerprint cfg.
Definition no_env (name : string) : EnvVar := EnvUnset.
Definition git (paths : list string) : ChangedPathsResult :=
  mk_ChangedPathsResult paths false "env-changed-files".

(** Nothing cached, and: the history known to be empty, with a warm snapshot. *)
Definition fresh (replies : Script) : St Script :=
  mk_St replies true 0 (mk_IoProfile 0 0) ∅ ∅ ∅ None [].
Definition warmed (replies : Script) : St Script :=
  mk_St replies true 0 (mk_IoProfile 0 0) ∅ {[ fp := true ]} ∅
    (Some (mk_WarmSnapshot fp zero_digest ChecksumMap_new CatalogState_default)) [].


Definition one_table : CatalogState :=
  mk_CatalogState {[ "dbo" ]} {[ "dbo/tables/t" := catalog_object "dbo" "tables" "t" None ]}.

Lemma intern_catalog_state_id_witness :
  catalog_text_ok one_table ∧ intern_catalog_state one_table = Ok one_table.
Proof.
  assert (catalog_text_ok one_table) as Hok.
  { split; [by vm_compute|]. apply Forall_forall, (bool_decide_unpack _). by vm_compute. }
  split; [exact Hok|]. exact (intern_catalog_state_id one_table Hok).
Defined.

(** *** A stale cache row survives a live inspection

    A read-only plan after a git delta: the cache tables still hold the table [t],
    whose script changed, and the live query for it finds nothing, because it was
    dropped. *)
Definition one_object : Workspace := ScopeSample.w
  <| ws_object_entries := [ScopeSample.entry 1 1] |>
  <| ws_object_keys := ["dbo/tables/t"] |>
  <| ws_object_rows := [mk_ObjectRow 1 KIND_TABLES] |>
  <| ws_parent_by_row := ∅ |>.
Definition cached_row : RowData :=
  [CStr "dbo/tables/t"; CStr "dbo"; CStr "tables"; CStr "t"; CNull].
Definition replies : Script :=
  [inr [[[CStr "1"]]]  (* the audit tables exist *);
   inr [[[CStr "1"]]]  (* the history is not empty *);
   inr [[]]            (* no recorded checksum *);
   inr [[cached_row]]  (* the cache tables *);
   inr [[]]            (* the live catalog *)].

Lemma stale_cache_row_survives :
  match run_plan_db_phase no_env cfg (git ["A/dbo/tables/t.sql"]) one_object false false (fresh replies) with
  | (Ok r, s) => bool_decide (cs_objects (pr_catalog r) !! "dbo/tables/t" ≠ None)
                 && tr_catalog_queried (pr_trace r) && Nat.leb 5 (length (st_log s))
  | _ => false
  end = true.
Proof. by vm_compute. Qed.
End PlanDbSample.
