(* ===== verification/Driver.v ===== *)
(** * Opening a connection ([driver/mssql.rs], [driver/mssql_auth.rs], [session/client.rs], [session/proxy.rs])

    A direct connection is a TCP dial, a TDS handshake and a session set-up, each
    under the command timeout, retried when the connection phase fails.  A
    connection through the session daemon is a token, a ping that names the
    configured endpoint, and a [USE]; when it cannot be made the client connects
    directly.  The network is an interface. *)

From S2P Require Export Effects PlanDb.
From Stdlib Require Import Ascii.
From Stdlib Require String.

(** ** Authentication and connection settings *)

Inductive AuthMethod : Type := SqlServer (user password : string).
Inductive EncryptionLevel : Type := Required | NotSupported.

Definition select_auth_method (cfg : Config.Config) : M AuthMethod :=
  let mode := ascii_lowercase (cfg_db_auth cfg) in
  if String.eqb mode "" || String.eqb mode "sql" then Ok (SqlServer (cfg_user cfg) (cfg_password cfg))
  else if String.eqb mode "integrated" || String.eqb mode "windows" then
    Err (Errors.Config ("integrated auth not compiled; enable tiberius features: " +:+
                 "integrated-auth-gssapi (Unix) or winauth (Windows)"))
  else Err (Errors.Config ("unsupported RM_DB_AUTH value: " +:+ mode)).

Record TdsConfig := mk_TdsConfig {
  td_host : string;
  td_port : option N;
  td_database : string;
  td_authentication : AuthMethod;
  td_trust_cert : bool;
  td_encryption : EncryptionLevel;
}.

Definition tds_config (cfg : Config.Config) : M TdsConfig :=
  auth ← select_auth_method cfg;
  Ok (mk_TdsConfig (cfg_server cfg) (parse_u16 (cfg_port cfg)) (cfg_database cfg) auth
        (cfg_trust_server_certificate cfg)
        (if cfg_encrypt cfg then Required else NotSupported)).

(** ** The network

    As for [World], a call takes the bound put around it in nanoseconds, zero for
    none, and replies [None] when the bound has passed.  [w_use] makes a client
    the one that [w_sql] talks through. *)
Class Net (W : Type) := {
  Tcp : Type;
  RawClient : Type;
  Stream : Type;
  w_tcp_connect : N → string → W → W * option (string + Tcp);
  w_tds_connect : N → TdsConfig → Tcp → W → W * option (string + RawClient);
  w_raw_exec : N → RawClient → string → W → W * option (string + unit);
  w_sleep : N → W → W;
  w_unix_connect : N → string → W → W * option (string + Stream);
  w_write_all : N → Stream → string → W → W * option (string + unit);
  w_read_line : N → N → Stream → W → W * option (string + string);
  w_use : RawClient + Stream → W → W;
}.

(** [DbClient]. *)
Inductive DbClient (W : Type) `{Net W} : Type :=
| Direct (client : RawClient)
| Proxy (stream : Stream).
Arguments Direct {W _} client.
Arguments Proxy {W _} stream.

(** ** The RPC messages ([session/protocol.rs]) *)

Inductive Request : Type :=
| Auth (token : string)
| Ping (server port user : string) (encrypt trust_server_certificate : option bool)
| Exec (sql : string)
| Query (sql : string) (params : list string)
| Stats.
Record Response := mk_Response {
  rs_ok : bool;
  rs_error : string;
  rs_rows : list RowData;
  rs_stats : string;
}.

Definition request_ping (cfg : Config.Config) : Request :=
  Ping (cfg_server cfg) (cfg_port cfg) (cfg_user cfg) (Some (cfg_encrypt cfg))
    (Some (cfg_trust_server_certificate cfg)).
Definition response_ok_empty : Response := mk_Response true "" [] "".
Definition response_err (msg : string) : Response := mk_Response false msg [] "".
Definition response_rows (rows : list RowData) : Response := mk_Response true "" rows "".
Definition response_stats (json : string) : Response := mk_Response true "" [] json.
Definition into_result (r : Response) : M (list RowData) :=
  if rs_ok r then Ok (rs_rows r) else Err (Sql (rs_error r)).

(** [Debug for Request]: the token is never printed. *)
Definition debug_request `{Unicode} (r : Request) : string :=
  let field (name value : string) := name +:+ ": " +:+ value in
  match r with
  | Auth _ => "Auth { " +:+ field "token" (debug_str "<redacted>") +:+ " }"
  | Ping server port _ _ _ =>
      "Ping { " +:+ field "server" (debug_str server) +:+ ", " +:+ field "port" (debug_str port) +:+ " }"
  | Exec sql => "Exec { " +:+ field "sql" (debug_str sql) +:+ " }"
  | Query sql params =>
      "Query { " +:+ field "sql" (debug_str sql) +:+ ", " +:+
        field "params" ("[" +:+ str_join ", " (map debug_str params) +:+ "]") +:+ " }"
  | Stats => "Stats"
  end.

(** [serde_json] on the messages: a line that is written is read back. *)
Class SessionJson := {
  json_of_request : Request → string;
  request_of_json : string → string + Request;
  json_of_response : Response → string;
  response_of_json : string → string + Response;
  request_of_json_of_request r :
    request_of_json (trim (json_of_request r +:+ String LF "")) = inr r;
  response_of_json_of_response r :
    response_of_json (json_of_response r +:+ String LF "") = inr r;
}.

Definition MAX_SESSION_LINE_BYTES : N := 4194304.

(** [resolve_session_token]: the configured token, the published one, the environment's. *)
Definition resolve_session_token (env : string → EnvVar) (published : option string)
    (cfg : option Config.Config) : string :=
  match cfg with
  | Some cfg =>
      if negb (String.eqb (cfg_session_token cfg) "") then cfg_session_token cfg
      else default (default "" (env_text (env "RMIG_SESSION_TOKEN"))) published
  | None => default (default "" (env_text (env "RMIG_SESSION_TOKEN"))) published
  end.

(** [apply_session_token_from_config]: the token published afterwards. *)
Definition apply_session_token_from_config (cfg : Config.Config) (published : option string)
    : option string :=
  if negb (String.eqb (cfg_session_token cfg) "") then Some (cfg_session_token cfg) else published.

Section driver.
Context {W : Type} `{HW : World W} `{HN : !Net W} `{HCl : Clock W}.

Definition net_call {A} (f : W → W * option A) : IO W (option A) := λ s,
  let '(w, r) := f (st_world s) in (Ok r, set_world w s).

(** [mssql_query.rs]: [exec] on a raw client. *)
Definition raw_exec (timeout : N) (client : RawClient) (sql : string)
    : IO W (option (Error + unit)) := λ s,
  let '(w, r) := w_raw_exec timeout client sql (st_world s) in
  (Ok (match r with
       | Some (inl e) => Some (inl (Sql e))
       | Some (inr tt) => Some (inr tt)
       | None => None
       end), set_world w (log_request (Text sql, []) s)).

(** ** A direct connection ([driver/mssql.rs]) *)

(** [with_connect_timeout]; a step without a bound that never ends does not return. *)
Definition with_connect_timeout {A} (timeout : N) (addr what : string)
    (step : IO W (option A)) : IO W A :=
  r ← step;
  match r with
  | Some a => mret a
  | None =>
      if (timeout =? 0)%N then lift Panic
      else lift (Err (Conn ("connect " +:+ addr +:+ ": " +:+ what +:+ " timed out after "
                              +:+ duration_debug timeout)))
  end.

Definition INIT_SESSION : string :=
  "SET QUOTED_IDENTIFIER ON; SET ANSI_NULLS ON; SET ANSI_PADDING ON;".

Definition connect_once (cfg : Config.Config) : IO W RawClient :=
  tds ← lift (tds_config cfg);
  let addr := cfg_server cfg +:+ ":" +:+ cfg_port cfg in
  let timeout := cfg_command_timeout cfg in
  tcp ← with_connect_timeout timeout addr "tcp connect" (net_call (w_tcp_connect timeout addr));
  match tcp with
  | inl e => lift (Err (Conn ("connect " +:+ addr +:+ ": " +:+ e)))
  | inr tcp =>
      client ← with_connect_timeout timeout addr "tds handshake"
                 (net_call (w_tds_connect timeout tds tcp));
      match client with
      | inl e => lift (Err (Conn ("connect " +:+ addr +:+ ": tds handshake: " +:+ e)))
      | inr client =>
          init ← with_connect_timeout timeout addr "session init"
                   (raw_exec timeout client INIT_SESSION);
          match init with
          | inl e => lift (Err e)
          | inr tt => mret client
          end
      end
  end.

Definition MAX_ATTEMPTS : nat := 3.
Definition sleep (ns : N) : IO W unit := λ s, (Ok tt, set_world (w_sleep ns (st_world s)) s).

(** The loop of [connect]: [more] attempts may follow the one made here. *)
Fixpoint connect_loop (cfg : Config.Config) (more : nat) (attempt_no : N) : IO W RawClient :=
  r ← attempt (connect_once cfg);
  match r with
  | inr client => mret client
  | inl (Conn msg) =>
      match more with
      | 0 => lift (Err (Conn msg))
      | S more => sleep (500 * attempt_no * NS_PER_MS);; connect_loop cfg more (attempt_no + 1)
      end
  | inl e => lift (Err e)
  end.
Definition connect (cfg : Config.Config) : IO W RawClient := connect_loop cfg (MAX_ATTEMPTS - 1) 1.

(** ** Through the session daemon ([session/proxy.rs], [session/client.rs]) *)

Context `{HSJ : SessionJson}.

Definition now : IO W N := λ s, (Ok (w_clock (st_world s)), s).

(** A [tokio::time::timeout] around several steps: each has what is left of it. *)
Definition deadline_after (timeout : N) : IO W (option N) :=
  if (timeout =? 0)%N then mret None else t ← now; mret (Some (t + timeout)%N).
Definition remaining (deadline : option N) : IO W N :=
  match deadline with
  | None => mret 0%N
  | Some d => t ← now; mret (N.max 1 (d - t))
  end.
Definition stream_step {A} (late : Error) (deadline : option N) (wrap : string → Error)
    (f : N → W → W * option (string + A)) : IO W A :=
  bound ← remaining deadline;
  r ← net_call (f bound);
  match r, deadline with
  | Some (inr a), _ => mret a
  | Some (inl e), _ => lift (Err (wrap e))
  | None, Some _ => lift (Err late)
  | None, None => lift Panic
  end.

(** The statement a request hands to the server. *)
Definition rpc_statement (req : Request) : list request :=
  match req with
  | Exec sql => [(Text sql, [])]
  | Query sql params => [(Text sql, params)]
  | _ => []
  end.
Definition log_rpc (req : Request) : IO W unit :=
  modify_st (λ s, foldr log_request s (rpc_statement req)).

(** [ProxyClient::call]. *)
Definition proxy_call (late : Error) (deadline : option N) (stream : Stream) (req : Request)
    : IO W Response :=
  let line := json_of_request req in
  if (MAX_SESSION_LINE_BYTES <? N.of_nat (String.length line))%N
  then lift (Err (InvalidInput "rmigd request exceeds size limit"))
  else
    log_rpc req;;
    stream_step late deadline Other (λ b, w_write_all b stream (line +:+ String LF ""));;
    resp_line ← stream_step late deadline Other
                  (λ b, w_read_line b (MAX_SESSION_LINE_BYTES + 1) stream);
    if (MAX_SESSION_LINE_BYTES <? N.of_nat (String.length resp_line))%N
    then lift (Err (InvalidInput "rmigd response exceeds size limit"))
    else match response_of_json resp_line with
         | inr resp => mret resp
         | inl e => lift (Err (Other e))
         end.

Definition proxy_exec (late : Error) (deadline : option N) (stream : Stream) (sql : string)
    : IO W unit :=
  resp ← proxy_call late deadline stream (Exec sql);
  lift (into_result resp);; mret tt.
Definition proxy_query (late : Error) (deadline : option N) (stream : Stream) (sql : string)
    (params : list string) : IO W (list RowData) :=
  resp ← proxy_call late deadline stream (Query sql params);
  lift (into_result resp).

Context (env : string → EnvVar) (published : option string).

(** [connect_inner]. *)
Definition proxy_handshake (late : Error) (deadline : option N) (socket_path : string)
    (cfg : Config.Config) : IO W Stream :=
  stream ← stream_step late deadline
             (λ e, Errors.Config ("rmigd connect " +:+ socket_path +:+ ": " +:+ e))
             (λ b, w_unix_connect b socket_path);
  let token := resolve_session_token env published (Some cfg) in
  (if negb (String.eqb token "") then
     resp ← proxy_call late deadline stream (Auth token);
     lift (into_result resp);; mret tt
   else mret tt);;
  resp ← proxy_call late deadline stream (request_ping cfg);
  lift (into_result resp);;
  mret stream.

Definition proxy_connect (socket_path : string) (cfg : Config.Config) : IO W Stream :=
  let timeout := cfg_command_timeout cfg in
  deadline ← deadline_after timeout;
  proxy_handshake (Errors.Config ("rmigd connect " +:+ socket_path +:+ ": timed out after "
                                    +:+ duration_debug timeout)) deadline socket_path cfg.

Context `{HU : Unicode}.

Definition connect_daemon (socket_path : string) (cfg : Config.Config) : IO W (DbClient W) :=
  proxy ← proxy_connect socket_path cfg;
  (if negb (String.eqb (cfg_database cfg) "") then
     quoted ← lift (bracket_ident (cfg_database cfg));
     let timeout := cfg_command_timeout cfg in
     deadline ← deadline_after timeout;
     proxy_exec (Errors.Config ("rmigd session init (USE) timed out after " +:+ duration_debug timeout))
       deadline proxy ("USE " +:+ quoted)
   else mret tt);;
  mret (Proxy proxy).

Definition connect_session_or_direct (cfg : Config.Config) : IO W (DbClient W) :=
  if String.eqb (cfg_session_socket cfg) "" then Direct <$> connect cfg
  else
    r ← attempt (connect_daemon (cfg_session_socket cfg) cfg);
    match r with
    | inr client => mret client
    | inl _ => Direct <$> connect cfg
    end.

(** [TimingConn::new] and [set_command_timeout]: statements now go through [client]. *)
Definition timing_conn (client : DbClient W) (command_timeout : N) : IO W unit :=
  modify_st (λ s,
    let handle := match client with Direct c => inl c | Proxy p => inr p end in
    mk_St (w_use handle (st_world s)) true command_timeout (mk_IoProfile 0 0) (st_ensured s)
      (st_history_empty s) (st_inspect s) (st_warm s) (st_log s)).
End driver.

(** ** What connecting sends *)

(** The set-up of a session and the switch to the database [db]. *)
Definition connection_text `{Unicode} (db : string) (r : request) : Prop :=
  r = (Text INIT_SESSION, []) ∨ ∃ quoted, bracket_ident db = Ok quoted ∧ r = (Text ("USE " +:+ quoted), []).

Section connect_facts.
Context {W : Type} `{HW : World W} `{HN : !Net W} `{HCl : Clock W}.
Context `{HSJ : SessionJson} `{HU : Unicode} (env : string → EnvVar) (published : option string).

Lemma emits_net_call {A} P (f : W → W * option A) : emits P (net_call f).
Proof. apply emits_pure. intros s. unfold net_call. by destruct (f _). Qed.
Lemma emits_raw_exec (P : request → Prop) timeout client sql :
  P (Text sql, []) → emits P (raw_exec timeout client sql).
Proof.
  intros HP s. unfold raw_exec. destruct (w_raw_exec _ _ _ _) as [w r].
  exists [(Text sql, [])]. auto.
Qed.
Lemma emits_sleep P ns : emits P (sleep ns).
Proof. by apply emits_pure. Qed.
Lemma emits_now P : emits P now.
Proof. by apply emits_pure. Qed.
#[local] Hint Resolve emits_net_call emits_raw_exec emits_sleep emits_now : emits.

Lemma emits_connect_timeout {A} P timeout addr what (step : IO W (option A)) :
  emits P step → emits P (with_connect_timeout timeout addr what step).
Proof. intros. unfold with_connect_timeout. repeat emits_step. Qed.

Lemma emits_connect (P : request → Prop) cfg : P (Text INIT_SESSION, []) → emits P (connect cfg).
Proof.
  intros HP. unfold connect.
  assert (Ho : emits P (connect_once cfg)).
  { unfold connect_once. apply emits_bind; [apply emits_lift|]. intros tds. cbv zeta.
    apply emits_bind; [apply emits_connect_timeout, emits_net_call|]. intros [e|tcp]; [apply emits_lift|].
    apply emits_bind; [apply emits_connect_timeout, emits_net_call|]. intros [e|c]; [apply emits_lift|].
    apply emits_bind; [by apply emits_connect_timeout, emits_raw_exec|]. intros [e|[]]; repeat emits_step. }
  generalize 1%N as no. generalize (MAX_ATTEMPTS - 1) as more.
  induction more as [|more IH]; intros no; cbn [connect_loop];
    (apply emits_bind; [by apply emits_attempt|]); intros [[]|]; repeat emits_step.
Qed.

Lemma emits_stream_step {A} P late deadline wrap (f : N → W → W * option (string + A)) :
  emits P (stream_step late deadline wrap f).
Proof. unfold stream_step, remaining. repeat emits_step. Qed.
Lemma emits_proxy_call (P : request → Prop) late deadline stream req :
  Forall P (rpc_statement req) → emits P (proxy_call late deadline stream req).
Proof.
  intros HP. unfold proxy_call. cbv zeta. case_match; [apply emits_lift|].
  apply emits_bind.
  { intros s. exists (rpc_statement req). split; [|done].
    unfold log_rpc, modify_st. destruct req; cbn; by rewrite ?app_nil_r. }
  intros _. apply emits_bind; [apply emits_stream_step|]. intros _.
  apply emits_bind; [apply emits_stream_step|]. intros line. repeat emits_step.
Qed.

Lemma emits_proxy_handshake (P : request → Prop) late deadline path cfg :
  emits P (proxy_handshake env published late deadline path cfg).
Proof.
  unfold proxy_handshake. apply emits_bind; [apply emits_stream_step|]. intros stream. cbv zeta.
  apply emits_bind.
  - case_match; [|apply emits_ret]. apply emits_bind; [by apply emits_proxy_call; constructor|].
    intros resp. repeat emits_step.
  - intros _. apply emits_bind; [by apply emits_proxy_call; constructor|]. intros resp. repeat emits_step.
Qed.

Lemma emits_connect_daemon (P : request → Prop) path cfg :
  (∀ x, connection_text (cfg_database cfg) x → P x) → emits P (connect_daemon env published path cfg).
Proof.
  intros HP. unfold connect_daemon, proxy_connect. apply emits_bind.
  - cbv zeta. apply emits_bind; [|intros; apply emits_proxy_handshake].
    unfold deadline_after. repeat emits_step.
  - intros proxy. apply emits_bind; [|intros _; apply emits_ret].
    case_match; [|apply emits_ret].
    apply (emits_bind_val _ (λ q, bracket_ident (cfg_database cfg) = Ok q));
      [apply emits_lift|by intros ??? ?%lift_val|].
    intros quoted Hq. cbv zeta. apply emits_bind; [unfold deadline_after; repeat emits_step|].
    intros dl. unfold proxy_exec. apply emits_bind.
    + apply emits_proxy_call. constructor; [|constructor]. apply HP. right. by exists quoted.
    + intros resp. repeat emits_step.
Qed.

Lemma emits_connect_session (P : request → Prop) cfg :
  (∀ x, connection_text (cfg_database cfg) x → P x) →
  emits P (connect_session_or_direct env published cfg).
Proof.
  intros HP. unfold connect_session_or_direct.
  assert (emits P (connect cfg)) by (apply emits_connect, HP; by left).
  case_match; [by apply emits_fmap|]. apply emits_bind; [by apply emits_attempt, emits_connect_daemon|].
  intros [e|c]; [by apply emits_fmap|apply emits_ret].
Qed.

(** ** The retry loop *)

(** [n] attempts failed in the connection phase, each followed by its pause. *)
Inductive retried (cfg : Config.Config) : nat → St W → St W → Prop :=
| retried_none s : retried cfg 0 s s
| retried_again n s s1 s2 s3 msg :
    retried cfg n s s1 → connect_once cfg s1 = (Err (Conn msg), s2) →
    s3 = (sleep (500 * N.of_nat (S n) * NS_PER_MS) s2).2 → retried cfg (S n) s s3.

Lemma connect_loop_spec cfg more : ∀ n s0 s r s',
  n + more = MAX_ATTEMPTS - 1 → retried cfg n s0 s →
  connect_loop cfg more (N.of_nat (S n)) s = (r, s') →
  ∃ k s1, k < MAX_ATTEMPTS ∧ retried cfg k s0 s1 ∧ connect_once cfg s1 = (r, s') ∧
          (k = MAX_ATTEMPTS - 1 ∨ ∀ msg, r ≠ Err (Conn msg)).
Proof.
  induction more as [|more IH]; intros n s0 s r s' Hn Hr E; cbn [connect_loop] in E;
    unfold mbind at 1, io_bind, attempt in E; destruct (connect_once cfg s) as [x t] eqn:Eo;
    assert (n < MAX_ATTEMPTS) by (unfold MAX_ATTEMPTS in *; lia).
  - exists n, s. assert (x = r ∧ t = s') as [-> ->].
    { destruct x as [c|[]|]; by injection E as <- <-. }
    split_and!; try done. left. unfold MAX_ATTEMPTS in *; lia.
  - destruct x as [c|[]|]; try (injection E as <- <-; exists n, s; split_and!; try done; by right).
    replace (N.of_nat (S n) + 1)%N with (N.of_nat (S (S n))) in E by lia.
    apply (IH (S n) s0 (sleep (500 * N.of_nat (S n) * NS_PER_MS) t).2 r s') in E; [done|lia|].
    by eapply retried_again.
Qed.

(** C31. Connecting makes at most three attempts: it repeats an attempt exactly when
    the connection phase failed, pausing half a second longer each time, and
    answers with what the last attempt answered; any other error, a refused
    authentication mode among them, is returned at once, before the network is
    used. *)
Theorem connect_spec cfg s :
  (∃ k s1, k < 3 ∧ retried cfg k s s1 ∧ connect_once cfg s1 = connect cfg s ∧
           (k = 2 ∨ ∀ msg, (connect cfg s).1 ≠ Err (Conn msg))) ∧
  (∀ e, select_auth_method cfg = Err e → connect cfg s = (Err e, s)).
Proof.
  split.
  - destruct (connect cfg s) as [r s'] eqn:E.
    apply (connect_loop_spec cfg (MAX_ATTEMPTS - 1) 0 s s r s'); [done|constructor|exact E].
  - intros e He. unfold connect, connect_loop. cbn [MAX_ATTEMPTS Nat.sub].
    assert (connect_once cfg s = (Err e, s)) as Ho.
    { unfold connect_once, tds_config. by rewrite He. }
    unfold mbind at 1, io_bind, attempt. rewrite Ho.
    assert (∀ m, e ≠ Conn m).
    { intros m ->. revert He. unfold select_auth_method. by repeat case_match. }
    destruct e; done || congruence.
Qed.
End connect_facts.

#[export] Hint Resolve emits_net_call emits_sleep emits_now emits_connect_timeout emits_stream_step : emits.

(** ** A network in front of [RefServer]

    Every address answers; a login to the database [d] is refused with the text of
    the file [login/d], and creating a database removes the refusals. *)
Module DriverSample.
#[local] Existing Instances Concrete.unicode RefServer.world.

Definition set_files (f : gmap string string → gmap string string) (w : RefServer.Server)
    : RefServer.Server :=
  RefServer.mk_Server (RefServer.srv_trancount w) (RefServer.srv_history w)
    (RefServer.srv_uncommitted w) (RefServer.srv_faults w) (f (RefServer.srv_files w))
    (RefServer.srv_lock w).

#[global] Instance net `{HJ : HistoryJson} : Net RefServer.Server := {
  Tcp := unit;
  RawClient := string;
  Stream := unit;
  w_tcp_connect _ _ w := (w, Some (inr tt));
  w_tds_connect _ tds _ w :=
    (w, Some (match RefServer.srv_files w !! ("login/" +:+ td_database tds) with
              | Some refusal => inl refusal
              | None => inr (td_database tds)
              end));
  w_raw_exec b _ sql w :=
    if contains_str "CREATE DATABASE" sql
    then (set_files (filter (λ kv, starts_with "login/" kv.1 = false)) w, Some (inr tt))
    else let '(w, r) := RefServer.run b (Text sql) [] w in
         (w, match r with
             | Some (inr _) => Some (inr tt)
             | Some (inl e) => Some (inl (error_fmt e))
             | None => None
             end);
  w_sleep _ w := w;
  w_unix_connect _ _ w := (w, Some (inl "no such file or directory"));
  w_write_all _ _ _ w := (w, Some (inl "broken pipe"));
  w_read_line _ _ _ w := (w, Some (inl "broken pipe"));
  w_use _ w := w;
}.
#[global] Instance files : Files RefServer.Server := {
  w_file_len _ _ := None;
  w_create_dir_all _ w := (w, None);
  w_write path text w := (set_files <[path := text]> w, None);
  w_rename _ _ w := (w, None);
  w_process_id _ := 1%N;
}.
#[global] Instance clock : Clock RefServer.Server := { w_clock _ := 0%N }.

(** *** A message format: the code of a message as a binary numeral in braces *)

Definition cell_code (c : Cell) : option string + string :=
  match c with CNull => inl None | CStr s => inl (Some s) | CBytes b => inr b end.
Definition code_cell (x : option string + string) : Cell :=
  match x with inl None => CNull | inl (Some s) => CStr s | inr b => CBytes b end.
#[global] Instance Cell_eq_dec : EqDecision Cell.
Proof. solve_decision. Defined.
#[global] Program Instance Cell_countable : Countable Cell := inj_countable' cell_code code_cell _.
Next Obligation. by intros []. Qed.

Abbreviation request_code := (N * list string * list (option bool))%type (only parsing).
Definition code_of_request (r : Request) : request_code :=
  match r with
  | Auth token => (0%N, [token], [])
  | Ping server port user encrypt trust => (1%N, [server; port; user], [encrypt; trust])
  | Exec sql => (2%N, [sql], [])
  | Query sql params => (3%N, sql :: params, [])
  | Stats => (4%N, [], [])
  end.
Definition request_of_code (x : request_code) : option Request :=
  match x with
  | (0%N, [token], []) => Some (Auth token)
  | (1%N, [server; port; user], [encrypt; trust]) => Some (Ping server port user encrypt trust)
  | (2%N, [sql], []) => Some (Exec sql)
  | (3%N, sql :: params, []) => Some (Query sql params)
  | (4%N, [], []) => Some Stats
  | _ => None
  end.
Definition code_of_response (r : Response) : bool * string * list RowData * string :=
  (rs_ok r, rs_error r, rs_rows r, rs_stats r).
Definition response_of_code (x : bool * string * list RowData * string) : Response :=
  let '(ok, error, rows, stats) := x in mk_Response ok error rows stats.

(** The digits up to the closing brace. *)
Fixpoint up_to_brace (s : string) : string :=
  match s with
  | EmptyString => ""
  | String c s => if decide (c = "}"%char) then "" else String c (up_to_brace s)
  end.
Definition braced (p : positive) : string := "{" +:+ RefServer.pos_string p +:+ "}".
Definition unbraced (s : string) : positive := RefServer.string_pos (up_to_brace (str_drop 1 s)).

Lemma up_to_brace_digits p rest : up_to_brace (RefServer.pos_string p +:+ String "}" rest) = RefServer.pos_string p.
Proof. induction p as [p IH|p IH|]; cbn; [by rewrite IH..|done]. Qed.
Lemma unbraced_braced p rest : unbraced (braced p +:+ rest) = p.
Proof.
  unfold unbraced, braced. cbn. rewrite str_app_assoc. change ("}" +:+ rest) with (String "}" rest).
  by rewrite up_to_brace_digits, RefServer.string_pos_string.
Qed.

Lemma trim_braced p : trim (braced p +:+ String LF "") = braced p.
Proof.
  assert (∃ l, bytes_of (braced p) = 123%N :: l ++ [125%N]) as [l Hl].
  { exists (bytes_of (RefServer.pos_string p)). unfold braced. by rewrite !bytes_of_app. }
  assert (bytes_of (braced p +:+ String LF "") = 123%N :: l ++ [125; 10]%N) as Hb.
  { rewrite bytes_of_app, Hl. cbn. by rewrite <- app_assoc. }
  unfold trim, trim_start. rewrite Hb.
  assert (trim_bytes false (123%N :: l ++ [125; 10]%N) = 123%N :: l ++ [125; 10]%N) as ->.
  { cbn. destruct l as [|a [|b l]]; done. }
  rewrite <- Hb, of_bytes_of. unfold trim_end. rewrite Hb.
  replace (rev (123%N :: l ++ [125; 10]%N)) with (10 :: 125 :: rev (123 :: l))%N
    by (rewrite app_comm_cons, rev_app_distr; done).
  assert (trim_bytes true (10 :: 125 :: rev (123 :: l))%N = (125 :: rev (123 :: l))%N) as ->.
  { cbn [trim_bytes]. change (is_ws1 10) with true. change (is_ws1 125) with false. cbn iota.
    destruct (rev (123%N :: l)) as [|b [|c m]]; [done| |].
    - unfold is_ws2. by rewrite andb_false_r.
    - unfold is_ws2, is_ws3. rewrite !andb_false_r. done. }
  replace (rev (125 :: rev (123 :: l))%N) with (bytes_of (braced p)); [apply of_bytes_of|].
  rewrite Hl. cbn [rev]. rewrite rev_app_distr, rev_involutive. done.
Qed.

Definition write_request (r : Request) : string := braced (encode (code_of_request r)).
Definition read_request (s : string) : string + Request :=
  match mbind (M:=option) request_of_code (decode (unbraced s)) with
  | Some r => inr r
  | None => inl "malformed request"
  end.
Definition write_response (r : Response) : string := braced (encode (code_of_response r)).
Definition read_response (s : string) : string + Response :=
  match decode (unbraced s) with
  | Some x => inr (response_of_code x)
  | None => inl "malformed response"
  end.

Lemma read_write_request r : read_request (trim (write_request r +:+ String LF "")) = inr r.
Proof.
  unfold read_request, write_request.
  rewrite trim_braced, <- (str_app_nil_r (braced _)), unbraced_braced, decode_encode. by destruct r.
Qed.
Lemma read_write_response r : read_response (write_response r +:+ String LF "") = inr r.
Proof. unfold read_response, write_response. rewrite unbraced_braced, decode_encode. by destruct r. Qed.

#[global] Instance messages : SessionJson := {|
  json_of_request := write_request; request_of_json := read_request;
  json_of_response := write_response; response_of_json := read_response;
  request_of_json_of_request := read_write_request;
  response_of_json_of_response := read_write_response;
|}.

Definition cfg : Config.Config :=
  Config_default <| cfg_server := "db" |> <| cfg_database := "A" |>.
Definition refusal : string := "Cannot open database 'A' requested by the login.".
Definition refused : Error := Conn ("connect db:1433: tds handshake: " +:+ refusal).
Definition start : St RefServer.Server := RefServer.start [("login/A", refusal)] [] 0.

(** What the server itself answers to a login counts as a failure of the
    connection phase, so an absent database is asked for three times. *)
Lemma login_refusal_is_retried :
  ∃ s1, retried cfg 2 start s1 ∧ connect_once cfg s1 = (Err refused, s1) ∧
        (connect cfg start).1 = Err refused.
Proof.
  exists start. split_and!; [|by vm_compute|by vm_compute].
  eapply retried_again; [eapply retried_again; [constructor| |]| |]; by vm_compute.
Qed.
End DriverSample.
