(* ===== verification/Scaffold.v ===== *)
(** * Migration scaffolds for blocked tables ([scaffold/], [db/columns.rs], [engine/blocked.rs])

    When a changed table has no migration, [migrate] refuses and leaves a file in
    the table's migration directory: an [ALTER TABLE] that adds the new columns
    when the columns of the script and of the server differ only by additions, a
    commented form to fill in otherwise. *)

From S2P Require Export Driver Git.
From Stdlib Require Import Ascii.
From Stdlib Require String.

(** ** Columns of the server ([db/columns.rs]) *)

Record TableColumn := mk_TableColumn {
  tcol_name : string;
  tcol_type_name : string;
  tcol_nullable : bool;
}.

(** [serde_json::to_string] of the table references. *)
Class TableRefsJson := { refs_to_string : list (string * string * string) → string }.

(** [str::to_uppercase]. *)
Class Uppercase := { to_uppercase : string → string }.

Definition row_nullable (row : RowData) (idx : nat) : bool :=
  match get_str row idx with
  | Some s => String.eqb s "1" || String.eqb s "true"
  | None =>
      match get_bytes row idx with
      | Some b => match b with EmptyString => false | String c _ => negb (byte_of c =? 0)%N end
      | None => true
      end
  end.

Section columns.
Context `{HU : Unicode} `{HTR : TableRefsJson}.

Definition add_column_row (out : gmap string (list TableColumn)) (row : RowData)
    : gmap string (list TableColumn) :=
  let lower (i : nat) := to_lowercase (str_or_empty row i) in
  let key := lower 0 +:+ "/tables/" +:+ lower 1 in
  let column := mk_TableColumn (lower 2) (lower 3) (row_nullable row 7) in
  <[key := default [] (out !! key) ++ [column]]> out.
Definition rows_into_map (rows : list RowData) : gmap string (list TableColumn) :=
  foldl add_column_row ∅ rows.

Definition table_ref (ws : Workspace) (refs : list (string * string * string)) (i : nat)
    : M (list (string * string * string)) :=
  key ← entry_key ws i;
  Ok (if String.eqb (kind_part key) "tables"
      then refs ++ [(to_lowercase (schema_part key), "tables", to_lowercase (name_part key))]
      else refs).

Definition load_table_columns {W} `{HW : World W} (ws : Workspace)
    : IO W (gmap string (list TableColumn)) :=
  refs ← lift (foldM (table_ref ws) [] (seq 0 (length (ws_object_entries ws))));
  if bool_decide (refs = []) then mret ∅
  else rows_into_map <$> query COLUMNS_OPENJSON [refs_to_string refs].
End columns.

(** ** Columns of a script ([scaffold/column_parser.rs], [column_parser/parse.rs]) *)

Record ParsedColumn := mk_ParsedColumn {
  pcol_name : string;
  pcol_type_name : string;
  pcol_nullable : bool;
}.
#[global] Instance ParsedColumn_eq_dec : EqDecision ParsedColumn.
Proof. solve_decision. Defined.

(** [split_once] for a string pattern; [rsplit] at the last occurrence of a
    character; the byte offset of the last occurrence of a pattern. *)
Fixpoint before_str (p s : string) : option string :=
  if starts_with p s then Some ""
  else match s with
       | EmptyString => None
       | String c s' => String c <$> before_str p s'
       end.
Fixpoint before_last (c : ascii) (s : string) : option string :=
  match s with
  | EmptyString => None
  | String a s' =>
      match before_last c s' with
      | Some l => Some (String a l)
      | None => if decide (a = c) then Some "" else None
      end
  end.
Fixpoint rfind_str (p s : string) : option nat :=
  match s with
  | EmptyString => if starts_with p s then Some 0 else None
  | String _ s' =>
      match rfind_str p s' with
      | Some n => Some (S n)
      | None => if starts_with p s then Some 0 else None
      end
  end.

Definition strip_line_comments (sql : string) : string :=
  str_join (String LF "") (map (λ line, default line (before_str "--" line)) (lines sql)).

(** [str::split_whitespace]: [skip] bytes of a white-space character are to go. *)
Definition ws_len (l : list N) : nat :=
  match l with
  | a :: b :: c :: _ => if is_ws1 a then 1 else if is_ws2 a b then 2 else if is_ws3 a b c then 3 else 0
  | [a; b] => if is_ws1 a then 1 else if is_ws2 a b then 2 else 0
  | [a] => if is_ws1 a then 1 else 0
  | [] => 0
  end.
Fixpoint split_ws (l : list N) (skip : nat) (word : list N) : list (list N) :=
  let flush := match word with [] => [] | _ => [word] end in
  match l with
  | [] => flush
  | b :: l' =>
      match skip with
      | S skip => split_ws l' skip word
      | 0 => match ws_len l with
             | 0 => split_ws l' 0 (word ++ [b])
             | S k => flush ++ split_ws l' k []
             end
      end
  end.
Definition split_whitespace (s : string) : list string := map of_bytes (split_ws (bytes_of s) 0 []).

Section parser.
Context `{HU : Unicode} `{HUp : Uppercase}.

Definition extract_column_body (sql : string) : string :=
  let upper := replace_char LF " " (to_uppercase (strip_line_comments sql)) in
  match split_once "(" upper with
  | None => ""
  | Some (_, body) => match before_last ")" body with None => "" | Some body => trim body end
  end.

(** The loop over the characters: [part] is the text since the last comma at depth 0. *)
Fixpoint split_columns_from (s part : string) (depth : Z) : list string :=
  match s with
  | EmptyString => if String.eqb part "" then [] else [trim part]
  | String c s' =>
      let keep := part +:+ String c "" in
      if decide (c = "("%char) then split_columns_from s' keep (depth + 1)
      else if decide (c = ")"%char) then split_columns_from s' keep (depth - 1)
      else if bool_decide (c = ","%char) && (depth =? 0)%Z
           then trim part :: split_columns_from s' "" depth
      else split_columns_from s' keep depth
  end.
Definition split_columns (body : string) : list string := split_columns_from body "" 0.

Definition parse_name_rest (def : string) : option (string * string) :=
  match split_once "]" def with
  | Some (n, r) => Some (to_lowercase (trim (trim_start_char "[" n)), trim r)
  | None =>
      match split_whitespace def with
      | [] => None
      | n :: parts => Some (to_lowercase n, str_join " " parts)
      end
  end.

(** [str::split_at] panics off a character boundary. *)
Definition split_at (n : nat) (s : string) : M (string * string) :=
  if is_char_boundary n s then Ok (str_take n s, str_drop n s) else Panic.

Definition split_type_null (rest : string) : M (string * string) :=
  let upper := to_uppercase rest in
  let at_ (i : nat) := '(t, n) ← split_at i rest; Ok (trim t, trim n) in
  match rfind_str "NOT NULL" upper with
  | Some i => at_ i
  | None => match rfind_str "NULL" upper with
            | Some i => at_ i
            | None => Ok (rest, "")
            end
  end.

Definition parse_column_def (def : string) : M (option ParsedColumn) :=
  let def := trim def in
  let upper := to_uppercase def in
  if String.eqb def "" || starts_with "CONSTRAINT" upper || starts_with "PRIMARY" upper then Ok None
  else match parse_name_rest def with
  | None => Ok None
  | Some (name, rest) =>
      if starts_with "AS " (to_uppercase rest) then Ok None
      else
        '(type_part, null_part) ← split_type_null rest;
        Ok (Some (mk_ParsedColumn name (trim type_part)
                    (negb (contains_str "NOT NULL" (to_uppercase null_part)))))
  end.

Definition parse_table_columns (sql : string) : M (list ParsedColumn) :=
  let body := extract_column_body sql in
  if String.eqb body "" then Ok []
  else cols ← traverse parse_column_def (split_columns body); Ok (omap (M:=list) id cols).

Definition new_columns (file_cols : list ParsedColumn) (db_names : list string) : list ParsedColumn :=
  List.filter (λ c, negb (bool_decide (pcol_name c ∈ db_names))) file_cols.
Definition has_dropped_columns (file_cols : list ParsedColumn) (db_names : list string) : bool :=
  existsb (λ n, negb (bool_decide (n ∈ map pcol_name file_cols))) db_names.
End parser.

(** ** Texts ([scaffold/auto.rs], [scaffold/content.rs]) *)

Definition SCAFFOLD_MARK : string := "-- rmig: transition-scaffold".
Definition line_ (s : string) : string := s +:+ String LF "".

Section texts.
Context `{HU : Unicode} `{HUp : Uppercase}.

Definition null_text (nullable : bool) : string := if nullable then "NULL" else "NOT NULL".

Definition scaffold_content (schema table : string) (columns : list TableColumn) : string :=
  let column (c : TableColumn) :=
    line_ ("--   " +:+ tcol_name c +:+ " " +:+ tcol_type_name c +:+ " " +:+ null_text (tcol_nullable c)) in
  line_ SCAFFOLD_MARK
  +:+ line_ ("-- Table: [" +:+ schema +:+ "].[" +:+ table +:+ "]")
  +:+ line_ "-- Replace this scaffold with the actual migration SQL."
  +:+ line_ ("-- Schema: " +:+ schema)
  +:+ line_ ("-- Table: " +:+ table)
  +:+ line_ "-- Press Ctrl+C to stop migration."
  +:+ match columns with
      | [] => ""
      | _ => line_ "-- Detected columns:" +:+ str_join "" (map column columns)
      end.

Definition type_char (c : ascii) : bool :=
  (byte_of c <? 128)%N
  && negb (bool_decide (c ∈ [";"; LF; "013"; "["; "]"; "'"; "034"]%char)).
Definition validate_type_literal (typ : string) : M unit :=
  if String.eqb typ "" || Nat.ltb 128 (String.length typ)
  then Err (InvalidInput ("invalid type literal length: " +:+ debug_str typ))
  else if str_all type_char typ then Ok tt
  else Err (InvalidInput ("invalid type literal: " +:+ debug_str typ)).

(** [sql/apply/add_column.sql] with its slots filled. *)
Definition add_column_template (schema_id table_id col_id typ null : string) : string :=
  line_ ("ALTER TABLE " +:+ schema_id +:+ "." +:+ table_id +:+ " ADD " +:+ col_id +:+ " "
           +:+ typ +:+ " " +:+ null +:+ ";").
Definition add_column_sql (schema_id table_id : string) (b : string) (col : ParsedColumn) : M string :=
  validate_path_component (pcol_name col);;
  validate_type_literal (pcol_type_name col);;
  col_id ← bracket_ident (pcol_name col);
  Ok (b +:+ add_column_template schema_id table_id col_id (pcol_type_name col)
              (null_text (pcol_nullable col))).
Definition auto_add_sql (schema table : string) (added : list ParsedColumn) : M string :=
  schema_id ← bracket_ident schema;
  table_id ← bracket_ident table;
  foldM (add_column_sql schema_id table_id)
    (line_ ("-- Auto-generated migration for " +:+ schema_id +:+ "." +:+ table_id)
     +:+ line_ ("-- Added columns: " +:+ pretty (length added))
     +:+ line_ (line_ "-- Review this migration before running.")) added.

(** [.ok()?]: an error ends the attempt, a panic does not. *)
Definition ok_ {A} (m : M A) : M (option A) :=
  match m with Ok a => Ok (Some a) | Err _ => Ok None | Panic => Panic end.

Definition auto_file_name (commit : string) : string := "001_" +:+ commit +:+ "_auto_add_columns.sql".
Definition try_auto_migration (obj : PlannedObject) (file_content : string)
    (db_columns : list TableColumn) (commit : string) (taken : string → bool)
    : M (option (string * string)) :=
  token ← ok_ (validate_filename_token commit);
  match token with
  | None => Ok None
  | Some tt =>
      file_cols ← parse_table_columns file_content;
      if bool_decide (file_cols = []) then Ok None
      else
        let db_names := map tcol_name db_columns in
        let added := new_columns file_cols db_names in
        if bool_decide (added = []) || has_dropped_columns file_cols db_names then Ok None
        else
          sql ← ok_ (auto_add_sql (po_schema_name obj) (po_object_name obj) added);
          match sql with
          | None => Ok None
          | Some sql =>
              let file_name := auto_file_name commit in
              Ok (if taken file_name then None else Some (sql, file_name))
          end
  end.

Definition fallback_scaffold (obj : PlannedObject) (db_columns : list TableColumn) (commit : string)
    : string * string :=
  let commit := match validate_filename_token commit with Ok _ => commit | _ => "0000000" end in
  ("001_" +:+ commit +:+ "_describe_change.sql",
   scaffold_content (po_schema_name obj) (po_object_name obj) db_columns).
End texts.

(** ** The migration directory ([scaffold/dir.rs]) *)

(** The directory part of the file system; [w_canonicalize] resolves symbolic links. *)
Class Dirs (W : Type) := {
  w_exists : W → string → bool;
  w_canonicalize : W → string → Error + string;
  w_read_dir : W → string → option (list string);
}.

Definition migration_dir (base db schema table : string) : string :=
  path_join (path_join (path_join (path_join (path_join base db) schema) "tables") "_migrations") table.

(** [Path::parent], on a path without [.] components. *)
Fixpoint trim_slashes (s : string) : string :=
  match s with
  | EmptyString => ""
  | String c s' =>
      match trim_slashes s' with
      | EmptyString => if decide (c = "/"%char) then "" else String c ""
      | t => String c t
      end
  end.
Definition path_parent (p : string) : option string :=
  let q := trim_slashes p in
  if String.eqb q "" then None
  else match before_last "/" q with
       | None => Some ""
       | Some up => let up := trim_slashes up in Some (if String.eqb up "" then "/" else up)
       end.

(** [Path::starts_with] on canonical paths: whole components. *)
Definition path_components (p : string) : list string :=
  List.filter (λ c, negb (String.eqb c "")) (split_on "/" p).
Definition path_starts_with (base p : string) : bool :=
  bool_decide (path_components base `prefix_of` path_components p).

Section dir.
Context {W : Type} `{HW : World W} `{HFi : Files W} `{HDi : Dirs W} `{HU : Unicode}.

(** The deepest ancestor that exists; a parent is shorter, so the length of the
    path is enough fuel. *)
Fixpoint existing_ancestor (fuel : nat) (w : W) (p : string) : string :=
  if w_exists w p then p
  else match fuel, path_parent p with
       | S fuel, Some up => existing_ancestor fuel w up
       | _, _ => p
       end.

Definition canonicalize_io (p : string) : IO W string := λ s,
  (match w_canonicalize (st_world s) p with inr c => Ok c | inl e => Err e end, s).

Definition migration_dir_checked (base db schema table : string) : IO W string :=
  lift (validate_path_component db);;
  lift (validate_path_component schema);;
  lift (validate_path_component table);;
  let dir := migration_dir base db schema table in
  s ← get_st;
  if w_exists (st_world s) base then
    base_canon ← canonicalize_io base;
    existing_canon ← canonicalize_io (existing_ancestor (String.length dir) (st_world s) dir);
    if negb (path_starts_with base_canon existing_canon)
    then lift (Err (InvalidInput "migration path escapes sql_base"))
    else
      fs_call (w_create_dir_all dir);;
      dir_canon ← canonicalize_io dir;
      if negb (path_starts_with base_canon dir_canon)
      then lift (Err (InvalidInput ("migration path escapes sql_base: " +:+ dir_canon)))
      else mret dir_canon
  else mret dir.

(** The first line of a file is the mark. *)
Definition is_marked (data : string) : bool :=
  let line := default "" (head (split_on LF data)) in
  let line := if valid_utf8 line then line else "" in
  starts_with SCAFFOLD_MARK (trim_end_matches (String "013"%char "") line).

Definition has_non_scaffold_sql (w : W) (dir : string) : bool :=
  match w_read_dir w dir with
  | None => false
  | Some names =>
      existsb (λ name,
        bool_decide (extension name = Some "sql")
        && match w_read_file w (path_join dir name) with
           | inl _ => false
           | inr data => negb (is_marked data)
           end) names
  end.

Definition write_file (path content : string) : IO W unit :=
  match path_parent path with
  | Some parent => fs_call (w_create_dir_all parent)
  | None => mret tt
  end;;
  fs_call (w_write path content).
End dir.

(** ** The pass over the blocked objects ([scaffold/ensure.rs]) *)

Section ensure.
Context {W : Type} `{HW : World W} `{HFi : Files W} `{HDi : Dirs W}.
Context `{HU : Unicode} `{HUp : Uppercase} `{HF : Fingerprint}.
Context {G : Type} `{HG : GitTool G} (g : G).

(** [scaffold/git.rs]. *)
Definition short_hash : string :=
  match git_stdout g ["rev-parse"; "--short"; "HEAD"] with
  | Some out => trim out
  | None => "0000000"
  end.

Definition pick_content (w : W) (ws : Workspace) (obj : PlannedObject) (cols : list TableColumn)
    (commit mig_dir : string) : M (string * string) :=
  let fallback := fallback_scaffold obj cols commit in
  match object_by_key ws (po_normalized_key obj) with
  | None => Ok fallback
  | Some entry =>
      abs ← script_abs_path ws (oe_script_id entry);
      match w_read_file w abs with
      | inl _ => Ok fallback
      | inr data =>
          if negb (valid_utf8 data) then Ok fallback
          else
            auto ← try_auto_migration obj data cols commit (λ name, w_exists w (path_join mig_dir name));
            Ok (match auto with Some (content, name) => (name, content) | None => fallback end)
      end
  end.

Definition ensure_object (cfg : Config.Config) (ws : Workspace)
    (columns : gmap string (list TableColumn)) (commit : string) (obj : PlannedObject)
    : IO W bool :=
  if negb (bool_decide (po_planned_action obj = ReprocessChangedBlocked)) then mret false
  else
    let db := po_database_name obj in
    if String.eqb db "" then mret false
    else
      mig_dir ← migration_dir_checked (cfg_sql_base cfg) db (po_schema_name obj) (po_object_name obj);
      s ← get_st;
      if has_non_scaffold_sql (st_world s) mig_dir then mret false
      else
        let cols := default [] (columns !! po_normalized_key obj) in
        '(file_name, content) ← lift (pick_content (st_world s) ws obj cols commit mig_dir);
        let path := path_join mig_dir file_name in
        if w_exists (st_world s) path then mret false
        else write_file path content;; mret true.

Fixpoint ensure_objects (cfg : Config.Config) (ws : Workspace)
    (columns : gmap string (list TableColumn)) (commit : string) (objects : list PlannedObject)
    : IO W bool :=
  match objects with
  | [] => mret false
  | obj :: objects =>
      created ← ensure_object cfg ws columns commit obj;
      rest ← ensure_objects cfg ws columns commit objects;
      mret (created || rest)
  end.

Definition ensure (cfg : Config.Config) (ws : Workspace) (plan : MigrationPlan)
    (columns : gmap string (list TableColumn)) : IO W bool :=
  ensure_objects cfg ws columns short_hash (mp_objects plan).

Context `{HTR : TableRefsJson}.

(** [engine/blocked.rs]. *)
Definition handle_blocked_migrate (cfg : Config.Config) (ws : Workspace) (plan : MigrationPlan)
    : IO W unit :=
  columns ← load_table_columns ws;
  ensure cfg ws plan columns;;
  lift (Err PlanBlocked).
End ensure.

(** ** Facts: nothing is written outside the source tree *)

Lemma split_on_sep c a b : split_on c (a +:+ String c b) = split_on c a ++ split_on c b.
Proof.
  induction a as [|x a IH]; cbn; [by rewrite decide_True|]. case_decide; [by rewrite IH|].
  rewrite IH. destruct (split_on c a) as [|w ws] eqn:E; [by apply split_on_nonnil in E|]. done.
Qed.

Lemma path_components_app a b :
  path_components (a +:+ "/" +:+ b) = path_components a ++ path_components b.
Proof.
  unfold path_components. change ("/" +:+ b) with (String "/" b).
  by rewrite split_on_sep, List.filter_app.
Qed.

Lemma path_components_single a : a ≠ "" → has_char "/" a = false → path_components a = [a].
Proof.
  intros Hne Ha. unfold path_components. rewrite split_on_single by done. cbn.
  by apply String.eqb_neq in Hne as ->.
Qed.

Lemma path_components_slash a : path_components (a +:+ "/") = path_components a.
Proof.
  change "/" with ("/" +:+ "") at 1. rewrite path_components_app.
  change (path_components "") with (@nil string). by rewrite app_nil_r.
Qed.

(** Joining a file name adds one component at the end. *)
Lemma path_join_components dir name :
  name ≠ "" → has_char "/" name = false →
  path_components (path_join dir name) = path_components dir ++ [name].
Proof.
  intros Hne Hs. pose proof (path_components_single name Hne Hs) as E.
  unfold path_join. destruct (starts_with "/" name) eqn:H1.
  { apply starts_with_spec in H1 as [r ->]. by rewrite has_char_app in Hs. }
  cbn [orb]. destruct (String.eqb_spec dir "") as [->|]; [done|].
  destruct (ends_with "/" dir) eqn:H2; [|by rewrite path_components_app, E].
  apply ends_with_spec in H2 as [r ->].
  by rewrite str_app_assoc, path_components_app, path_components_slash, E.
Qed.

Definition slashes (n : nat) : string := Nat.iter n (String "/") "".
Lemma slashes_components n q : path_components (q +:+ slashes n) = path_components q.
Proof.
  assert (∀ n, path_components (slashes n) = []) as H0.
  { clear. induction n as [|n IH]; [done|].
    change (slashes (S n)) with ("" +:+ "/" +:+ slashes n). by rewrite path_components_app, IH. }
  destruct n as [|n]; [by rewrite str_app_nil_r|].
  change (slashes (S n)) with ("/" +:+ slashes n). by rewrite path_components_app, H0, app_nil_r.
Qed.

Lemma trim_slashes_spec p :
  (∃ n, p = trim_slashes p +:+ slashes n) ∧ ∀ q, trim_slashes p ≠ q +:+ "/".
Proof.
  induction p as [|c p [[n IH] Hq]]; [split; [by exists 0|by intros []]|]. cbn [trim_slashes].
  destruct (trim_slashes p) as [|x t] eqn:E.
  - destruct (decide _) as [->|Hc]; split; try (by intros []).
    + exists (S n). by rewrite IH at 1.
    + exists n. by rewrite IH at 1.
    + intros [|y [|z q]]; cbn; congruence.
  - split; [exists n; by rewrite IH at 1|]. intros [|y q]; cbn; intros [= -> E2]; by apply (Hq q).
Qed.
Lemma trim_slashes_components p : path_components (trim_slashes p) = path_components p.
Proof. destruct (trim_slashes_spec p) as [[n E] _]. rewrite E at 2. by rewrite slashes_components. Qed.

Lemma before_last_None c s : before_last c s = None → has_char c s = false.
Proof.
  induction s as [|b s IH]; [done|]. cbn. destruct (before_last c s); [done|].
  case_decide; [done|]. rewrite has_char_cons, bool_decide_eq_false_2 by congruence. auto.
Qed.
Lemma before_last_Some c s l : before_last c s = Some l →
  ∃ r, s = l +:+ String c r ∧ has_char c r = false.
Proof.
  revert l. induction s as [|a s IH]; intros l; cbn; [done|].
  destruct (before_last c s) as [l'|] eqn:E.
  - intros [= <-]. destruct (IH l' eq_refl) as (r & -> & ?). by exists r.
  - case_decide; [|done]. intros [= <-]. subst. exists s. split; [done|]. by apply before_last_None.
Qed.

(** The parent of a joined path has the components of the directory. *)
Lemma path_parent_join dir name up : name ≠ "" → has_char "/" name = false →
  path_parent (path_join dir name) = Some up → path_components up = path_components dir.
Proof.
  intros Hne Hs. pose proof (path_join_components dir name Hne Hs) as Ej.
  unfold path_parent. set (p := path_join dir name) in *.
  assert (path_components (trim_slashes p) = path_components dir ++ [name]) as Ec
    by (by rewrite trim_slashes_components).
  destruct (trim_slashes_spec p) as [_ Hq]. revert Ec Hq. generalize (trim_slashes p) as q.
  intros q Ec Hq. case_match; [done|]. destruct (before_last "/" q) as [l|] eqn:Eb.
  - apply before_last_Some in Eb as (r & -> & Hr).
    assert (r ≠ "") by (intros ->; by apply (Hq l)).
    change (String "/" r) with ("/" +:+ r) in Ec.
    rewrite path_components_app, (path_components_single r) in Ec by done.
    apply app_inj_2 in Ec as [<- _]; [|done].
    intros [= <-]. rewrite <- (trim_slashes_components l). case_match eqn:E; [|done].
    by apply String.eqb_eq in E as ->.
  - intros [= <-]. apply before_last_None in Eb.
    destruct (String.eqb_spec q ""); [done|]. rewrite path_components_single in Ec by done.
    by destruct (path_components dir) as [|? []].
Qed.

Section names.
Context `{HU : Unicode} `{HUp : Uppercase} `{HF : Fingerprint}.

Definition file_name (name : string) : Prop := name ≠ "" ∧ has_char "/" name = false.

Lemma token_no_slash token : validate_filename_token token = Ok tt → has_char "/" token = false.
Proof.
  unfold validate_filename_token. case_match; [done|]. case_match eqn:E; [|done]. intros _.
  apply (has_char_all _ _ _ E). done.
Qed.

Lemma token_file_name a token b : has_char "/" (String a "01_") = false →
  has_char "/" b = false → validate_filename_token token = Ok tt →
  file_name (String a "01_" +:+ token +:+ b).
Proof.
  intros Ha Hb Ht%token_no_slash. split; [done|]. by rewrite !has_char_app, Ha, Hb, Ht.
Qed.

Lemma fallback_name obj cols commit : file_name (fallback_scaffold obj cols commit).1.
Proof.
  unfold fallback_scaffold. cbn [fst].
  destruct (validate_filename_token commit) as [[]|e|] eqn:E; apply token_file_name; done.
Qed.

Lemma auto_name obj text cols commit taken sql name :
  try_auto_migration obj text cols commit taken = Ok (Some (sql, name)) →
  validate_filename_token commit = Ok tt ∧ name = auto_file_name commit ∧ taken name = false ∧
  ∃ file_cols, parse_table_columns text = Ok file_cols ∧
    let added := new_columns file_cols (map tcol_name cols) in
    added ≠ [] ∧ has_dropped_columns file_cols (map tcol_name cols) = false ∧
    auto_add_sql (po_schema_name obj) (po_object_name obj) added = Ok sql.
Proof.
  unfold try_auto_migration.
  destruct (validate_filename_token commit) as [[]|e|] eqn:E; cbn [ok_ mbind outcome_bind]; try done.
  intros (file_cols & Hc & H)%outcome_bind_Ok. revert H.
  destruct (bool_decide (file_cols = [])); [done|]. cbv zeta.
  destruct (bool_decide (new_columns _ _ = [])) eqn:Ea; [done|]. apply bool_decide_eq_false in Ea.
  cbn [orb]. destruct (has_dropped_columns _ _) eqn:Ed; [done|].
  intros (o & Ho & H)%outcome_bind_Ok. destruct o as [sql'|]; [|done].
  destruct (taken _) eqn:Et; [done|]. injection H as <- <-. split_and!; [done..|].
  exists file_cols. split_and!; [done..|].
  destruct (auto_add_sql _ _ _); try done. by injection Ho as ->.
Qed.
End names.

Section keeps.
Context {W : Type} `{HW : World W} `{HFi : Files W} `{HDi : Dirs W}.
Context `{HU : Unicode} `{HUp : Uppercase} `{HF : Fingerprint}.
Context {G : Type} `{HG : GitTool G} (g : G).

Lemma pick_content_name w ws obj cols commit dir name content :
  pick_content w ws obj cols commit dir = Ok (name, content) → file_name name.
Proof.
  pose proof (fallback_name obj cols commit) as Hfb. revert Hfb.
  unfold pick_content. generalize (fallback_scaffold obj cols commit) as fb. intros fb Hfb. cbv zeta. destruct (object_by_key _ _) as [e|]; [|by intros [= ->]].
  intros (abs & _ & H)%outcome_bind_Ok. revert H.
  destruct (w_read_file w abs) as [|data]; [by intros [= ->]|].
  destruct (negb _); [by intros [= ->]|].
  intros (auto & Ha & H)%outcome_bind_Ok. destruct auto as [[c n]|].
  - injection H as <- <-. apply auto_name in Ha as (Ht & -> & _). by apply token_file_name.
  - by injection H as ->.
Qed.

(** From a world in [I], [m] ends in a world in [I], and its value satisfies [R]. *)
Definition keeps {A} (I : W → Prop) (R : A → Prop) (m : IO W A) : Prop :=
  ∀ s, I (st_world s) → I (st_world (m s).2) ∧ ∀ a, (m s).1 = Ok a → R a.

Lemma keeps_bind {A B} I (R : A → Prop) (R' : B → Prop) (m : IO W A) (f : A → IO W B) :
  keeps I R m → (∀ a, R a → keeps I R' (f a)) → keeps I R' (m ≫= f).
Proof.
  intros Hm Hf s Hs. unfold mbind, io_bind. destruct (Hm s Hs) as [Hi HR].
  destruct (m s) as [[a|e|] s1]; cbn in *; [|by split; [|intros ? [=]]..].
  apply Hf; [by apply HR|done].
Qed.
Lemma keeps_ret {A} I (R : A → Prop) a : R a → keeps I R (mret a).
Proof. intros H s Hs. split; [done|]. by intros ? [= <-]. Qed.
Lemma keeps_lift {A} I (R : A → Prop) m : (∀ a, m = Ok a → R a) → keeps I R (lift m).
Proof. intros H s Hs. by split. Qed.
Lemma keeps_get I : keeps I (λ s, I (st_world s)) get_st.
Proof. intros s Hs. split; [done|]. by intros ? [= <-]. Qed.
Lemma keeps_fs_call I f : (∀ w, I w → I (f w).1) → keeps I (λ _, True) (fs_call f).
Proof. intros H s Hs. unfold fs_call. specialize (H _ Hs). by destruct (f _). Qed.
Lemma keeps_weaken {A} I (R R' : A → Prop) m : (∀ a, R a → R' a) → keeps I R m → keeps I R' m.
Proof. intros H Hm s Hs. destruct (Hm s Hs). auto. Qed.

(** One step at a known state. *)
Definition ends_in {A} (I : W → Prop) (R : A → Prop) (x : M A * St W) : Prop :=
  I (st_world x.2) ∧ ∀ a, x.1 = Ok a → R a.
Lemma ends_in_bind {A B} I (R : B → Prop) (m : IO W A) (f : A → IO W B) s :
  match m s with (Ok a, s1) => ends_in I R (f a s1) | (_, s1) => I (st_world s1) end →
  ends_in I R ((m ≫= f) s).
Proof. unfold mbind, io_bind. destruct (m s) as [[a|e|] s1]; [done|by split..]. Qed.
Lemma keeps_at {A} I (R : A → Prop) (m : IO W A) :
  (∀ s, I (st_world s) → ends_in I R (m s)) → keeps I R m.
Proof. done. Qed.

Context (base base_canon : string) (I : W → Prop).

(** A directory that may be created: below the root, or on a path whose existing
    part is below it. *)
Definition may_create (w : W) (dir : string) : Prop :=
  path_starts_with base_canon dir = true ∨
  ∃ c, w_canonicalize w (existing_ancestor (String.length dir) w dir) = inr c ∧
       path_starts_with base_canon c = true.

(** What a property of the file system must be to be none of the pass's business. *)
Record outside_root : Prop := {
  or_root w : I w → w_exists w base = true ∧ w_canonicalize w base = inr base_canon;
  or_write w path text : path_starts_with base_canon path = true → I w → I (w_write path text w).1;
  or_create w dir : may_create w dir → I w → I (w_create_dir_all dir w).1;
}.
Context (HI : outside_root).

Lemma keeps_migration_dir db schema table :
  keeps I (λ d, path_starts_with base_canon d = true) (migration_dir_checked base db schema table).
Proof.
  unfold migration_dir_checked.
  do 3 (apply (keeps_bind _ (λ _, True)); [by apply keeps_lift|intros _ _]).
  set (dir := migration_dir base db schema table). cbv zeta.
  apply keeps_at. intros s Hs.
  destruct (or_root HI _ Hs) as [Hex Hc].
  apply ends_in_bind. cbn [get_st]. rewrite Hex.
  apply ends_in_bind. unfold canonicalize_io at 1. rewrite Hc.
  apply ends_in_bind. unfold canonicalize_io at 1.
  destruct (w_canonicalize _ (existing_ancestor _ _ _)) as [e|c] eqn:Ee; [done|].
  destruct (path_starts_with base_canon c) eqn:Hp; [|by split]. cbn [negb].
  assert (I (w_create_dir_all dir (st_world s)).1) as H1
    by (apply (or_create HI); [right; by exists c|done]).
  apply ends_in_bind. unfold fs_call.
  destruct (w_create_dir_all _ _) as [w1 [e|]]; [done|].
  apply ends_in_bind. unfold canonicalize_io. cbn [st_world set_world].
  destruct (w_canonicalize w1 dir) as [e|d]; [done|].
  destruct (path_starts_with base_canon d) eqn:Hd; cbn [negb]; [|by split].
  split; [done|]. by intros ? [= <-].
Qed.

Lemma keeps_write_file dir name content : file_name name →
  path_starts_with base_canon dir = true →
  keeps I (λ _, True) (write_file (path_join dir name) content).
Proof.
  intros [Hne Hs] Hd. apply bool_decide_eq_true in Hd. unfold write_file.
  apply (keeps_bind _ (λ _, True)).
  - destruct (path_parent _) as [up|] eqn:Ep; [|by apply keeps_ret].
    apply keeps_fs_call. intros w. apply (or_create HI). left. unfold path_starts_with.
    rewrite (path_parent_join _ _ _ Hne Hs Ep). by apply bool_decide_eq_true.
  - intros _ _. apply keeps_fs_call. intros w. apply (or_write HI). unfold path_starts_with.
    rewrite path_join_components by done. apply bool_decide_eq_true. by apply prefix_app_r.
Qed.

Lemma keeps_ensure_object cfg ws columns commit obj : cfg_sql_base cfg = base →
  keeps I (λ _, True) (ensure_object cfg ws columns commit obj).
Proof.
  intros Hb. unfold ensure_object. rewrite Hb. cbv zeta.
  destruct (negb _); [by apply keeps_ret|]. destruct (String.eqb _ _); [by apply keeps_ret|].
  eapply keeps_bind; [apply keeps_migration_dir|]. intros dir Hd. cbv beta in Hd.
  eapply keeps_bind; [apply keeps_get|]. intros s _. destruct (has_non_scaffold_sql _ _); [by apply keeps_ret|].
  apply (keeps_bind _ (λ nc, file_name nc.1)).
  { apply keeps_lift. intros [n c] ?. by eapply pick_content_name. }
  intros [n c] Hn. cbn [fst] in Hn. destruct (w_exists _ _); [by apply keeps_ret|].
  apply (keeps_bind _ (λ _, True)); [by apply keeps_write_file|]. intros _ _. by apply keeps_ret.
Qed.

End keeps.

(** ** Facts: what the generated files are *)

Section generated.
Context `{HU : Unicode} `{HUp : Uppercase}.

(** [stmt] is an [ALTER TABLE] of that table that adds that column, as the server's
    lexer reads it; the type ends where the nullability begins. *)
Definition adds_column (schema table : string) (col : ParsedColumn) (stmt : string) : Prop :=
  ∃ after_schema after_table,
    strip_prefix "ALTER TABLE " stmt ≫= lex_bracketed = Some (schema, after_schema) ∧
    strip_prefix "." after_schema ≫= lex_bracketed = Some (table, after_table) ∧
    strip_prefix " ADD " after_table ≫= lex_bracketed =
      Some (pcol_name col, " " +:+ pcol_type_name col +:+ " " +:+ line_ (null_text (pcol_nullable col) +:+ ";")) ∧
    str_all type_char (pcol_type_name col) = true.

Lemma add_column_adds schema table schema_id table_id col_id col :
  bracket_ident schema = Ok schema_id → bracket_ident table = Ok table_id →
  bracket_ident (pcol_name col) = Ok col_id → validate_type_literal (pcol_type_name col) = Ok tt →
  adds_column schema table col
    (add_column_template schema_id table_id col_id (pcol_type_name col) (null_text (pcol_nullable col))).
Proof.
  intros (_ & _ & ->)%bracket_ident_Ok (_ & _ & ->)%bracket_ident_Ok (_ & _ & ->)%bracket_ident_Ok Ht.
  unfold validate_type_literal in Ht. case_match; [done|]. case_match eqn:Hc; [|done]. clear Ht.
  set (tail := " " +:+ pcol_type_name col +:+ " " +:+ line_ (null_text (pcol_nullable col) +:+ ";")).
  set (ident := λ n : string, "[" +:+ replace_char "]" "]]" n +:+ "]").
  exists ("." +:+ ident table +:+ " ADD " +:+ ident (pcol_name col) +:+ tail).
  exists (" ADD " +:+ ident (pcol_name col) +:+ tail). split_and!; [| | |exact Hc].
  - apply (bind_strip_prefix _ _ (ident schema +:+ "." +:+ ident table +:+ " ADD " +:+ ident (pcol_name col) +:+ tail)).
    + unfold add_column_template, tail, ident, line_. by rewrite !str_app_assoc.
    + by apply lex_bracketed_ident.
  - eapply bind_strip_prefix; [done|]. by apply lex_bracketed_ident.
  - eapply bind_strip_prefix; [done|]. by apply lex_bracketed_ident.
Qed.

Lemma auto_add_stmts schema table schema_id table_id added :
  bracket_ident schema = Ok schema_id → bracket_ident table = Ok table_id → ∀ b sql,
  foldM (add_column_sql schema_id table_id) b added = Ok sql →
  ∃ stmts, sql = b +:+ str_join "" stmts ∧ Forall2 (adds_column schema table) added stmts.
Proof.
  intros Hs Ht. induction added as [|col added IH]; intros b sql; cbn [foldM].
  - intros [= <-]. exists []. split; [by rewrite str_app_nil_r|constructor].
  - intros (b' & Hb & H)%outcome_bind_Ok. apply IH in H as (stmts & -> & Hf).
    unfold add_column_sql in Hb. apply outcome_bind_Ok in Hb as ([] & _ & Hb).
    apply outcome_bind_Ok in Hb as ([] & Hl & Hb). apply outcome_bind_Ok in Hb as (cid & Hc & Hb).
    injection Hb as <-. eexists (_ :: stmts). split.
    + rewrite str_app_assoc. f_equal. destruct stmts; cbn [str_join]; [by rewrite str_app_nil_r|done].
    + constructor; [by eapply add_column_adds|done].
Qed.

End generated.

Section scanned.
Context `{HU : Unicode} `{HUp : Uppercase}.

Lemma split_once_app c a b : has_char c a = false → split_once c (a +:+ String c b) = Some (a, b).
Proof.
  induction a as [|x a IH]; cbn; [by rewrite decide_True|].
  rewrite has_char_cons. intros [Hx%bool_decide_eq_false Ha]%orb_false_iff.
  rewrite decide_False by congruence. by rewrite IH.
Qed.

Definition commit_hash (commit : string) : Prop :=
  7 ≤ String.length commit ∧ str_all is_ascii_hexdigit commit = true.

Lemma strip_sql_ext_app a : strip_sql_ext (a +:+ ".sql") = a.
Proof.
  unfold strip_sql_ext. rewrite str_length_app. cbn [String.length].
  replace (String.length a + 4 - 4) with (String.length a) by lia.
  rewrite str_drop_app, str_take_app, (proj2 (Nat.leb_le _ _)) by lia. cbn [andb].
  unfold is_char_boundary. by rewrite str_drop_app.
Qed.

Lemma generated_name_parses commit slug : commit_hash commit → slug ≠ "" →
  parse_filename ("001_" +:+ commit +:+ "_" +:+ slug +:+ ".sql") = Some "001".
Proof.
  intros [Hl Hh] Hs. unfold parse_filename.
  replace ("001_" +:+ commit +:+ "_" +:+ slug +:+ ".sql")
    with (("001" +:+ String "_" (commit +:+ String "_" slug)) +:+ ".sql")
    by (cbn; by rewrite !str_app_assoc).
  rewrite strip_sql_ext_app.
  rewrite (proj2 (Nat.eqb_neq _ _)) by (rewrite !str_length_app; cbn; lia).
  rewrite split_once_app by done. cbn [mbind option_bind].
  rewrite split_once_app by (by apply (has_char_all _ _ _ Hh)). cbn [mbind option_bind].
  rewrite Hh, (proj2 (Nat.ltb_ge _ _)) by done. apply String.eqb_neq in Hs as ->. done.
Qed.

Lemma first_line_mark l rest : has_char LF l = false →
  is_marked (line_ l +:+ rest) =
  starts_with SCAFFOLD_MARK (trim_end_matches (String "013"%char "") (if valid_utf8 l then l else "")).
Proof.
  intros Hl. unfold is_marked, line_. rewrite str_app_assoc.
  change (String LF "" +:+ rest) with (String LF rest). by rewrite split_on_app.
Qed.

Lemma trim_end_prefix p s : ∃ u, s = trim_end_matches p s +:+ u.
Proof.
  unfold trim_end_matches. generalize (String.length s) as fuel. intros fuel. revert s.
  induction fuel as [|fuel IH]; intros s; cbn; [exists ""; by rewrite str_app_nil_r|].
  destruct (strip_suffix p s) as [s'|] eqn:E; [|exists ""; by rewrite str_app_nil_r].
  apply strip_suffix_Some in E as ->. destruct (IH s') as [u Hu]. exists (u +:+ p).
  by rewrite <- str_app_assoc, <- Hu.
Qed.

Lemma split_on_head c a s : has_char c a = false →
  head (split_on c (a +:+ s)) = Some (a +:+ default "" (head (split_on c s))).
Proof.
  induction a as [|x a IH]; intros Ha.
  - change ("" +:+ s) with s. pose proof (split_on_nonnil c s) as Hn. by destruct (split_on c s).
  - rewrite has_char_cons in Ha. apply orb_false_iff in Ha as [Hx%bool_decide_eq_false Ha].
    cbn. rewrite decide_False by congruence. specialize (IH Ha).
    destruct (split_on c (a +:+ s)); [done|]. by injection IH as ->.
Qed.

Lemma not_marked rest : is_marked ("-- A" +:+ rest) = false.
Proof.
  unfold is_marked.
  rewrite split_on_head by done. cbn [from_option id].
  generalize (default "" (head (split_on LF rest))) as r. intros r.
  destruct (valid_utf8 _); [|done].
  destruct (trim_end_prefix (String "013"%char "") ("-- A" +:+ r)) as [u Hu].
  destruct (starts_with _ _) eqn:E; [|done]. apply starts_with_spec in E as [v Ev].
  rewrite Ev in Hu. done.
Qed.

(** What scaffolding leaves behind is what the next scan makes of it: for a
    commit hash both file names are those of migration 001 of the table; the
    fallback carries the mark, so the scan does not run it and the table stays
    blocked; an automatic migration does not carry it, so the next [migrate]
    runs it.  The two tests for the mark agree on every file. *)
Theorem generated_files_scan obj text cols commit taken sql name :
  commit_hash commit →
  try_auto_migration obj text cols commit taken = Ok (Some (sql, name)) →
  let fallback := fallback_scaffold obj cols commit in
  parse_filename name = Some "001" ∧ parse_filename fallback.1 = Some "001" ∧
  is_scaffold sql = false ∧ is_scaffold fallback.2 = true ∧
  (∀ data, is_marked data = is_scaffold data).
Proof.
  intros Hc Ha. cbv zeta.
  assert (∀ data, is_marked data = is_scaffold data) as Hm by done.
  pose proof Ha as (Ht & -> & _ & file_cols & _ & _ & _ & Hs)%auto_name.
  split_and!; [| | | |done].
  - by apply (generated_name_parses commit "auto_add_columns").
  - unfold fallback_scaffold. rewrite Ht. by apply (generated_name_parses commit "describe_change").
  - rewrite <- Hm. unfold auto_add_sql in Hs.
    apply outcome_bind_Ok in Hs as (si & H1 & Hs). apply outcome_bind_Ok in Hs as (ti & H2 & Hs).
    eapply auto_add_stmts in Hs as (stmts & -> & _); [|done..].
    unfold line_. rewrite !str_app_assoc. idtac. apply not_marked.
  - rewrite <- Hm. unfold fallback_scaffold. cbn [snd]. unfold scaffold_content.
    by rewrite first_line_mark.
Qed.
End scanned.

(** ** One blocked table *)

Module ScaffoldSample.
#[local] Existing Instances Concrete.unicode Concrete.fingerprint RefServer.json RefServer.world
  DriverSample.files.

Definition to_ascii_uppercase (c : ascii) : ascii :=
  if is_ascii_lower_alpha c then ascii_of_N (byte_of c - 32) else c.
#[global] Instance uppercase : Uppercase := { to_uppercase := str_map to_ascii_uppercase }.
#[global] Instance no_git : GitTool unit := { git_stdout _ _ := None; git_fetch _ g := g }.
#[global] Instance dirs : Dirs RefServer.Server := {
  w_exists w p := String.eqb p "/src" || bool_decide (is_Some (RefServer.srv_files w !! p));
  w_canonicalize _ p := inr p;
  w_read_dir _ _ := None;
}.

Definition cfg : Config.Config := Config_default <| cfg_sql_base := "/src" |>.
Definition blocked : PlannedObject :=
  mk_PlannedObject "dbo/tables/t" "A/dbo/tables/t.sql" "dbo" "tables" "t" "A" "" [] None zero_digest
    ReprocessChangedBlocked true.
Definition plan : MigrationPlan := MigrationPlan_default <| mp_objects := [blocked] |>.
Definition start : St RefServer.Server := RefServer.start [("/etc/passwd", "root")] [] 0.

Definition intact (w : RefServer.Server) : Prop := RefServer.srv_files w !! "/etc/passwd" = Some "root".

Lemma intact_outside : outside_root "/src" "/src" intact.
Proof.
  split; [done| |by intros w dir _ H].
  intros w path text Hp H. unfold intact in *. cbn. rewrite lookup_insert_ne; [done|].
  intros ->. by vm_compute in Hp.
Qed.


Definition script : string :=
  "CREATE TABLE dbo.t ( id INT NOT NULL, [full name] NVARCHAR(50) NULL, n INT NOT NULL DEFAULT 0 );".
Definition server_columns : list TableColumn := [mk_TableColumn "id" "int" false].
Definition migration : M (option (string * string)) :=
  try_auto_migration blocked script server_columns "abcdef1" (λ _, false).
Definition sql : string :=
  match migration with Ok (Some (sql, _)) => sql | _ => "" end.

Lemma migration_made : migration = Ok (Some (sql, "001_abcdef1_auto_add_columns.sql")).
Proof. by vm_compute. Qed.


Lemma generated_files_scan_witness :
  commit_hash "abcdef1" ∧ is_scaffold sql = false ∧
  is_scaffold (fallback_scaffold blocked server_columns "abcdef1").2 = true.
Proof.
  assert (commit_hash "abcdef1") as Hc by (split; [cbn; lia|reflexivity]).
  pose proof (generated_files_scan blocked script server_columns "abcdef1" (λ _, false) sql
    "001_abcdef1_auto_add_columns.sql" Hc migration_made)
    as (_ & _ & H1 & H2 & _).
  exact (conj Hc (conj H1 H2)).
Defined.

(** *** What the column parser loses

    A default is cut off with everything else after the nullability; a table
    constraint without a name is taken for a column; a column whose name starts
    like a constraint is not seen. *)
Lemma default_is_lost :
  (b ← add_column_sql "[dbo]" "[t]" "" (mk_ParsedColumn "n" "INT" false); Ok b) =
  Ok (line_ "ALTER TABLE [dbo].[t] ADD [n] INT NOT NULL;") ∧
  parse_column_def "N INT NOT NULL DEFAULT 0" = Ok (Some (mk_ParsedColumn "n" "INT" false)).
Proof. split; by vm_compute. Qed.

Lemma constraint_becomes_column :
  parse_table_columns "CREATE TABLE t ( id INT, UNIQUE (id) )" =
  Ok [mk_ParsedColumn "id" "INT" true; mk_ParsedColumn "unique" "(ID)" true].
Proof. by vm_compute. Qed.

Lemma column_taken_for_key : parse_column_def "PRIMARY_PHONE NVARCHAR(9)" = Ok None.
Proof. by vm_compute. Qed.
End ScaffoldSample.
