(* ===== verification/Lock.v ===== *)
(** * The advisory lock ([lock/mod.rs])

    A session lock of SQL Server, taken before a mutating command plans and given
    back when its body has returned. *)

From S2P Require Export Scaffold.
From Stdlib Require Import Ascii.
From Stdlib Require String.

Definition i32_max : Z := 2147483647.
(** [as i32]. *)
Definition as_i32 (z : Z) : Z := ((z + 2147483648) `mod` 4294967296 - 2147483648)%Z.

Definition lock_timeout_millis_i32 (timeout : N) : Z :=
  as_i32 (Z.min (Z.of_N (timeout / NS_PER_MS)) i32_max).

Definition classify_applock (code : Z) : M unit :=
  if (0 <=? code)%Z then Ok tt
  else if (code =? -1)%Z then Err LockTimeout
  else if (code =? -2)%Z then Err (Sql "advisory lock request was canceled (sp_getapplock -2)")
  else if (code =? -3)%Z then Err (Sql "advisory lock deadlock victim (sp_getapplock -3)")
  else Err (Sql ("advisory lock acquisition failed (sp_getapplock " +:+ pretty code +:+ ")")).

Section lock.
Context {W : Type} `{HW : World W}.

(** The lock's reply code; no code at all counts as a timeout. *)
Definition applock_code (rows : list RowData) : Z := default (-1)%Z (head rows ≫= λ r, get_i32 r 0).

Definition acquire (cfg : Config.Config) : IO W unit :=
  let ms := lock_timeout_millis_i32 (cfg_lock_timeout cfg) in
  rows ← query LOCK_ACQUIRE [pretty ms];
  lift (classify_applock (applock_code rows)).

Definition release : IO W unit := query LOCK_RELEASE [];; mret tt.

Definition release_after_body {T} (body_result : Error + T) : IO W T :=
  attempt release;;
  lift (match body_result with inr t => Ok t | inl e => Err e end).

(** The bracket of [run_locked] around its body. *)
Definition locked {T} (cfg : Config.Config) (body : IO W T) : IO W T :=
  acquire cfg;;
  r ← attempt body;
  release_after_body r.
End lock.

(** C40. The timeout handed to the server is a non-negative 32-bit number: the
    configured time in whole milliseconds, or the largest such number when that
    does not fit. *)
Theorem lock_timeout_millis_bounds timeout :
  let ms := lock_timeout_millis_i32 timeout in
  (0 <= ms <= i32_max)%Z ∧ (ms * 1000000 <= Z.of_N timeout)%Z ∧
  (Z.of_N timeout < (ms + 1) * 1000000 ∨ ms = i32_max)%Z.
Proof.
  cbv zeta. unfold lock_timeout_millis_i32, as_i32, i32_max, NS_PER_MS.
  rewrite N2Z.inj_div. change (Z.of_N 1000000) with 1000000%Z.
  set (t := Z.of_N timeout). assert (0 <= t)%Z by (unfold t; lia).
  pose proof (Z.mul_div_le t 1000000 ltac:(lia)). pose proof (Z.mul_succ_div_gt t 1000000 ltac:(lia)).
  assert (0 <= t / 1000000)%Z by (apply Z.div_pos; lia).
  generalize dependent (t / 1000000)%Z. intros q ???.
  rewrite Z.mod_small by lia. lia.
Qed.

Lemma classify_no_panic code : classify_applock code ≠ Panic.
Proof. unfold classify_applock. by repeat case_match. Qed.

(** The server's code decides: every non-negative code is a grant, and of the
    refusals only [-1], or a reply without a code, is reported as a timeout with
    its own exit code; every other refusal is an SQL failure. *)
Theorem classify_applock_spec code :
  (classify_applock code = Ok tt ↔ (0 <= code)%Z) ∧
  (classify_applock code = Err LockTimeout ↔ code = (-1)%Z) ∧
  (∀ e, classify_applock code = Err e → e ≠ LockTimeout → exit_code e = EXIT_SQL) ∧
  classify_applock code ≠ Panic ∧ applock_code [] = (-1)%Z.
Proof.
  unfold classify_applock.
  destruct (Z.leb_spec 0 code); [split_and!; try done; split; intros; try done; lia|].
  destruct (Z.eqb_spec code (-1)); [split_and!; [split; intros; [done|lia]|done|congruence|done|done]|].
  destruct (Z.eqb_spec code (-2)), (Z.eqb_spec code (-3));
    (split_and!; [split; intros; try done; lia|split; intros; try done; lia| |done|done]);
    by intros ? [= <-].
Qed.

Section bracket.
Context {W : Type} `{HW : World W} `{HJ : HistoryJson}.

Definition lock_request (cfg : Config.Config) : request :=
  (LOCK_ACQUIRE, [pretty (lock_timeout_millis_i32 (cfg_lock_timeout cfg))]).

Lemma acquire_step cfg s :
  acquire (W:=W) cfg s =
  if st_client s then
    let '(w', o) := w_sql (st_timeout s) LOCK_ACQUIRE (lock_request cfg).2 (st_world s) in
    (rows ← first_set <$> reply_result "query" (st_timeout s) o; classify_applock (applock_code rows),
     sent (lock_request cfg) w' (match o with None => true | _ => false end) count_query s)
  else (Err (Sql UNAVAILABLE), s).
Proof.
  unfold acquire. unfold mbind at 1, io_bind. rewrite query_step. destruct (st_client s); [|done].
  by destruct (w_sql _ _ _ _) as [w' [[e|rows]|]].
Qed.

Lemma release_spec s : ∃ r s', release (W:=W) s = (r, s') ∧ r ≠ Panic ∧
  st_log s' = st_log s ++ (if st_client s then [(LOCK_RELEASE, [])] else []).
Proof.
  unfold release, mbind, io_bind. rewrite query_step.
  destruct (st_client s); [|eexists _, _; split; [done|]; by rewrite app_nil_r].
  destruct (w_sql _ _ _ _) as [w' [[e|rows]|]]; by eexists _, _.
Qed.

Lemma locked_Ok {T} cfg (body : IO W T) s x s' :
  locked cfg body s = (Ok x, s') → ∃ s1 s2, acquire cfg s = (Ok tt, s1) ∧ body s1 = (Ok x, s2).
Proof.
  unfold locked. intros ([] & s1 & Ha & H)%io_bind_Ok. exists s1. revert H.
  unfold mbind, io_bind, attempt, release_after_body, mbind, io_bind, attempt, lift.
  destruct (body s1) as [[y|e|] s2]; [| |done];
    destruct (release_spec s2) as (r & s3 & -> & Hr & _); destruct r; try done.
  - intros [= <- _]. by exists s2.
  - intros [= <- _]. by exists s2.
Qed.

(** C14. The lock brackets the body.  The first statement asks for the lock; when it
    is not granted nothing else is sent and the refusal is the result.  When it
    is granted, the body runs, the lock is given back once after it, whether it
    succeeded or failed and as long as the connection is there, and the body's
    own result is returned, whatever the release answers. *)
Theorem locked_spec {T} cfg (body : IO W T) s :
  match acquire cfg s with
  | (Ok tt, s1) =>
      st_log s1 = st_log s ++ [lock_request cfg] ∧
      match body s1 with
      | (Panic, s2) => locked cfg body s = (Panic, s2)
      | (r, s2) => ∃ s3, locked cfg body s = (r, s3) ∧
          st_log s3 = st_log s2 ++ (if st_client s2 then [(LOCK_RELEASE, [])] else [])
      end
  | (Err e, s1) =>
      locked cfg body s = (Err e, s1) ∧
      st_log s1 = st_log s ++ (if st_client s then [lock_request cfg] else [])
  | (Panic, _) => False
  end.
Proof.
  assert (locked cfg body s = match acquire cfg s with
    | (Ok _, s1) => (attempt body ≫= release_after_body) s1
    | (Err e, s1) => (Err e, s1)
    | (Panic, s1) => (Panic, s1) end) as -> by done.
  pose proof (acquire_step cfg s) as Ea. destruct (acquire cfg s) as [r s1].
  assert (r ≠ Panic ∧ st_log s1 = st_log s ++ (if st_client s then [lock_request cfg] else []) ∧
          (st_client s = false → r ≠ Ok tt)) as (Hr & Hl & Hc).
  { destruct (st_client s); [|injection Ea as -> ->; by rewrite app_nil_r].
    destruct (w_sql _ _ _ _) as [w' [[e|rows]|]]; injection Ea as -> ->; try done.
    split; [apply classify_no_panic|done]. }
  destruct r as [[]|e|]; [|done|done].
  destruct (st_client s); [|by destruct (Hc eq_refl)]. split; [done|].
  unfold mbind at 1, io_bind, attempt, release_after_body, mbind, io_bind, attempt, lift.
  destruct (body s1) as [[t|e|] s2]; [| |done];
    destruct (release_spec s2) as (r & s3 & -> & Hr' & Hl'); exists s3; by destruct r.
Qed.
End bracket.
