(* ===== verification/Engine.v ===== *)
(** * Running a command ([engine/], [config/ensure_db.rs])

    A command runs over the catalog databases of the source tree: it makes sure
    they exist, scans the tree, and for each database connects, plans and, when it
    mutates, applies, the last two under the advisory lock. *)

From S2P Require Export Lock Diff Apply.
From Stdlib Require Import Ascii.
From Stdlib Require String.

(** ** Commands ([engine/run/types.rs], [engine/run/mod.rs]) *)

Inductive Command : Type := Plan | Migrate | Validate | Baseline | RepairChecksum | Version.
#[global] Instance Command_eq_dec : EqDecision Command.
Proof. solve_decision. Defined.

Definition command_label (cmd : Command) : string :=
  match cmd with
  | Plan => "plan"
  | Migrate => "migrate"
  | Validate => "validate"
  | Baseline => "baseline"
  | RepairChecksum => "repair-checksum"
  | Version => "version"
  end.

Definition command_mutates (cmd : Command) : bool :=
  match cmd with Migrate | Baseline | RepairChecksum => true | _ => false end.

Definition missing_databases_error (dbs : list string) : Error :=
  Errors.Config ("catalog database(s) named by the repository do not exist on the server: "
                   +:+ str_join ", " dbs).

Record RunOutput := mk_RunOutput {
  ro_exit_code : Z;
  ro_timings : PhaseTimings;
  ro_plan : option MigrationPlan;
}.

(** [engine/runtime.rs]. *)
Definition default_log_filter (log_level : string) : string :=
  let level := if String.eqb (trim log_level) "" then "info" else trim log_level in
  if has_char "=" level || has_char "," level then level
  else "warn,migrator_core=" +:+ level +:+ ",rmig=" +:+ level +:+ ",rmigd=" +:+ level.

(** ** Interfaces *)

(** The chrono crate: a Unix time, if it is in range, and the present, as RFC 3339. *)
Class Chrono (W : Type) := {
  timestamp_to_rfc3339 : Z → option string;
  w_utc_now : W → string;
}.

(** The source tree below a root, the root's canonical path, and the number of
    processors. *)
Class SourceTree (W : Type) := {
  w_tree : W → string → FsNode;
  w_canonical_root : W → string → M string;
  w_parallelism : W → nat;
}.

(** The durations the plan phase measures inside. *)
Record PlanDbMs := mk_PlanDbMs {
  ms_ensure : Z;
  ms_checksums : Z;
  ms_inspect : Z;
  ms_parallel_wall : Z;
  ms_query : Z;
  ms_checksums_batch : Z;
  ms_catalog : Z;
  ms_catalog_sql : Z;
  ms_intern_catalog : Z;
}.

(** ** Catalog databases on the server ([config/ensure_db.rs]) *)

(** [sql/apply/create_database.sql] with its slots filled. *)
Definition create_database_template (literal bracket : string) : string :=
  "IF DB_ID(N'" +:+ literal +:+ "') IS NULL CREATE DATABASE " +:+ bracket.

Section ensure_db.
Context {W : Type} `{HW : World W} `{HN : !Net W} `{HCl : Clock W} `{HU : Unicode}.

Definition is_missing_db_error (msg : string) : bool :=
  contains_str "cannot open database" (to_lowercase msg).

Definition target_database_exists (cfg : Config.Config) (db : string) : IO W bool :=
  r ← attempt (connect (cfg <| cfg_database := db |>));
  match r with
  | inr _ => mret true
  | inl err => if is_missing_db_error (error_fmt err) then mret false else lift (Err err)
  end.

Definition connect_master (cfg : Config.Config) : IO W RawClient :=
  connect (cfg <| cfg_database := "master" |>).

Definition create_database_sql (db : string) : M string :=
  bracket ← bracket_ident db;
  Ok (create_database_template (replace_char "'" "''" db) bracket).

Definition with_create_database_timeout (timeout : N) (db : string)
    (step : IO W (option (Error + unit))) : IO W unit :=
  r ← step;
  match r with
  | Some (inr tt) => mret tt
  | Some (inl e) => lift (Err e)
  | None =>
      if (timeout =? 0)%N then lift Panic
      else lift (Err (Sql ("CREATE DATABASE " +:+ db +:+ " timed out after " +:+ duration_debug timeout)))
  end.

Definition create_database_if_missing (conn : RawClient) (cfg : Config.Config) (db : string)
    : IO W unit :=
  sql ← lift (create_database_sql db);
  let timeout := cfg_command_timeout cfg in
  with_create_database_timeout timeout db (raw_exec timeout conn sql).

Definition ensure_database_from_master (cfg : Config.Config) (db : string)
    (master_conn : option RawClient) : IO W (option RawClient) :=
  conn ← match master_conn with Some conn => mret conn | None => connect_master cfg end;
  create_database_if_missing conn cfg db;;
  mret (Some conn).

Fixpoint ensure_databases (cfg : Config.Config) (names : list string)
    (master_conn : option RawClient) : IO W unit :=
  match names with
  | [] => mret tt
  | db :: names =>
      present ← target_database_exists cfg db;
      if present : bool then ensure_databases cfg names master_conn
      else
        master_conn ← ensure_database_from_master cfg db master_conn;
        ensure_databases cfg names master_conn
  end.

(** Every name is checked before any connection is made. *)
Definition check_names (names : list string) : M unit :=
  foldM (λ _ db, bracket_ident db;; Ok tt) tt names.
Definition ensure_catalog_databases_exist (cfg : Config.Config) (names : list string) : IO W unit :=
  lift (check_names names);;
  ensure_databases cfg names None.
End ensure_db.

Section engine.
Context {W : Type} `{HW : World W} `{HN : !Net W} `{HCl : Clock W} `{HFi : Files W}.
Context `{HDi : Dirs W} `{HCh : Chrono W} `{HST : SourceTree W}.
Context `{HU : Unicode} `{HUp : Uppercase} `{HF : Fingerprint} `{HM : MapOrder} `{HX : Hex}.
Context `{HS : Sha256} `{HJ : HistoryJson} `{HJS : SerdeJson} `{HC : CacheFormats}.
Context `{HSJ : SessionJson} `{HTR : TableRefsJson}.
Context {G : Type} `{HG : GitTool G} `{HHF : HostFiles} (g : G).
Context (env : string → EnvVar) (published : option string).
Context (plan_db_ms : St W → St W → PlanDbMs).

Definition elapsed_ms (since : N) : IO W Z := t ← now; mret (dur_ms (t - since)).

(** [engine/run/planned_at.rs]. *)
Definition resolved_planned_at : IO W string := λ s,
  let current := w_utc_now (st_world s) in
  (Ok (match env_text (env "RMIG_PLANNED_AT") with
       | Some (String c v) => String c v
       | _ =>
           match env_text (env "SOURCE_DATE_EPOCH") with
           | Some epoch =>
               match parse_i64 (trim epoch) with
               | Some secs => default current (timestamp_to_rfc3339 secs)
               | None => current
               end
           | None => current
           end
       end), s).

(** ** Planning ([engine/run/plan_phase.rs]) *)

Definition record_plan_db (ms : PlanDbMs) (db : PlanDbResult) (t : PhaseTimings) : PhaseTimings :=
  let trace := pr_trace db in
  finish_audit_ms (t
    <| pt_ensure_ms := ms_ensure ms |>
    <| pt_checksums_ms := ms_checksums ms |>
    <| pt_inspect_ms := ms_inspect ms |>
    <| pt_parallel_wall_ms :=
         (if (0 <? ms_parallel_wall ms)%Z then ms_parallel_wall ms
          else Z.max (ms_ensure ms) (as_i64 (ms_checksums ms + ms_inspect ms))) |>
    <| pt_l1_cache_hit := pr_l1_hit db |>
    <| pt_plan_db_path := path_label trace |>
    <| pt_plan_db_query_calls := Z.of_N (tr_query_calls trace) |>
    <| pt_plan_db_query_ms := ms_query ms |>
    <| pt_plan_db_bootstrap := tr_bootstrap trace |>
    <| pt_plan_db_catalog_queried := tr_catalog_queried trace |>
    <| pt_plan_db_checksums_batch_ms := ms_checksums_batch ms |>
    <| pt_plan_db_catalog_ms := ms_catalog ms |>
    <| pt_plan_db_catalog_sql_ms := ms_catalog_sql ms |>
    <| pt_plan_db_intern_catalog_ms := ms_intern_catalog ms |>
    <| pt_plan_db_history_empty := tr_history_empty trace |>
    <| pt_plan_db_checksums_skipped := tr_checksums_skipped trace |>
    <| pt_plan_db_round_trips := tr_round_trips trace |>).

Definition plan_phase (cmd : Command) (cfg : Config.Config) (ws : Workspace) (t : PhaseTimings)
    : IO W (MigrationPlan * Workspace * PhaseTimings) :=
  s0 ← get_st;
  db ← run_plan_db_phase env cfg (resolve_changed_paths env g (cfg_sql_root cfg)) ws
         (command_mutates cmd) (bool_decide (cmd = RepairChecksum));
  s1 ← get_st;
  warm_store env (cfg_fingerprint cfg) (ws_layout_digest ws) (pr_checksums db) (pr_catalog db);;
  let t := record_plan_db (plan_db_ms s0 s1) db t in
  t_diff ← now;
  '(ws, plan) ← lift (compute_diff ws (pr_catalog db) (pr_checksums db));
  diff_ms ← elapsed_ms t_diff;
  planned_at ← resolved_planned_at;
  let plan := plan <| mp_command := command_label cmd |> <| mp_planned_at := planned_at |> in
  plan ← lift (if uses_slim_rows plan then ensure_objects_materialized ws plan else Ok plan);
  mret (plan, ws, t <| pt_diff_ms := diff_ms |>).

(** ** The gates before applying ([adopt_gate.rs], [filter.rs]) *)

Definition is_adopt (o : PlannedObject) : bool := bool_decide (po_planned_action o = AdoptExisting).

(** The plan as the gate leaves it, and whether it lets the plan pass. *)
Definition ensure_adopt_allowed (cfg : Config.Config) (ws : Workspace) (plan : MigrationPlan)
    : M (MigrationPlan * (Error + unit)) :=
  if cfg_allow_adopt cfg then Ok (plan, inr tt)
  else
    plan ← ensure_objects_materialized ws plan;
    Ok (plan, if existsb is_adopt (mp_objects plan) then inl PlanBlocked else inr tt).

(** The history is read on the raw client; when its bound runs out the client stays. *)
Definition load_all_applied_within (timeout : N) : IO W (gmap string string) :=
  if (timeout =? 0)%N then load_all_applied
  else
    r ← send timeout LOAD_ALL_MIGRATIONS [];
    match r with
    | Some (inr sets) => mret (applied_from_rows (first_set sets))
    | Some (inl e) => lift (Err e)
    | None => lift (Err (Sql ("history load timed out after " +:+ duration_debug timeout)))
    end.

Definition filter_applied (ws : Workspace) (plan : MigrationPlan) (timeout : N) : IO W MigrationPlan :=
  if negb (existsb object_needs_filter (mp_objects plan)) then mret plan
  else
    applied ← load_all_applied_within timeout;
    '(plan, tampered) ← lift (filter_applied_migrations_on_plan ws applied plan);
    if bool_decide (tampered = []) then mret plan
    else lift (Err (InvalidInput ("applied transition script(s) modified after apply: "
      +:+ str_join ", " tampered
      +:+ "; restore the original contents or add a new transition"))).

(** ** Applying ([engine/apply_run.rs]) *)

(** The plan and the timings as they stand, and how the step ended. *)
Abbreviation applied_plan := (MigrationPlan * PhaseTimings * (Error + unit))%type (only parsing).

Definition run_executor (cfg : Config.Config) (ws : Workspace) (plan : MigrationPlan)
    (t : PhaseTimings) : IO W applied_plan :=
  t0 ← now;
  '(result, plan) ← execute_plan cfg ws plan;
  ms ← elapsed_ms t0;
  (if Nat.eqb (ar_failed result) 0 && Nat.ltb 0 (ar_applied result) then
     warm_clear;;
     attempt (save_workspace_snapshot (ws_layout_digest ws) ws (cfg_catalog_cache cfg));; mret tt
   else mret tt);;
  mret (plan, t <| pt_apply_ms := ms |>, inr tt).

Definition apply_migrate (cfg : Config.Config) (ws : Workspace) (plan : MigrationPlan)
    (t : PhaseTimings) : IO W applied_plan :=
  if mp_blocked plan then
    r ← attempt (handle_blocked_migrate g cfg ws plan);
    mret (plan, t, r)
  else
    '(plan, gate) ← lift (ensure_adopt_allowed cfg ws plan);
    match gate with
    | inl e => mret (plan, t, inl e)
    | inr tt =>
        r ← attempt (filtered ← filter_applied ws plan (cfg_command_timeout cfg);
                     run_executor cfg ws filtered t);
        mret (match r with inr done_ => done_ | inl e => (plan, t, inl e) end)
    end.

Definition apply_metadata (cfg : Config.Config) (ws : Workspace) (plan : MigrationPlan)
    (mode : MetadataMode) (t : PhaseTimings) : IO W applied_plan :=
  t0 ← now;
  '(_, plan) ← execute_metadata_plan cfg ws plan mode;
  ms ← elapsed_ms t0;
  mret (plan, t <| pt_apply_ms := ms |>, inr tt).

Definition apply_plan (cmd : Command) (cfg : Config.Config) (ws : Workspace) (plan : MigrationPlan)
    (t : PhaseTimings) : IO W applied_plan :=
  match cmd with
  | Migrate => apply_migrate cfg ws plan t
  | Baseline => apply_metadata cfg ws plan Apply.Baseline t
  | RepairChecksum => apply_metadata cfg ws plan Apply.RepairChecksum t
  | Plan | Validate | Version => mret (plan, t, inr tt)
  end.

Definition locked_body (cmd : Command) (cfg : Config.Config) (ws : Workspace) (t : PhaseTimings)
    : IO W (MigrationPlan * Z * PhaseTimings) :=
  '(plan, ws, t) ← plan_phase cmd cfg ws t;
  '(plan, t, r) ← apply_plan cmd cfg ws plan t;
  match r with
  | inl PlanBlocked => if bool_decide (cmd = Migrate) then mret (plan, EXIT_PLAN_BLOCKED, t)
                       else lift (Err PlanBlocked)
  | inl e => lift (Err e)
  | inr tt => mret (plan, 0%Z, t)
  end.

Definition run_locked (cmd : Command) (cfg : Config.Config) (ws : Workspace) (t : PhaseTimings)
    : IO W (MigrationPlan * Z * PhaseTimings) :=
  locked cfg (locked_body cmd cfg ws t).

(** ** One database ([engine/run/database.rs]) *)

Definition plan_read_only (cmd : Command) (cfg : Config.Config) (ws : Workspace) (t : PhaseTimings)
    : IO W (MigrationPlan * Z * PhaseTimings) :=
  '(plan, _, t) ← plan_phase cmd cfg ws t;
  mret (plan, if bool_decide (cmd = Validate) && mp_blocked plan then EXIT_PLAN_BLOCKED else 0%Z, t).

Definition run_command_for_database (cmd : Command) (cfg : Config.Config) (ws : Workspace)
    (scan_elapsed cli_start : N) (multi_db : bool) : IO W RunOutput :=
  t_conn ← now;
  client ← (if multi_db then Direct <$> connect cfg
            else connect_session_or_direct env published cfg);
  connect_ms ← elapsed_ms t_conn;
  timing_conn client (cfg_command_timeout cfg);;
  let t := PhaseTimings_default <| pt_scan_ms := dur_ms scan_elapsed |>
             <| pt_connect_ms := connect_ms |> in
  '(plan, exit_code, t) ← (if command_mutates cmd then run_locked cmd cfg ws t
                           else plan_read_only cmd cfg ws t);
  wall ← elapsed_ms cli_start;
  mret (mk_RunOutput exit_code
    (t <| pt_plan_wall_ms := wall |>
       <| pt_engine_ms := i64_saturating_sub wall (pt_connect_ms t) |>
       <| pt_cli_wall_ms := wall |>) (Some plan)).

(** ** All databases ([engine/run/mod.rs]) *)

Record RunState := mk_RunState {
  rst_merged : PhaseTimings;
  rst_exit_code : Z;
  rst_last_plan : option MigrationPlan;
  rst_missing_dbs : list string;
}.

Definition merge_output (st : RunState) (out : RunOutput) : RunState :=
  mk_RunState (merge_timings (rst_merged st) (ro_timings out))
    (Z.max (rst_exit_code st) (ro_exit_code out))
    (match ro_plan out with
     | Some plan => merge_plan (rst_last_plan st) plan
     | None => rst_last_plan st
     end) (rst_missing_dbs st).

Definition run_database (cmd : Command) (cfg : Config.Config) (ws_full : Workspace)
    (scan_elapsed cli_start : N) (multi : bool) (st : RunState) (db : string) : IO W RunState :=
  let cfg_db := cfg <| cfg_database := db |> in
  ws ← lift (for_catalog_database ws_full db);
  if Nat.eqb (object_count ws) 0 && multi then mret st
  else
    present ← (if multi && negb (command_mutates cmd) then target_database_exists cfg db
               else mret true);
    if negb present then
      mret (mk_RunState (rst_merged st) (rst_exit_code st) (rst_last_plan st)
              (rst_missing_dbs st ++ [db]))
    else
      r ← attempt (run_command_for_database cmd cfg_db ws scan_elapsed cli_start multi);
      match r with
      | inr out => mret (merge_output st out)
      | inl e =>
          if multi then
            mret (mk_RunState (rst_merged st) (Z.max (rst_exit_code st) (exit_code e))
                    (rst_last_plan st) (rst_missing_dbs st))
          else lift (Err e)
      end.

Fixpoint run_databases (cmd : Command) (cfg : Config.Config) (ws_full : Workspace)
    (scan_elapsed cli_start : N) (multi : bool) (st : RunState) (dbs : list string) : IO W RunState :=
  match dbs with
  | [] => mret st
  | db :: dbs =>
      st ← run_database cmd cfg ws_full scan_elapsed cli_start multi st db;
      run_databases cmd cfg ws_full scan_elapsed cli_start multi st dbs
  end.

(** [scan::populate] on the files of the world. *)
Definition read_source (w : W) (path : string) : M string :=
  match w_read_file w path with inr data => Ok data | inl e => Err e end.
Definition populate_ws (cfg : Config.Config) : IO W Workspace := λ s,
  let w := st_world s in
  let root := cfg_sql_root cfg in
  (Scan.populate (read_source w) (w_parallelism w) (preload g root) (cfg_skip_git cfg)
     Workspace_default (w_canonical_root w root) (w_tree w root), s).

Definition catalog_databases (cfg : Config.Config) : IO W (list string) := λ s,
  (if negb (String.eqb (cfg_database cfg) "") then Ok [cfg_database cfg]
   else discover_catalog_databases (cfg_sql_root cfg) (w_tree (st_world s) (cfg_sql_root cfg)), s).

Definition run_command (cmd : Command) (cfg : Config.Config) : IO W RunOutput :=
  if bool_decide (cmd = Version) then mret (mk_RunOutput 0 PhaseTimings_default None)
  else
    cli_start ← now;
    databases ← catalog_databases cfg;
    (if command_mutates cmd then ensure_catalog_databases_exist cfg databases else mret tt);;
    t_scan ← now;
    ws_full ← populate_ws cfg;
    t_scanned ← now;
    let scan_elapsed := (t_scanned - t_scan)%N in
    let merged := PhaseTimings_default <| pt_scan_ms := dur_ms scan_elapsed |>
                    <| pt_l1_cache_hit := true |> in
    st ← run_databases cmd cfg ws_full scan_elapsed cli_start (Nat.ltb 1 (length databases))
           (mk_RunState merged 0 None []) databases;
    if negb (bool_decide (rst_missing_dbs st = [])) then
      lift (Err (missing_databases_error (rst_missing_dbs st)))
    else
      wall ← elapsed_ms cli_start;
      let merged := rst_merged st in
      mret (mk_RunOutput (rst_exit_code st)
        (merged <| pt_plan_wall_ms := wall |>
                <| pt_engine_ms := i64_saturating_sub wall (pt_connect_ms merged) |>
                <| pt_cli_wall_ms := wall |>) (rst_last_plan st)).
End engine.

(** ** What a read-only command sends *)

(** The plan's reads, the set-up of sessions, and a switch to a database. *)
Definition read_only_stmt `{Unicode} (r : request) : Prop :=
  plan_read r ∨ ∃ db, connection_text db r.

Lemma emits_fun {W A} P (f : St W → M A) : emits P (λ s, (f s, s)).
Proof. by apply emits_pure. Qed.

Section read_only.
Context {W : Type} `{HW : World W} `{HN : !Net W} `{HCl : Clock W} `{HFi : Files W}.
Context `{HDi : Dirs W} `{HCh : Chrono W} `{HST : SourceTree W}.
Context `{HU : Unicode} `{HUp : Uppercase} `{HF : Fingerprint} `{HM : MapOrder} `{HX : Hex}.
Context `{HS : Sha256} `{HJ : HistoryJson} `{HJS : SerdeJson} `{HC : CacheFormats}.
Context `{HSJ : SessionJson} `{HTR : TableRefsJson}.
Context {G : Type} `{HG : GitTool G} `{HHF : HostFiles} (g : G).
Context (env : string → EnvVar) (published : option string).
Context (plan_db_ms : St W → St W → PlanDbMs).

Lemma read_only_connect cfg x : connection_text (cfg_database cfg) x → read_only_stmt x.
Proof. intros. right. eauto. Qed.

Lemma emits_elapsed P since : emits (W:=W) P (elapsed_ms since).
Proof. unfold elapsed_ms. repeat emits_step. Qed.
Lemma emits_planned_at P : emits (W:=W) P (resolved_planned_at env).
Proof. by apply emits_fun. Qed.
Lemma emits_warm_store P fp d c st : emits (W:=W) P (warm_store env fp d c st).
Proof. unfold warm_store. repeat emits_step. Qed.
#[local] Hint Resolve emits_elapsed emits_planned_at emits_warm_store : emits.

Lemma emits_plan_phase cmd cfg ws t : command_mutates cmd = false →
  emits (W:=W) read_only_stmt (plan_phase g env plan_db_ms cmd cfg ws t).
Proof.
  intros Hc. unfold plan_phase. rewrite Hc.
  apply emits_bind; [apply emits_get|]. intros s0. apply emits_bind.
  { apply (emits_impl plan_read); [by left|apply emits_read_only_plan]. }
  intros db. cbv zeta. repeat emits_step.
Qed.
#[local] Hint Resolve emits_plan_phase : emits.

Lemma emits_read_only_database cmd cfg ws scan start multi : command_mutates cmd = false →
  emits (W:=W) read_only_stmt
    (run_command_for_database g env published plan_db_ms cmd cfg ws scan start multi).
Proof.
  intros Hc. unfold run_command_for_database, plan_read_only, timing_conn. rewrite Hc. cbv zeta.
  apply emits_bind; [apply emits_now|]. intros t. apply emits_bind.
  { destruct multi.
    - apply emits_fmap, emits_connect. right. exists "". by left.
    - apply emits_connect_session, read_only_connect. }
  intros client. repeat emits_step.
Qed.

Lemma emits_target_exists cfg db : emits (W:=W) read_only_stmt (target_database_exists cfg db).
Proof.
  unfold target_database_exists. apply emits_bind; [|intros; repeat emits_step].
  apply emits_attempt, emits_connect. right. exists "". by left.
Qed.

Lemma emits_read_only_databases cmd cfg ws scan start multi dbs : command_mutates cmd = false →
  ∀ st, emits (W:=W) read_only_stmt
          (run_databases g env published plan_db_ms cmd cfg ws scan start multi st dbs).
Proof.
  intros Hc. induction dbs as [|db dbs IH]; intros st; cbn [run_databases]; [apply emits_ret|].
  apply emits_bind; [|auto]. unfold run_database. cbv zeta.
  apply emits_bind; [apply emits_lift|]. intros w. destruct (_ && multi); [apply emits_ret|].
  apply emits_bind; [destruct (_ && _); [apply emits_target_exists|apply emits_ret]|]. intros present.
  destruct (negb present); [apply emits_ret|].
  apply emits_bind; [by apply emits_attempt, emits_read_only_database|]. intros [e|out]; repeat emits_step.
Qed.

(** C2. [plan] and [validate] change nothing on the server: over all databases,
    whatever the caches, the configuration and the replies, they send only the
    set-up of a session, a switch to a database whose name is quoted, probes of
    the audit tables, reads of checksums and of the catalog, and the refresh of
    rmig's own catalog cache; no lock, no bootstrap script, no history record, no
    repository script and no generated DDL. *)
Theorem read_only_command_sends_no_ddl cmd cfg : command_mutates cmd = false →
  emits read_only_stmt (run_command g env published plan_db_ms cmd cfg).
Proof.
  intros Hc. unfold run_command. destruct (bool_decide _); [apply emits_ret|]. rewrite Hc.
  apply emits_bind; [apply emits_now|]. intros start.
  apply emits_bind; [apply emits_fun|]. intros dbs.
  apply emits_bind; [apply emits_ret|]. intros _.
  apply emits_bind; [apply emits_now|]. intros t_scan.
  apply emits_bind; [apply emits_fun|]. intros ws.
  apply emits_bind; [apply emits_now|]. intros t. cbv zeta.
  apply emits_bind; [by apply emits_read_only_databases|]. intros st.
  repeat emits_step.
Qed.
End read_only.

(** ** Refused migrations *)

Section refused.
Context {W : Type} `{HW : World W} `{HN : !Net W} `{HCl : Clock W} `{HFi : Files W}.
Context `{HDi : Dirs W}.
Context `{HU : Unicode} `{HUp : Uppercase} `{HF : Fingerprint} `{HM : MapOrder} `{HX : Hex}.
Context `{HS : Sha256} `{HJ : HistoryJson} `{HC : CacheFormats} `{HTR : TableRefsJson}.
Context {G : Type} `{HG : GitTool G} (g : G).

(** The only statements of a refused [migrate]: the columns of the tables, for the
    scaffold, and the applied transitions, for the comparison. *)
Definition refusal_stmt (r : request) : Prop :=
  r.1 = COLUMNS_OPENJSON ∨ r.1 = LOAD_ALL_MIGRATIONS.

Lemma emits_scaffold_io {A} P (m : IO W A) : (∀ s, st_log (m s).2 = st_log s) → emits P m.
Proof. apply emits_pure. Qed.

Lemma emits_write_file P path content : emits P (write_file path content).
Proof. unfold write_file. repeat emits_step. Qed.
Lemma emits_migration_dir P base db schema table : emits P (migration_dir_checked base db schema table).
Proof.
  unfold migration_dir_checked. cbv zeta.
  assert (∀ p, emits P (canonicalize_io p)) by (intros p; by apply emits_pure).
  repeat emits_step.
Qed.
#[local] Hint Resolve emits_write_file emits_migration_dir : emits.

Lemma emits_ensure P cfg ws plan columns : emits P (ensure g cfg ws plan columns).
Proof.
  unfold ensure. generalize (short_hash g) as commit. intros commit.
  induction (mp_objects plan) as [|o objects IH]; cbn [ensure_objects]; [apply emits_ret|].
  apply emits_bind; [unfold ensure_object; cbv zeta; repeat emits_step|]. intros c. repeat emits_step.
Qed.

Lemma emits_handle_blocked cfg ws plan : emits refusal_stmt (handle_blocked_migrate g cfg ws plan).
Proof.
  unfold handle_blocked_migrate. apply emits_bind.
  - unfold load_table_columns. apply emits_bind; [apply emits_lift|]. intros refs.
    destruct (bool_decide _); [apply emits_ret|]. apply emits_fmap, emits_query. by left.
  - intros columns. apply emits_bind; [apply emits_ensure|]. intros _. apply emits_lift.
Qed.

Lemma emits_filter_applied ws plan timeout : emits refusal_stmt (filter_applied ws plan timeout).
Proof.
  unfold filter_applied. destruct (negb _); [apply emits_ret|]. apply emits_bind.
  - unfold load_all_applied_within, load_all_applied.
    destruct (timeout =? 0)%N; [apply emits_fmap, emits_client_call; by right|].
    apply emits_bind; [|intros; repeat emits_step]. intros s. unfold send.
    destruct (st_client s); [|by exists []; rewrite app_nil_r].
    destruct (w_sql _ _ _ _) as [w' o]. exists [(LOAD_ALL_MIGRATIONS, [])].
    split; [done|]. constructor; [by right|constructor].
  - intros applied. repeat emits_step.
Qed.

(** A failed step of the body, with what it sent. *)
Definition refused_with (s s' : St W) : Prop :=
  ∃ l, st_log s' = st_log s ++ l ∧ Forall refusal_stmt l.

End refused.

(** ** Exit codes *)

Section exit_codes.
Context {W : Type} `{HW : World W} `{HN : !Net W} `{HCl : Clock W} `{HFi : Files W}.
Context `{HDi : Dirs W} `{HCh : Chrono W} `{HST : SourceTree W}.
Context `{HU : Unicode} `{HUp : Uppercase} `{HF : Fingerprint} `{HM : MapOrder} `{HX : Hex}.
Context `{HS : Sha256} `{HJ : HistoryJson} `{HJS : SerdeJson} `{HC : CacheFormats}.
Context `{HSJ : SessionJson} `{HTR : TableRefsJson}.
Context {G : Type} `{HG : GitTool G} `{HHF : HostFiles} (g : G).
Context (env : string → EnvVar) (published : option string).
Context (plan_db_ms : St W → St W → PlanDbMs).
Abbreviation run_db := (run_command_for_database (W:=W) g env published plan_db_ms).

(** The codes of a database whose run is not an error. *)
Definition database_code (cmd : Command) (plan : MigrationPlan) (code : Z) : Prop :=
  match cmd with
  | Validate => code = if mp_blocked plan then EXIT_PLAN_BLOCKED else 0%Z
  | Migrate => code = 0%Z ∨ code = EXIT_PLAN_BLOCKED
  | _ => code = 0%Z
  end.

Lemma database_exit_code cmd cfg ws scan start multi s out s' :
  run_db cmd cfg ws scan start multi s = (Ok out, s') →
  ∃ plan, ro_plan out = Some plan ∧ database_code cmd plan (ro_exit_code out).
Proof.
  unfold run_command_for_database.
  intros (t & s1 & _ & (client & s2 & _ & (ms & s3 & _ & ([] & s4 & _ &
    ([[plan code] t'] & s5 & Hr & (wall & s6 & _ & [= <- _])%io_bind_Ok)%io_bind_Ok)%io_bind_Ok)
    %io_bind_Ok)%io_bind_Ok)%io_bind_Ok.
  exists plan. split; [done|]. cbn [ro_exit_code].
  destruct (command_mutates cmd) eqn:Hc.
  - unfold run_locked in Hr. apply locked_Ok in Hr as (s7 & s8 & _ & Hb). unfold locked_body in Hb.
    apply io_bind_Ok in Hb as ([[p w] t1] & s9 & _ & Hb).
    apply io_bind_Ok in Hb as ([[p' t2] r] & s10 & _ & Hb).
    assert (code = 0%Z ∨ cmd = Migrate ∧ code = EXIT_PLAN_BLOCKED) as [-> | [-> ->]].
    { destruct r as [[]|[]]; try done; [|by left; injection Hb].
      case_bool_decide; [|done]. right. by injection Hb. }
    + by destruct cmd; [| left | | | |].
    + by right.
  - unfold plan_read_only in Hr. apply io_bind_Ok in Hr as ([[p w] t1] & s9 & _ & [= <- <- _]).
    destruct cmd; (done || (cbn; by destruct (mp_blocked p))).
Qed.

Lemma database_code_cases cmd plan code : database_code cmd plan code →
  code = 0%Z ∨ code = EXIT_PLAN_BLOCKED.
Proof. destruct cmd; cbn; try (by left); [done|]. destruct (mp_blocked plan); auto. Qed.

Context (cmd : Command) (cfg : Config.Config) (ws_full : Workspace) (scan start : N) (multi : bool).

(** The database was run to its end and reported success, or has no objects in a
    layout of several databases. *)
Definition processed (db : string) : Prop :=
  ∃ ws, for_catalog_database ws_full db = Ok ws ∧
    ((multi = true ∧ object_count ws = 0) ∨
     ∃ s1 out s2, run_db cmd (cfg <| cfg_database := db |>) ws scan start multi s1 = (Ok out, s2) ∧
       ro_exit_code out = 0%Z).

Lemma run_database_ok st db s st' s' :
  run_database g env published plan_db_ms cmd cfg ws_full scan start multi st db s = (Ok st', s') →
  (0 ≤ rst_exit_code st)%Z →
  (0 ≤ rst_exit_code st')%Z ∧
  (rst_exit_code st' = 0%Z → rst_missing_dbs st' = [] →
   rst_exit_code st = 0%Z ∧ rst_missing_dbs st = [] ∧ processed db).
Proof.
  unfold run_database. intros (ws & s1 & Hw%lift_val & H)%io_bind_Ok Hst. revert H.
  destruct (Nat.eqb (object_count ws) 0 && multi) eqn:Hskip.
  { intros [= <- _]. split; [done|]. intros ??. apply andb_true_iff in Hskip as [?%Nat.eqb_eq ?].
    split_and!; [done..|]. exists ws. auto. }
  intros (present & s2 & _ & H)%io_bind_Ok. destruct present; cbn [negb] in H; cycle 1.
  { injection H as <- _. split; [done|]. intros _ Hmi. by apply app_eq_nil in Hmi as []. }
  apply io_bind_Ok in H as (r & s3 & Hr & H). unfold attempt in Hr.
  destruct (run_db _ _ _ _ _ _ _) as [[out|e|] s4] eqn:Er; [| |done]; injection Hr as <- <-.
  - injection H as <- _. cbn. split; [lia|]. intros Hz Hmi.
    pose proof Er as (plan & _ & Hc%database_code_cases)%database_exit_code.
    unfold EXIT_PLAN_BLOCKED in Hc. split_and!; [lia|done|].
    exists ws. split; [done|]. right. exists s2, out, s4. split; [done|lia].
  - destruct multi; [|done]. injection H as <- _. cbn. pose proof (exit_code_pos e).
    split; [lia|]. intros. lia.
Qed.

Lemma run_databases_ok dbs : ∀ st s st' s',
  run_databases g env published plan_db_ms cmd cfg ws_full scan start multi st dbs s = (Ok st', s') →
  (0 ≤ rst_exit_code st)%Z → rst_exit_code st' = 0%Z → rst_missing_dbs st' = [] →
  rst_exit_code st = 0%Z ∧ rst_missing_dbs st = [] ∧ Forall processed dbs.
Proof.
  induction dbs as [|db dbs IH]; intros st s st' s'; cbn [run_databases].
  - intros [= <- _] ???. auto.
  - intros (st1 & s1 & H1 & H2)%io_bind_Ok Hst Hz Hm.
    apply run_database_ok in H1 as [Hst1 H1]; [|done].
    destruct (IH _ _ _ _ H2 Hst1 Hz Hm) as (Hz1 & Hm1 & Hf).
    destruct (H1 Hz1 Hm1) as (? & ? & ?). auto.
Qed.
End exit_codes.

Section zero_exit.
Context {W : Type} `{HW : World W} `{HN : !Net W} `{HCl : Clock W} `{HFi : Files W}.
Context `{HDi : Dirs W} `{HCh : Chrono W} `{HST : SourceTree W}.
Context `{HU : Unicode} `{HUp : Uppercase} `{HF : Fingerprint} `{HM : MapOrder} `{HX : Hex}.
Context `{HS : Sha256} `{HJ : HistoryJson} `{HJS : SerdeJson} `{HC : CacheFormats}.
Context `{HSJ : SessionJson} `{HTR : TableRefsJson}.
Context {G : Type} `{HG : GitTool G} `{HHF : HostFiles} (g : G).
Context (env : string → EnvVar) (published : option string).
Context (plan_db_ms : St W → St W → PlanDbMs).

End zero_exit.

(** ** Creating databases *)

Section databases.
Context {W : Type} `{HW : World W} `{HN : !Net W} `{HCl : Clock W} `{HU : Unicode}.

Lemma bracket_ident_error name e : bracket_ident name = Err e → ∃ m, e = InvalidInput m.
Proof.
  assert (∀ s e, scan_component name s = Err e → ∃ m, e = InvalidInput m) as Hscan.
  { induction s as [|c s IH]; intros e'; cbn; [done|]. case_match; [|apply IH].
    intros [= <-]. by eexists. }
  unfold bracket_ident, validate_path_component.
  destruct (String.eqb name ""); [intros [= <-]; by eexists|].
  destruct (_ || _); [intros [= <-]; by eexists|].
  destruct (scan_component name name) as [[]|e'|] eqn:E; cbn; try done.
  - case_match; [|done]. intros [= <-]. by eexists.
  - intros [= <-]. by eapply Hscan.
Qed.

(** What creating missing databases may send. *)
Definition creation_stmt (names : list string) (r : request) : Prop :=
  r = (Text INIT_SESSION, []) ∨
  ∃ db sql, db ∈ names ∧ create_database_sql db = Ok sql ∧ r = (Text sql, []).

Lemma emits_ensure_databases cfg names : ∀ master (P : request → Prop),
  (∀ r, creation_stmt names r → P r) → emits P (ensure_databases cfg names master).
Proof.
  induction names as [|db names IH]; intros master P HP; cbn [ensure_databases]; [apply emits_ret|].
  assert (P (Text INIT_SESSION, [])) as Hi by (apply HP; by left).
  assert (∀ master, emits P (ensure_databases cfg names master)) as Hrest.
  { intros m. apply IH. intros r [->|(d & sql & Hd & Hs & ->)]; [done|].
    apply HP. right. exists d, sql. split; [by right|done]. }
  apply emits_bind.
  { unfold target_database_exists. apply emits_bind; [by apply emits_attempt, emits_connect|].
    intros. repeat emits_step. }
  intros [|]; [apply Hrest|]. apply emits_bind; [|apply Hrest].
  unfold ensure_database_from_master. apply emits_bind.
  { destruct master; [apply emits_ret|by apply emits_connect]. }
  intros conn. apply emits_bind; [|intros; apply emits_ret].
  unfold create_database_if_missing.
  apply (emits_bind_val _ (λ sql, create_database_sql db = Ok sql));
    [apply emits_lift|by intros ??? ?%lift_val|].
  intros sql Hs. cbv zeta. unfold with_create_database_timeout.
  apply emits_bind; [|intros; repeat emits_step]. apply emits_raw_exec, HP. right.
  exists db, sql. split; [by left|done].
Qed.

(** C16. Databases are created only by name and only when they can be: one bad name
    in the list is an invalid input before any connection is made; otherwise the
    only DDL that is sent is the creation of a listed database, a text in which
    the server's lexer reads back exactly that name, once in the literal that is
    probed and once in the identifier that is created. *)
Theorem ensure_catalog_databases_spec cfg names :
  (∀ s db e, db ∈ names → bracket_ident db = Err e →
     ∃ m, ensure_catalog_databases_exist cfg names s = (Err (InvalidInput m), s)) ∧
  emits (creation_stmt names) (ensure_catalog_databases_exist cfg names) ∧
  (∀ db sql, create_database_sql db = Ok sql → ∃ after_probe,
     RustStr.strip_prefix "IF DB_ID(N" sql ≫= lex_literal = Some (db, after_probe) ∧
     RustStr.strip_prefix ") IS NULL CREATE DATABASE " after_probe ≫= lex_bracketed = Some (db, "")).
Proof.
  split_and!.
  - intros s db e Hdb He. unfold ensure_catalog_databases_exist.
    enough (∃ m, check_names names = Err (InvalidInput m)) as [m Hm].
    { exists m. unfold mbind, io_bind, lift. by rewrite Hm. }
    unfold check_names. induction names as [|n names IH]; [by apply not_elem_of_nil in Hdb|]. cbn [foldM].
    destruct (bracket_ident n) as [q|e'|] eqn:En; cbn [mbind outcome_bind].
    + apply elem_of_cons in Hdb as [->|Hdb]; [congruence|]. by apply IH.
    + apply bracket_ident_error in En as [m ->]. by exists m.
    + exfalso. revert En. unfold bracket_ident. pose proof (validate_no_panic n) as Hv.
      destruct (validate_path_component n); cbn; [by case_match|done|done].
  - unfold ensure_catalog_databases_exist. apply emits_bind; [apply emits_lift|]. intros _.
    by apply emits_ensure_databases.
  - intros db sql. unfold create_database_sql. intros (q & (_ & _ & ->)%bracket_ident_Ok & [= <-])%outcome_bind_Ok.
    exists (") IS NULL CREATE DATABASE " +:+ "[" +:+ replace_char "]" "]]" db +:+ "]").
    unfold create_database_template. split.
    + eapply (bind_strip_prefix _ _ ("'" +:+ _)); [reflexivity|].
      by apply (lex_literal_quoted db (") IS NULL CREATE DATABASE " +:+ "[" +:+ replace_char "]" "]]" db +:+ "]")).
    + eapply (bind_strip_prefix _ _ ("[" +:+ replace_char "]" "]]" db +:+ "]")); [done|].
      rewrite <- (str_app_nil_r ("[" +:+ _)). by apply lex_bracketed_ident.
Qed.
End databases.

(** ** Runs against [RefServer] *)

Module EngineSample.
#[local] Existing Instances Concrete.unicode Concrete.fingerprint Concrete.map_order Concrete.hex
  Concrete.digest RefServer.json RefServer.world DriverSample.net DriverSample.files
  DriverSample.clock DriverSample.messages ScaffoldSample.uppercase ScaffoldSample.no_git
  ScaffoldSample.dirs ScopeSample.serde PlanDbSample.formats.

#[global] Instance chrono : Chrono RefServer.Server :=
  { timestamp_to_rfc3339 _ := None; w_utc_now _ := "2026-01-01T00:00:00+00:00" }.
#[global] Instance table_refs : TableRefsJson := { refs_to_string _ := "[]" }.
#[global] Instance host_files : HostFiles :=
  { canonicalize _ := None; path_exists _ := false; event_base_sha _ := None }.
Definition tree : FsNode :=
  FDir [("App", FDir [("dbo", FDir [("tables", FDir [("users.sql", FFile)])])])].
#[global] Instance source_tree : SourceTree RefServer.Server :=
  { w_tree _ _ := tree; w_canonical_root _ root := Ok root; w_parallelism _ := 4 }.

Definition cfg : Config.Config := Config_default
  <| cfg_sql_root := "/src" |> <| cfg_sql_base := "/src" |> <| cfg_server := "db" |>
  <| cfg_skip_git := true |>.
Definition no_env (name : string) : EnvVar := EnvUnset.
Definition no_ms (s s' : St RefServer.Server) : PlanDbMs := mk_PlanDbMs 0 0 0 0 0 0 0 0 0.
Definition start : St RefServer.Server :=
  RefServer.start [("/src/App/dbo/tables/users.sql", "CREATE TABLE dbo.users (id INT)")] [] 0.
Definition run (cmd : Command) : M RunOutput * St RefServer.Server :=
  run_command tt no_env None no_ms cmd cfg start.
Definition succeeded (cmd : Command) : bool :=
  match (run cmd).1 with Ok out => (ro_exit_code out =? 0)%Z | _ => false end.

(** The whole program on one new table: it is created and recorded, under the lock. *)
Example migrate_applies :
  succeeded Migrate = true ∧
  map (λ r, (hr_normalized_key r, hr_event r)) (RefServer.srv_history (st_world (run Migrate).2)) =
    [("dbo/tables/users", "applied")] ∧
  RefServer.srv_lock (st_world (run Migrate).2) = false.
Proof. split_and!; by vm_compute. Qed.

Lemma read_only_command_sends_no_ddl_witness :
  command_mutates Plan = false ∧
  emits read_only_stmt (run_command tt no_env None no_ms Plan cfg).
Proof.
  split; [reflexivity|].
  exact (read_only_command_sends_no_ddl tt no_env None no_ms Plan cfg eq_refl).
Defined.

End EngineSample.
