(* ===== verification/Converge.v ===== *)
(** * Migrating what is already migrated

    [plan/], [export/materialize/], [engine/apply_run.rs] and [apply/] together: an
    object is skipped exactly when the database already has it as the file says,
    and a migration all of whose objects are skipped does nothing. *)

From S2P Require Export Engine.
From Stdlib Require Import Ascii.
From Stdlib Require String.

(** ** The objects that are skipped *)

Lemma changed_never_skips kc w pd r tp :
  scenario_action (resolve_changed_scenario kc w pd r tp) ≠ SkipUnchanged.
Proof.
  intros E. destruct (resolve_changed_cases kc w pd r tp) as [H|[[H _]|[H _]]]; [|congruence..].
  by destruct (resolve_changed_scenario _ _ _ _ _).
Qed.

Lemma resolve_skips i : scenario_action (resolve_plan_scenario i) = SkipUnchanged ↔
  si_exists i = true ∧ si_prior i = Some (si_checksum i) ∧ si_checksum i ≠ zero_digest ∧
  si_live_definition_drift i = false.
Proof.
  unfold resolve_plan_scenario. destruct (si_exists i); cbn [negb]; [|naive_solver].
  destruct (bool_decide_reflect (si_prior i = None)) as [E|E]; cbn [orb]; [naive_solver congruence|].
  destruct (bool_decide_reflect (si_prior i = Some zero_digest)) as [Ez|Ez]; [naive_solver congruence|].
  destruct (si_live_definition_drift i); [destruct (is_module_kind_code _); naive_solver|].
  destruct (bool_decide_reflect (si_prior i = Some (si_checksum i))) as [Ec|Ec]; [|].
  - split; [|done]. intros _. split_and!; [done|done| |done]. congruence.
  - split; [by intros ?%changed_never_skips|naive_solver].
Qed.

Lemma skipped_counts ss : Forall (λ s, s = ScSkipUnchanged) ss →
  existsb (λ s, Nat.ltb 0 (blocked_delta s)) ss = false ∧ sum_list_with blocked_delta ss = 0 ∧
  length (filter (λ s, counter_kind s = CkSkip) ss) = length ss.
Proof.
  induction 1 as [|s ss -> _ (IH1 & IH2 & IH3)]; [done|]. rewrite filter_cons, decide_True by done.
  cbn. by rewrite IH3.
Qed.

Section up_to_date.
Context `{HU : Unicode} `{HF : Fingerprint} `{HM : MapOrder}.
Implicit Types (w : Workspace) (catalog : CatalogState) (cm : ChecksumMap).

(** The database has the object, and what was recorded for it is its file. *)
Definition up_to_date w catalog cm (i : nat) : Prop :=
  ∃ key o, ws_object_keys w !! i = Some key ∧ ws_object_entries w !! i = Some o ∧
    in_catalog catalog key = true ∧ get_key cm key = Some (oe_checksum o) ∧
    oe_checksum o ≠ zero_digest ∧ has_live_definition_drift cm key = false.

Lemma skipped_scenario w catalog cm w' i s : layout_ready w →
  prepare_diff w catalog cm = Ok w' → object_scenario w' cm i s → i < object_count w →
  scenario_action s = SkipUnchanged ↔ up_to_date w catalog cm i.
Proof.
  intros Hw Hp (row & _ & Hs) Hi.
  destruct (prepare_diff_spec w catalog cm Hw) as (w1 & Hp1 & Hr & Hk & _ & Hf).
  rewrite Hp in Hp1. injection Hp1 as <-.
  destruct (lookup_lt_is_Some_2 (ws_object_keys w) i) as [key Ek]; [by rewrite (lr_keys _ Hw)|].
  destruct (lookup_lt_is_Some_2 (ws_object_entries w) i) as [o Eo]; [done|].
  destruct (Hf i key o Ek Eo) as ((o' & Eo' & Hex & Hcs) & Hprior & _).
  unfold scenario_at, ws_entry in Hs. rewrite Eo', Hprior in Hs. cbn in Hs.
  assert (i < object_count w') as Hi' by (by apply lookup_lt_Some in Eo').
  rewrite (entry_key_aligned w' i (dr_keys _ Hr) Hi'), Hk, Ek in Hs. cbn in Hs.
  injection Hs as <-. rewrite resolve_skips. cbn. rewrite Hex, Hcs. unfold up_to_date. split.
  - intros (H1 & H2 & H3 & H4). by exists key, o.
  - intros (key' & o1 & Ek' & Eo1 & H1 & H2 & H3 & H4). rewrite Ek in Ek'. rewrite Eo in Eo1.
    by simplify_eq.
Qed.

(** The diff in terms of the scenarios of its objects. *)
Lemma diff_scenarios w catalog cm : layout_ready w →
  ∃ w' p ss, compute_diff w catalog cm = Ok (w', p) ∧
    length ss = object_count w ∧ length (mp_rows p) = object_count w ∧
    (∀ i s, ss !! i = Some s →
       (scenario_action s = SkipUnchanged ↔ up_to_date w catalog cm i) ∧
       ∀ row, mp_rows p !! i = Some row → planned_action row = scenario_action s) ∧
    mp_blocked p = existsb (λ s, Nat.ltb 0 (blocked_delta s)) ss ∧
    length (mp_blockers p) = sum_list_with blocked_delta ss ∧
    sum_skip_count (mp_summary p) = length (filter (λ s, counter_kind s = CkSkip) ss).
Proof.
  intros Hw. destruct (prepare_diff_spec w catalog cm Hw) as (w' & Hp & Hr & Hk & _ & _).
  assert (object_count w' = object_count w) as Hn
    by (rewrite <- (dr_keys _ Hr), Hk; apply (lr_keys _ Hw)).
  destruct (compute_diff_run w catalog cm MigrationPlan_default w' Hp Hr) as (ss & p & Hrun & Hl & Hd).
  destruct Hd as (D1 & _ & D3 & D4 & D5 & _). rewrite Hn in Hl.
  eexists w', _, ss. split; [exact Hrun|]. cbn [mp_rows mp_blocked mp_blockers mp_summary upd summary_of].
  destruct (count_scenarios DiffCounters_default ss) as (_ & _ & C3 & _ & _). cbv zeta in C3.
  split_and!; [done| | |by cbn; rewrite D3|by cbn; rewrite D4|exact C3].
  - cbn. rewrite D1. cbn. by rewrite length_resize.
  - intros i s Es. destruct (D5 i s Es) as (Hs & (o & row' & _ & Er & Ha & _) & _). split.
    + eapply skipped_scenario; [done|done|exact Hs|by apply lookup_lt_Some in Es; lia].
    + intros row Hrow. cbn in Er, Hrow. rewrite Hrow in Er. by injection Er as <-.
Qed.

Lemma all_skipped w catalog cm ss :
  (∀ i s, ss !! i = Some s → scenario_action s = SkipUnchanged ↔ up_to_date w catalog cm i) →
  length ss = object_count w → (∀ i, i < object_count w → up_to_date w catalog cm i) →
  Forall (λ s, s = ScSkipUnchanged) ss.
Proof.
  intros Hs Hl Hall. apply Forall_lookup. intros i s Es. pose proof (lookup_lt_Some _ _ _ Es) as Hi.
  rewrite Hl in Hi. apply Hall, (Hs i s Es) in Hi. by destruct s.
Qed.

End up_to_date.

(** ** A migration that has nothing to do *)

(** Every schema exists and every object is skipped. *)
Definition quiet (p : MigrationPlan) : Prop :=
  mp_blocked p = false ∧ Forall (λ s, ps_action s = SchemaExists) (mp_schemas p) ∧
  Forall (λ r, planned_action r = SkipUnchanged) (mp_rows p) ∧
  Forall (λ o, po_planned_action o = SkipUnchanged) (mp_objects p).

(** The audit tables are asked for, as before every application. *)
Definition quiet_stmt (x : request) : Prop :=
  match x.1 with BOOTSTRAP_TABLES | BOOTSTRAP_DRIFT | BOOTSTRAP_INDEX => True | _ => False end.

Lemma materialized_action w i row gits trans o :
  materialize_planned_object w i row gits trans = Ok o → po_planned_action o = planned_action row.
Proof. unfold materialize_planned_object. intros H. inv_ok. done. Qed.

Lemma materialized_quiet ws p p' : quiet p → ensure_objects_materialized ws p = Ok p' → quiet p'.
Proof.
  intros (Hb & Hs & Hr & Ho). unfold ensure_objects_materialized.
  destruct (mp_rows p) as [|r rows] eqn:Er; [by intros [= <-]; rewrite <- Er in Hr|].
  destruct (Nat.eqb _ _); [by intros [= <-]; rewrite <- Er in Hr|].
  intros (objs & Hm & [= <-])%outcome_bind_Ok. split_and!; [done|done|cbn; by rewrite Er|]. cbn.
  apply traverse_Ok in Hm. apply Forall_lookup. intros i o Hi.
  destruct (Forall2_lookup_r _ _ _ _ _ Hm Hi) as ([j row] & Hj & Hx). cbn in Hx.
  rewrite (materialized_action _ _ _ _ _ _ Hx).
  rewrite list_lookup_imap in Hj. destruct (mp_rows p !! i) as [row'|] eqn:Ei; [|done].
  injection Hj as _ <-. rewrite Er in Ei. by eapply (Forall_lookup_1 _ _ _ _ Hr).
Qed.

Lemma materialized_twice ws p p1 : ensure_objects_materialized ws p = Ok p1 →
  ensure_objects_materialized ws p1 = Ok p1.
Proof.
  unfold ensure_objects_materialized. destruct (mp_rows p) as [|r rows] eqn:Er.
  - intros [= <-]. by rewrite Er.
  - destruct (Nat.eqb _ _) eqn:En; [intros [= <-]; by rewrite Er, En|].
    intros (objs & Hm & [= <-])%outcome_bind_Ok. cbn. rewrite Er. apply traverse_Ok, Forall2_length in Hm.
    rewrite length_imap, Er in Hm. by rewrite <- Hm, Nat.eqb_refl.
Qed.

Lemma none_of {A} (b : A → bool) (act : A → Action) l :
  (∀ x, act x = SkipUnchanged → b x = false) → Forall (λ x, act x = SkipUnchanged) l →
  existsb b l = false.
Proof. intros Hb. induction 1 as [|x l Hx _ IH]; [done|]. cbn. by rewrite (Hb x Hx), IH. Qed.

Lemma no_adoption objects : Forall (λ o, po_planned_action o = SkipUnchanged) objects →
  existsb is_adopt objects = false.
Proof. apply none_of. intros o Ho. unfold is_adopt. by rewrite Ho. Qed.

Lemma no_filter objects : Forall (λ o, po_planned_action o = SkipUnchanged) objects →
  existsb object_needs_filter objects = false.
Proof. apply none_of. intros o Ho. unfold object_needs_filter. by rewrite Ho. Qed.

(** The gate leaves the plan as it is, or with its objects materialized. *)
Lemma gate_quiet cfg ws p p' e : quiet p → ensure_adopt_allowed cfg ws p = Ok (p', e) → quiet p'.
Proof.
  intros Hq. unfold ensure_adopt_allowed. destruct (cfg_allow_adopt cfg); [by intros [= <- _]|].
  intros (p1 & Hm & [= <- _])%outcome_bind_Ok. by eapply materialized_quiet.
Qed.

(** The plan of a tree that is up to date. *)
Lemma converged_quiet `{HU : Unicode} `{HF : Fingerprint} `{HM : MapOrder} ws catalog cm ws' p :
  layout_ready ws → (∀ i, i < object_count ws → up_to_date ws catalog cm i) →
  compute_diff ws catalog cm = Ok (ws', p) →
  Forall (λ x, ps_action x = SchemaExists) (mp_schemas p) → quiet p.
Proof.
  intros Hw Hall Hd Hsch.
  destruct (diff_scenarios ws catalog cm Hw) as (w' & p1 & ss & E & Hl & Hn & Hs & Hb & _).
  rewrite Hd in E. injection E as <- <-.
  assert (Forall (λ s, s = ScSkipUnchanged) ss) as Hss
    by (eapply all_skipped; [intros i s Es; apply (Hs i s Es)|done|done]).
  split_and!; [rewrite Hb; apply (skipped_counts ss Hss)|done| |by rewrite (compute_diff_no_objects _ _ _ _ _ Hd)].
  apply Forall_lookup. intros i row Hrow. pose proof (lookup_lt_Some _ _ _ Hrow) as Hi.
  rewrite Hn, <- Hl in Hi. destruct (lookup_lt_is_Some_2 ss i Hi) as [s Es].
  destruct (Hs i s Es) as [_ Ha]. rewrite (Ha row Hrow).
  by rewrite (Forall_lookup_1 _ _ _ _ Hss Es).
Qed.

Definition skipped_n (n : nat) (r : ApplyResult) : ApplyResult := r <| ar_skipped ::= Nat.add n |>.
Lemma skipped_n_S n r : skipped_n n (r <| ar_skipped ::= S |>) = skipped_n (S n) r.
Proof.
  destruct r as [a k f e h]. change (mk_ApplyResult a (n + S k) f e h = mk_ApplyResult a (S n + k) f e h).
  f_equal. lia.
Qed.

Lemma skipped_n_add n m r : skipped_n n (skipped_n m r) = skipped_n (n + m) r.
Proof.
  destruct r as [a k f e h]. change (mk_ApplyResult a (n + (m + k)) f e h = mk_ApplyResult a (n + m + k) f e h).
  f_equal. lia.
Qed.

Lemma run_bind {W A B} (m : IO W A) (f : A → IO W B) s x s' : m s = (Ok x, s') → (m ≫= f) s = f x s'.
Proof. intros H. unfold mbind, io_bind. by rewrite H. Qed.

Section quiet.
Context {W : Type} `{HW : World W} `{HN : !Net W} `{HCl : Clock W} `{HFi : Files W}.
Context `{HDi : Dirs W}.
Context `{HU : Unicode} `{HUp : Uppercase} `{HF : Fingerprint} `{HM : MapOrder} `{HX : Hex}.
Context `{HS : Sha256} `{HJ : HistoryJson} `{HC : CacheFormats} `{HTR : TableRefsJson}.
Context {G : Type} `{HG : GitTool G} (g : G).
Implicit Types (s : St W).

Lemma schemas_skipped schemas : Forall (λ x, ps_action x = SchemaExists) schemas → ∀ r s,
  apply_schemas schemas r s = (Ok (skipped_n (length schemas) r), s).
Proof.
  induction 1 as [|x l Hx _ IH]; intros r s; cbn [apply_schemas]; [by destruct r|].
  rewrite bool_decide_eq_false_2 by congruence. cbn [negb]. rewrite IH. by rewrite skipped_n_S.
Qed.

Lemma transitions_skipped ws objects : Forall (λ o, po_planned_action o = SkipUnchanged) objects →
  ∀ r s, apply_transitions ws objects r s = (Ok r, s).
Proof.
  induction 1 as [|o l Ho _ IH]; intros r s; cbn [apply_transitions]; [done|].
  unfold has_transitions_to_run. rewrite Ho. apply IH.
Qed.

Lemma classify_skipped objects : Forall (λ o, po_planned_action o = SkipUnchanged) objects →
  ∀ b r, classify objects b r = inr (b, skipped_n (length objects) r).
Proof.
  induction 1 as [|o l Ho _ IH]; intros b r; cbn [classify]; [by destruct r|].
  unfold cannot_apply, should_apply, should_count_skip. rewrite Ho.
  rewrite !bool_decide_eq_false_2 by done. cbn [andb]. by rewrite IH, skipped_n_S.
Qed.

Lemma objects_skipped ws objects : Forall (λ o, po_planned_action o = SkipUnchanged) objects →
  ∀ r s, ar_failed r = 0 →
  apply_objects ws objects r s = (Ok (skipped_n (length objects) r), s).
Proof.
  intros H r s Hf. unfold apply_objects. rewrite classify_skipped by done.
  unfold flush_tx, mbind, io_bind. cbn. by rewrite Hf.
Qed.

(** What every application asks for first. *)
Definition audit_bootstrap (fp : string) : IO W unit := ensure_tables fp;; ensure_history_index.

(** The milliseconds between two states, as the steps are timed. *)
Definition step_ms (s s' : St W) : Z := dur_ms (w_clock (st_world s') - w_clock (st_world s)).

(** Nothing is applied, nothing fails, and only the audit tables are asked for. *)
Lemma quiet_body cfg ws p s : quiet p →
  (r ← apply_schemas (mp_schemas p) ApplyResult_default;
   if Nat.ltb 0 (ar_failed r) then (λ r, (r, p)) <$> finish cfg r
   else
     r ← apply_transitions ws (mp_objects p) r;
     if Nat.ltb 0 (ar_failed r) then (λ r, (r, p)) <$> finish cfg r
     else
       r ← apply_objects ws (mp_objects p) r;
       (λ r, (r, p)) <$> finish cfg r) s =
  (Ok (skipped_n (length (mp_objects p) + length (mp_schemas p)) ApplyResult_default, p), s).
Proof.
  intros (_ & Hs & _ & Ho). set (r0 := skipped_n (length (mp_schemas p)) ApplyResult_default).
  rewrite (run_bind _ _ _ _ _ (schemas_skipped _ Hs _ s)). fold r0. cbn [ar_failed].
  assert (Nat.ltb 0 (ar_failed r0) = false) as E0 by reflexivity. rewrite E0.
  rewrite (run_bind _ _ _ _ _ (transitions_skipped ws _ Ho r0 s)), E0.
  rewrite (run_bind _ _ _ _ _ (objects_skipped ws _ Ho r0 s eq_refl)).
  unfold r0. rewrite skipped_n_add. done.
Qed.

Lemma execute_quiet cfg ws p : quiet p → emits quiet_stmt (execute_plan (W:=W) cfg ws p) ∧
  ∀ s r p' s', execute_plan cfg ws p s = (Ok (r, p'), s') →
    ar_applied r = 0 ∧ ar_failed r = 0 ∧ ensure_objects_materialized ws p = Ok p'.
Proof.
  intros Hq. pose proof Hq as (Hb & _). unfold execute_plan. rewrite Hb. split.
  - apply (emits_bind_val _ (λ p', ensure_objects_materialized ws p = Ok p'));
      [apply emits_lift|by intros ??? ?%lift_val|].
    intros p' Hp. pose proof (materialized_quiet _ _ _ Hq Hp) as Hq'. cbv zeta.
    apply emits_bind; [by apply emits_ensure_tables|]. intros _.
    apply emits_bind; [by apply emits_exec|]. intros _.
    apply emits_pure. intros s. by rewrite quiet_body.
  - intros s r p' s' (p1 & s1 & Hp%lift_val & (? & s2 & _ & (? & s3 & _ & H)%io_bind_Ok)%io_bind_Ok)%io_bind_Ok.
    rewrite quiet_body in H by (by eapply materialized_quiet). injection H as <- <- _. done.
Qed.

Lemma emits_run_quiet cfg ws p t : quiet p → emits quiet_stmt (run_executor (W:=W) cfg ws p t).
Proof.
  intros Hq. destruct (execute_quiet cfg ws p Hq) as [He Hr]. unfold run_executor.
  apply emits_bind; [apply emits_now|]. intros t0.
  apply (emits_bind_val _ (λ x, ar_applied x.1 = 0)); [done|by intros s [r p'] s' (H & _)%Hr|].
  intros [r p'] H0. cbn in H0. rewrite H0, andb_false_r.
  apply emits_bind; [apply emits_elapsed|]. intros ms. repeat emits_step.
Qed.

Lemma run_quiet cfg ws p t s s1 p1 : quiet p →
  audit_bootstrap (config_fingerprint cfg) s = (Ok tt, s1) →
  ensure_objects_materialized ws p = Ok p1 →
  run_executor cfg ws p t s = (Ok (p1, t <| pt_apply_ms := step_ms s s1 |>, inr tt), s1).
Proof.
  intros Hq Ht Hm. pose proof Hq as (Hb & _). pose proof (materialized_quiet _ _ _ Hq Hm) as Hq1.
  assert (execute_plan cfg ws p s =
    (Ok (skipped_n (length (mp_objects p1) + length (mp_schemas p1)) ApplyResult_default, p1), s1)) as He.
  { unfold execute_plan. rewrite Hb, Hm. unfold audit_bootstrap in Ht.
    apply io_bind_Ok in Ht as ([] & s0 & H1 & H2).
    rewrite (run_bind _ _ s p1 s) by done. cbv zeta.
    rewrite (run_bind _ _ s tt s0) by done. rewrite (run_bind _ _ s0 tt s1) by done.
    apply (quiet_body cfg ws p1 s1 Hq1). }
  unfold run_executor. rewrite (run_bind _ _ s (w_clock (st_world s)) s) by done.
  by rewrite (run_bind _ _ s _ s1 He).
Qed.

(** Making the adoption check and keeping the history's transitions change nothing. *)
Lemma quiet_gate cfg ws p p1 : quiet p → ensure_objects_materialized ws p = Ok p1 →
  ∃ p', ensure_adopt_allowed cfg ws p = Ok (p', inr tt) ∧ quiet p' ∧
    ensure_objects_materialized ws p' = Ok p1.
Proof.
  intros Hq Hm. unfold ensure_adopt_allowed. destruct (cfg_allow_adopt cfg); [by eauto|].
  pose proof (materialized_quiet _ _ _ Hq Hm) as Hq1. rewrite Hm. exists p1. cbn.
  rewrite no_adoption by apply Hq1. split_and!; [done|done|]. by eapply materialized_twice.
Qed.

Lemma quiet_filter ws p timeout : quiet p → filter_applied (W:=W) ws p timeout = mret p.
Proof. intros (_ & _ & _ & Ho). unfold filter_applied. by rewrite no_filter. Qed.

Lemma apply_quiet cfg ws p t : quiet p →
  emits quiet_stmt (apply_migrate (W:=W) g cfg ws p t) ∧
  ∀ s s1 p1, audit_bootstrap (config_fingerprint cfg) s = (Ok tt, s1) →
    ensure_objects_materialized ws p = Ok p1 →
    apply_migrate g cfg ws p t s = (Ok (p1, t <| pt_apply_ms := step_ms s s1 |>, inr tt), s1).
Proof.
  intros Hq. pose proof Hq as (Hb & _). unfold apply_migrate. rewrite Hb. split.
  - apply (emits_bind_val _ (λ x, ensure_adopt_allowed cfg ws p = Ok x));
      [apply emits_lift|by intros ??? ?%lift_val|].
    intros [p' [e|[]]] Ha; [apply emits_ret|]. pose proof (gate_quiet _ _ _ _ _ Hq Ha) as Hq'.
    rewrite (quiet_filter _ _ _ Hq'). apply emits_bind; [|intros; apply emits_ret].
    apply emits_attempt.
    apply (emits_bind_val _ (λ a, a = p')); [apply emits_ret|by intros s a s' [= <- _]|].
    intros a ->. by apply emits_run_quiet.
  - intros s s1 p1 Ht Hm. destruct (quiet_gate cfg ws p p1 Hq Hm) as (p' & -> & Hq' & Hm').
    pose proof (run_quiet cfg ws p' t s s1 p1 Hq' Ht Hm') as Hrun.
    rewrite (run_bind _ _ s (p', inr tt) s) by done. cbn beta iota.
    rewrite (quiet_filter _ _ _ Hq').
    rewrite (run_bind _ _ s (inr (p1, t <| pt_apply_ms := step_ms s s1 |>, inr tt)) s1); [done|].
    unfold attempt. rewrite (run_bind (mret p') _ s p' s) by done. by rewrite Hrun.
Qed.

(** C11. Migrating what is already migrated changes nothing: when every object of the
    tree is up to date in the facts a plan was computed from, and every schema
    exists, applying that plan (materialized or not) sends the server the creation
    of the audit tables, if they do not exist, and nothing else: no script, no
    DDL, no transaction, no history record, not even a read of the history.  And
    once these requests succeed the migration does: it ends without error, with
    the plan it was given (its objects materialized) and the time it took. *)
Theorem migrate_is_idempotent cfg ws catalog cm ws' p0 p label planned_at t :
  layout_ready ws → (∀ i, i < object_count ws → up_to_date ws catalog cm i) →
  compute_diff ws catalog cm = Ok (ws', p0) →
  Forall (λ x, ps_action x = SchemaExists) (mp_schemas p0) →
  p = p0 <| mp_command := label |> <| mp_planned_at := planned_at |> ∨
    ensure_objects_materialized ws' (p0 <| mp_command := label |> <| mp_planned_at := planned_at |>) = Ok p →
  emits quiet_stmt (apply_migrate (W:=W) g cfg ws' p t) ∧
  ∀ s s1 p1, audit_bootstrap (config_fingerprint cfg) s = (Ok tt, s1) →
    ensure_objects_materialized ws' p = Ok p1 →
    apply_migrate g cfg ws' p t s = (Ok (p1, t <| pt_apply_ms := step_ms s s1 |>, inr tt), s1).
Proof.
  intros Hw Hall Hd Hs Hp. apply apply_quiet.
  pose proof (converged_quiet ws catalog cm ws' p0 Hw Hall Hd Hs) as Hq.
  assert (quiet (p0 <| mp_command := label |> <| mp_planned_at := planned_at |>)) as Hq' by exact Hq.
  destruct Hp as [->|Hp]; [exact Hq'|by eapply materialized_quiet].
Qed.
End quiet.

(** ** A tree that is up to date *)
Module ConvergeSample.
#[local] Existing Instances Concrete.unicode Concrete.fingerprint Concrete.map_order Concrete.hex
  Concrete.digest RefServer.json RefServer.world DriverSample.net DriverSample.files
  DriverSample.clock DriverSample.messages ScaffoldSample.uppercase ScaffoldSample.no_git
  ScaffoldSample.dirs ScopeSample.serde PlanDbSample.formats EngineSample.table_refs.

Definition catalog : CatalogState :=
  mk_CatalogState {[ "dbo" ]}
    {[ "dbo/tables/t" := catalog_object "dbo" "tables" "t" None;
       "dbo/triggers/tr" := catalog_object "dbo" "triggers" "tr" (Some "t");
       "dbo/views/v" := catalog_object "dbo" "views" "v" None ]}.

Definition checksums : ChecksumMap :=
  insert_key "dbo/tables/t" (DiffSample.d 1) (insert_key "dbo/triggers/tr" (DiffSample.d 2)
    (insert_key "dbo/views/v" (DiffSample.d 3) ChecksumMap_new)).

Definition planned : Workspace * MigrationPlan :=
  match compute_diff DiffSample.w catalog checksums with Ok x => x | _ => (Workspace_default, MigrationPlan_default) end.

(** The plan as the [migrate] phase stamps it. *)
Definition stamped : MigrationPlan := planned.2 <| mp_command := "migrate" |> <| mp_planned_at := "now" |>.

Definition cfg : Config.Config := Config_default <| cfg_server := "db" |> <| cfg_database := "A" |>.

Lemma all_up_to_date i : i < object_count DiffSample.w → up_to_date DiffSample.w catalog checksums i.
Proof.
  change (object_count DiffSample.w) with 3. intros Hi.
  destruct i as [|[|[|i]]]; [..|lia]; (eexists _, _; split_and!; try (by vm_compute)).
Qed.


(** The statements the reference server was sent, applying that plan. *)
Definition applied : M (MigrationPlan * PhaseTimings * (Error + unit)) * St RefServer.Server :=
  apply_migrate tt cfg planned.1 stamped PhaseTimings_default (RefServer.start [] [] 0).
Example only_the_audit_tables :
  map fst (st_log applied.2) = [BOOTSTRAP_TABLES; BOOTSTRAP_DRIFT; BOOTSTRAP_INDEX] ∧
  match applied.1 with Ok (_, _, inr tt) => True | _ => False end.
Proof. by vm_compute. Qed.

Lemma migrate_is_idempotent_witness :
  (∀ i, i < object_count DiffSample.w → up_to_date DiffSample.w catalog checksums i) ∧
  emits quiet_stmt (apply_migrate (W:=RefServer.Server) tt cfg planned.1 stamped PhaseTimings_default).
Proof.
  split; [exact all_up_to_date|].
  apply (migrate_is_idempotent tt cfg DiffSample.w catalog checksums planned.1 planned.2 stamped
           "migrate" "now" PhaseTimings_default DiffSample.w_ready all_up_to_date).
  - vm_compute. reflexivity.
  - apply (bool_decide_unpack _). vm_compute. reflexivity.
  - left. reflexivity.
Defined.
End ConvergeSample.
