(* ===== verification/Report.v ===== *)
(** * Reports on disk ([export/report.rs], [export/plan_json/], [export/materialize/wire.rs])

    The JSON documents a run leaves behind, [.plan.json] and [.report.json], as
    values, with the reader of a planned object; and the way they are put in place:
    a file beside the target is written and renamed over it. *)

From S2P Require Export Scaffold.
From Stdlib Require Import Ascii.
From Stdlib Require String.

(** ** JSON values

    [serde_json] prints a value; the text determines the value.  [JOther] is a null
    or a number that is no integer, by its text: nothing here writes or reads one. *)
Inductive Json : Type :=
| JBool (b : bool)
| JNum (z : Z)
| JStr (s : string)
| JArr (l : list Json)
| JObj (fields : list (string * Json))
| JOther (text : string).

Class PrettyJson := {
  to_string_pretty : Json → string;
  #[global] to_string_pretty_inj :: Inj (=) (=) to_string_pretty;
}.

(** The [base64] crate's standard engine. *)
Class Base64 := {
  b64_encode : string → string;
  b64_decode : string → option string;
  b64_decode_encode b : b64_decode (b64_encode b) = Some b;
}.

(** ** Writing ([derive(Serialize)] with its field attributes)

    [skip_serializing_if]: the field, unless the test holds. *)
Definition unless (skip : bool) (name : string) (v : Json) : list (string * Json) :=
  if skip then [] else [(name, v)].

Definition schema_action_str (a : SchemaAction) : string :=
  match a with CreateSchema => "create_schema" | SchemaExists => "exists" end.

Definition planned_schema_json (s : PlannedSchema) : Json :=
  JObj [("action", JStr (schema_action_str (ps_action s))); ("schemaName", JStr (ps_schema_name s))].

Definition planned_git_fields (g : PlannedGit) : list (string * Json) :=
  [("gitHash", JStr (pgit_hash g)); ("gitAuthor", JStr (pgit_author g)); ("gitDate", JStr (pgit_date g))].

Definition plan_summary_json (s : PlanSummary) : Json :=
  let count (n : nat) := JNum (Z.of_nat n) in
  JObj [("schemaCount", count (sum_schema_count s)); ("objectCount", count (sum_object_count s));
        ("createCount", count (sum_create_count s)); ("adoptCount", count (sum_adopt_count s));
        ("skipCount", count (sum_skip_count s)); ("changedCount", count (sum_changed_count s));
        ("blockedCount", count (sum_blocked_count s))].

Section documents.
Context `{HB : Base64}.

Definition checksum_json (cs : digest) : Json := JStr (b64_encode cs).

Definition planned_object_json (o : PlannedObject) : Json :=
  JObj ([("normalizedKey", JStr (po_normalized_key o)); ("objectPath", JStr (po_object_path o));
         ("schemaName", JStr (po_schema_name o)); ("kind", JStr (po_kind o));
         ("objectName", JStr (po_object_name o))]
        ++ unless (String.eqb (po_database_name o) "") "databaseName" (JStr (po_database_name o))
        ++ unless (String.eqb (po_parent_name o) "") "parentName" (JStr (po_parent_name o))
        ++ unless (bool_decide (po_transition_paths o = [])) "transitionPaths"
             (JArr (map JStr (po_transition_paths o)))
        ++ match po_git o with Some g => planned_git_fields g | None => [] end
        ++ [("checksum", checksum_json (po_checksum o));
            ("plannedAction", JStr (action_str (po_planned_action o)));
            ("exists", JBool (po_exists o))]).

(** [PlanWire]. *)
Definition plan_wire_json (p : MigrationPlan) (objects : list PlannedObject) : Json :=
  JObj (unless (String.eqb (mp_command p) "") "command" (JStr (mp_command p))
        ++ [("plannedAt", JStr (mp_planned_at p)); ("blocked", JBool (mp_blocked p))]
        ++ unless (bool_decide (mp_blockers p = [])) "blockers" (JArr (map JStr (mp_blockers p)))
        ++ [("schemas", JArr (map planned_schema_json (mp_schemas p)));
            ("objects", JArr (map planned_object_json objects));
            ("summary", plan_summary_json (mp_summary p))]).

(** [RunFinished]. *)
Definition run_finished_json (command : string) (exit_code : Z) : Json :=
  JObj [("command", JStr command);
        ("result", JStr (if (exit_code =? 0)%Z then "success" else "failure"));
        ("exitCode", JNum exit_code)].

(** ** Reading ([derive(Deserialize)])

    A field that occurs twice is an error, as is one of the wrong type; fields
    that are not known are gathered for the flattened git data. *)
Definition field (name : string) (fields : list (string * Json)) : option (option Json) :=
  match List.filter (λ kv, String.eqb kv.1 name) fields with
  | [] => Some None
  | [(_, v)] => Some (Some v)
  | _ => None
  end.

Definition as_string (j : Json) : option string := match j with JStr s => Some s | _ => None end.
Definition as_bool (j : Json) : option bool := match j with JBool b => Some b | _ => None end.
Definition as_strings (j : Json) : option (list string) :=
  match j with JArr l => mapM as_string l | _ => None end.

Definition required {A} (read : Json → option A) (name : string) (fields : list (string * Json))
    : option A := v ← field name fields; v ≫= read.
Definition defaulted {A} (dflt : A) (read : Json → option A) (name : string)
    (fields : list (string * Json)) : option A :=
  v ← field name fields; match v with None => Some dflt | Some v => read v end.

Definition action_of_str (s : string) : option Action :=
  match_str s (map (λ a, (action_str a, Some a))
    [CreateObject; AdoptExisting; SkipUnchanged; UpdateExistingModule; ReprocessChanged;
     ReprocessChangedBlocked; Fail]) None.

Definition checksum_of_json (j : Json) : option digest :=
  s ← as_string j;
  raw ← b64_decode s;
  if Nat.eqb (String.length raw) 32 then Some raw else None.

Definition planned_git_of_fields (fields : list (string * Json)) : option PlannedGit :=
  h ← required as_string "gitHash" fields;
  a ← required as_string "gitAuthor" fields;
  d ← required as_string "gitDate" fields;
  Some (mk_PlannedGit h a d).

Definition planned_object_of_json (j : Json) : option PlannedObject :=
  match j with
  | JObj fs =>
      key ← required as_string "normalizedKey" fs;
      path ← required as_string "objectPath" fs;
      schema ← required as_string "schemaName" fs;
      kind ← required as_string "kind" fs;
      name ← required as_string "objectName" fs;
      db ← defaulted "" as_string "databaseName" fs;
      parent ← defaulted "" as_string "parentName" fs;
      paths ← defaulted [] as_strings "transitionPaths" fs;
      cs ← required checksum_of_json "checksum" fs;
      action ← required (λ v, as_string v ≫= action_of_str) "plannedAction" fs;
      ex ← required as_bool "exists" fs;
      Some (mk_PlannedObject key path schema kind name db parent paths (planned_git_of_fields fs)
              cs action ex)
  | _ => None
  end.
End documents.

(** ** Putting a document in place ([export/plan_json/io.rs], [export/report.rs]) *)

(** The file-system calls of a report writer, on top of [Files].  A handle is
    written through the path it was made with: nobody else has the temporary name. *)
Inductive RemoveError : Type := NotFound | RemoveFailed (e : Error).
Class ReportFiles (W : Type) := {
  w_create_file : string → W → W * option Error;
  w_file_write_all : string → string → W → W * option Error;
  w_sync_all : string → W → W * option Error;
  w_remove_file : string → W → W * option RemoveError;
}.

(** [Path::with_extension] on a path that ends in a file name. *)
Definition split_file (path : string) : string * string :=
  match before_last "/" path with
  | Some dir => (dir +:+ "/", str_drop (S (String.length dir)) path)
  | None => ("", path)
  end.
Definition file_stem (name : string) : string :=
  match before_last "." name with None | Some "" => name | Some stem => stem end.
Definition with_extension (path ext : string) : string :=
  let '(dir, name) := split_file path in dir +:+ file_stem name +:+ "." +:+ ext.

(** One call, and how it ended; a call that fails ends the function. *)
Abbreviation fs_step W := (W → W * M unit) (only parsing).

Fixpoint run_calls {W} (l : list (fs_step W)) (w : W) : W * M unit :=
  match l with
  | [] => (w, Ok tt)
  | f :: l => match f w with (w, Ok tt) => run_calls l w | r => r end
  end.

Section files.
Context {W : Type} `{HW : World W} `{HFi : Files W} `{HRF : ReportFiles W}.
Context `{HB : Base64} `{HPJ : PrettyJson}.

(** [?] on a call. *)
Definition call (f : W → W * option Error) : fs_step W := λ w,
  let '(w, e) := f w in (w, match e with Some e => Err e | None => Ok tt end).

(** What the closure passed to [write_atomic] writes, call by call. *)
Definition write_chunks (path : string) (content : M (list string)) : list (fs_step W) :=
  match content with
  | Ok chunks => map (λ c, call (w_file_write_all path c)) chunks
  | Err e => [λ w, (w, Err e)]
  | Panic => [λ w, (w, Panic)]
  end.

(** [write_atomic]; [n] is the next number of the process-wide sequence. *)
Definition tmp_path (path : string) (pid n : N) : string :=
  with_extension path ("tmp." +:+ pretty pid +:+ "." +:+ pretty n).
Definition write_atomic (path tmp : string) (content : M (list string)) (synced : bool)
    : list (fs_step W) :=
  [call (w_create_file tmp)] ++ write_chunks tmp content
  ++ (if synced then [call (w_sync_all tmp)] else [])
  ++ [call (w_sync_all tmp); call (w_rename tmp path)].

(** The document and its line end, the two writes of [write_plan_json]. *)
Definition write_plan_json (plan : MigrationPlan) (ws : option Workspace) : M (list string) :=
  objs ← json_objects plan ws;
  Ok [to_string_pretty (plan_wire_json plan objs); String LF ""].

(** [write_json] through a [BufWriter], which is flushed once. *)
Definition write_json (v : Json) : M (list string) :=
  Ok [to_string_pretty v +:+ String LF ""].

Definition remove_stale (path : string) : fs_step W := λ w,
  let '(w, e) := w_remove_file path w in
  (w, match e with Some (RemoveFailed e) => Err e | _ => Ok tt end).

Definition plan_path (cfg : Config.Config) : string := path_join (cfg_report_dir cfg) ".plan.json".
Definition report_path (cfg : Config.Config) : string := path_join (cfg_report_dir cfg) ".report.json".

Definition report_steps (cfg : Config.Config) (command : string) (plan : option MigrationPlan)
    (ws : option Workspace) (exit_code : Z) (pid n : N) : list (fs_step W) :=
  [call (w_create_dir_all (cfg_report_dir cfg))]
  ++ match plan with
     | Some plan => write_atomic (plan_path cfg) (tmp_path (plan_path cfg) pid n)
                      (write_plan_json plan ws) false
     | None => [remove_stale (plan_path cfg)]
     end
  ++ write_atomic (report_path cfg)
       (tmp_path (report_path cfg) pid (match plan with Some _ => (n + 1) | None => n end)%N)
       (write_json (run_finished_json command exit_code)) (cfg_report_sync cfg).

Definition write_reports (cfg : Config.Config) (command : string) (plan : option MigrationPlan)
    (ws : option Workspace) (exit_code : Z) (n : N) : IO W unit := λ s,
  if String.eqb (cfg_report_dir cfg) "" then (Ok tt, s)
  else
    let w := st_world s in
    let '(w, r) := run_calls (report_steps cfg command plan ws exit_code (w_process_id w) n) w in
    (r, set_world w s).
End files.

Section roundtrip.
Context `{HB : Base64}.

Lemma as_strings_map l : as_strings (JArr (map JStr l)) = Some l.
Proof. cbn. induction l as [|x l IH]; [done|]. cbn. by rewrite IH. Qed.

Lemma action_of_str_action_str a : action_of_str (action_str a) = Some a.
Proof. by destruct a. Qed.

Lemma checksum_of_json_checksum_json cs :
  String.length cs = 32 → checksum_of_json (checksum_json cs) = Some cs.
Proof. intros H. unfold checksum_of_json. cbn. rewrite b64_decode_encode. cbn. by rewrite H. Qed.

End roundtrip.

(** ** What a reader finds

    The contents of files, as the calls above change them: a call concerns the one
    name it is given, and of two different names in one directory each is a file
    of its own.  A write that fails may have written any part. *)

Definition sibling (p q : string) : Prop :=
  (split_file p).1 = (split_file q).1 ∧ (split_file p).2 ≠ (split_file q).2.

Class FileContents (W : Type) `{HFi : Files W} `{HRF : ReportFiles W} := {
  w_content : W → string → option string;
  fc_create p w q : sibling p q → w_content (w_create_file p w).1 q = w_content w q;
  fc_create_ok p w : (w_create_file p w).2 = None → w_content (w_create_file p w).1 p = Some "";
  fc_write p t w q : sibling p q → w_content (w_file_write_all p t w).1 q = w_content w q;
  fc_write_ok p t w : (w_file_write_all p t w).2 = None →
    w_content (w_file_write_all p t w).1 p = (λ c, c +:+ t) <$> w_content w p;
  fc_sync p w q : w_content (w_sync_all p w).1 q = w_content w q;
  fc_rename p r w q : sibling p r → sibling p q → sibling r q →
    w_content (w_rename p r w).1 q = w_content w q;
  fc_rename_at p r w : sibling p r →
    w_content (w_rename p r w).1 r =
    match (w_rename p r w).2 with None => w_content w p | Some _ => w_content w r end;
  fc_remove p w q : sibling p q → w_content (w_remove_file p w).1 q = w_content w q;
  fc_remove_at p w :
    match (w_remove_file p w).2 with
    | None => w_content (w_remove_file p w).1 p = None
    | Some NotFound => w_content (w_remove_file p w).1 p = w_content w p ∧ w_content w p = None
    | Some (RemoveFailed _) => w_content (w_remove_file p w).1 p = w_content w p
    end;
  fc_create_dir d w q : w_content (w_create_dir_all d w).1 q = w_content w q;
}.

Section crash.
Context {W : Type}.

Lemma run_calls_app (l1 l2 : list (fs_step W)) w :
  run_calls (l1 ++ l2) w =
  match run_calls l1 w with (w1, Ok tt) => run_calls l2 w1 | r => r end.
Proof.
  revert w. induction l1 as [|f l1 IH]; intros w; [done|]. cbn.
  destruct (f w) as [w1 [[]|e|]]; [apply IH|done..].
Qed.

(** From [P], the process may die after any number of calls and leaves [R]; if it
    gets to the end it leaves [Q]. *)
Definition crash_safe (P R Q : W → Prop) (l : list (fs_step W)) : Prop :=
  ∀ w, P w → (∀ k, R (run_calls (take k l) w).1) ∧ (∀ w', run_calls l w = (w', Ok tt) → Q w').

Lemma crash_safe_nil (P R Q : W → Prop) : (∀ w, P w → R w ∧ Q w) → crash_safe P R Q [].
Proof. intros H w [HR HQ]%H. split; [by intros []|]. by intros ? [= <-]. Qed.

Lemma crash_safe_app P R Q Q' l1 l2 :
  crash_safe P R Q l1 → crash_safe Q R Q' l2 → crash_safe P R Q' (l1 ++ l2).
Proof.
  intros H1 H2 w Hw. destruct (H1 w Hw) as [HR HQ]. split.
  - intros k. rewrite take_app, run_calls_app. specialize (HR k).
    destruct (run_calls (take k l1) w) as [w1 r] eqn:E. destruct r as [[]|e|]; [|done..].
    destruct (Nat.le_gt_cases (length l1) k) as [Hk|Hk].
    + rewrite take_ge in E by lia. by apply H2, HQ.
    + replace (k - length l1) with 0 by lia. done.
  - intros w'. rewrite run_calls_app. destruct (run_calls l1 w) as [w1 r] eqn:E.
    destruct r as [[]|e|]; [|done..]. apply H2. by apply HQ.
Qed.

Lemma crash_safe_one (P R Q : W → Prop) (f : fs_step W) :
  (∀ w, P w → R w ∧ R (f w).1 ∧ ((f w).2 = Ok tt → Q (f w).1)) → crash_safe P R Q [f].
Proof.
  intros H w Hw. destruct (H w Hw) as (H0 & H1 & H2). split.
  - intros [|[|k]]; [done|..]; cbn; destruct (f w) as [w1 [[]|e|]]; done.
  - intros w'. cbn. destruct (f w) as [w1 [[]|e|]]; [|done..]. intros [= <-]. by apply H2.
Qed.

Lemma crash_safe_weaken (P P' R R' Q Q' : W → Prop) l : crash_safe P R Q l →
  (∀ w, P' w → P w) → (∀ w, R w → R' w) → (∀ w, Q w → Q' w) → crash_safe P' R' Q' l.
Proof. intros H HP HR HQ w Hw. destruct (H w (HP w Hw)). split; [eauto|]. intros w' E. eauto. Qed.
End crash.

Section placed.
Context {W : Type} `{HW : World W} `{HFi : Files W} `{HRF : ReportFiles W}.
Context `{HB : Base64} `{HPJ : PrettyJson} `{HFC : !FileContents W}.

Lemma sibling_sym p q : sibling p q → sibling q p.
Proof. intros [? ?]. by split. Qed.
#[local] Hint Resolve sibling_sym : core.

Lemma split_file_app p : (split_file p).1 +:+ (split_file p).2 = p.
Proof.
  unfold split_file. destruct (before_last "/" p) as [d|] eqn:E; [|done].
  apply before_last_Some in E as (r & -> & _). cbn [fst snd].
  change (String "/" r) with ("/" +:+ r). rewrite <- str_app_assoc. f_equal.
  replace (S (String.length d)) with (String.length (d +:+ "/"))
    by (rewrite str_length_app; cbn; lia).
  apply str_drop_app.
Qed.

Lemma siblings_differ t p q : sibling t p → sibling t q → p ≠ q → sibling p q.
Proof.
  intros [H1 _] [H2 _] Hne. split; [congruence|]. intros E. apply Hne.
  rewrite <- (split_file_app p), <- (split_file_app q). congruence.
Qed.

(** Beside [tmp] nothing has changed since [w0]; or only [path] has, to [text]. *)
Definition framed (tmp : string) (w0 w : W) : Prop :=
  ∀ q, sibling tmp q → w_content w q = w_content w0 q.
Definition placed (tmp path : string) (w0 : W) (text : string) (w : W) : Prop :=
  w_content w path = Some text ∧
  ∀ q, sibling tmp q → sibling path q → w_content w q = w_content w0 q.

Lemma framed_step tmp w0 w w' : framed tmp w0 w →
  (∀ q, sibling tmp q → w_content w' q = w_content w q) → framed tmp w0 w'.
Proof. intros H Hs q Hq. by rewrite Hs, H. Qed.

Lemma framed_call tmp w0 (f : W → W * option Error) (P Q : W → Prop) :
  (∀ w q, sibling tmp q → w_content (f w).1 q = w_content w q) →
  (∀ w, P w → (f w).2 = None → Q (f w).1) →
  crash_safe (λ w, framed tmp w0 w ∧ P w) (framed tmp w0) (λ w, framed tmp w0 w ∧ Q w) [call f].
Proof.
  intros Hf HQ. apply crash_safe_one. intros w [Hw HP]. unfold call.
  specialize (HQ w HP). specialize (Hf w). destruct (f w) as [w1 [e|]]; cbn in *.
  - split; [done|]. split; [|done]. by eapply framed_step.
  - assert (framed tmp w0 w1) by (by eapply framed_step). eauto.
Qed.

Lemma chunks_safe tmp w0 chunks text :
  crash_safe (λ w, framed tmp w0 w ∧ w_content w tmp = Some text) (framed tmp w0)
    (λ w, framed tmp w0 w ∧ w_content w tmp = Some (text +:+ str_join "" chunks))
    (map (λ c, call (w_file_write_all tmp c)) chunks).
Proof.
  revert text. induction chunks as [|c chunks IH]; intros text.
  - apply crash_safe_nil. intros w [? ?]. cbn. by rewrite str_app_nil_r.
  - change (map ?f (c :: chunks)) with ([f c] ++ map f chunks).
    eapply crash_safe_app.
    + apply (framed_call _ _ _ _ (λ w, w_content w tmp = Some (text +:+ c))).
      * intros. by apply fc_write.
      * intros w Hw He. rewrite fc_write_ok by done. by rewrite Hw.
    + replace (str_join "" (c :: chunks)) with (c +:+ str_join "" chunks)
        by (destruct chunks; [cbn; by rewrite str_app_nil_r|done]).
      rewrite <- str_app_assoc. apply IH.
Qed.

(** [write_atomic]: at every moment the target is what it was or the whole new
    text, and nothing else in the directory but the temporary file has changed. *)
Lemma write_atomic_safe path tmp content synced w0 : sibling tmp path →
  crash_safe (framed tmp w0)
    (λ w, framed tmp w0 w ∨ ∃ chunks, content = Ok chunks ∧ placed tmp path w0 (str_join "" chunks) w)
    (λ w, ∃ chunks, content = Ok chunks ∧ placed tmp path w0 (str_join "" chunks) w)
    (write_atomic path tmp content synced).
Proof.
  intros Hs. unfold write_atomic. set (text c := w_content c tmp).
  assert (crash_safe (framed tmp w0) (framed tmp w0) (λ w, framed tmp w0 w ∧ text w = Some "")
            [call (w_create_file tmp)]) as Hcreate.
  { eapply crash_safe_weaken; [apply (framed_call tmp w0 (w_create_file tmp) (λ _, True) (λ w, text w = Some ""))|done..].
    - intros. by apply fc_create.
    - intros w _ ?. by apply fc_create_ok. }
  assert (∀ s, crash_safe (λ w, framed tmp w0 w ∧ text w = Some s) (framed tmp w0)
            (λ w, framed tmp w0 w ∧ text w = Some s) [call (w_sync_all tmp)]) as Hsync.
  { intros s. apply framed_call; intros; unfold text in *; by rewrite fc_sync. }
  eapply crash_safe_app; [eapply crash_safe_weaken; [exact Hcreate|done|by left|done]|].
  destruct content as [chunks|e|].
  2,3: change ([?f] ++ ?l) with (f :: l); intros w [Hw _]; split; [intros [|k]; cbn; by left|done].
  pose proof (chunks_safe tmp w0 chunks "") as Hchunks. cbn [String.append] in Hchunks.
  eapply crash_safe_app; [eapply crash_safe_weaken; [exact Hchunks|done|by left|done]|].
  set (body := str_join "" chunks) in *.
  apply (crash_safe_app _ _ (λ w, framed tmp w0 w ∧ text w = Some body)).
  { destruct synced; [|apply crash_safe_nil; intros w [? ?]; split; [by left|done]].
    eapply crash_safe_weaken; [apply (Hsync body)|done|by left|done]. }
  change [call (w_sync_all tmp); ?f] with ([call (w_sync_all tmp)] ++ [f]).
  eapply crash_safe_app; [eapply crash_safe_weaken; [apply (Hsync body)|done|by left|done]|].
  apply crash_safe_one. intros w [Hw Ht]. split; [by left|]. unfold call.
  pose proof (fc_rename_at tmp path w Hs) as Hat.
  pose proof (λ q, fc_rename tmp path w q Hs) as Hq.
  destruct (w_rename tmp path w) as [w1 [e|]]; cbn in *.
  - split; [left|done]. intros q Hsq. destruct (decide (path = q)) as [<-|Hne].
    + by rewrite Hat, Hw.
    + rewrite Hq; [by apply Hw|done|]. by apply (siblings_differ tmp).
  - assert (placed tmp path w0 body w1).
    { split; [by rewrite Hat|]. intros q H1 H2. rewrite Hq by done. by apply Hw. }
    split; [right|intros _]; exists chunks; done.
Qed.

(** *** The names *)

Lemma before_last_app c a b : has_char c b = false → before_last c (a +:+ String c b) = Some a.
Proof.
  intros Hb. induction a as [|x a IH]; cbn [String.append before_last].
  - destruct (before_last c b) as [l|] eqn:E; [|by rewrite decide_True].
    apply before_last_Some in E as (r & -> & _).
    rewrite has_char_app, has_char_cons, bool_decide_eq_true_2 in Hb by done. by destruct (has_char c l).
  - by rewrite IH.
Qed.

Lemma join_split_file dir : ∃ pre, ∀ name, name ≠ "" → has_char "/" name = false →
  path_join dir name = pre +:+ name ∧ split_file (pre +:+ name) = (pre, name).
Proof.
  assert (∀ name, has_char "/" name = false → before_last "/" name = None) as Hnone.
  { intros name Hn. destruct (before_last "/" name) as [l|] eqn:E; [|done].
    apply before_last_Some in E as (r & -> & _).
    rewrite has_char_app, has_char_cons, bool_decide_eq_true_2 in Hn by done. by destruct (has_char _ l). }
  assert (∀ d name, has_char "/" name = false →
            split_file ((d +:+ "/") +:+ name) = (d +:+ "/", name)) as Hslash.
  { intros d name Hn. unfold split_file. rewrite str_app_assoc.
    change ("/" +:+ name) with (String "/" name). rewrite (before_last_app "/" d name Hn). f_equal.
    replace (S (String.length d)) with (String.length (d +:+ "/")) by (rewrite str_length_app; cbn; lia).
    change (String "/" name) with ("/" +:+ name). rewrite <- str_app_assoc. apply str_drop_app. }
  assert (∀ name, has_char "/" name = false → starts_with "/" name = false) as Hrel.
  { intros [|c name]; [done|]. rewrite has_char_cons. unfold starts_with. cbn.
    case_decide; [subst; by rewrite bool_decide_eq_true_2|done]. }
  destruct (decide (dir = "")) as [->|Hd].
  { exists "". intros name _ Hn. unfold path_join, split_file. rewrite Hrel, Hnone by done. done. }
  destruct (ends_with "/" dir) eqn:He.
  - exists dir. intros name _ Hn. apply ends_with_spec in He as Hr. destruct Hr as [r ->].
    split; [|by apply Hslash]. unfold path_join. rewrite Hrel by done.
    destruct (String.eqb_spec (r +:+ "/") ""); [done|]. cbn. by rewrite He.
  - exists (dir +:+ "/"). intros name _ Hn. split; [|by apply Hslash]. unfold path_join.
    rewrite Hrel by done. destruct (String.eqb_spec dir ""); [done|]. cbn. rewrite He. by rewrite str_app_assoc.
Qed.

Lemma tmp_name_no_slash stem (pid n : N) : has_char "/" stem = false →
  has_char "/" (stem +:+ "." +:+ "tmp." +:+ pretty pid +:+ "." +:+ pretty n) = false.
Proof. intros H. rewrite !has_char_app, H, !pretty_N_no_char by done. done. Qed.

(** The four names a report uses are names of four files of one directory. *)
Lemma report_names dir (pid n m : N) :
  let plan := path_join dir ".plan.json" in
  let report := path_join dir ".report.json" in
  sibling (tmp_path plan pid n) plan ∧ sibling (tmp_path report pid m) report ∧
  sibling (tmp_path plan pid n) report ∧ sibling (tmp_path report pid m) plan ∧ sibling plan report.
Proof.
  destruct (join_split_file dir) as [pre H]. cbv zeta.
  destruct (H ".plan.json") as [-> Hp]; [done..|]. destruct (H ".report.json") as [-> Hr]; [done..|].
  unfold tmp_path, with_extension, sibling. rewrite Hp, Hr.
  change (file_stem ".plan.json") with ".plan". change (file_stem ".report.json") with ".report".
  destruct (H (".plan" +:+ "." +:+ "tmp." +:+ pretty pid +:+ "." +:+ pretty n)) as [_ ->];
    [done|by apply tmp_name_no_slash|].
  destruct (H (".report" +:+ "." +:+ "tmp." +:+ pretty pid +:+ "." +:+ pretty m)) as [_ ->];
    [done|by apply tmp_name_no_slash|]. done.
Qed.

(** *** The documents *)

Definition document (j : Json) : string := to_string_pretty j +:+ String LF "".
Definition plan_in_place (cfg : Config.Config) (plan : option MigrationPlan) (ws : option Workspace)
    (w : W) : Prop :=
  match plan with
  | None => w_content w (plan_path cfg) = None
  | Some p => ∃ objs, json_objects p ws = Ok objs ∧
      w_content w (plan_path cfg) = Some (document (plan_wire_json p objs))
  end.
Definition report_in_place (cfg : Config.Config) (command : string) (code : Z) (w : W) : Prop :=
  w_content w (report_path cfg) = Some (document (run_finished_json command code)).
Definition as_before (w0 : W) (path : string) (w : W) : Prop := w_content w path = w_content w0 path.

Lemma write_plan_json_Ok p ws chunks : write_plan_json p ws = Ok chunks →
  ∃ objs, json_objects p ws = Ok objs ∧ str_join "" chunks = document (plan_wire_json p objs).
Proof. intros (objs & Ho & [= <-])%outcome_bind_Ok. by exists objs. Qed.

Lemma plan_part_safe cfg plan ws pid n w0 :
  crash_safe (λ w, as_before w0 (plan_path cfg) w ∧ as_before w0 (report_path cfg) w)
    (λ w, as_before w0 (report_path cfg) w ∧
          (as_before w0 (plan_path cfg) w ∨ plan_in_place cfg plan ws w))
    (λ w, as_before w0 (report_path cfg) w ∧ plan_in_place cfg plan ws w)
    (match plan with
     | Some plan => write_atomic (plan_path cfg) (tmp_path (plan_path cfg) pid n)
                      (write_plan_json plan ws) false
     | None => [remove_stale (plan_path cfg)]
     end).
Proof.
  destruct (report_names (cfg_report_dir cfg) pid n n) as (Hp & _ & Hpr & _ & Hs).
  fold (plan_path cfg) (report_path cfg) in *. destruct plan as [p|].
  - intros w [Hw Hr].
    destruct (write_atomic_safe _ _ (write_plan_json p ws) false w Hp w (λ q _, eq_refl)) as [H1 H2].
    assert (∀ w', (∃ chunks, write_plan_json p ws = Ok chunks ∧ placed (tmp_path (plan_path cfg) pid n)
        (plan_path cfg) w (str_join "" chunks) w') →
      as_before w0 (report_path cfg) w' ∧ plan_in_place cfg (Some p) ws w') as Hplaced.
    { intros w' (chunks & (objs & Ho & Hj)%write_plan_json_Ok & Hpl & Hq).
      unfold as_before in *. rewrite Hq by done. split; [done|]. exists objs. by rewrite Hpl, Hj. }
    split; [|intros w' E; by apply Hplaced, H2].
    intros k. destruct (H1 k) as [Hf|Hpl]; [|apply Hplaced in Hpl as [? ?]; auto].
    unfold as_before in *. rewrite !Hf by done. auto.
  - apply crash_safe_one. intros w [Hw Hr]. unfold remove_stale, as_before, plan_in_place in *.
    pose proof (fc_remove_at (plan_path cfg) w) as Hat.
    pose proof (fc_remove (plan_path cfg) w (report_path cfg) Hs) as Hq.
    destruct (w_remove_file _ w) as [w1 [[|e]|]]; cbn in *; rewrite Hq, Hr.
    + destruct Hat as [-> ->]. auto.
    + rewrite Hat, Hw. repeat split; auto; done.
    + rewrite Hat. auto.
Qed.

Lemma report_part_safe cfg command code plan ws pid n w0 :
  crash_safe (λ w, as_before w0 (report_path cfg) w ∧ plan_in_place cfg plan ws w)
    (λ w, (as_before w0 (report_path cfg) w ∨ report_in_place cfg command code w) ∧
          plan_in_place cfg plan ws w)
    (λ w, report_in_place cfg command code w ∧ plan_in_place cfg plan ws w)
    (write_atomic (report_path cfg) (tmp_path (report_path cfg) pid n)
       (write_json (run_finished_json command code)) (cfg_report_sync cfg)).
Proof.
  destruct (report_names (cfg_report_dir cfg) pid n n) as (_ & Hr & _ & Hrp & Hs).
  fold (plan_path cfg) (report_path cfg) in *. intros w [Hw Hp].
  destruct (write_atomic_safe _ _ (write_json (run_finished_json command code)) (cfg_report_sync cfg)
              w Hr w (λ q _, eq_refl)) as [H1 H2].
  assert (∀ w', w_content w' (plan_path cfg) = w_content w (plan_path cfg) →
    plan_in_place cfg plan ws w') as Hplan.
  { intros w' E. unfold plan_in_place in *. destruct plan; by rewrite E. }
  assert (∀ w', (∃ chunks, write_json (run_finished_json command code) = Ok chunks ∧
      placed (tmp_path (report_path cfg) pid n) (report_path cfg) w (str_join "" chunks) w') →
    report_in_place cfg command code w' ∧ plan_in_place cfg plan ws w') as Hplaced.
  { intros w' (chunks & [= <-] & Hpl & Hq). split; [done|]. apply Hplan, Hq; auto. }
  split; [|intros w' E; by apply Hplaced, H2].
  intros k. destruct (H1 k) as [Hf|Hpl]; [|apply Hplaced in Hpl as [? ?]; auto].
  split; [left; unfold as_before in *; by rewrite Hf|]. by apply Hplan, Hf.
Qed.

(** C18. Reports never mislead.  Wherever a run is killed while it writes its
    reports, a reader finds in each file either what was there before or the
    whole new document, and the new run report only next to the plan of the same
    run; a run without a plan leaves none behind.  When the writing succeeds both
    are in place. *)
Theorem write_reports_crash_safe cfg command plan ws code n s :
  cfg_report_dir cfg ≠ "" →
  let w := st_world s in
  let steps := report_steps cfg command plan ws code (w_process_id w) n in
  (∀ k, let w' := (run_calls (take k steps) w).1 in
     (as_before w (report_path cfg) w' ∧
        (as_before w (plan_path cfg) w' ∨ plan_in_place cfg plan ws w')) ∨
     (report_in_place cfg command code w' ∧ plan_in_place cfg plan ws w')) ∧
  (∀ s', write_reports cfg command plan ws code n s = (Ok tt, s') →
     report_in_place cfg command code (st_world s') ∧ plan_in_place cfg plan ws (st_world s')).
Proof.
  intros Hdir. cbv zeta. set (w0 := st_world s).
  assert (crash_safe (λ w, w = w0)
    (λ w, (as_before w0 (report_path cfg) w ∧
             (as_before w0 (plan_path cfg) w ∨ plan_in_place cfg plan ws w)) ∨
          (report_in_place cfg command code w ∧ plan_in_place cfg plan ws w))
    (λ w, report_in_place cfg command code w ∧ plan_in_place cfg plan ws w)
    (report_steps cfg command plan ws code (w_process_id w0) n)) as Hall.
  { unfold report_steps. eapply crash_safe_app; [|eapply crash_safe_app].
    - apply (crash_safe_one _ _ (λ w, as_before w0 (plan_path cfg) w ∧ as_before w0 (report_path cfg) w)).
      intros w ->. unfold call, as_before. pose proof (fc_create_dir (cfg_report_dir cfg) w0) as Hd.
      destruct (w_create_dir_all _ w0) as [w1 [e|]]; cbn in *; rewrite !Hd;
        (split; [by left; auto|]); (split; [by left; auto|]); auto.
    - eapply crash_safe_weaken; [apply (plan_part_safe _ _ _ _ _ w0)|done|intros; by left|done].
    - eapply crash_safe_weaken; [apply (report_part_safe cfg command code plan ws _ _ w0)|done| |done]. intros w [[?|?] ?]; auto. }
  destruct (Hall w0 eq_refl) as [H1 H2]. split; [exact H1|].
  intros s'. unfold write_reports. destruct (String.eqb_spec (cfg_report_dir cfg) ""); [done|].
  fold w0. destruct (run_calls _ w0) as [w1 r] eqn:E. intros [= -> <-]. by apply H2.
Qed.
End placed.

(** ** One instance, and a run *)

Module ReportSample.

(** *** A printer: the value's code as a binary numeral *)

Abbreviation tree := (gen_tree (bool + (Z + string))) (only parsing).
Fixpoint to_tree (j : Json) : tree :=
  match j with
  | JBool b => GenLeaf (inl b)
  | JNum z => GenLeaf (inr (inl z))
  | JStr s => GenLeaf (inr (inr s))
  | JArr l => GenNode 0 (map to_tree l)
  | JOther s => GenNode 3 [GenLeaf (inr (inr s))]
  | JObj fields => GenNode 1 (map (λ kv, GenNode 2 [GenLeaf (inr (inr kv.1)); to_tree kv.2]) fields)
  end.
Fixpoint of_tree (t : tree) : Json :=
  match t with
  | GenLeaf (inl b) => JBool b
  | GenLeaf (inr (inl z)) => JNum z
  | GenLeaf (inr (inr s)) => JStr s
  | GenNode 1 l =>
      JObj (map (λ t, match t with GenNode _ [GenLeaf (inr (inr k)); v] => (k, of_tree v) | _ => ("", JBool false) end) l)
  | GenNode 3 [GenLeaf (inr (inr s))] => JOther s
  | GenNode _ l => JArr (map of_tree l)
  end.

Lemma of_tree_to_tree : ∀ j, of_tree (to_tree j) = j.
Proof.
  fix IH 1. intros [b|z|s|l|fields|s]; [done..| | |done]; cbn; f_equal.
  - induction l as [|j l IHl]; [done|]. cbn. by rewrite IH, IHl.
  - induction fields as [|[k j] l IHl]; [done|]. cbn. by rewrite IH, IHl.
Qed.

#[global] Program Instance printer : PrettyJson :=
  { to_string_pretty j := RefServer.pos_string (encode (to_tree j)) }.
Next Obligation.
  intros x y H. apply (f_equal RefServer.string_pos) in H.
  rewrite !RefServer.string_pos_string in H. apply (inj encode) in H.
  by rewrite <- (of_tree_to_tree x), H, of_tree_to_tree.
Qed.

#[global] Instance plain64 : Base64 :=
  { b64_encode b := b; b64_decode := Some; b64_decode_encode _ := eq_refl }.

(** *** A directory of files *)

Abbreviation fs := (gmap string string) (only parsing).
#[global] Instance files : Files fs := {
  w_file_len w p := N.of_nat ∘ String.length <$> w !! p;
  w_create_dir_all _ w := (w, None);
  w_write p t w := (<[p := t]> w, None);
  w_rename p r w :=
    match w !! p with
    | Some t => (<[r := t]> (delete p w), None)
    | None => (w, Some (Io "no such file"))
    end;
  w_process_id _ := 7%N;
}.
#[global] Instance report_files : ReportFiles fs := {
  w_create_file p w := (<[p := ""]> w, None);
  w_file_write_all p t w :=
    match w !! p with
    | Some c => (<[p := c +:+ t]> w, None)
    | None => (w, Some (Io "bad file descriptor"))
    end;
  w_sync_all _ w := (w, None);
  w_remove_file p w := match w !! p with Some _ => (delete p w, None) | None => (w, Some NotFound) end;
}.

Lemma sibling_ne p q : sibling p q → p ≠ q.
Proof. intros [_ H] ->. done. Qed.

#[global] Instance contents : FileContents fs.
Proof.
  refine {| w_content (w : fs) p := w !! p |}; cbn; intros;
    repeat match goal with H : sibling _ _ |- _ => apply sibling_ne in H end;
    repeat (case_match; simplify_eq/=);
    rewrite ?lookup_insert_eq, ?lookup_insert_ne, ?lookup_delete_eq, ?lookup_delete_ne by done;
    done.
Defined.

Definition cfg : Config.Config := Config_default <| cfg_report_dir := "/out" |>.
Definition old : fs := <["/out/.plan.json" := "old plan"]> (<["/out/.report.json" := "old run"]> ∅).
Definition start : St fs :=
  mk_St old false 0 (mk_IoProfile 0 0) ∅ ∅ ∅ None [].

(** A failed run: the report of the last one is replaced, its plan is gone. *)
Lemma write_reports_crash_safe_witness :
  cfg_report_dir cfg ≠ "" ∧
  (write_reports cfg "plan" None None 5 0 start).1 = Ok tt ∧
  report_in_place cfg "plan" 5 (st_world (write_reports cfg "plan" None None 5 0 start).2) ∧
  plan_in_place cfg None None (st_world (write_reports cfg "plan" None None 5 0 start).2).
Proof.
  assert (cfg_report_dir cfg ≠ "") as Hd by discriminate. split; [exact Hd|].
  split; [vm_compute; reflexivity|].
  destruct (write_reports_crash_safe cfg "plan" None None 5 0 start Hd) as [_ H].
  apply H. vm_compute. reflexivity.
Defined.

Definition users : PlannedObject :=
  mk_PlannedObject "dbo/tables/users" "App/dbo/tables/users.sql" "dbo" "tables" "users" "App" "" []
    (Some (mk_PlannedGit "abc" "A" "2026")) zero_digest CreateObject false.
End ReportSample.
