(* ===== verification/Cli.v ===== *)
(** * The command line ([cli/src/args.rs], [cli/src/main.rs], [engine/io.rs], [buildinfo/])

    From the arguments of the process to its exit status: the parser with the
    grammar it accepts, what a run prints and reports, and the code it exits with. *)

From S2P Require Export Engine Report.
From Stdlib Require Import Ascii.
From Stdlib Require String.

(** ** Arguments ([args.rs]) *)

Definition HELP_HINT : string := "Run 'rmig' or 'rmig --help' for usage.".
Definition HELP : string := "rmig — plan and apply MSSQL schema migrations from a repo SQL tree

Usage:
  rmig [--config <path>] [--json] <command>

Commands:
  plan              Scan SQL layout, diff against the database, write plan report
  migrate           Plan, scaffold blocked transitions, apply changes
  validate          Run checks without applying
  baseline          Adopt repository objects already present in the DB (initial baseline)
  repair-checksum   Repair audit checksum mismatches
  version           Print release version and git commit

Flags:
  --config <path>   Load typed TOML settings (default: config.toml)
  --json            Emit JSON output; with plan, write plan JSON to stdout and timings to stderr
  -h, --help        Show this help

Setup:
  1. Create config.toml in the working directory (or pass --config).
  2. Set database.server and paths.sql_root; set RM_DB_USER and RM_DB_PASSWORD in the environment.
  3. Run: rmig plan          # preview changes
     Run: rmig migrate        # apply when the plan looks correct

TOML fields and environment overrides:
  database.server / RM_DB_SERVER     SQL Server host (required)
  paths.sql_root / RM_SQL_ROOT       Root of <database>/<schema>/<kind>/<object>.sql tree (required)
  RM_DB_USER / RM_DB_PASSWORD        SQL authentication (required; environment only)
  paths.sql_base / RM_SQL_BASE       Migrations/scaffold path (defaults to RM_SQL_ROOT)
  paths.report_dir / RM_REPORT_DIR   Directory for .plan.json / .report.json artifacts
  RM_SKIP_GIT=1             Full catalog inspect without git delta preload
  RMIG_SESSION              Unix socket path when using rmigd session daemon

Examples:
  rmig plan
  rmig --config ops/config.toml plan --json
  rmig migrate
  rmig version
".
Definition hinted (m : string) : string := m +:+ String LF (String LF HELP_HINT).

Inductive ParsedArgs : Type :=
| Help
| Run (cmd : string) (config_file : option string) (json : bool).

(** The loop of [parse_args], one argument at a time. *)
Fixpoint parse_loop (args : list string) (cmd : string) (config_file : option string) (json : bool)
    : M ParsedArgs :=
  match args with
  | [] => Ok (if String.eqb cmd "" then Help else Run cmd config_file json)
  | arg :: rest =>
      if String.eqb arg "--config" then
        let missing := Err (InvalidInput (hinted "--config requires a path argument")) in
        match rest with
        | val :: rest =>
            if starts_with "-" val then missing else parse_loop rest cmd (Some val) json
        | [] => missing
        end
      else if String.eqb arg "--json" then parse_loop rest cmd config_file true
      else if String.eqb arg "-h" || String.eqb arg "--help" then Ok Help
      else if starts_with "-" arg then Err (InvalidInput (hinted ("unknown flag: " +:+ arg)))
      else if negb (String.eqb cmd "") then Err (InvalidInput ("unexpected arg: " +:+ arg))
      else parse_loop rest arg config_file json
  end.
Definition parse_args (args : list string) : M ParsedArgs := parse_loop args "" None false.

Definition parse_command (cmd : string) : M Command :=
  match_str cmd
    [ ("plan", Ok Plan); ("migrate", Ok Migrate); ("validate", Ok Validate);
      ("baseline", Ok Baseline); ("repair-checksum", Ok RepairChecksum) ]
    (Err (InvalidInput (hinted ("unknown command: " +:+ cmd)))).

(** *** The grammar *)

Inductive Item : Type := IConfig (path : string) | IJson | IWord (word : string).
Definition tokens (i : Item) : list string :=
  match i with IConfig p => ["--config"; p] | IJson => ["--json"] | IWord w => [w] end.
Definition item_ok (i : Item) : Prop :=
  match i with IConfig p => starts_with "-" p = false | IJson => True | IWord w => starts_with "-" w = false end.
Definition words (l : list Item) : list string :=
  omap (M:=list) (λ i, match i with IWord w => Some w | _ => None end) l.
Definition configs (l : list Item) : list string :=
  omap (M:=list) (λ i, match i with IConfig p => Some p | _ => None end) l.
Definition has_json (l : list Item) : bool :=
  existsb (λ i, match i with IJson => true | _ => false end) l.

(** The words of an invocation whose command is [cmd], after [sofar] was seen:
    empty arguments before the command are passed over, and nothing follows it. *)
Definition command_words (sofar cmd : string) (ws : list string) : Prop :=
  if String.eqb sofar "" then ∃ k, ws = replicate k "" ++ [cmd] else ws = [] ∧ cmd = sofar.

Lemma command_words_cons cmd w ws : cmd ≠ "" →
  command_words "" cmd (w :: ws) ↔ command_words w cmd ws.
Proof.
  intros Hc. unfold command_words. cbn. destruct (String.eqb_spec w "") as [->|Hw]; split.
  - intros [[|k] E]; simplify_eq/=; eauto.
  - intros [k ->]. by exists (S k).
  - intros [[|k] E]; by simplify_eq/=.
  - intros [-> ->]. by exists 0.
Qed.

Lemma last_config (f0 : option string) p l :
  default f0 (Some <$> last (p :: l)) = default (Some p) (Some <$> last l).
Proof. destruct l; [done|]. rewrite last_cons_cons. by destruct (last (s :: l)) eqn:E; [|by apply last_None in E]. Qed.

(** What the arguments from here on must look like. *)
Definition described (args : list string) (sofar : string) (f0 : option string) (j0 : bool)
    (cmd : string) (f : option string) (j : bool) (items : list Item) : Prop :=
  args = concat (map tokens items) ∧ Forall item_ok items ∧ command_words sofar cmd (words items) ∧
  f = default f0 (Some <$> last (configs items)) ∧ j = j0 || has_json items.

Lemma described_config p args sofar f0 j0 cmd f j items : starts_with "-" p = false →
  described args sofar (Some p) j0 cmd f j items →
  described ("--config" :: p :: args) sofar f0 j0 cmd f j (IConfig p :: items).
Proof.
  intros Hp (-> & ? & ? & -> & ->). split_and!; [done|by constructor|done| |done].
  symmetry. apply last_config.
Qed.
Lemma described_json args sofar f0 j0 cmd f j items :
  described args sofar f0 true cmd f j items →
  described ("--json" :: args) sofar f0 j0 cmd f j (IJson :: items).
Proof. intros (-> & ? & ? & -> & ->). split_and!; [done|by constructor|done..|by rewrite orb_true_r]. Qed.
Lemma described_word w args f0 j0 cmd f j items : starts_with "-" w = false → cmd ≠ "" →
  described args w f0 j0 cmd f j items →
  described (w :: args) "" f0 j0 cmd f j (IWord w :: items).
Proof.
  intros Hw Hc (-> & ? & ? & -> & ->). split_and!; [done|by constructor| |done..].
  by apply command_words_cons.
Qed.

Lemma parse_loop_sound args : ∀ sofar f0 j0 cmd f j,
  parse_loop args sofar f0 j0 = Ok (Run cmd f j) →
  cmd ≠ "" ∧ ∃ items, described args sofar f0 j0 cmd f j items.
Proof.
  induction args as [args IH] using (induction_ltof1 _ (@length string)). unfold ltof in IH.
  intros sofar f0 j0 cmd f j. destruct args as [|arg rest]; cbn [parse_loop].
  { destruct (String.eqb_spec sofar "") as [|Hne]; [done|]. intros [= <- <- <-]. split; [done|].
    exists []. unfold described, command_words. rewrite (proj2 (String.eqb_neq _ _)) by done.
    cbn. by rewrite orb_false_r. }
  destruct (String.eqb_spec arg "--config") as [->|].
  { destruct rest as [|val rest]; [done|]. destruct (starts_with "-" val) eqn:Hv; [done|].
    intros (? & items & H)%IH; [|cbn; lia]. split; [done|]. eexists. by apply described_config. }
  destruct (String.eqb_spec arg "--json") as [->|].
  { intros (? & items & H)%IH; [|cbn; lia]. split; [done|]. eexists. by apply described_json. }
  destruct (_ || _); [done|]. destruct (starts_with "-" arg) eqn:Ha; [done|].
  destruct (String.eqb_spec sofar "") as [->|]; [|done]. cbn [negb].
  intros (? & items & H)%IH; [|cbn; lia]. split; [done|]. eexists. by apply described_word.
Qed.

Lemma not_a_flag w flag : starts_with "-" w = false → starts_with "-" flag = true → String.eqb w flag = false.
Proof. intros Hw Hf. destruct (String.eqb_spec w flag); [congruence|done]. Qed.

Lemma parse_loop_complete items : ∀ sofar f0 j0 cmd f j, cmd ≠ "" →
  described (concat (map tokens items)) sofar f0 j0 cmd f j items →
  parse_loop (concat (map tokens items)) sofar f0 j0 = Ok (Run cmd f j).
Proof.
  induction items as [|i items IH]; intros sofar f0 j0 cmd f j Hc (_ & Hok & Hw & -> & ->).
  - unfold command_words in Hw. cbn. destruct (String.eqb_spec sofar "").
    + destruct Hw as [[|k] ?]; done.
    + destruct Hw as [_ ->]. by rewrite orb_false_r.
  - inversion Hok as [|? ? Hi Hok']; subst. destruct i as [p| |w]; cbn [map tokens concat app item_ok] in *.
    + cbn [parse_loop String.eqb]. rewrite Hi. apply IH; [done|]. split_and!; try done.
      by apply last_config.
    + cbn [parse_loop String.eqb]. apply IH; [done|]. split_and!; [done..|]. cbn. by rewrite orb_true_r.
    + cbn [words omap list_omap] in Hw. cbn [parse_loop].
      rewrite !(not_a_flag w) by done. cbn [orb]. rewrite Hi.
      assert (sofar = "") as ->.
      { unfold command_words in Hw. destruct (String.eqb_spec sofar ""); [done|]. by destruct Hw. }
      cbn [String.eqb negb]. apply IH; [done|]. split_and!; try done. by apply command_words_cons.
Qed.

(** C25. The command line means what its grammar says: [parse_args] yields a run of
    [cmd] exactly when the arguments are flags and words in any order, every
    [--config] followed by a path that is not itself a flag, and [cmd] the only
    word that is not empty (and the last one); the last configuration file given
    counts, and so does a [--json] anywhere. *)
Theorem parse_args_spec args cmd config_file json :
  parse_args args = Ok (Run cmd config_file json) ↔
  cmd ≠ "" ∧ ∃ items, args = concat (map tokens items) ∧ Forall item_ok items ∧
    (∃ k, words items = replicate k "" ++ [cmd]) ∧
    config_file = last (configs items) ∧ json = has_json items.
Proof.
  assert (∀ l : list string, default None (Some <$> last l) = last l) as Hd by (intros l; by destruct (last l)).
  split.
  - intros (Hc & items & -> & Hok & Hw & -> & ->)%parse_loop_sound. split; [done|].
    exists items. rewrite Hd. done.
  - intros (Hc & items & -> & Hok & Hw & -> & ->). apply parse_loop_complete; [done|].
    by split_and!.
Qed.

(** ** Version data ([buildinfo/mod.rs])

    [RMIG_VERSION] and [RMIG_COMMIT] are set, or not, when the program is built. *)

Section buildinfo.
Context (rmig_version rmig_commit : option string).

Definition version : string :=
  match rmig_version with
  | Some v => if negb (String.eqb (trim v) "") then trim v else "0.0.0-dev"
  | None => "0.0.0-dev"
  end.
Definition commit : string :=
  match rmig_commit with
  | Some c => if negb (String.eqb (trim c) "") && negb (String.eqb (trim c) "unknown") then trim c
              else "unknown"
  | None => "unknown"
  end.
Definition author : string := "Aleksey Gredyaev".
Definition summary : string := "rmig " +:+ version +:+ " " +:+ commit +:+ " by " +:+ author.
(** The keys of a [json!] object are kept sorted. *)
Definition build_json : Json :=
  JObj [("author", JStr author); ("commit", JStr commit); ("version", JStr version)].
End buildinfo.

(** ** Documents on the console ([timings/phase.rs], [engine/io.rs]) *)

Definition timings_json (t : PhaseTimings) : Json :=
  let ms (name : string) (v : Z) := unless (v =? 0)%Z name (JNum v) in
  let flag (name : string) (b : bool) := unless (negb b) name (JBool b) in
  JObj (ms "connect_ms" (pt_connect_ms t) ++ ms "scan_ms" (pt_scan_ms t)
    ++ ms "inspect_ms" (pt_inspect_ms t) ++ ms "checksums_ms" (pt_checksums_ms t)
    ++ ms "ensure_ms" (pt_ensure_ms t) ++ ms "parallel_wall_ms" (pt_parallel_wall_ms t)
    ++ ms "audit_ms" (pt_audit_ms t) ++ ms "diff_ms" (pt_diff_ms t)
    ++ ms "plan_wall_ms" (pt_plan_wall_ms t) ++ ms "cli_wall_ms" (pt_cli_wall_ms t)
    ++ ms "engine_ms" (pt_engine_ms t) ++ ms "apply_ms" (pt_apply_ms t)
    ++ ms "plan_db_query_calls" (pt_plan_db_query_calls t)
    ++ ms "plan_db_query_ms" (pt_plan_db_query_ms t)
    ++ ms "plan_db_checksums_batch_ms" (pt_plan_db_checksums_batch_ms t)
    ++ ms "plan_db_catalog_ms" (pt_plan_db_catalog_ms t)
    ++ ms "plan_db_catalog_sql_ms" (pt_plan_db_catalog_sql_ms t)
    ++ ms "plan_db_intern_catalog_ms" (pt_plan_db_intern_catalog_ms t)
    ++ ms "plan_db_round_trips" (pt_plan_db_round_trips t)
    ++ unless (String.eqb (pt_plan_db_path t) "") "plan_db_path" (JStr (pt_plan_db_path t))
    ++ flag "l1_cache_hit" (pt_l1_cache_hit t) ++ flag "plan_db_bootstrap" (pt_plan_db_bootstrap t)
    ++ flag "plan_db_catalog_queried" (pt_plan_db_catalog_queried t)
    ++ flag "plan_db_history_empty" (pt_plan_db_history_empty t)
    ++ flag "plan_db_checksums_skipped" (pt_plan_db_checksums_skipped t)).

(** The two output streams of the process, and the compact form of [serde_json]. *)
Inductive Out : Type := Stdout | Stderr.
Class Console (W : Type) := {
  w_print : Out → string → W → W * option Error;
  to_string_compact : Json → string;
}.

(** The [toml] crate: the value of a text, and a value as the typed file. *)
Class Toml := {
  toml_parse : string → string + TomlValue;
  toml_typed : TomlValue → string + TomlConfig;
}.

Section cli.
Context {W : Type} `{HW : World W} `{HN : !Net W} `{HCl : Clock W} `{HFi : Files W}.
Context `{HDi : Dirs W} `{HCh : Chrono W} `{HST : SourceTree W} `{HRF : ReportFiles W} `{HCo : Console W}.
Context `{HU : Unicode} `{HUp : Uppercase} `{HF : Fingerprint} `{HM : MapOrder} `{HX : Hex}.
Context `{HS : Sha256} `{HJ : HistoryJson} `{HJS : SerdeJson} `{HC : CacheFormats}.
Context `{HSJ : SessionJson} `{HTR : TableRefsJson} `{HB : Base64} `{HPJ : PrettyJson} `{HTo : Toml}.
Context `{HFS : FloatSecs} {G : Type} `{HG : GitTool G} `{HHF : HostFiles} (g : G).
Context (env : string → EnvVar) (published : option string).
Context (plan_db_ms : St W → St W → PlanDbMs).
Context (rmig_version rmig_commit : option string).
(** A signal that arrives before the run is over: its name, and the state in which
    the run was dropped. *)
Context (interrupt : Command → Config.Config → St W → option (string * St W)).

(** [print!], [println!] and [eprintln!] panic when the stream is gone. *)
Definition print (o : Out) (text : string) : IO W unit := λ s,
  let '(w, e) := w_print o text (st_world s) in
  (match e with None => Ok tt | Some _ => Panic end, set_world w s).
Definition println (o : Out) (line : string) : IO W unit := print o (line +:+ String LF "").

Definition print_help : IO W unit := print Stdout HELP.

Definition write_timings_json (t : PhaseTimings) (to_stderr : bool) : IO W unit :=
  println (if to_stderr then Stderr else Stdout) (to_string_pretty (timings_json t)).

Definition print_version (json : bool) : IO W unit :=
  if json then
    fs_call (w_print Stdout (to_string_compact (build_json rmig_version rmig_commit)));;
    fs_call (w_print Stdout (String LF ""))
  else println Stdout (summary rmig_version rmig_commit).

Fixpoint write_out (chunks : list string) : IO W unit :=
  match chunks with [] => mret tt | c :: chunks => fs_call (w_print Stdout c);; write_out chunks end.
Definition write_plan_stdout (plan : MigrationPlan) (ws : option Workspace) : IO W unit :=
  chunks ← lift (write_plan_json plan ws); write_out chunks.

(** ** A run ([main.rs]) *)

Definition load_toml_config (path : string) (required : bool) : IO W TomlConfig := λ s,
  let w := st_world s in
  let text := match w_read_file w path with
              | inl e => inl (error_fmt e)
              | inr t => if valid_utf8 t then inr t else inl "stream did not contain valid UTF-8"
              end in
  (load_toml_config_inner path (w_exists w path) required text toml_parse toml_typed, s).

Definition validated (cfg : Config.Config) : IO W Config.Config := λ s,
  (validate_config env (w_tree (st_world s) (cfg_sql_root cfg)) cfg, s).

(** [tokio::select!] between the run and a signal. *)
Definition run_or_interrupt (command : Command) (cfg : Config.Config)
    : IO W (string + (Error + RunOutput)) := λ s,
  match interrupt command cfg s with
  | Some (signal, s) => (Ok (inl signal), s)
  | None => (inr <$> attempt (run_command g env published plan_db_ms command cfg)) s
  end.

Definition print_blockers (plan : option MigrationPlan) : IO W unit :=
  match plan with
  | Some plan =>
      foldr (λ b rest, println Stderr ("rmig: blocked: " +:+ b);; rest) (mret tt) (mp_blockers plan)
  | None => mret tt
  end.

Definition report_success (cfg : Config.Config) (cmd : string) (command : Command) (json : bool)
    (out : RunOutput) : IO W Z :=
  (if json then
     match ro_plan out with
     | Some plan => if bool_decide (command = Plan) then write_plan_stdout plan None else mret tt
     | None => mret tt
     end;;
     write_timings_json (ro_timings out) (bool_decide (command = Plan))
   else mret tt);;
  (if (ro_exit_code out =? EXIT_PLAN_BLOCKED)%Z && negb json then
     print_blockers (ro_plan out);;
     println Stderr "rmig: plan is blocked; run 'rmig plan --json' for details"
   else mret tt);;
  write_reports cfg cmd (ro_plan out) None (ro_exit_code out) 0;;
  mret (ro_exit_code out).

Definition report_failure (cfg : Config.Config) (cmd : string) (e : Error) : IO W Z :=
  r ← attempt (write_reports cfg cmd None None (exit_code e) 0);
  match r with
  | inl werr => println Stderr ("warning: failed to write failure report: " +:+ error_fmt werr)
  | inr tt => mret tt
  end;;
  lift (Err e).

Definition EXIT_INTERRUPTED : Z := 130.

Definition run_command_line (cmd : string) (config_file : option string) (json : bool) : IO W Z :=
  if String.eqb cmd "version" then print_version json;; mret 0%Z
  else
    command ← lift (parse_command cmd);
    file ← match config_file with
           | Some path => load_toml_config path true
           | None => load_toml_config "config.toml" false
           end;
    cfg ← validated (build_config env file);
    outcome ← run_or_interrupt command cfg;
    match outcome with
    | inl signal =>
        println Stderr ("rmig: interrupted by " +:+ signal +:+ "; aborted at a safe statement boundary");;
        attempt (write_reports cfg cmd None None EXIT_INTERRUPTED 0);;
        mret EXIT_INTERRUPTED
    | inr (inr out) => report_success cfg cmd command json out
    | inr (inl e) => report_failure cfg cmd e
    end.

Definition run (args : list string) : IO W Z :=
  parsed ← lift (parse_args args);
  match parsed with
  | Help => print_help;; mret 0%Z
  | Run cmd config_file json => run_command_line cmd config_file json
  end.

(** [code as u8]. *)
Definition as_u8 (z : Z) : N := Z.to_N (z `mod` 256).

Definition main (args : list string) : IO W N :=
  r ← attempt (run args);
  match r with
  | inr code => mret (as_u8 code)
  | inl e => println Stderr ("rmig: " +:+ error_fmt e);; mret (as_u8 (exit_code e))
  end.
End cli.

(** ** Every plan that is returned can be printed

    [write_plan_json] is given no workspace by the command line: it needs a plan
    whose rows are all materialised. *)

Definition materialized (p : MigrationPlan) : Prop := length (mp_objects p) = length (mp_rows p).

Lemma materialized_prints p : materialized p → json_objects p None = Ok (mp_objects p).
Proof.
  unfold materialized, json_objects. intros H. rewrite (proj2 (Nat.eqb_eq _ _) H).
  by case_bool_decide.
Qed.

Lemma ensure_materializes ws p p' : ensure_objects_materialized ws p = Ok p' →
  mp_objects p = [] ∨ materialized p → materialized p'.
Proof.
  unfold ensure_objects_materialized, materialized. destruct (mp_rows p) as [|r rows] eqn:Hr.
  - intros [= <-] [-> |?]; rewrite Hr in *; done.
  - destruct (Nat.eqb_spec (length (mp_objects p)) (length (r :: rows))) as [E|].
    + intros [= <-] _. by rewrite Hr.
    + intros (objs & Ho & [= <-])%outcome_bind_Ok _. cbn.
      apply traverse_length in Ho. by rewrite Ho, Hr, length_imap.
Qed.

Lemma ensure_materialized_id ws p : materialized p → ensure_objects_materialized ws p = Ok p.
Proof.
  unfold ensure_objects_materialized, materialized. intros H.
  destruct (mp_rows p); [done|]. by rewrite (proj2 (Nat.eqb_eq _ _) H).
Qed.

Lemma filter_applied_on_plan_objects `{HX : Hex} w applied p p' l :
  filter_applied_migrations_on_plan w applied p = Ok (p', l) → materialized p →
  mp_objects p' = [] ∨ materialized p'.
Proof.
  unfold filter_applied_migrations_on_plan, materialized.
  intros (cur & _ & ([p1 t] & Hf & [= <- _])%outcome_bind_Ok)%outcome_bind_Ok Hm.
  destruct (mp_rows p) as [|r rows] eqn:Hr.
  - injection Hf as E. apply length_zero_iff_nil in Hm. unfold filter_legacy_objects in E.
    rewrite Hm in E. injection E as <- _. by left.
  - unfold filter_rows in Hf. destruct (negb _).
    + injection Hf as <- _. right. by rewrite Hr.
    + apply outcome_bind_Ok in Hf as ([tr t'] & _ & [= <- _]). by left.
Qed.

(** Codes the documentation of [error.rs] lists. *)
Definition documented (code : Z) : Prop := code ∈ [0; 1; 2; 3; 4; 5; 7; 8; 10]%Z.
Definition output_ok (out : RunOutput) : Prop :=
  documented (ro_exit_code out) ∧ ∀ p, ro_plan out = Some p → materialized p.

Lemma exit_code_documented e : documented (exit_code e).
Proof. unfold documented. destruct e; cbn; set_solver. Qed.
Lemma documented_max a b : documented a → documented b → documented (Z.max a b).
Proof. intros. by destruct (Z.max_spec a b) as [[_ ->]|[_ ->]]. Qed.

Section printable.
Context {W : Type} `{HW : World W} `{HN : !Net W} `{HCl : Clock W} `{HFi : Files W}.
Context `{HDi : Dirs W} `{HCh : Chrono W} `{HST : SourceTree W}.
Context `{HU : Unicode} `{HUp : Uppercase} `{HF : Fingerprint} `{HM : MapOrder} `{HX : Hex}.
Context `{HS : Sha256} `{HJ : HistoryJson} `{HJS : SerdeJson} `{HC : CacheFormats}.
Context `{HSJ : SessionJson} `{HTR : TableRefsJson}.
Context {G : Type} `{HG : GitTool G} `{HHF : HostFiles} (g : G).
Context (env : string → EnvVar) (published : option string).
Context (plan_db_ms : St W → St W → PlanDbMs).

(** Every value [m] returns satisfies [R]. *)
Definition returns {A} (R : A → Prop) (m : IO W A) : Prop := ∀ s x s', m s = (Ok x, s') → R x.

Lemma returns_bind {A B} (R : A → Prop) (R' : B → Prop) (m : IO W A) (f : A → IO W B) :
  returns R m → (∀ x, R x → returns R' (f x)) → returns R' (m ≫= f).
Proof. intros Hm Hf s y s' (x & s1 & H1 & H2)%io_bind_Ok. eapply Hf; [|exact H2]. by eapply Hm. Qed.
Lemma returns_seq {A B} (R' : B → Prop) (m : IO W A) (f : A → IO W B) :
  (∀ x, returns R' (f x)) → returns R' (m ≫= f).
Proof. intros Hf. by apply (returns_bind (λ _, True)). Qed.
Lemma returns_ret {A} (R : A → Prop) x : R x → returns R (mret x).
Proof. by intros H s y s' [= <- _]. Qed.
Lemma returns_lift {A} (R : A → Prop) (m : M A) : (∀ x, m = Ok x → R x) → returns R (lift m).
Proof. intros H s x s' E%lift_val. auto. Qed.
Lemma returns_fmap {A B} (R : B → Prop) (f : A → B) (m : IO W A) : (∀ x, R (f x)) → returns R (f <$> m).
Proof. intros H s y s'. unfold fmap, io_fmap. destruct (m s) as [[x|e|] s1]; [|done..]. by intros [= <- _]. Qed.
Lemma returns_attempt {A} (R : A → Prop) (m : IO W A) :
  returns R m → returns (λ r, match r with inr x => R x | inl _ => True end) (attempt m).
Proof. intros H s x s'. unfold attempt. specialize (H s). destruct (m s) as [[y|e|] s1]; intros [= <- _]; eauto. Qed.

Lemma plan_phase_returns cmd cfg ws t :
  returns (λ x, materialized x.1.1) (plan_phase (W:=W) g env plan_db_ms cmd cfg ws t).
Proof.
  unfold plan_phase. do 4 (apply returns_seq; intros ?). apply returns_seq; intros t0.
  apply (returns_bind (λ x, mp_objects x.2 = [])).
  { apply returns_lift. intros [w p] E. exact (compute_diff_no_objects _ _ _ _ _ E). }
  intros [w p] Hp. apply returns_seq; intros ms. apply returns_seq; intros at_. cbn in Hp |- *.
  apply (returns_bind materialized); [|intros p' ?; by apply returns_ret].
  apply returns_lift. intros p'. unfold uses_slim_rows. case_bool_decide as Hr; cbn.
  - intros [= <-]. unfold materialized. cbn. cbn in Hr. by rewrite Hp, Hr.
  - intros E. eapply ensure_materializes; [exact E|by left].
Qed.

Lemma execute_plan_returns cfg ws plan : mp_objects plan = [] ∨ materialized plan →
  returns (λ x, materialized x.2) (execute_plan (W:=W) cfg ws plan).
Proof.
  intros Hp. unfold execute_plan. destruct (mp_blocked plan); [by apply returns_lift|].
  apply (returns_bind materialized).
  { apply returns_lift. intros p E. by eapply ensure_materializes. }
  intros p Hm. cbv zeta. do 3 (apply returns_seq; intros ?).
  destruct (Nat.ltb _ _); [by apply returns_fmap|]. apply returns_seq; intros r.
  destruct (Nat.ltb _ _); [by apply returns_fmap|]. apply returns_seq; intros r'. by apply returns_fmap.
Qed.

Lemma execute_metadata_plan_returns cfg ws plan mode : materialized plan →
  returns (λ x, materialized x.2) (execute_metadata_plan (W:=W) cfg ws plan mode).
Proof.
  intros Hp. unfold execute_metadata_plan. destruct (_ && _); [by apply returns_lift|].
  apply (returns_bind materialized).
  { apply returns_lift. intros p E. rewrite ensure_materialized_id in E by done. congruence. }
  intros p Hm. cbv zeta. do 2 (apply returns_seq; intros ?). apply returns_seq; intros [ok r].
  by apply returns_fmap.
Qed.

Lemma apply_plan_returns cmd cfg ws plan t : materialized plan →
  returns (λ x, materialized x.1.1) (apply_plan (W:=W) g cmd cfg ws plan t).
Proof.
  intros Hp. destruct cmd; cbn [apply_plan]; try by apply returns_ret.
  2,3: unfold apply_metadata; apply returns_seq; intros t0;
    (eapply returns_bind; [by apply execute_metadata_plan_returns|]);
    intros [r p] Hm; apply returns_seq; intros ms; by apply returns_ret.
  unfold apply_migrate. destruct (mp_blocked plan).
  { apply returns_seq; intros r. by apply returns_ret. }
  apply (returns_bind (λ x, x.1 = plan)).
  { apply returns_lift. intros [p r]. unfold ensure_adopt_allowed.
    destruct (cfg_allow_adopt cfg); [by intros [= <- _]|].
    rewrite ensure_materialized_id by done. by intros [= <- _]. }
  intros [p [e|[]]] [= ->]; [by apply returns_ret|].
  eapply returns_bind; [apply (returns_attempt (λ x, materialized x.1.1))|].
  - apply (returns_bind (λ p, mp_objects p = [] ∨ materialized p)).
    + unfold filter_applied. destruct (negb _); [by apply returns_ret; right|].
      apply returns_seq; intros applied. apply (returns_bind (λ x, mp_objects x.1 = [] ∨ materialized x.1)).
      { apply returns_lift. intros [p l] E. exact (filter_applied_on_plan_objects _ _ _ _ _ E Hp). }
      intros [p l] Hm. case_bool_decide; [by apply returns_ret|by apply returns_lift].
    + intros p Hm. unfold run_executor. apply returns_seq; intros t0.
      eapply returns_bind; [by apply execute_plan_returns|]. intros [r p'] Hm'.
      do 2 (apply returns_seq; intros ?). by apply returns_ret.
  - intros [e|x] Hx; by apply returns_ret.
Qed.

Lemma locked_returns {A} (R : A → Prop) cfg (body : IO W A) : returns R body → returns R (locked cfg body).
Proof. intros H s x s' (s1 & s2 & _ & Hb)%locked_Ok. by eapply H. Qed.

Lemma locked_body_returns cmd cfg ws t :
  returns (λ x, materialized x.1.1) (locked_body (W:=W) g env plan_db_ms cmd cfg ws t).
Proof.
  unfold locked_body. eapply returns_bind; [apply plan_phase_returns|]. intros [[p w] t1] Hp.
  eapply returns_bind; [by apply apply_plan_returns|]. intros [[p' t2] r] Hp'. cbn in Hp'.
  destruct r as [[]|[]]; try (by apply returns_lift); [|by apply returns_ret].
  case_bool_decide; [by apply returns_ret|by apply returns_lift].
Qed.

Lemma plan_read_only_returns cmd cfg ws t :
  returns (λ x, materialized x.1.1) (plan_read_only (W:=W) g env plan_db_ms cmd cfg ws t).
Proof.
  unfold plan_read_only. eapply returns_bind; [apply plan_phase_returns|]. intros [[p w] t1] Hp.
  by apply returns_ret.
Qed.

Lemma database_returns cmd cfg ws scan start multi :
  returns output_ok (run_command_for_database (W:=W) g env published plan_db_ms cmd cfg ws scan start multi).
Proof.
  intros s out s' H. split.
  { apply database_exit_code in H as (plan & _ & Hc%database_code_cases). unfold documented.
    unfold EXIT_PLAN_BLOCKED in Hc. set_solver. }
  revert s out s' H.
  change (returns (λ out, ∀ p, ro_plan out = Some p → materialized p)
    (run_command_for_database (W:=W) g env published plan_db_ms cmd cfg ws scan start multi)).
  unfold run_command_for_database. do 4 (apply returns_seq; intros ?). cbv zeta.
  apply (returns_bind (λ x, materialized x.1.1)).
  { destruct (command_mutates cmd); [|apply plan_read_only_returns].
    apply locked_returns, locked_body_returns. }
  intros [[p code] t] Hp. apply returns_seq; intros wall. apply returns_ret. cbn. by intros q [= <-].
Qed.

Definition state_ok (st : RunState) : Prop :=
  documented (rst_exit_code st) ∧ ∀ p, rst_last_plan st = Some p → materialized p.

Lemma merge_output_ok st out : state_ok st → output_ok out → state_ok (merge_output st out).
Proof.
  intros [Hc Hp] [Hc' Hp']. split; [by apply documented_max|]. cbn. intros q.
  destruct (ro_plan out) as [p|]; [|auto]. unfold merge_plan. intros Hq.
  destruct (rst_last_plan st) as [p0|]; injection Hq as <-; [|auto].
  unfold materialized, merge_plan_into. cbn. rewrite !length_app.
  pose proof (Hp p0 eq_refl) as H0. pose proof (Hp' p eq_refl) as H1. unfold materialized in *. lia.
Qed.

Lemma run_database_returns cmd cfg ws scan start multi st db : state_ok st →
  returns state_ok (run_database (W:=W) g env published plan_db_ms cmd cfg ws scan start multi st db).
Proof.
  intros Hst. unfold run_database. apply returns_seq; intros w. destruct (_ && multi); [by apply returns_ret|].
  apply returns_seq; intros present. destruct (negb present); [by apply returns_ret|].
  eapply returns_bind; [apply returns_attempt, database_returns|]. intros [e|out] Hout.
  - destruct multi; [|by apply returns_lift]. apply returns_ret. destruct Hst as [Hc Hp].
    split; [|done]. apply documented_max; [done|apply exit_code_documented].
  - apply returns_ret. by apply merge_output_ok.
Qed.

Lemma run_databases_returns cmd cfg ws scan start multi dbs : ∀ st, state_ok st →
  returns state_ok (run_databases (W:=W) g env published plan_db_ms cmd cfg ws scan start multi st dbs).
Proof.
  induction dbs as [|db dbs IH]; intros st Hst; cbn [run_databases]; [by apply returns_ret|].
  eapply returns_bind; [by apply run_database_returns|]. intros st' Hst'. by apply IH.
Qed.

Lemma run_command_returns cmd cfg :
  returns output_ok (run_command (W:=W) g env published plan_db_ms cmd cfg).
Proof.
  unfold run_command. case_bool_decide.
  { apply returns_ret. split; [unfold documented; cbn; set_solver|done]. }
  do 6 (apply returns_seq; intros ?). cbv zeta.
  apply (returns_bind state_ok).
  { apply run_databases_returns. split; [unfold documented; cbn; set_solver|done]. }
  intros st [Hc Hp]. destruct (negb _); [by apply returns_lift|].
  apply returns_seq; intros wall. by apply returns_ret.
Qed.
End printable.

(** ** What the process exits with *)

Section exit_status.
Context {W : Type} `{HW : World W} `{HN : !Net W} `{HCl : Clock W} `{HFi : Files W}.
Context `{HDi : Dirs W} `{HCh : Chrono W} `{HST : SourceTree W} `{HRF : ReportFiles W} `{HCo : Console W}.
Context `{HU : Unicode} `{HUp : Uppercase} `{HF : Fingerprint} `{HM : MapOrder} `{HX : Hex}.
Context `{HS : Sha256} `{HJ : HistoryJson} `{HJS : SerdeJson} `{HC : CacheFormats}.
Context `{HSJ : SessionJson} `{HTR : TableRefsJson} `{HB : Base64} `{HPJ : PrettyJson} `{HTo : Toml}.
Context `{HFS : FloatSecs} {G : Type} `{HG : GitTool G} `{HHF : HostFiles} (g : G).
Context (env : string → EnvVar) (published : option string).
Context (plan_db_ms : St W → St W → PlanDbMs).
Context (rmig_version rmig_commit : option string).
Context (interrupt : Command → Config.Config → St W → option (string * St W)).
Abbreviation run_args := (run (W:=W) g env published plan_db_ms rmig_version rmig_commit interrupt).

(** A run that ended with [code]: its command, its result, and its reports. *)
Definition reported (cmd : string) (code : Z) : Prop :=
  ∃ command cfg s1 out s2 s3 s4, parse_command cmd = Ok command ∧
    run_command (W:=W) g env published plan_db_ms command cfg s1 = (Ok out, s2) ∧
    ro_exit_code out = code ∧
    write_reports cfg cmd (ro_plan out) None code 0 s3 = (Ok tt, s4).

Lemma report_success_spec cfg cmd command json out s code s' :
  report_success (W:=W) cfg cmd command json out s = (Ok code, s') →
  code = ro_exit_code out ∧ ∃ s3 s4, write_reports cfg cmd (ro_plan out) None code 0 s3 = (Ok tt, s4).
Proof.
  unfold report_success. intros (x & s1 & _ & (y & s2 & _ & ([] & s3 & Hw & [= <- _])%io_bind_Ok)%io_bind_Ok)%io_bind_Ok.
  eauto.
Qed.

Lemma run_spec args s code s' : run_args args s = (Ok code, s') →
  (documented code ∨ code = EXIT_INTERRUPTED) ∧
  (code = 0%Z → parse_args args = Ok Help ∨
     (∃ file json, parse_args args = Ok (Run "version" file json)) ∨
     ∃ cmd file json, parse_args args = Ok (Run cmd file json) ∧ reported cmd 0).
Proof.
  assert (documented 0) as H0 by (unfold documented; set_solver).
  unfold run. intros (parsed & s1 & Hp%lift_val & H)%io_bind_Ok. destruct parsed as [|cmd file json].
  { apply io_bind_Ok in H as (x & s2 & _ & [= <- _]). split; [by left|]. intros _. by left. }
  unfold run_command_line in H. destruct (String.eqb_spec cmd "version") as [->|].
  { apply io_bind_Ok in H as (x & s2 & _ & [= <- _]). split; [by left|]. intros _. right. left.
    by exists file, json. }
  apply io_bind_Ok in H as (command & s2 & Hc%lift_val & (toml & s3 & _ & (cfg & s4 & _ & (outcome & s5 & Ho & H)
    %io_bind_Ok)%io_bind_Ok)%io_bind_Ok).
  unfold run_or_interrupt in Ho.
  destruct (interrupt command cfg s4) as [[signal si]|].
  { injection Ho as <- <-. apply io_bind_Ok in H as (x & s6 & _ & (y & s7 & _ & [= <- _])%io_bind_Ok). 
    split; [by right|done]. }
  unfold fmap, io_fmap, attempt in Ho.
  destruct (run_command _ _ _ _ command cfg s4) as [[out|e|] s6] eqn:Er;
    [| |done]; injection Ho as <- <-.
  - apply report_success_spec in H as [-> (s7 & s8 & Hw)].
    split; [left; by apply (run_command_returns _ _ _ _ _ _ _ _ _ Er)|].
    intros Hz. right. right. exists cmd, file, json. split; [done|]. rewrite Hz in Hw.
    by exists command, cfg, s4, out, s6, s7, s8.
  - unfold report_failure in H. by apply io_bind_Ok in H as (r & s7 & _ & (x & s8 & _ & [=])%io_bind_Ok).
Qed.


(** C24. Every plan a command returns can be printed as it is: its rows are all
    materialised, so [--json] and the report of the plan never fail for want of
    the workspace. *)
Theorem every_plan_prints command cfg s out s' plan :
  run_command (W:=W) g env published plan_db_ms command cfg s = (Ok out, s') →
  ro_plan out = Some plan → json_objects plan None = Ok (mp_objects plan).
Proof. intros [_ Hp]%run_command_returns Hq. by apply materialized_prints, Hp. Qed.
End exit_status.

(** ** A process *)

Module CliSample.
Import EngineSample.
#[local] Existing Instances Concrete.unicode Concrete.fingerprint Concrete.map_order Concrete.hex
  Concrete.digest RefServer.json RefServer.world DriverSample.net DriverSample.files
  DriverSample.clock DriverSample.messages ScaffoldSample.uppercase ScaffoldSample.no_git
  ScaffoldSample.dirs ScopeSample.serde PlanDbSample.formats ReportSample.printer
  ReportSample.plain64 ConfigSample.float_secs.

#[global] Instance report_files : ReportFiles RefServer.Server := {
  w_create_file _ w := (w, None);
  w_file_write_all _ _ w := (w, None);
  w_sync_all _ w := (w, None);
  w_remove_file _ w := (w, None);
}.
#[global] Instance console : Console RefServer.Server :=
  { w_print _ _ w := (w, None); to_string_compact _ := "{}" }.
#[global] Instance no_toml : Toml :=
  { toml_parse _ := inl "expected a table"; toml_typed _ := inl "expected a table" }.

Definition env (name : string) : EnvVar :=
  if String.eqb name "RM_SQL_ROOT" then EnvText "/src" else ConfigSample.env name.
Definition process (args : list string) : M N * St RefServer.Server :=
  main tt env None no_ms None None (λ _ _ _, None) args start.

(** Help, the version, a migration, a printed plan, a check; an unknown command and
    a flag without its value. *)
Example statuses :
  map (λ args, (process args).1)
    [[]; ["version"]; ["migrate"]; ["plan"; "--json"]; ["validate"]; ["frobnicate"]; ["plan"; "--config"]] =
  [Ok 0; Ok 0; Ok 0; Ok 0; Ok 0; Ok 8; Ok 8]%N.
Proof. vm_compute. reflexivity. Qed.


Lemma every_plan_prints_witness :
  ∃ out s' plan, run_command (W:=RefServer.Server) tt no_env None no_ms Plan cfg start = (Ok out, s') ∧
    ro_plan out = Some plan ∧ json_objects plan None = Ok (mp_objects plan) ∧ mp_objects plan ≠ [].
Proof.
  assert (match (run_command (W:=RefServer.Server) tt no_env None no_ms Plan cfg start).1 with
          | Ok out => match ro_plan out with Some p => negb (bool_decide (mp_objects p = [])) | None => false end
          | _ => false
          end = true) as H by (vm_compute; reflexivity).
  destruct (run_command tt no_env None no_ms Plan cfg start) as [[out|e|] s'] eqn:E; [|discriminate H..].
  cbn [fst] in H. destruct (ro_plan out) as [plan|] eqn:Ep; [|discriminate H].
  exists out, s', plan. split_and!; [reflexivity|exact Ep| |].
  - exact (every_plan_prints tt no_env None no_ms Plan cfg start out s' plan E Ep).
  - intros H0. rewrite H0 in H. discriminate H.
Defined.
End CliSample.
