(* ===== verification/E2e.v ===== *)
(** * End-to-end reports ([gate/e2e_report/])

    What a scenario of the regression harness leaves behind, the comparison of a
    run with a committed baseline (behaviour exactly, wall times within a
    tolerance computed in binary64), and the JSON files of both. *)

From S2P Require Export Cli.
From Stdlib Require Import Ascii.
From Stdlib Require String.
From Stdlib Require Import SpecFloat.

(** ** Reports ([types.rs]) *)

(** [IoProfile] with its times. *)
Record IoTotals := mk_IoTotals {
  iot_query_ms : Z;
  iot_query_calls : Z;
  iot_exec_ms : Z;
  iot_exec_calls : Z;
}.

Record E2EScenarioReport := mk_E2EScenarioReport {
  sr_scenario : string;
  sr_setup_steps : list string;
  sr_timings : PhaseTimings;
  sr_io : IoTotals;
  sr_snapshot : PlanSnapshot;
  sr_action_counts : gmap string Z;
}.

Record E2EWorkflowTimings := mk_E2EWorkflowTimings {
  wt_setup_apply_ms : Z;
  wt_plan_wall_ms : Z;
  wt_plan_parallel_wall_ms : Z;
  wt_plan_db_path : string;
  wt_migrate_wall_ms : Z;
  wt_migrate_parallel_wall_ms : Z;
  wt_total_ms : Z;
}.

Record E2EApplyReport := mk_E2EApplyReport {
  ar_scenario : string;
  ar_setup_steps : list string;
  ar_applied : Z;
  ar_failed : Z;
  ar_skipped : Z;
  ar_errors : list string;
  ar_audit_object_rows : Z;
  ar_audit_migration_rows : Z;
  ar_catalog_meta_rows : Z;
  ar_catalog_cache_rows : Z;
  ar_timings : E2EWorkflowTimings;
}.

Record E2EGateReport := mk_E2EGateReport {
  ger_scenario : string;
  ger_setup_steps : list string;
  ger_gate_pass : bool;
  ger_messages : list string;
  ger_snapshot : PlanSnapshot;
}.

Record E2EBlockedReport := mk_E2EBlockedReport {
  br_scenario : string;
  br_setup_steps : list string;
  br_exit_code : Z;
  br_blocked : bool;
  br_blockers : list string;
  br_scaffold_paths : list string;
  br_timings : E2EWorkflowTimings;
}.

Definition IoTotals_default : IoTotals := mk_IoTotals 0 0 0 0.
Definition PlanSnapshot_default : PlanSnapshot := mk_PlanSnapshot ∅ "" false.
Definition E2EWorkflowTimings_default : E2EWorkflowTimings := mk_E2EWorkflowTimings 0 0 0 "" 0 0 0.

(** ** Binary64

    [SpecFloat] is the arithmetic of IEEE 754; reading and printing a number with
    a fraction belong to the standard library's tables. *)
Definition f64 : Type := spec_float.
Class FloatText := {
  f64_parse : string → option f64;
  f64_print : f64 → string;
}.
Definition f64_of_Z (z : Z) : f64 := binary_normalize 53 1024 z 0 false.
Definition f64_mul : f64 → f64 → f64 := SFmul 53 1024.
Definition signed (s : bool) (m : positive) : Z := if s then Z.neg m else Z.pos m.
Definition f64_ceil (x : f64) : f64 :=
  match x with
  | S754_finite s m e =>
      if (0 <=? e)%Z then x
      else binary_normalize 53 1024 (- Z.shiftr (- signed s m) (- e)) 0 s
  | _ => x
  end.
(** [as i64] of a float saturates. *)
Definition f64_as_i64 (x : f64) : Z :=
  match x with
  | S754_zero _ | S754_nan => 0
  | S754_infinity s => if s then i64_min else i64_max
  | S754_finite s m e =>
      Z.max i64_min (Z.min i64_max
        (if (0 <=? e)%Z then Z.shiftl (signed s m) e else Z.quot (signed s m) (2 ^ (- e))))
  end.

Section e2e.
Context `{HU : Unicode} `{HM : MapOrder} `{HFT : FloatText}.
Context (env : string → EnvVar).

(** ** Tolerance ([mod.rs]) *)

Definition timing_env : f64 * Z :=
  (default (f64_of_Z 3) (env_text (env "RMIG_E2E_TIMING_FACTOR") ≫= f64_parse),
   default 100%Z (env_text (env "RMIG_E2E_TIMING_SLACK_MS") ≫= parse_i64)).

Definition ceiling_ms (baseline_ms : Z) : Z :=
  let '(factor, slack_ms) := timing_env in
  as_i64 (f64_as_i64 (f64_ceil (f64_mul (f64_of_Z baseline_ms) factor)) + slack_ms).

Definition push_ceiling (msgs : list string) (name : string) (baseline_ms actual_ms : Z)
    : list string :=
  let '(factor, slack_ms) := timing_env in
  let ceiling := ceiling_ms baseline_ms in
  if (ceiling <? actual_ms)%Z then
    msgs ++ [name +:+ ": actual=" +:+ pretty actual_ms +:+ "ms > baseline=" +:+ pretty baseline_ms
      +:+ "ms ceiling=" +:+ pretty ceiling +:+ "ms (factor=" +:+ f64_print factor +:+ ", slack="
      +:+ pretty slack_ms +:+ "ms)"]
  else msgs.

(** [plan_timing_compare.rs] *)
Definition compare_timings (baseline actual : PhaseTimings) : list string :=
  foldl (λ msgs '(name, b, a),
    if ((b =? 0) && (a =? 0))%Z then msgs else push_ceiling msgs name b a) []
    [("parallel_wall_ms", pt_parallel_wall_ms baseline, pt_parallel_wall_ms actual);
     ("diff_ms", pt_diff_ms baseline, pt_diff_ms actual);
     ("plan_wall_ms", pt_plan_wall_ms baseline, pt_plan_wall_ms actual)].

(** [timing_compare.rs] *)
Definition SETUP_APPLY_MAX_MS : Z := 500.

Definition workflow_phase (msgs : list string) (phase : string * Z * Z) : list string :=
  let '(name, b, a) := phase in
  let setup_apply_max := ceiling_ms SETUP_APPLY_MAX_MS in
  if ((b =? 0) && (a =? 0))%Z then msgs
  else if ((0 <? b) && (a =? 0))%Z then
    msgs ++ [name +:+ ": baseline=" +:+ pretty b +:+ "ms actual=0ms (missing measurement)"]
  else if String.eqb name "setup_apply_ms" && (setup_apply_max <? a)%Z then
    msgs ++ ["setup_apply_ms: actual=" +:+ pretty a +:+ "ms exceeds hard max " +:+ pretty setup_apply_max
      +:+ "ms (warm baseline required; run apply_smoke_setup or e2e-all order)"]
  else push_ceiling msgs name b a.

Definition workflow_phases (baseline actual : E2EWorkflowTimings) : list (string * Z * Z) :=
  [("setup_apply_ms", wt_setup_apply_ms baseline, wt_setup_apply_ms actual);
   ("plan_parallel_wall_ms", wt_plan_parallel_wall_ms baseline, wt_plan_parallel_wall_ms actual);
   ("plan_wall_ms", wt_plan_wall_ms baseline, wt_plan_wall_ms actual);
   ("migrate_parallel_wall_ms", wt_migrate_parallel_wall_ms baseline, wt_migrate_parallel_wall_ms actual);
   ("migrate_wall_ms", wt_migrate_wall_ms baseline, wt_migrate_wall_ms actual);
   ("total_ms", wt_total_ms baseline, wt_total_ms actual)].

Definition compare_workflow_timings (baseline actual : E2EWorkflowTimings) : list string :=
  let msgs := foldl workflow_phase [] (workflow_phases baseline actual) in
  if negb (String.eqb (wt_plan_db_path baseline) "")
     && negb (String.eqb (wt_plan_db_path baseline) (wt_plan_db_path actual))
  then msgs ++ ["plan_db_path: baseline=" +:+ wt_plan_db_path baseline +:+ " actual=" +:+ wt_plan_db_path actual]
  else msgs.

(** ** Comparison ([compare/]) *)

(** [diff_field], with the values' [Display] texts. *)
Definition diff_field {A} `{EqDecision A} (show : A → string) (name : string) (baseline actual : A)
    : list string :=
  if bool_decide (baseline = actual) then []
  else [name +:+ ": baseline=" +:+ show baseline +:+ " actual=" +:+ show actual].

(** [{:?}] of a [Vec<String>] and of a [HashMap<String, i32>]. *)
Definition debug_strings (l : list string) : string := "[" +:+ str_join ", " (map debug_str l) +:+ "]".
Definition debug_counts (m : gmap string Z) : string :=
  "{" +:+ str_join ", " (map (λ kv, debug_str kv.1 +:+ ": " +:+ pretty kv.2) (iter_order m)) +:+ "}".

Abbreviation diff_str := (diff_field (λ s : string, s)) (only parsing).
Abbreviation diff_num := (diff_field (A := Z) pretty) (only parsing).
Abbreviation diff_bool := (diff_field bool_to_string) (only parsing).
Abbreviation diff_list := (diff_field debug_strings) (only parsing).

Definition compare_e2e_reports (baseline actual : E2EScenarioReport) : list string :=
  diff_str "scenario name" (sr_scenario baseline) (sr_scenario actual)
  ++ diff_field debug_counts "action_counts" (sr_action_counts baseline) (sr_action_counts actual)
  ++ diff_list "setup_steps" (sr_setup_steps baseline) (sr_setup_steps actual)
  ++ diff_num "io.query_calls" (iot_query_calls (sr_io baseline)) (iot_query_calls (sr_io actual))
  ++ diff_bool "timings.l1_cache_hit" (pt_l1_cache_hit (sr_timings baseline)) (pt_l1_cache_hit (sr_timings actual))
  ++ (if String.eqb (pt_plan_db_path (sr_timings baseline)) "" then []
      else diff_str "timings.plan_db_path" (pt_plan_db_path (sr_timings baseline)) (pt_plan_db_path (sr_timings actual)))
  ++ parity_messages (sr_snapshot baseline) (sr_snapshot actual)
  ++ compare_timings (sr_timings baseline) (sr_timings actual).

Definition compare_e2e_apply_reports (baseline actual : E2EApplyReport) : list string :=
  diff_str "scenario" (ar_scenario baseline) (ar_scenario actual)
  ++ diff_num "applied" (ar_applied baseline) (ar_applied actual)
  ++ diff_num "failed" (ar_failed baseline) (ar_failed actual)
  ++ diff_num "skipped" (ar_skipped baseline) (ar_skipped actual)
  ++ diff_num "audit_object_rows" (ar_audit_object_rows baseline) (ar_audit_object_rows actual)
  ++ diff_num "audit_migration_rows" (ar_audit_migration_rows baseline) (ar_audit_migration_rows actual)
  ++ diff_num "catalog_meta_rows" (ar_catalog_meta_rows baseline) (ar_catalog_meta_rows actual)
  ++ diff_num "catalog_cache_rows" (ar_catalog_cache_rows baseline) (ar_catalog_cache_rows actual)
  ++ diff_list "errors" (ar_errors baseline) (ar_errors actual)
  ++ diff_list "setup_steps" (ar_setup_steps baseline) (ar_setup_steps actual)
  ++ (if ((0 <? wt_total_ms (ar_timings baseline)) || (0 <? wt_total_ms (ar_timings actual)))%Z
      then compare_workflow_timings (ar_timings baseline) (ar_timings actual) else []).

Definition compare_e2e_gate_reports (baseline actual : E2EGateReport) : list string :=
  diff_str "scenario" (ger_scenario baseline) (ger_scenario actual)
  ++ diff_bool "gate_pass" (ger_gate_pass baseline) (ger_gate_pass actual)
  ++ diff_list "messages" (ger_messages baseline) (ger_messages actual)
  ++ parity_messages (ger_snapshot baseline) (ger_snapshot actual).

(** A scaffold's name embeds the revision; it is masked. *)
Definition is_rev (rev : string) : bool :=
  negb (String.eqb rev "") && (String.length rev <=? 40) && str_all is_ascii_hexdigit rev.
Definition scaffold_identity (path : string) : string :=
  let name := default path (last (split_on "/" path)) in
  match split_once "_" name with
  | Some (ord, rest) =>
      match split_once "_" rest with
      | Some (rev, rest) => if is_rev rev then ord +:+ "_REV_" +:+ rest else name
      | None => name
      end
  | None => name
  end.
Definition scaffold_identities (paths : list string) : list string :=
  sort_by String.leb (map scaffold_identity paths).

Definition compare_e2e_blocked_reports (baseline actual : E2EBlockedReport) : list string :=
  diff_str "scenario" (br_scenario baseline) (br_scenario actual)
  ++ diff_num "exit_code" (br_exit_code baseline) (br_exit_code actual)
  ++ diff_bool "blocked" (br_blocked baseline) (br_blocked actual)
  ++ diff_list "blockers" (br_blockers baseline) (br_blockers actual)
  ++ diff_list "scaffold_paths" (scaffold_identities (br_scaffold_paths baseline))
       (scaffold_identities (br_scaffold_paths actual))
  ++ compare_workflow_timings (br_timings baseline) (br_timings actual).
End e2e.

(** ** Building a report ([io.rs]) *)

Definition count_action (out : gmap string Z) (a : Action) : gmap string Z :=
  let action := action_str a in <[action := as_i32 (default 0%Z (out !! action) + 1)]> out.
Definition action_counts_from_plan (plan : MigrationPlan) : gmap string Z :=
  if bool_decide (mp_rows plan = [])
  then foldl (λ out obj, count_action out (po_planned_action obj)) ∅ (mp_objects plan)
  else foldl (λ out row, count_action out (planned_action row)) ∅ (mp_rows plan).

Definition build_e2e_report `{HX : Hex} (scenario : string) (plan : MigrationPlan)
    (timings : PhaseTimings) (io : IoTotals) : E2EScenarioReport :=
  mk_E2EScenarioReport scenario [] timings io (from_plan plan) (action_counts_from_plan plan).

(** ** JSON ([io.rs]) *)

Definition strings_json (l : list string) : Json := JArr (map JStr l).
Definition steps_fields (name : string) (l : list string) : list (string * Json) :=
  unless (bool_decide (l = [])) name (strings_json l).

Definition io_json (io : IoTotals) : Json :=
  JObj [("query_ms", JNum (iot_query_ms io)); ("query_calls", JNum (iot_query_calls io));
        ("exec_ms", JNum (iot_exec_ms io)); ("exec_calls", JNum (iot_exec_calls io))].

Definition snapshot_object_json (o : SnapshotObject) : Json :=
  JObj [("object_path", JStr (so_object_path o)); ("planned_action", JStr (so_planned_action o));
        ("checksum_hex", JStr (so_checksum_hex o)); ("exists", JBool (so_exists o))].

Definition workflow_timings_json (t : E2EWorkflowTimings) : Json :=
  JObj [("setup_apply_ms", JNum (wt_setup_apply_ms t)); ("plan_wall_ms", JNum (wt_plan_wall_ms t));
        ("plan_parallel_wall_ms", JNum (wt_plan_parallel_wall_ms t));
        ("plan_db_path", JStr (wt_plan_db_path t)); ("migrate_wall_ms", JNum (wt_migrate_wall_ms t));
        ("migrate_parallel_wall_ms", JNum (wt_migrate_parallel_wall_ms t));
        ("total_ms", JNum (wt_total_ms t))].

Definition apply_report_json (r : E2EApplyReport) : Json :=
  JObj ([("scenario", JStr (ar_scenario r))]
    ++ steps_fields "setup_steps" (ar_setup_steps r)
    ++ [("applied", JNum (ar_applied r)); ("failed", JNum (ar_failed r)); ("skipped", JNum (ar_skipped r))]
    ++ steps_fields "errors" (ar_errors r)
    ++ [("audit_object_rows", JNum (ar_audit_object_rows r));
        ("audit_migration_rows", JNum (ar_audit_migration_rows r));
        ("catalog_meta_rows", JNum (ar_catalog_meta_rows r));
        ("catalog_cache_rows", JNum (ar_catalog_cache_rows r));
        ("timings", workflow_timings_json (ar_timings r))]).

Definition blocked_report_json (r : E2EBlockedReport) : Json :=
  JObj ([("scenario", JStr (br_scenario r))]
    ++ steps_fields "setup_steps" (br_setup_steps r)
    ++ [("exit_code", JNum (br_exit_code r)); ("blocked", JBool (br_blocked r))]
    ++ steps_fields "blockers" (br_blockers r)
    ++ steps_fields "scaffold_paths" (br_scaffold_paths r)
    ++ [("timings", workflow_timings_json (br_timings r))]).

Section maps.
Context `{HM : MapOrder}.

(** A [HashMap] is written in the order it is visited in. *)
Definition map_json {A} (write : A → Json) (m : gmap string A) : Json :=
  JObj (map (λ kv, (kv.1, write kv.2)) (iter_order m)).

Definition snapshot_json (s : PlanSnapshot) : Json :=
  JObj [("objects", map_json snapshot_object_json (snap_objects s));
        ("version", JStr (snap_version s)); ("blocked", JBool (snap_blocked s))].

Definition scenario_report_json (r : E2EScenarioReport) : Json :=
  JObj ([("scenario", JStr (sr_scenario r))]
    ++ steps_fields "setup_steps" (sr_setup_steps r)
    ++ [("timings", timings_json (sr_timings r)); ("io", io_json (sr_io r));
        ("snapshot", snapshot_json (sr_snapshot r));
        ("action_counts", map_json JNum (sr_action_counts r))]).

Definition gate_report_json (r : E2EGateReport) : Json :=
  JObj ([("scenario", JStr (ger_scenario r))]
    ++ steps_fields "setup_steps" (ger_setup_steps r)
    ++ [("gate_pass", JBool (ger_gate_pass r))]
    ++ steps_fields "messages" (ger_messages r)
    ++ [("snapshot", snapshot_json (ger_snapshot r))]).
End maps.

(** [write_json_file], behind the four [write_e2e_*_file]. *)
Section write.
Context {W : Type} `{HFi : Files W} `{HPJ : PrettyJson} `{HM : MapOrder}.
Definition file_text (doc : Json) : string := to_string_pretty doc +:+ String LF "".
Definition write_json_file (path : string) (doc : Json) : IO W unit :=
  match path_parent path with
  | Some parent => fs_call (w_create_dir_all parent)
  | None => mret tt
  end;;
  fs_call (w_write path (file_text doc)).

Definition write_e2e_report_file (path : string) (rep : E2EScenarioReport) : IO W unit :=
  write_json_file path (scenario_report_json rep).
Definition write_e2e_apply_file (path : string) (rep : E2EApplyReport) : IO W unit :=
  write_json_file path (apply_report_json rep).
Definition write_e2e_gate_file (path : string) (rep : E2EGateReport) : IO W unit :=
  write_json_file path (gate_report_json rep).
Definition write_e2e_blocked_file (path : string) (rep : E2EBlockedReport) : IO W unit :=
  write_json_file path (blocked_report_json rep).
End write.

(** ** Reading ([read.rs], [derive(Deserialize)])

    [serde_json::Value] keeps an object's members sorted by name, the last of
    several with one name. *)
Fixpoint last_wins (fs : list (string * Json)) : list (string * Json) :=
  match fs with
  | [] => []
  | kv :: fs => if existsb (λ kv', String.eqb kv.1 kv'.1) fs then last_wins fs else kv :: last_wins fs
  end.
Definition btree (fs : list (string * Json)) : list (string * Json) :=
  sort_by (λ a b, String.leb a.1 b.1) (last_wins fs).
Fixpoint value_of (j : Json) : Json :=
  match j with
  | JArr l => JArr (map value_of l)
  | JObj fs => JObj (btree (map (λ kv, (kv.1, value_of kv.2)) fs))
  | _ => j
  end.

(** [from_str] at [Value]: the error's text, or the value; white space around the
    text is skipped. *)
Class ParseJson `{HPJ : PrettyJson} := {
  json_from_str : string → string + Json;
  json_from_file_text j : json_from_str (file_text j) = inr (value_of j);
}.

(** What reading can end in, besides a report. *)
Inductive ReadError : Type :=
| Syntax (m : string)
| Shape (m : string)
| WrongType.

Definition as_int (lo hi : Z) (j : Json) : option Z :=
  match j with JNum z => if ((lo <=? z) && (z <=? hi))%Z then Some z else None | _ => None end.
Definition as_num32 : Json → option Z := as_int (-2147483648) 2147483647.
Definition as_num64 : Json → option Z := as_int i64_min i64_max.
Definition as_struct {A} (read : list (string * Json) → option A) (j : Json) : option A :=
  match j with JObj fs => read fs | _ => None end.
(** Insertion in the order of the text. *)
Definition as_map {A} (read : Json → option A) : Json → option (gmap string A) :=
  as_struct (λ fs, l ← mapM (λ kv, pair kv.1 <$> read kv.2) fs; Some (list_to_map (reverse l))).

(** A derived structure is read from an array as well; for the others the shapes
    are checked first. *)
Definition as_snapshot_object (j : Json) : option SnapshotObject :=
  match j with
  | JObj fs =>
      path ← required as_string "object_path" fs;
      action ← required as_string "planned_action" fs;
      hex ← required as_string "checksum_hex" fs;
      ex ← required as_bool "exists" fs;
      Some (mk_SnapshotObject path action hex ex)
  | JArr [path; action; hex; ex] =>
      path ← as_string path; action ← as_string action; hex ← as_string hex; ex ← as_bool ex;
      Some (mk_SnapshotObject path action hex ex)
  | _ => None
  end.
Definition snapshot_of_fields (fs : list (string * Json)) : option PlanSnapshot :=
  objects ← defaulted ∅ (as_map as_snapshot_object) "objects" fs;
  version ← defaulted "" as_string "version" fs;
  blocked ← defaulted false as_bool "blocked" fs;
  Some (mk_PlanSnapshot objects version blocked).

Definition io_of_fields (fs : list (string * Json)) : option IoTotals :=
  let num name := defaulted 0%Z as_num64 name fs in
  qm ← num "query_ms"; qc ← num "query_calls"; em ← num "exec_ms"; ec ← num "exec_calls";
  Some (mk_IoTotals qm qc em ec).

Definition timings_of_fields (fs : list (string * Json)) : option PhaseTimings :=
  let num name := defaulted 0%Z as_num64 name fs in
  let flag name := defaulted false as_bool name fs in
  a ← num "connect_ms"; b ← num "scan_ms"; c ← num "inspect_ms"; d ← num "checksums_ms";
  e ← num "ensure_ms"; f ← num "parallel_wall_ms"; g ← num "audit_ms"; h ← num "diff_ms";
  i ← num "plan_wall_ms"; j ← num "cli_wall_ms"; k ← num "engine_ms"; l ← num "apply_ms";
  m ← num "plan_db_query_calls"; n ← num "plan_db_query_ms"; o ← num "plan_db_checksums_batch_ms";
  p ← num "plan_db_catalog_ms"; q ← num "plan_db_catalog_sql_ms";
  r ← num "plan_db_intern_catalog_ms"; s ← num "plan_db_round_trips";
  path ← defaulted "" as_string "plan_db_path" fs;
  t ← flag "l1_cache_hit"; u ← flag "plan_db_bootstrap"; v ← flag "plan_db_catalog_queried";
  w ← flag "plan_db_history_empty"; x ← flag "plan_db_checksums_skipped";
  Some (mk_PhaseTimings a b c d e f g h i j k l m n o p q r s path t u v w x).

Definition workflow_of_fields (fs : list (string * Json)) : option E2EWorkflowTimings :=
  let num name := defaulted 0%Z as_num64 name fs in
  sa ← num "setup_apply_ms"; pw ← num "plan_wall_ms"; pp ← num "plan_parallel_wall_ms";
  path ← defaulted "" as_string "plan_db_path" fs;
  mw ← num "migrate_wall_ms"; mp ← num "migrate_parallel_wall_ms"; total ← num "total_ms";
  Some (mk_E2EWorkflowTimings sa pw pp path mw mp total).

Definition scenario_of_fields (fs : list (string * Json)) : option E2EScenarioReport :=
  name ← defaulted "" as_string "scenario" fs;
  steps ← defaulted [] as_strings "setup_steps" fs;
  t ← defaulted PhaseTimings_default (as_struct timings_of_fields) "timings" fs;
  io ← defaulted IoTotals_default (as_struct io_of_fields) "io" fs;
  snap ← defaulted PlanSnapshot_default (as_struct snapshot_of_fields) "snapshot" fs;
  counts ← defaulted ∅ (as_map as_num32) "action_counts" fs;
  Some (mk_E2EScenarioReport name steps t io snap counts).

Definition apply_of_fields (fs : list (string * Json)) : option E2EApplyReport :=
  let num name := defaulted 0%Z as_num32 name fs in
  name ← defaulted "" as_string "scenario" fs;
  steps ← defaulted [] as_strings "setup_steps" fs;
  applied ← num "applied"; failed ← num "failed"; skipped ← num "skipped";
  errors ← defaulted [] as_strings "errors" fs;
  rows ← num "audit_object_rows"; migrations ← num "audit_migration_rows";
  meta ← num "catalog_meta_rows"; cache ← num "catalog_cache_rows";
  t ← defaulted E2EWorkflowTimings_default (as_struct workflow_of_fields) "timings" fs;
  Some (mk_E2EApplyReport name steps applied failed skipped errors rows migrations meta cache t).

Definition gate_of_fields (fs : list (string * Json)) : option E2EGateReport :=
  name ← defaulted "" as_string "scenario" fs;
  steps ← defaulted [] as_strings "setup_steps" fs;
  pass ← defaulted false as_bool "gate_pass" fs;
  messages ← defaulted [] as_strings "messages" fs;
  snap ← defaulted PlanSnapshot_default (as_struct snapshot_of_fields) "snapshot" fs;
  Some (mk_E2EGateReport name steps pass messages snap).

Definition blocked_of_fields (fs : list (string * Json)) : option E2EBlockedReport :=
  name ← defaulted "" as_string "scenario" fs;
  steps ← defaulted [] as_strings "setup_steps" fs;
  code ← defaulted 0%Z as_num32 "exit_code" fs;
  blocked ← defaulted false as_bool "blocked" fs;
  blockers ← defaulted [] as_strings "blockers" fs;
  paths ← defaulted [] as_strings "scaffold_paths" fs;
  t ← defaulted E2EWorkflowTimings_default (as_struct workflow_of_fields) "timings" fs;
  Some (mk_E2EBlockedReport name steps code blocked blockers paths t).

Section read.
Context `{HPa : ParseJson}.

(** [value.get(field)], and the first field that is there but no object. *)
Definition get_member (name : string) (fs : list (string * Json)) : option Json :=
  snd <$> List.find (λ kv, String.eqb name kv.1) fs.
Definition is_object (j : Json) : bool := match j with JObj _ => true | _ => false end.
Definition misshapen (object_fields : list string) (fs : list (string * Json)) : option string :=
  List.find (λ name, match get_member name fs with Some v => negb (is_object v) | None => false end)
    object_fields.

Definition read_report_object {A} (of_fields : list (string * Json) → option A)
    (data : string) (object_fields : list string) : ReadError + A :=
  match json_from_str data with
  | inl e => inl (Syntax e)
  | inr (JObj fs) =>
      match misshapen object_fields fs with
      | Some field => inl (Shape ("e2e report field `" +:+ field +:+ "` must be an object"))
      | None => match of_fields fs with Some r => inr r | None => inl WrongType end
      end
  | inr _ => inl (Shape "e2e report JSON must be an object")
  end.

Definition read_e2e_report_json (data : string) : ReadError + E2EScenarioReport :=
  read_report_object scenario_of_fields data ["timings"; "io"; "snapshot"; "action_counts"].
Definition read_e2e_apply_json (data : string) : ReadError + E2EApplyReport :=
  read_report_object apply_of_fields data ["timings"].
Definition read_e2e_gate_json (data : string) : ReadError + E2EGateReport :=
  read_report_object gate_of_fields data ["snapshot"].
Definition read_e2e_blocked_json (data : string) : ReadError + E2EBlockedReport :=
  read_report_object blocked_of_fields data ["timings"].
End read.

(** ** What is read back is what was written *)

(** Names of members, all different, and one looked up. *)
Lemma last_wins_id fs : NoDup fs.*1 → last_wins fs = fs.
Proof.
  induction fs as [|[k v] fs IH]; [done|]. cbn. intros [Hk Hfs]%NoDup_cons. rewrite IH by done.
  destruct (existsb _ fs) eqn:E; [|done]. apply existsb_exists in E as ([k' v'] & Hin & E).
  apply String.eqb_eq in E. cbn in E. subst k'. destruct Hk. apply list_elem_of_fmap.
  exists (k, v'). split; [done|]. by apply list_elem_of_In.
Qed.

Lemma btree_perm fs : NoDup fs.*1 → btree fs ≡ₚ fs.
Proof. intros H. unfold btree. by rewrite sort_by_perm, last_wins_id. Qed.

Lemma filter_name name fs : NoDup fs.*1 →
  List.filter (λ kv : string * Json, String.eqb kv.1 name) fs =
  match get_member name fs with Some v => [(name, v)] | None => [] end.
Proof.
  unfold get_member. induction fs as [|[k v] fs IH]; [done|]. cbn. intros [Hk Hfs]%NoDup_cons.
  rewrite IH by done. rewrite (String.eqb_sym name k).
  destruct (String.eqb_spec k name) as [->|]; [|done]. cbn.
  destruct (List.find _ fs) as [[k' v']|] eqn:E; [|done]. apply List.find_some in E as [Hin E].
  apply String.eqb_eq in E. cbn in E. subst k'. destruct Hk. apply list_elem_of_fmap.
  exists (name, v'). split; [done|]. by apply list_elem_of_In.
Qed.

Definition members (fs : list (string * Json)) : list (string * Json) :=
  btree (map (λ kv, (kv.1, value_of kv.2)) fs).

Lemma members_names fs : NoDup fs.*1 → NoDup (map (λ kv : string * Json, (kv.1, value_of kv.2)) fs).*1.
Proof. intros H. rewrite <- list_fmap_compose. erewrite list_fmap_ext; [exact H|done]. Qed.

Lemma filter_perm {A} (f : A → bool) l l' : l ≡ₚ l' → List.filter f l ≡ₚ List.filter f l'.
Proof.
  induction 1 as [|x l l' _ IH|x y l|l1 l2 l3 _ IH1 _ IH2]; cbn; [done| | |by rewrite IH1].
  - destruct (f x); by rewrite IH.
  - destruct (f x), (f y); try done. apply Permutation_swap.
Qed.

Lemma get_member_map name fs :
  get_member name (map (λ kv, (kv.1, value_of kv.2)) fs) = value_of <$> get_member name fs.
Proof.
  unfold get_member. induction fs as [|[k v] fs IH]; [done|]. cbn. by destruct (String.eqb name k).
Qed.

Lemma filter_members name fs : NoDup fs.*1 →
  List.filter (λ kv : string * Json, String.eqb kv.1 name) (members fs) =
  match get_member name fs with Some v => [(name, value_of v)] | None => [] end.
Proof.
  intros H. pose proof (members_names fs H) as H'. unfold members.
  pose proof (filter_perm (λ kv : string * Json, String.eqb kv.1 name) _ _ (btree_perm _ H')) as Hp.
  rewrite (filter_name _ _ H'), get_member_map in Hp.
  destruct (get_member name fs) as [v|]; cbn in *.
  - by apply Permutation_singleton_r in Hp.
  - by apply Permutation_nil_r in Hp.
Qed.

Lemma field_members name fs : NoDup fs.*1 →
  field name (members fs) = Some (value_of <$> get_member name fs).
Proof. intros H. unfold field. rewrite filter_members by done. by destruct (get_member name fs). Qed.

Lemma get_member_members name fs : NoDup fs.*1 →
  get_member name (members fs) = value_of <$> get_member name fs.
Proof.
  intros H. assert (NoDup (members fs).*1) as Hm.
  { unfold members. rewrite btree_perm by (by apply members_names). by apply members_names. }
  pose proof (filter_members name fs H) as E. rewrite filter_name in E by done.
  destruct (get_member name (members fs)), (get_member name fs); cbn; congruence.
Qed.

(** A member that is left out when it holds its default is read as the default. *)
Lemma required_members {A} (read : Json → option A) name fs v : NoDup fs.*1 →
  get_member name fs = Some v → required read name (members fs) = read (value_of v).
Proof. intros H E. unfold required. by rewrite field_members, E. Qed.
Lemma defaulted_members {A} (dflt : A) read name fs : NoDup fs.*1 →
  defaulted dflt read name (members fs) =
  match get_member name fs with Some v => read (value_of v) | None => Some dflt end.
Proof. intros H. unfold defaulted. rewrite field_members by done. by destruct (get_member name fs). Qed.

(** *** Documents as tables

    The members a writer may emit, in order: whether one is left out, and its value. *)
Definition table : Type := list (string * (bool * Json)).
Definition flat (tbl : table) : list (string * Json) :=
  foldr (λ e rest, unless e.2.1 e.1 e.2.2 ++ rest) [] tbl.
Definition entry (name : string) (tbl : table) : option (bool * Json) :=
  snd <$> List.find (λ e, String.eqb name e.1) tbl.

Lemma flat_names_sublist tbl : (flat tbl).*1 `sublist_of` tbl.*1.
Proof.
  induction tbl as [|[n [[] v]] tbl IH]; cbn; [reflexivity|by apply sublist_cons|by apply sublist_skip].
Qed.
Lemma flat_names tbl : NoDup tbl.*1 → NoDup (flat tbl).*1.
Proof. intros H. eapply sublist_NoDup; [exact H|apply flat_names_sublist]. Qed.

Lemma member_absent name fs : name ∉ fs.*1 → get_member name fs = None.
Proof.
  unfold get_member. induction fs as [|[k v] fs IH]; [done|]. cbn. intros [Hk Hfs]%not_elem_of_cons.
  destruct (String.eqb_spec name k); [done|]. by apply IH.
Qed.

Lemma member_flat name tbl : NoDup tbl.*1 →
  get_member name (flat tbl) =
  match entry name tbl with Some (false, v) => Some v | _ => None end.
Proof.
  unfold entry. induction tbl as [|[n [skip v]] tbl IH]; [done|]. cbn [fmap list_fmap fst].
  intros [Hn Ht]%NoDup_cons. specialize (IH Ht). cbn [List.find fst].
  destruct skip; cbn [flat foldr fst snd unless app]; fold (flat tbl).
  - destruct (String.eqb_spec name n) as [->|]; [|exact IH]. cbn. apply member_absent.
    intros H. apply Hn. eapply elem_of_sublist; [exact H|apply flat_names_sublist].
  - unfold get_member. cbn. by destruct (String.eqb_spec name n) as [->|].
Qed.

Lemma defaulted_entry {A} (dflt : A) read name tbl skip v x : NoDup tbl.*1 →
  entry name tbl = Some (skip, v) → (if skip then Some dflt else read (value_of v)) = Some x →
  defaulted dflt read name (members (flat tbl)) = Some x.
Proof.
  intros Hd He Hx. rewrite defaulted_members by (by apply flat_names).
  rewrite member_flat, He by done. by destruct skip.
Qed.
Lemma required_entry {A} read name tbl v (x : A) : NoDup tbl.*1 →
  entry name tbl = Some (false, v) → read (value_of v) = Some x →
  required read name (members (flat tbl)) = Some x.
Proof.
  intros Hd He Hx. rewrite (required_members _ _ _ v); [done|by apply flat_names|].
  by rewrite member_flat, He.
Qed.

Lemma as_int_in lo hi z : (lo <= z <= hi)%Z → as_int lo hi (JNum z) = Some z.
Proof. intros [H1 H2]. cbn. by rewrite (proj2 (Z.leb_le _ _) H1), (proj2 (Z.leb_le _ _) H2). Qed.

Lemma as_strings_value l : as_strings (value_of (strings_json l)) = Some l.
Proof. unfold strings_json. cbn. rewrite map_map. cbn. apply as_strings_map. Qed.


Definition in_i64 (z : Z) : Prop := (i64_min <= z <= i64_max)%Z.
Definition in_i32 (z : Z) : Prop := (-2147483648 <= z <= 2147483647)%Z.

(** The numbers of a report are machine integers. *)
Definition timings_in_range (t : PhaseTimings) : Prop := Forall in_i64
  [pt_connect_ms t; pt_scan_ms t; pt_inspect_ms t; pt_checksums_ms t; pt_ensure_ms t;
   pt_parallel_wall_ms t; pt_audit_ms t; pt_diff_ms t; pt_plan_wall_ms t; pt_cli_wall_ms t;
   pt_engine_ms t; pt_apply_ms t; pt_plan_db_query_calls t; pt_plan_db_query_ms t;
   pt_plan_db_checksums_batch_ms t; pt_plan_db_catalog_ms t; pt_plan_db_catalog_sql_ms t;
   pt_plan_db_intern_catalog_ms t; pt_plan_db_round_trips t].
Definition workflow_in_range (t : E2EWorkflowTimings) : Prop := Forall in_i64
  [wt_setup_apply_ms t; wt_plan_wall_ms t; wt_plan_parallel_wall_ms t; wt_migrate_wall_ms t;
   wt_migrate_parallel_wall_ms t; wt_total_ms t].
Definition io_in_range (io : IoTotals) : Prop :=
  Forall in_i64 [iot_query_ms io; iot_query_calls io; iot_exec_ms io; iot_exec_calls io].

Lemma read_num32 z : in_i32 z → as_num32 (value_of (JNum z)) = Some z.
Proof. apply as_int_in. Qed.
Lemma read_num64 z : in_i64 z → as_num64 (value_of (JNum z)) = Some z.
Proof. apply as_int_in. Qed.
Lemma read_unless_num z : in_i64 z → (if (z =? 0)%Z then Some 0%Z else as_num64 (value_of (JNum z))) = Some z.
Proof. intros H. destruct (Z.eqb_spec z 0) as [->|]; [done|]. by apply read_num64. Qed.
Lemma read_unless_flag b : (if negb b then Some false else as_bool (value_of (JBool b))) = Some b.
Proof. by destruct b. Qed.
Lemma read_unless_str s : (if String.eqb s "" then Some "" else as_string (value_of (JStr s))) = Some s.
Proof. by destruct (String.eqb_spec s "") as [->|]. Qed.
Lemma read_steps l :
  (if bool_decide (l = []) then Some [] else as_strings (value_of (strings_json l))) = Some l.
Proof. case_bool_decide as E; [by rewrite E|apply as_strings_value]. Qed.

(** A document read field by field: the entry of each name is found by computation. *)
Ltac distinct_names := apply (bool_decide_unpack _); vm_compute; exact I.
Lemma bind_read {A B} (m : option A) (f : A → option B) x r : m = Some x → f x = r → (m ≫= f) = r.
Proof. by intros ->. Qed.
Ltac read_entry Hd lem :=
  eapply bind_read;
  [first [eapply (defaulted_entry _ _ _ _ _ _ _ Hd); [reflexivity|apply lem; assumption]
         |eapply (required_entry _ _ _ _ _ Hd); [reflexivity|apply lem; assumption]]|];
  cbv beta.

Definition timings_table (t : PhaseTimings) : table :=
  let ms (name : string) (v : Z) := (name, ((v =? 0)%Z, JNum v)) in
  let flag (name : string) (b : bool) := (name, (negb b, JBool b)) in
  [ms "connect_ms" (pt_connect_ms t); ms "scan_ms" (pt_scan_ms t); ms "inspect_ms" (pt_inspect_ms t);
   ms "checksums_ms" (pt_checksums_ms t); ms "ensure_ms" (pt_ensure_ms t);
   ms "parallel_wall_ms" (pt_parallel_wall_ms t); ms "audit_ms" (pt_audit_ms t);
   ms "diff_ms" (pt_diff_ms t); ms "plan_wall_ms" (pt_plan_wall_ms t);
   ms "cli_wall_ms" (pt_cli_wall_ms t); ms "engine_ms" (pt_engine_ms t); ms "apply_ms" (pt_apply_ms t);
   ms "plan_db_query_calls" (pt_plan_db_query_calls t); ms "plan_db_query_ms" (pt_plan_db_query_ms t);
   ms "plan_db_checksums_batch_ms" (pt_plan_db_checksums_batch_ms t);
   ms "plan_db_catalog_ms" (pt_plan_db_catalog_ms t);
   ms "plan_db_catalog_sql_ms" (pt_plan_db_catalog_sql_ms t);
   ms "plan_db_intern_catalog_ms" (pt_plan_db_intern_catalog_ms t);
   ms "plan_db_round_trips" (pt_plan_db_round_trips t);
   ("plan_db_path", (String.eqb (pt_plan_db_path t) "", JStr (pt_plan_db_path t)));
   flag "l1_cache_hit" (pt_l1_cache_hit t); flag "plan_db_bootstrap" (pt_plan_db_bootstrap t);
   flag "plan_db_catalog_queried" (pt_plan_db_catalog_queried t);
   flag "plan_db_history_empty" (pt_plan_db_history_empty t);
   flag "plan_db_checksums_skipped" (pt_plan_db_checksums_skipped t)].

Lemma timings_json_table t : timings_json t = JObj (flat (timings_table t)).
Proof.
  unfold timings_json, flat, timings_table. cbn [foldr fst snd]. by rewrite app_nil_r.
Qed.

Lemma timings_roundtrip t : timings_in_range t →
  as_struct timings_of_fields (value_of (timings_json t)) = Some t.
Proof.
  intros Ht. rewrite timings_json_table. cbn [value_of as_struct].
  change (btree _) with (members (flat (timings_table t))).
  assert (NoDup (timings_table t).*1) as Hd by distinct_names.
  unfold timings_in_range in Ht. rewrite !Forall_cons in Ht. destruct_and! Ht.
  unfold timings_of_fields. cbv beta zeta.
  do 19 (read_entry Hd read_unless_num).
  read_entry Hd read_unless_str.
  do 5 (read_entry Hd read_unless_flag).
  by destruct t.
Qed.

Lemma read_str s : as_string (value_of (JStr s)) = Some s.
Proof. done. Qed.
Lemma read_bool b : as_bool (value_of (JBool b)) = Some b.
Proof. done. Qed.

Definition always (name : string) (v : Json) : string * (bool * Json) := (name, (false, v)).
Definition steps (name : string) (l : list string) : string * (bool * Json) :=
  (name, (bool_decide (l = []), strings_json l)).

(** The text of a document in terms of its table. *)
Ltac by_table := cbn [flat foldr fst snd always steps unless app]; rewrite ?app_nil_r; reflexivity.
Ltac read_table tbl :=
  cbn [value_of as_struct]; change (btree _) with (members (flat tbl));
  let Hd := fresh "Hd" in assert (NoDup tbl.*1) as Hd by distinct_names.

Definition io_table (io : IoTotals) : table :=
  [always "query_ms" (JNum (iot_query_ms io)); always "query_calls" (JNum (iot_query_calls io));
   always "exec_ms" (JNum (iot_exec_ms io)); always "exec_calls" (JNum (iot_exec_calls io))].
Lemma io_roundtrip io : io_in_range io → as_struct io_of_fields (value_of (io_json io)) = Some io.
Proof.
  intros H. unfold io_in_range in H. rewrite !Forall_cons in H. destruct_and! H.
  assert (io_json io = JObj (flat (io_table io))) as -> by by_table. read_table (io_table io).
  unfold io_of_fields. cbv zeta. do 4 (read_entry Hd read_num64). by destruct io.
Qed.

Definition workflow_table (t : E2EWorkflowTimings) : table :=
  [always "setup_apply_ms" (JNum (wt_setup_apply_ms t)); always "plan_wall_ms" (JNum (wt_plan_wall_ms t));
   always "plan_parallel_wall_ms" (JNum (wt_plan_parallel_wall_ms t));
   always "plan_db_path" (JStr (wt_plan_db_path t)); always "migrate_wall_ms" (JNum (wt_migrate_wall_ms t));
   always "migrate_parallel_wall_ms" (JNum (wt_migrate_parallel_wall_ms t));
   always "total_ms" (JNum (wt_total_ms t))].
Lemma workflow_roundtrip t : workflow_in_range t →
  as_struct workflow_of_fields (value_of (workflow_timings_json t)) = Some t.
Proof.
  intros H. unfold workflow_in_range in H. rewrite !Forall_cons in H. destruct_and! H.
  assert (workflow_timings_json t = JObj (flat (workflow_table t))) as -> by by_table.
  read_table (workflow_table t). unfold workflow_of_fields. cbv zeta.
  do 3 (read_entry Hd read_num64). read_entry Hd read_str. do 3 (read_entry Hd read_num64). by destruct t.
Qed.

Definition snapshot_object_table (o : SnapshotObject) : table :=
  [always "object_path" (JStr (so_object_path o)); always "planned_action" (JStr (so_planned_action o));
   always "checksum_hex" (JStr (so_checksum_hex o)); always "exists" (JBool (so_exists o))].
Lemma snapshot_object_roundtrip o : as_snapshot_object (value_of (snapshot_object_json o)) = Some o.
Proof.
  assert (snapshot_object_json o = JObj (flat (snapshot_object_table o))) as -> by by_table.
  unfold as_snapshot_object. read_table (snapshot_object_table o). cbv zeta.
  do 3 (read_entry Hd read_str). read_entry Hd read_bool. by destruct o.
Qed.

Section map_roundtrip.
Context `{HM : MapOrder}.

Lemma mapM_map_Some {A B} (f : A → option B) (g : B → A) l : (∀ b, b ∈ l → f (g b) = Some b) →
  mapM f (map g l) = Some l.
Proof.
  intros H. apply mapM_Some_2. change (map g l) with (g <$> l). apply Forall2_fmap_l.
  apply Forall_Forall2_diag. by apply Forall_forall.
Qed.

(** A map comes back whatever order it was written in. *)
Lemma map_roundtrip {A} (write : A → Json) read (m : gmap string A) :
  (∀ k v, m !! k = Some v → read (value_of (write v)) = Some v) →
  as_map read (value_of (map_json write m)) = Some m.
Proof.
  intros Hrw. unfold map_json. cbn [value_of]. unfold as_map, as_struct.
  set (g := λ kv : string * A, (kv.1, value_of (write kv.2))).
  assert (NoDup (iter_order m).*1) as Hn by (rewrite iter_order_perm; apply NoDup_fst_map_to_list).
  assert (map (λ kv, (kv.1, value_of kv.2)) (map (λ kv, (kv.1, write kv.2)) (iter_order m)) = map g (iter_order m))
    as -> by (by rewrite map_map).
  assert (btree (map g (iter_order m)) ≡ₚ map g (iter_order m)) as Hp.
  { apply btree_perm. rewrite <- list_fmap_compose. erewrite list_fmap_ext; [exact Hn|done]. }
  apply Permutation_map_inv in Hp as (l & -> & Hl).
  rewrite mapM_map_Some.
  2: { intros [k v] Hk. cbn. rewrite (Hrw k v); [done|]. apply iter_order_elem. by rewrite Hl. }
  cbn. f_equal. rewrite <- (list_to_map_to_list m). apply list_to_map_proper.
  - rewrite reverse_Permutation, <- Hl. exact Hn.
  - by rewrite reverse_Permutation, <- Hl, iter_order_perm.
Qed.

Definition snapshot_table (s : PlanSnapshot) : table :=
  [always "objects" (map_json snapshot_object_json (snap_objects s));
   always "version" (JStr (snap_version s)); always "blocked" (JBool (snap_blocked s))].
Lemma read_snapshot_objects m : as_map as_snapshot_object (value_of (map_json snapshot_object_json m)) = Some m.
Proof. apply map_roundtrip. intros. apply snapshot_object_roundtrip. Qed.
Lemma snapshot_roundtrip s : as_struct snapshot_of_fields (value_of (snapshot_json s)) = Some s.
Proof.
  assert (snapshot_json s = JObj (flat (snapshot_table s))) as -> by by_table.
  read_table (snapshot_table s). unfold snapshot_of_fields.
  read_entry Hd read_snapshot_objects. read_entry Hd read_str. read_entry Hd read_bool. by destruct s.
Qed.

(** *** The four reports *)

Definition scenario_table (r : E2EScenarioReport) : table :=
  [always "scenario" (JStr (sr_scenario r)); steps "setup_steps" (sr_setup_steps r);
   always "timings" (timings_json (sr_timings r)); always "io" (io_json (sr_io r));
   always "snapshot" (snapshot_json (sr_snapshot r)); always "action_counts" (map_json JNum (sr_action_counts r))].
Definition apply_table (r : E2EApplyReport) : table :=
  [always "scenario" (JStr (ar_scenario r)); steps "setup_steps" (ar_setup_steps r);
   always "applied" (JNum (ar_applied r)); always "failed" (JNum (ar_failed r));
   always "skipped" (JNum (ar_skipped r)); steps "errors" (ar_errors r);
   always "audit_object_rows" (JNum (ar_audit_object_rows r));
   always "audit_migration_rows" (JNum (ar_audit_migration_rows r));
   always "catalog_meta_rows" (JNum (ar_catalog_meta_rows r));
   always "catalog_cache_rows" (JNum (ar_catalog_cache_rows r));
   always "timings" (workflow_timings_json (ar_timings r))].
Definition gate_table (r : E2EGateReport) : table :=
  [always "scenario" (JStr (ger_scenario r)); steps "setup_steps" (ger_setup_steps r);
   always "gate_pass" (JBool (ger_gate_pass r)); steps "messages" (ger_messages r);
   always "snapshot" (snapshot_json (ger_snapshot r))].
Definition blocked_table (r : E2EBlockedReport) : table :=
  [always "scenario" (JStr (br_scenario r)); steps "setup_steps" (br_setup_steps r);
   always "exit_code" (JNum (br_exit_code r)); always "blocked" (JBool (br_blocked r));
   steps "blockers" (br_blockers r); steps "scaffold_paths" (br_scaffold_paths r);
   always "timings" (workflow_timings_json (br_timings r))].

Lemma scenario_json_table r : scenario_report_json r = JObj (flat (scenario_table r)).
Proof. unfold scenario_report_json, steps_fields. by_table. Qed.
Lemma apply_json_table r : apply_report_json r = JObj (flat (apply_table r)).
Proof. unfold apply_report_json, steps_fields. by_table. Qed.
Lemma gate_json_table r : gate_report_json r = JObj (flat (gate_table r)).
Proof. unfold gate_report_json, steps_fields. by_table. Qed.
Lemma blocked_json_table r : blocked_report_json r = JObj (flat (blocked_table r)).
Proof. unfold blocked_report_json, steps_fields. by_table. Qed.
End map_roundtrip.

(** The integers of a report are those of its types. *)
Definition scenario_in_range (r : E2EScenarioReport) : Prop :=
  timings_in_range (sr_timings r) ∧ io_in_range (sr_io r) ∧
  map_Forall (λ _ n, in_i32 n) (sr_action_counts r).
Definition apply_in_range (r : E2EApplyReport) : Prop :=
  Forall in_i32 [ar_applied r; ar_failed r; ar_skipped r; ar_audit_object_rows r;
    ar_audit_migration_rows r; ar_catalog_meta_rows r; ar_catalog_cache_rows r] ∧
  workflow_in_range (ar_timings r).
Definition blocked_in_range (r : E2EBlockedReport) : Prop :=
  in_i32 (br_exit_code r) ∧ workflow_in_range (br_timings r).

Section reports.
Context `{HM : MapOrder} `{HPa : ParseJson}.

Lemma value_of_object v : is_object (value_of v) = is_object v.
Proof. by destruct v. Qed.

(** A written report has the shapes the reader asks for. *)
Lemma read_written {A} of_fields names tbl (r : A) : NoDup tbl.*1 →
  forallb (λ name, match entry name tbl with Some (_, v) => is_object v | None => true end) names = true →
  of_fields (members (flat tbl)) = Some r →
  read_report_object of_fields (file_text (JObj (flat tbl))) names = inr r.
Proof.
  intros Hd Hs Hr. unfold read_report_object. rewrite json_from_file_text. cbn [value_of].
  change (btree _) with (members (flat tbl)).
  assert (misshapen names (members (flat tbl)) = None) as ->; [|by rewrite Hr].
  unfold misshapen. clear Hr. induction names as [|n names IH]; [done|]. cbn in *.
  apply andb_prop in Hs as [Hn Hs]. rewrite IH by done.
  rewrite get_member_members by (by apply flat_names). rewrite member_flat by done.
  destruct (entry n tbl) as [[[] v]|]; [done| |done]. cbn. by rewrite value_of_object, Hn.
Qed.

Lemma read_counts m : map_Forall (λ _ n, in_i32 n) m → as_map as_num32 (value_of (map_json JNum m)) = Some m.
Proof. intros H. apply map_roundtrip. intros k v Hv. apply read_num32. by apply (H k). Qed.

End reports.

(** ** A run that matches its baseline *)

Section compare_facts.
Context `{HU : Unicode} `{HM : MapOrder} `{HFT : FloatText} (env : string → EnvVar).

Definition within (baseline_ms actual_ms : Z) : Prop :=
  (baseline_ms = 0 ∧ actual_ms = 0)%Z ∨ (actual_ms <= ceiling_ms env baseline_ms)%Z.

Lemma diff_field_nil {A} `{EqDecision A} (show : A → string) name a b :
  diff_field show name a b = [] ↔ a = b.
Proof. unfold diff_field. case_bool_decide; split; done. Qed.

Lemma push_ceiling_nil msgs name b a : push_ceiling env msgs name b a = [] ↔
  msgs = [] ∧ (a <= ceiling_ms env b)%Z.
Proof.
  unfold push_ceiling. destruct (timing_env env). destruct (Z.ltb_spec (ceiling_ms env b) a).
  - split; [by intros [_ ?]%app_nil|lia].
  - naive_solver.
Qed.

Lemma compare_timings_nil b a : compare_timings env b a = [] ↔
  within (pt_parallel_wall_ms b) (pt_parallel_wall_ms a) ∧ within (pt_diff_ms b) (pt_diff_ms a) ∧
  within (pt_plan_wall_ms b) (pt_plan_wall_ms a).
Proof.
  assert (∀ msgs name b a, (if ((b =? 0) && (a =? 0))%Z then msgs else push_ceiling env msgs name b a) = [] ↔
    msgs = [] ∧ within b a) as H.
  { intros msgs name x y. unfold within.
    destruct (Z.eqb_spec x 0) as [->|], (Z.eqb_spec y 0) as [->|]; cbn [andb];
      rewrite ?push_ceiling_nil; naive_solver. }
  unfold compare_timings. cbn [foldl]. rewrite !H. naive_solver.
Qed.

(** The comparison of a run with its baseline reports nothing exactly when the
    behaviour is that of the baseline (scenario, actions, set-up, calls, cache hit,
    the planning path if the baseline names one, the snapshot) and each measured
    wall time is within its ceiling. *)
Theorem compare_e2e_reports_spec b a : compare_e2e_reports env b a = [] ↔
  sr_scenario b = sr_scenario a ∧ sr_action_counts b = sr_action_counts a ∧
  sr_setup_steps b = sr_setup_steps a ∧ iot_query_calls (sr_io b) = iot_query_calls (sr_io a) ∧
  pt_l1_cache_hit (sr_timings b) = pt_l1_cache_hit (sr_timings a) ∧
  (pt_plan_db_path (sr_timings b) = "" ∨ pt_plan_db_path (sr_timings b) = pt_plan_db_path (sr_timings a)) ∧
  sr_snapshot b = sr_snapshot a ∧
  within (pt_parallel_wall_ms (sr_timings b)) (pt_parallel_wall_ms (sr_timings a)) ∧
  within (pt_diff_ms (sr_timings b)) (pt_diff_ms (sr_timings a)) ∧
  within (pt_plan_wall_ms (sr_timings b)) (pt_plan_wall_ms (sr_timings a)).
Proof.
  unfold compare_e2e_reports. rewrite !app_nil, !diff_field_nil, parity_messages_spec, compare_timings_nil.
  assert ((if String.eqb (pt_plan_db_path (sr_timings b)) "" then []
      else diff_field (λ s : string, s) "timings.plan_db_path" (pt_plan_db_path (sr_timings b))
             (pt_plan_db_path (sr_timings a))) = [] ↔
    pt_plan_db_path (sr_timings b) = "" ∨ pt_plan_db_path (sr_timings b) = pt_plan_db_path (sr_timings a)) as ->.
  { destruct (String.eqb_spec (pt_plan_db_path (sr_timings b)) "") as [E|E]; [naive_solver|].
    rewrite diff_field_nil. naive_solver. }
  done.
Qed.
End compare_facts.

(** ** Files, a tolerance, and a factor that switches nothing off *)

Module E2eSample.
Import ReportSample.
#[local] Existing Instances Concrete.unicode Concrete.map_order.

Fixpoint first_line (s : string) : string :=
  match s with
  | EmptyString => ""
  | String c s => if decide (c = LF) then "" else String c (first_line s)
  end.
Lemma first_line_numeral p rest : first_line (RefServer.pos_string p +:+ String LF rest) = RefServer.pos_string p.
Proof.
  induction p as [p IH|p IH|]; [| |done].
  - change (String "1" (first_line (RefServer.pos_string p +:+ String LF rest)) = String "1" (RefServer.pos_string p)).
    by rewrite IH.
  - change (String "0" (first_line (RefServer.pos_string p +:+ String LF rest)) = String "0" (RefServer.pos_string p)).
    by rewrite IH.
Qed.

#[global] Program Instance parser : ParseJson := {
  json_from_str s :=
    match decode (RefServer.string_pos (first_line s)) with
    | Some t => inr (value_of (of_tree t))
    | None => inl "expected value at line 1 column 1"
    end }.
Next Obligation.
  intros j. unfold file_text. cbn [to_string_pretty printer].
  by rewrite first_line_numeral, RefServer.string_pos_string, decode_encode, of_tree_to_tree.
Qed.

(** The texts of two floats. *)
#[global] Instance floats : FloatText := {
  f64_parse s := if String.eqb s "inf" then Some (S754_infinity false) else None;
  f64_print x := match x with S754_infinity _ => "inf" | _ => "3" end;
}.
Definition unset (_ : string) : EnvVar := EnvUnset.
Definition unlimited (name : string) : EnvVar :=
  if String.eqb name "RMIG_E2E_TIMING_FACTOR" then EnvText "inf" else EnvUnset.

Definition snapshot : PlanSnapshot :=
  mk_PlanSnapshot (<["d/dbo/views/v" := mk_SnapshotObject "d/dbo/views/v.sql" "create_object" "ab" false]> ∅)
    SNAPSHOT_VERSION false.
Definition baseline : E2EScenarioReport :=
  mk_E2EScenarioReport "empty_db_plan" ["rmig plan"]
    (PhaseTimings_default <| pt_plan_wall_ms := 40%Z |> <| pt_l1_cache_hit := true |>)
    (mk_IoTotals 12 3 0 0) snapshot (<["create_object" := 1%Z]> ∅).


(** Three times the baseline, and a tenth of a second. *)
Example default_ceiling : map (ceiling_ms unset) [0; 7; 40; 9007199254740993]%Z =
  [100; 121; 220; 27021597764223076]%Z.
Proof. vm_compute. reflexivity. Qed.

Example slower_run_is_reported :
  compare_e2e_reports unset baseline
    (mk_E2EScenarioReport "empty_db_plan" ["rmig plan"]
      (PhaseTimings_default <| pt_plan_wall_ms := 221%Z |> <| pt_l1_cache_hit := true |>)
      (mk_IoTotals 99 3 0 0) snapshot (<["create_object" := 1%Z]> ∅)) =
  ["plan_wall_ms: actual=221ms > baseline=40ms ceiling=220ms (factor=3, slack=100ms)"].
Proof. vm_compute. reflexivity. Qed.

(** An infinite factor saturates, the slack is added on top, and the sum wraps: the
    ceiling is below every time. *)
Lemma infinite_factor_fails : (ceiling_ms unlimited 40 < 0)%Z ∧
  compare_timings unlimited (sr_timings baseline) (sr_timings baseline) =
  ["plan_wall_ms: actual=40ms > baseline=40ms ceiling=-9223372036854775709ms (factor=inf, slack=100ms)"].
Proof. split; [vm_compute; reflexivity|vm_compute; reflexivity]. Qed.
End E2eSample.
