(* ===== verification/Daemon.v ===== *)
(** * The session daemon ([session/auth.rs], [session/daemon_rpc.rs], [session/daemon/])

    [rmigd] holds one warm connection and serves it to its clients one at a time.
    A handler reads requests, checks the token and the endpoint, takes the
    connection for the rest of its life and cleans it when it ends.  The handlers
    run concurrently: a step of the daemon is one request of one handler, and a
    handler that needs the connection while another has it does not step. *)

From S2P Require Export Driver.
From Stdlib Require Import Ascii.
From Stdlib Require String.

(** ** Tokens ([session/auth.rs]) *)

(** The loop over the bytes: [diff |= x ^ y]. *)
Definition byte_diff (diff : N) (xy : ascii * ascii) : N :=
  N.lor diff (N.lxor (N_of_ascii xy.1) (N_of_ascii xy.2)).
Definition constant_time_eq (a b : string) : bool :=
  let la := String.list_ascii_of_string a in
  let lb := String.list_ascii_of_string b in
  if negb (Nat.eqb (length la) (length lb)) then false
  else (foldl byte_diff 0 (zip la lb) =? 0)%N.

Section auth.
Context (env : string → EnvVar) (published : option string).

Definition token_required : bool := negb (String.eqb (resolve_session_token env published None) "").
Definition verify_token (provided : string) : M unit :=
  let expected := resolve_session_token env published None in
  if String.eqb expected "" then Ok tt
  else if constant_time_eq provided expected then Ok tt
  else Err (InvalidInput "rmigd: invalid session token").
End auth.

(** ** The endpoint of the warm connection ([daemon/endpoint.rs]) *)

Record Endpoint := mk_Endpoint {
  ep_server : string;
  ep_port : string;
  ep_user : string;
  ep_encrypt : bool;
  ep_trust_server_certificate : bool;
}.

Definition differs (got want : string) : bool := negb (String.eqb got "") && negb (String.eqb got want).
Definition flag_differs (got : option bool) (want : bool) : bool :=
  match got with Some v => negb (Bool.eqb v want) | None => false end.

Definition endpoint_mismatch (ep : Endpoint) (server port user : string)
    (encrypt trust_server_certificate : option bool) : option string :=
  let mismatched :=
    map fst (List.filter snd
      [("server", differs server (ep_server ep)); ("port", differs port (ep_port ep));
       ("user", differs user (ep_user ep)); ("encrypt", flag_differs encrypt (ep_encrypt ep));
       ("trust_server_certificate",
        flag_differs trust_server_certificate (ep_trust_server_certificate ep))]) in
  match mismatched with
  | [] => None
  | _ => Some ("rmigd endpoint mismatch (" +:+ str_join ", " mismatched +:+ "): daemon serves "
           +:+ ep_server ep +:+ ":" +:+ ep_port ep +:+ " as " +:+ ep_user ep
           +:+ "; reconnect directly or point RMIG_SESSION at a matching daemon")
  end.

Definition refusal_for (req : Request) (ep : Endpoint) : option Response :=
  match req with
  | Ping server port user encrypt trust => response_err <$> endpoint_mismatch ep server port user encrypt trust
  | _ => None
  end.

Definition daemon_endpoint (cfg : Config.Config) : Endpoint :=
  mk_Endpoint (cfg_server cfg) (cfg_port cfg) (cfg_user cfg) (cfg_encrypt cfg)
    (cfg_trust_server_certificate cfg).

(** ** Metrics ([daemon/metrics.rs]) *)

(** Counters are [AtomicU64]s, whose addition wraps; the start is a time in nanoseconds. *)
Record Metrics := mk_Metrics {
  mt_started : option N;
  mt_requests : N;
  mt_reconnects : N;
  mt_queue_waits : N;
}.
Definition Metrics_default : Metrics := mk_Metrics None 0 0 0.
Definition u64_incr (n : N) : N := ((n + 1) `mod` 18446744073709551616)%N.

Definition mark_started (now : N) (m : Metrics) : Metrics :=
  mk_Metrics (Some (default now (mt_started m))) (mt_requests m) (mt_reconnects m) (mt_queue_waits m).
Definition record_request (m : Metrics) : Metrics :=
  mk_Metrics (mt_started m) (u64_incr (mt_requests m)) (mt_reconnects m) (mt_queue_waits m).
Definition record_reconnect (m : Metrics) : Metrics :=
  mk_Metrics (mt_started m) (mt_requests m) (u64_incr (mt_reconnects m)) (mt_queue_waits m).
Definition record_queue_wait (m : Metrics) : Metrics :=
  mk_Metrics (mt_started m) (mt_requests m) (mt_reconnects m) (u64_incr (mt_queue_waits m)).

Definition QUOTE1 : string := String "034"%char "".
Definition snapshot_json (now : N) (m : Metrics) (warm : bool) : string :=
  let field (name value : string) := QUOTE1 +:+ name +:+ QUOTE1 +:+ ":" +:+ value in
  let uptime := match mt_started m with Some t => ((now - t) / NS_PER_SEC)%N | None => 0%N end in
  "{" +:+ str_join "," [field "uptime_s" (pretty uptime); field "requests" (pretty (mt_requests m));
    field "reconnects" (pretty (mt_reconnects m)); field "queue_waits" (pretty (mt_queue_waits m));
    field "warm_connection" (bool_to_string warm)] +:+ "}".

(** ** The state of the daemon *)

(** The rest of a raw client's calls. *)
Class RawSql (W : Type) `{Net W} := {
  w_raw_query : N → RawClient → string → list string → W → W * option (string + list RowData);
  w_raw_stmt : N → RawClient → Stmt → W → W * option (string + unit);
  w_raw_ping : N → RawClient → W → W * option (string + unit);
}.

(** What happened, and through which handler: a client was accepted or gave the
    token, a request ran on the warm connection, the connection was cleaned,
    discarded or made again. *)
Inductive Event : Type :=
| Accepted (id : nat)
| Authenticated (id : nat) (token : string)
| Reconnected
| Ran (id : nat) (req : Request)
| Cleaned (id : nat)
| Discarded (id : nat).
#[global] Instance Request_eq_dec : EqDecision Request.
Proof. solve_decision. Defined.
#[global] Instance Event_eq_dec : EqDecision Event.
Proof. solve_decision. Defined.

(** The mutex around the warm client, the handler that has it locked, the metrics,
    and the trace. *)
Record Daemon (W : Type) `{Net W} := mk_Daemon {
  dm_st : St W;
  dm_client : option RawClient;
  dm_owner : option nat;
  dm_metrics : Metrics;
  dm_trace : list Event;
}.
Arguments mk_Daemon {W _}.
Arguments dm_st {W _}.
Arguments dm_client {W _}.
Arguments dm_owner {W _}.
Arguments dm_metrics {W _}.
Arguments dm_trace {W _}.

(** A handler between two requests: [h_session] when it has the mutex. *)
Record Handler := mk_Handler { h_authenticated : bool; h_session : bool }.
#[global] Instance Handler_eq_dec : EqDecision Handler.
Proof. solve_decision. Defined.

(** What the read of a line yields, and what the write of the answer would. *)
Inductive Input : Type :=
| Line (line : string)
| Eof
| Idle
| ReadError (e : string).
Record Turn := mk_Turn { tn_input : Input; tn_write : option string; tn_waited_ms : N }.

(** How a turn leaves the loop. *)
Inductive Flow : Type := Next | Stop (result : M unit).

Definition MAX_DAEMON_CLIENTS : nat := 64.
Definition WARM_SESSION_WAIT_WARN_MS : N := 100.

Section daemon.
Context {W : Type} `{HW : World W} `{HN : !Net W} `{HCl : Clock W} `{HR : !RawSql W}.
Context `{HSJ : SessionJson}.
Context (env : string → EnvVar) (published : option string).
Context (reconnect_cfg : Config.Config) (command_timeout : N) (endpoint : Endpoint).

Definition set_st (s : St W) (d : Daemon W) : Daemon W :=
  mk_Daemon s (dm_client d) (dm_owner d) (dm_metrics d) (dm_trace d).
Definition set_warm_client (c : option RawClient) (d : Daemon W) : Daemon W :=
  mk_Daemon (dm_st d) c (dm_owner d) (dm_metrics d) (dm_trace d).
Definition set_owner (o : option nat) (d : Daemon W) : Daemon W :=
  mk_Daemon (dm_st d) (dm_client d) o (dm_metrics d) (dm_trace d).
Definition set_metrics (f : Metrics → Metrics) (d : Daemon W) : Daemon W :=
  mk_Daemon (dm_st d) (dm_client d) (dm_owner d) (f (dm_metrics d)) (dm_trace d).
Definition trace_event (e : Event) (d : Daemon W) : Daemon W :=
  mk_Daemon (dm_st d) (dm_client d) (dm_owner d) (dm_metrics d) (dm_trace d ++ [e]).

(** ** Requests on the warm connection ([session/daemon_rpc.rs]) *)

Definition raw_call {A} (f : W → W * option (string + A)) : IO W (option (Error + A)) := λ s,
  let '(w, r) := f (st_world s) in
  (Ok (match r with
       | Some (inl e) => Some (inl (Sql e))
       | Some (inr a) => Some (inr a)
       | None => None
       end), set_world w s).

Definition reply {A} (ok : A → Response) (r : option (Error + A)) : option Response :=
  match r with
  | Some (inr a) => Some (ok a)
  | Some (inl e) => Some (response_err (error_fmt e))
  | None => None
  end.

(** [handle] under the command timeout: no response when that has passed. *)
Definition handle (client : RawClient) (req : Request) : IO W (option Response) :=
  let done_ (_ : unit) := response_ok_empty in
  match req with
  | Auth _ => mret (Some (response_err "auth must be handled before rpc dispatch"))
  | Ping _ _ _ _ _ => reply done_ <$> raw_call (w_raw_ping command_timeout client)
  | Exec sql => reply done_ <$> raw_exec command_timeout client sql
  | Query sql params =>
      log_rpc req;; reply response_rows <$> raw_call (w_raw_query command_timeout client sql params)
  | Stats => mret (Some (response_err "stats handled at daemon level"))
  end.

(** A statement of the clean-up has no bound around it. *)
Definition raw_const (client : RawClient) (stmt : Stmt) : IO W unit :=
  r ← raw_call (w_raw_stmt 0 client stmt);
  match r with
  | Some (inr tt) => mret tt
  | Some (inl e) => lift (Err e)
  | None => lift Panic
  end.
Definition cleanup_session (client : RawClient) : IO W unit :=
  raw_const client ROLLBACK_IF_OPEN;; raw_const client LOCK_RELEASE_IF_HELD.

(** ** One handler ([daemon/serve.rs], [daemon/serve_loop.rs], [daemon/reply.rs]) *)

Definition write_response (tn : Turn) (resp : Response) : M unit :=
  if (MAX_SESSION_LINE_BYTES <? N.of_nat (String.length (json_of_response resp)))%N
  then Err (InvalidInput "response exceeds size limit")
  else match tn_write tn with None => Ok tt | Some e => Err (Io e) end.
(** An answer that cannot be written ends the loop. *)
Definition answer (tn : Turn) (resp : Response) (flow : Flow) : Flow :=
  match write_response tn resp with Ok tt => flow | r => Stop r end.

Definition reconnect (d : Daemon W) : M unit * Daemon W :=
  match dm_client d with
  | Some _ => (Ok tt, d)
  | None =>
      match connect reconnect_cfg (dm_st d) with
      | (Ok c, s) =>
          (Ok tt, trace_event Reconnected
                    (set_metrics record_reconnect (set_warm_client (Some c) (set_st s d))))
      | (Err e, s) => (Err e, set_st s d)
      | (Panic, s) => (Panic, set_st s d)
      end
  end.

(** [None] while another handler has the mutex; a failed reconnection gives it back. *)
Definition acquire_session (id : nat) (tn : Turn) (h : Handler) (d : Daemon W)
    : option ((Flow + unit) * Handler * Daemon W) :=
  if h_session h then Some (inr tt, h, d)
  else match dm_owner d with
  | Some _ => None
  | None =>
      let d := if (WARM_SESSION_WAIT_WARN_MS <? tn_waited_ms tn)%N
               then set_metrics record_queue_wait d else d in
      match reconnect d with
      | (Ok tt, d) => Some (inr tt, mk_Handler (h_authenticated h) true, set_owner (Some id) d)
      | (Err e, d) =>
          Some (inl (answer tn (response_err ("rmigd: database reconnect failed: " +:+ error_fmt e))
                       (Stop (Ok tt))), h, d)
      | (Panic, d) => Some (inl (Stop Panic), h, d)
      end
  end.

(** A request that timed out leaves the connection unusable: it is dropped.  Without
    a bound, a request that never ends does not return. *)
Definition dispatch (id : nat) (req : Request) (d : Daemon W) : M (option Response) * Daemon W :=
  match dm_client d with
  | None => (Err (Errors.Config "rmigd: missing database session"), d)
  | Some client =>
      let '(r, s) := handle client req (dm_st d) in
      let d := trace_event (Ran id req) (set_st s d) in
      match r with
      | Ok (Some resp) => (Ok (Some resp), d)
      | Ok None => if (command_timeout =? 0)%N then (Panic, d)
                   else (Ok None, trace_event (Discarded id) (set_warm_client None d))
      | Err e => (Err e, d)
      | Panic => (Panic, d)
      end
  end.

(** One round of [serve_loop]. *)
Definition serve_request (id : nat) (tn : Turn) (req : Request) (h : Handler) (d : Daemon W)
    : option (Flow * Handler * Daemon W) :=
  match acquire_session id tn h d with
  | None => None
  | Some (inl flow, h, d) => Some (flow, h, d)
  | Some (inr tt, h, d) =>
      let d := set_metrics record_request d in
      let '(r, d) := dispatch id req d in
      let flow :=
        match r with
        | Ok (Some resp) => answer tn resp Next
        | Ok None => answer tn (response_err "rmigd: request timed out") (Stop (Ok tt))
        | Err e => Stop (Err e)
        | Panic => Stop Panic
        end in
      Some (flow, h, d)
  end.

Definition serve_turn (id : nat) (tn : Turn) (h : Handler) (d : Daemon W)
    : option (Flow * Handler * Daemon W) :=
  match tn_input tn with
  | ReadError e => Some (Stop (Err (Io e)), h, d)
  | Idle | Eof | Line "" => Some (Stop (Ok tt), h, d)
  | Line line =>
      if (MAX_SESSION_LINE_BYTES <? N.of_nat (String.length line))%N then
        Some (answer tn (response_err "request line exceeds size limit") (Stop (Ok tt)), h, d)
      else match request_of_json (trim line) with
      | inl e => Some (answer tn (response_err e) Next, h, d)
      | inr (Auth token) =>
          match verify_token env published token with
          | Ok tt => Some (answer tn response_ok_empty Next, mk_Handler true (h_session h),
                           trace_event (Authenticated id token) d)
          | Err e => Some (answer tn (response_err (error_fmt e)) (Stop (Ok tt)), h, d)
          | Panic => Some (Stop Panic, h, d)
          end
      | inr req =>
          if negb (h_authenticated h) then
            Some (answer tn (response_err "rmigd: auth required (send Auth with RMIG_SESSION_TOKEN)")
                    (Stop (Ok tt)), h, d)
          else match req with
          | Stats =>
              let warm := match dm_owner d with
                          | Some _ => true
                          | None => bool_decide (is_Some (dm_client d))
                          end in
              let json := snapshot_json (w_clock (st_world (dm_st d))) (dm_metrics d) warm in
              Some (answer tn (response_stats json) Next, h, d)
          | _ =>
              match refusal_for req endpoint with
              | Some resp => Some (answer tn resp (Stop (Ok tt)), h, d)
              | None => serve_request id tn req h d
              end
          end
      end
  end.

(** The end of [serve]: a healthy connection is cleaned, one that cannot be is
    discarded, and the mutex is given back.  [None] when the clean-up never ends. *)
Definition finish_session (id : nat) (h : Handler) (d : Daemon W) : option (Daemon W) :=
  if negb (h_session h) then Some d
  else match dm_client d with
  | None => Some (set_owner None d)
  | Some client =>
      match cleanup_session client (dm_st d) with
      | (Ok tt, s) => Some (set_owner None (trace_event (Cleaned id) (set_st s d)))
      | (Err _, s) => Some (set_owner None (trace_event (Discarded id) (set_warm_client None (set_st s d))))
      | (Panic, _) => None
      end
  end.

(** ** All handlers ([daemon/mod.rs]) *)

Record System := mk_System { sy_daemon : Daemon W; sy_handlers : gmap nat Handler }.

Definition new_handler : Handler := mk_Handler (negb (token_required env published)) false.

(** Connections are numbered; one is accepted when a slot is free.  A panic aborts
    the process, so no step follows it. *)
Inductive step : System → System → Prop :=
| step_accept d hs id :
    Accepted id ∉ dm_trace d → hs !! id = None → size hs < MAX_DAEMON_CLIENTS →
    step (mk_System d hs) (mk_System (trace_event (Accepted id) d) (<[id := new_handler]> hs))
| step_next d hs id tn h h' d' :
    hs !! id = Some h → serve_turn id tn h d = Some (Next, h', d') →
    step (mk_System d hs) (mk_System d' (<[id := h']> hs))
| step_stop d hs id tn h h' d' d'' r :
    hs !! id = Some h → serve_turn id tn h d = Some (Stop r, h', d') →
    r ≠ Panic → finish_session id h' d' = Some d'' →
    step (mk_System d hs) (mk_System d'' (delete id hs)).

Definition initial (s : St W) (client : RawClient) (now : N) : System :=
  mk_System (mk_Daemon s (Some client) None (mark_started now Metrics_default) []) ∅.

Definition reachable (y : System) : Prop := ∃ s client now, rtc step (initial s client now) y.

(** One step as a scheduler would make it. *)
Inductive Move : Type := Accept (id : nat) | Take (id : nat) (tn : Turn).
Definition move (y : System) (m : Move) : option System :=
  let '(mk_System d hs) := y in
  match m with
  | Accept id =>
      if bool_decide ((Accepted id ∉ dm_trace d) ∧ hs !! id = None ∧ size hs < MAX_DAEMON_CLIENTS)
      then Some (mk_System (trace_event (Accepted id) d) (<[id := new_handler]> hs)) else None
  | Take id tn =>
      h ← hs !! id;
      '(flow, h', d') ← serve_turn id tn h d;
      match flow with
      | Next => Some (mk_System d' (<[id := h']> hs))
      | Stop Panic => None
      | Stop _ => d'' ← finish_session id h' d'; Some (mk_System d'' (delete id hs))
      end
  end.
Definition moves (y : System) (ms : list Move) : option System :=
  foldl (λ o m, match o with Some y => move y m | None => None end) (Some y) ms.
End daemon.

(** ** Facts: tokens and endpoints *)

Lemma lor_lxor_zero (l : list (ascii * ascii)) : ∀ acc,
  foldl byte_diff acc l = 0%N ↔ acc = 0%N ∧ Forall (λ xy, xy.1 = xy.2) l.
Proof.
  induction l as [|[x y] l IH]; intros acc; cbn [foldl].
  - split; [by intros ->|by intros []].
  - rewrite IH. unfold byte_diff. cbn [fst snd]. rewrite N.lor_eq_0_iff, N.lxor_eq_0_iff, Forall_cons.
    cbn [fst snd]. split; [intros [[? E] ?]|intros (? & -> & ?)]; split_and!; try done.
    by rewrite <- (ascii_N_embedding x), E, ascii_N_embedding.
Qed.

(** The comparison that looks at every byte is equality: it neither accepts a
    token that differs nor refuses the right one, so a handler accepts exactly
    the configured token, or any token when none is configured. *)
Theorem constant_time_eq_spec a b :
  (constant_time_eq a b = true ↔ a = b) ∧
  (∀ env published, let expected := resolve_session_token env published None in
     verify_token env published a = Ok tt ↔ expected = "" ∨ a = expected).
Proof.
  assert (∀ a b, constant_time_eq a b = true ↔ a = b) as H.
  { clear. intros a b. unfold constant_time_eq.
    assert (a = b ↔ String.list_ascii_of_string a = String.list_ascii_of_string b) as ->.
    { split; [congruence|]. intros E%(f_equal String.string_of_list_ascii).
      by rewrite !String.string_of_list_ascii_of_string in E. }
    generalize (String.list_ascii_of_string a) as la, (String.list_ascii_of_string b) as lb.
    clear a b. intros la lb.
    destruct (Nat.eqb_spec (length la) (length lb)) as [Hl|Hl]; cbn [negb]; [|split; congruence].
    rewrite N.eqb_eq, lor_lxor_zero. split.
    - intros [_ Hf]. revert lb Hl Hf.
      induction la as [|x la IH]; intros [|y lb]; cbn; try done.
      intros [= Hl] [E Hf]%Forall_cons. cbn in E. subst. f_equal. auto.
    - intros ->. split; [done|]. clear. induction lb; cbn; by constructor. }
  split; [apply H|]. intros env published. cbv zeta. unfold verify_token.
  destruct (String.eqb_spec (resolve_session_token env published None) "") as [E|E]; [split; auto|].
  specialize (H a (resolve_session_token env published None)).
  destruct (constant_time_eq _ _); split; try done.
  - intros _. right. by apply H.
  - intros [?|Ha]; [done|by apply H in Ha].
Qed.

(** The daemon refuses a session exactly when the client names an endpoint that
    is not its own: a field the client leaves out is not compared, and a client
    configured like the daemon is never refused. *)
Theorem endpoint_mismatch_spec ep server port user encrypt trust :
  (endpoint_mismatch ep server port user encrypt trust = None ↔
     (server = "" ∨ server = ep_server ep) ∧ (port = "" ∨ port = ep_port ep) ∧
     (user = "" ∨ user = ep_user ep) ∧ (encrypt = None ∨ encrypt = Some (ep_encrypt ep)) ∧
     (trust = None ∨ trust = Some (ep_trust_server_certificate ep))) ∧
  (∀ cfg, refusal_for (request_ping cfg) (daemon_endpoint cfg) = None).
Proof.
  assert (∀ got want, differs got want = false ↔ got = "" ∨ got = want) as Hd.
  { intros got want. unfold differs. destruct (String.eqb_spec got ""), (String.eqb_spec got want); cbn; intuition congruence. }
  assert (∀ got want, flag_differs got want = false ↔ got = None ∨ got = Some want) as Hf.
  { intros [v|] want; cbn; [|tauto]. rewrite negb_false_iff, eqb_true_iff.
    split; [intros ->; by right|by intros [|[=]]]. }
  assert (∀ ep server port user encrypt trust,
    endpoint_mismatch ep server port user encrypt trust = None ↔
    differs server (ep_server ep) = false ∧ differs port (ep_port ep) = false ∧
    differs user (ep_user ep) = false ∧ flag_differs encrypt (ep_encrypt ep) = false ∧
    flag_differs trust (ep_trust_server_certificate ep) = false) as Hm.
  { clear. intros. unfold endpoint_mismatch.
    destruct (differs server _), (differs port _), (differs user _), (flag_differs encrypt _),
      (flag_differs trust _); cbn; split; try done; by intros (?&?&?&?&?). }
  split; [by rewrite Hm, !Hd, !Hf|]. intros cfg. cbn.
  assert (endpoint_mismatch (daemon_endpoint cfg) (cfg_server cfg) (cfg_port cfg) (cfg_user cfg)
    (Some (cfg_encrypt cfg)) (Some (cfg_trust_server_certificate cfg)) = None) as ->; [|done].
  rewrite Hm, !Hd, !Hf. cbn. auto 8.
Qed.

(** ** Facts: the connection between clients *)

(** The handler whose statements may have left something on the connection. *)
Definition dirty_step (s : option nat) (e : Event) : option nat :=
  match e with
  | Ran id _ => Some id
  | Cleaned id | Discarded id => if bool_decide (s = Some id) then None else s
  | _ => s
  end.
Definition dirty_from (s : option nat) (tr : list Event) : option nat := foldl dirty_step s tr.

(** Nothing runs on what another handler left. *)
Fixpoint runs_clean (s : option nat) (tr : list Event) : Prop :=
  match tr with
  | [] => True
  | e :: tr =>
      match e with Ran id _ => s = None ∨ s = Some id | _ => True end ∧ runs_clean (dirty_step s e) tr
  end.

Lemma dirty_from_app s a b : dirty_from s (a ++ b) = dirty_from (dirty_from s a) b.
Proof. apply foldl_app. Qed.
Lemma runs_clean_app a b : ∀ s, runs_clean s (a ++ b) ↔ runs_clean s a ∧ runs_clean (dirty_from s a) b.
Proof. induction a as [|e a IH]; intros s; cbn; [tauto|]. rewrite IH. tauto. Qed.

Lemma runs_clean_dirty mid i : ∀ s, s = Some i → runs_clean s mid →
  Cleaned i ∉ mid → Discarded i ∉ mid → dirty_from s mid = Some i.
Proof.
  induction mid as [|e mid IH]; intros s -> Hr Hc Hd; [done|].
  apply not_elem_of_cons in Hc as [Hc1 Hc2]. apply not_elem_of_cons in Hd as [Hd1 Hd2].
  cbn in Hr |- *. destruct Hr as [He Hr]. apply IH; try done.
  destruct e as [| | |j req|j|j]; cbn; try done.
  - by destruct He as [|[= <-]].
  - rewrite bool_decide_eq_false_2; congruence.
  - rewrite bool_decide_eq_false_2; congruence.
Qed.

Section daemon_facts.
Context {W : Type} `{HW : World W} `{HN : !Net W} `{HCl : Clock W} `{HR : !RawSql W}.
Context `{HSJ : SessionJson}.
Context (env : string → EnvVar) (published : option string).
Context (cfg : Config.Config) (timeout : N) (ep : Endpoint).
Abbreviation turn := (serve_turn env published cfg timeout ep).

(** What a turn does to the handler and to the connection. *)
Definition reconnections (l : list Event) : Prop := l = [] ∨ l = [Reconnected].
Inductive effect (id : nat) (h : Handler) (d : Daemon W) : Handler → Daemon W → Prop :=
| effect_quiet d' recs :
    dm_owner d' = dm_owner d → dm_trace d' = dm_trace d ++ recs → reconnections recs →
    (is_Some (dm_client d) → is_Some (dm_client d')) → effect id h d h d'
| effect_auth token d' :
    verify_token env published token = Ok tt → dm_owner d' = dm_owner d →
    dm_client d' = dm_client d → dm_trace d' = dm_trace d ++ [Authenticated id token] →
    effect id h d (mk_Handler true (h_session h)) d'
| effect_ran recs tail d' :
    h_authenticated h = true → (h_session h = true ∨ dm_owner d = None) →
    dm_owner d' = (if h_session h then dm_owner d else Some id) →
    dm_trace d' = dm_trace d ++ recs ++ tail → reconnections recs →
    (tail = [] ∧ (is_Some (dm_client d) → is_Some (dm_client d')) ∨
     (∃ req, tail = [Ran id req]) ∧ is_Some (dm_client d') ∨
     (∃ req, tail = [Ran id req; Discarded id])) →
    effect id h d (mk_Handler (h_authenticated h) true) d'.

Lemma reconnect_effect d r d' : reconnect cfg d = (r, d') →
  dm_owner d' = dm_owner d ∧ (∃ recs, dm_trace d' = dm_trace d ++ recs ∧ reconnections recs) ∧
  (is_Some (dm_client d) → is_Some (dm_client d')).
Proof.
  unfold reconnect. destruct (dm_client d) as [c|] eqn:Ec.
  - intros [= <- <-]. split_and!; [done| |by rewrite Ec]. exists []. by rewrite app_nil_r; split; [|left].
  - destruct (connect cfg (dm_st d)) as [[c|e|] s]; intros [= <- <-]; (split_and!; [done| |by intros []]).
    + exists [Reconnected]. by split; [|right].
    + exists []. by rewrite app_nil_r; split; [|left].
    + exists []. by rewrite app_nil_r; split; [|left].
Qed.

Lemma dispatch_effect id req d r d' : dispatch timeout id req d = (r, d') →
  dm_owner d' = dm_owner d ∧
  ((d' = d) ∨
   (dm_trace d' = dm_trace d ++ [Ran id req] ∧ is_Some (dm_client d')) ∨
   (dm_trace d' = dm_trace d ++ [Ran id req; Discarded id])).
Proof.
  unfold dispatch. destruct (dm_client d) as [c|] eqn:Ec; [|intros [= <- <-]; auto].
  destruct (handle timeout c req (dm_st d)) as [[[resp|]|e|] s]; [|case_match|..];
    intros [= <- <-]; (split; [done|]); right.
  - left. cbn. by rewrite Ec.
  - left. cbn. by rewrite Ec.
  - right. cbn. by rewrite <- app_assoc.
  - left. cbn. by rewrite Ec.
  - left. cbn. by rewrite Ec.
Qed.

Lemma effect_quiet_same id h d d' : dm_owner d' = dm_owner d → dm_trace d' = dm_trace d →
  dm_client d' = dm_client d → effect id h d h d'.
Proof.
  intros Ho Ht Hc. apply (effect_quiet _ _ _ _ []); [done|by rewrite app_nil_r|by left|by rewrite Hc].
Qed.

Lemma serve_request_effect id tn req h d fl h' d' : h_authenticated h = true →
  serve_request cfg timeout id tn req h d = Some (fl, h', d') → effect id h d h' d'.
Proof.
  intros Ha. unfold serve_request, acquire_session.
  assert (∀ d0 o recs, (h_session h = true ∨ dm_owner d = None) →
    o = (if h_session h then dm_owner d else Some id) → dm_owner d0 = o →
    dm_trace d0 = dm_trace d ++ recs → reconnections recs →
    (is_Some (dm_client d) → is_Some (dm_client d0)) →
    ∀ x d1, dispatch timeout id req (set_metrics record_request d0) = (x, d1) →
    effect id h d (mk_Handler (h_authenticated h) true) d1) as Hgo.
  { intros d0 o recs Hs Ho1 Ho2 Ht Hr Hc x d1 (Ho & Hd)%dispatch_effect. cbn in Ho, Hd.
    destruct Hd as [->|[[Hd Hs1]|Hd]].
    - apply (effect_ran _ _ _ recs []); auto; [by cbn; rewrite Ho2|by cbn; rewrite app_nil_r].
    - apply (effect_ran _ _ _ recs [Ran id req]); auto; [by rewrite Ho, Ho2|by rewrite Hd, Ht, app_assoc|].
      right. left. eauto.
    - apply (effect_ran _ _ _ recs [Ran id req; Discarded id]); auto;
        [by rewrite Ho, Ho2|by rewrite Hd, Ht, app_assoc|]. right. right. eauto. }
  destruct (h_session h) eqn:Hs.
  - destruct (dispatch _ _ _ _) as [x d1] eqn:Ed. intros [= <- <- <-].
    assert (effect id h d (mk_Handler (h_authenticated h) true) d1) as He.
    { eapply (Hgo d _ []); [by left|done|done|by rewrite app_nil_r|by left|done|exact Ed]. }
    destruct h as [a []]; [exact He|done].
  - destruct (dm_owner d) as [o|] eqn:Eo; [done|].
    set (d0 := if (WARM_SESSION_WAIT_WARN_MS <? tn_waited_ms tn)%N then set_metrics record_queue_wait d else d).
    assert (dm_owner d0 = dm_owner d ∧ dm_trace d0 = dm_trace d ∧ dm_client d0 = dm_client d) as (Ho & Ht & Hc)
      by (unfold d0; by case_match).
    destruct (reconnect cfg d0) as [[[]|e|] d1] eqn:Er;
      apply reconnect_effect in Er as (Ho1 & (recs & Ht1 & Hr1) & Hc1); rewrite Ho in Ho1; rewrite Ht in Ht1; rewrite Hc in Hc1.
    + destruct (dispatch _ _ _ _) as [x d2] eqn:Ed. intros [= <- <- <-].
      by eapply (Hgo (set_owner (Some id) d1) _ recs); [right| | | | | |exact Ed].
    + intros [= <- <- <-]. by eapply effect_quiet.
    + intros [= <- <- <-]. by eapply effect_quiet.
Qed.

Lemma serve_turn_effect id tn h d fl h' d' : turn id tn h d = Some (fl, h', d') → effect id h d h' d'.
Proof.
  assert (∀ fl0, Some (fl0, h, d) = Some (fl, h', d') → effect id h d h' d') as Hq.
  { intros fl0 [= _ <- <-]. by apply effect_quiet_same. }
  unfold serve_turn. destruct (tn_input tn) as [[|c line]| | |]; try apply Hq.
  case_match; [apply Hq|]. destruct (request_of_json _) as [e|req]; [apply Hq|].
  assert (∀ fl0 x, (if negb (h_authenticated h) then Some (fl0, h, d) else x) = Some (fl, h', d') →
    effect id h d h' d' ∨ h_authenticated h = true ∧ x = Some (fl, h', d')) as Hif.
  { intros fl0 x. destruct (h_authenticated h); cbn; [by right|]. left. by eapply Hq. }
  destruct req as [token| | | |].
  - destruct (verify_token env published token) as [[]|e|] eqn:Hv; [|apply Hq..].
    intros [= _ <- <-]. by eapply effect_auth.
  - intros [?|[Ha H1]]%Hif; [done|]. destruct (refusal_for _ _); [by eapply Hq|]. by eapply serve_request_effect.
  - intros [?|[Ha H1]]%Hif; [done|]. destruct (refusal_for _ _); [by eapply Hq|]. by eapply serve_request_effect.
  - intros [?|[Ha H1]]%Hif; [done|]. destruct (refusal_for _ _); [by eapply Hq|]. by eapply serve_request_effect.
  - intros [?|[Ha H1]]%Hif; [done|]. by eapply Hq.
Qed.

(** A handler that may run requests gave the token, if there is one. *)
Definition gave_token (id : nat) (tr : list Event) : Prop :=
  token_required env published = true →
  ∃ token, Authenticated id token ∈ tr ∧ verify_token env published token = Ok tt.

Record system_inv (y : System) : Prop := {
  inv_owner i : dm_owner (sy_daemon y) = Some i ↔
    ∃ h, sy_handlers y !! i = Some h ∧ h_session h = true;
  inv_size : size (sy_handlers y) ≤ MAX_DAEMON_CLIENTS;
  inv_dirty i : dirty_from None (dm_trace (sy_daemon y)) = Some i →
    dm_owner (sy_daemon y) = Some i ∧ is_Some (dm_client (sy_daemon y));
  inv_clean : runs_clean None (dm_trace (sy_daemon y));
  inv_token i h : sy_handlers y !! i = Some h → h_authenticated h = true →
    gave_token i (dm_trace (sy_daemon y));
  inv_ran pre i req post : dm_trace (sy_daemon y) = pre ++ Ran i req :: post → gave_token i pre;
}.

Lemma gave_token_app i tr tr' : gave_token i tr → gave_token i (tr ++ tr').
Proof. intros H Ht. destruct (H Ht) as (tok & Hi & Hv). exists tok. split; [|done]. apply elem_of_app. by left. Qed.

(** Adding events of which only the given one is a run. *)
Lemma inv_ran_app tr tail : (∀ pre i req post, tr = pre ++ Ran i req :: post → gave_token i pre) →
  (∀ pre i req post, tail = pre ++ Ran i req :: post → gave_token i (tr ++ pre)) →
  ∀ pre i req post, tr ++ tail = pre ++ Ran i req :: post → gave_token i pre.
Proof.
  intros H1 H2 pre i req post E. apply app_eq_inv in E as [(k & -> & E)|(k & -> & E)].
  - destruct k as [|e k]; cbn in E.
    + specialize (H2 [] i req post (eq_sym E)). by rewrite !app_nil_r in H2.
    + injection E as E1 E2. subst e post. by eapply H1.
  - by apply (H2 k i req post).
Qed.

Lemma reconnections_dirty s l : reconnections l → dirty_from s l = s ∧ runs_clean s l.
Proof. by intros [-> | ->]. Qed.
Lemma reconnections_no_run l pre i req post : reconnections l → l ≠ pre ++ Ran i req :: post.
Proof. intros [->| ->]; destruct pre as [|? []]; cbn; congruence. Qed.

Lemma inv_turn id tn h d hs fl h' d' :
  system_inv (mk_System d hs) → hs !! id = Some h → turn id tn h d = Some (fl, h', d') →
  system_inv (mk_System d' (<[id := h']> hs)).
Proof.
  intros [Io Is Id Ic It Ir] Hh He%serve_turn_effect. cbn in *.
  assert (size (<[id := h']> hs) ≤ MAX_DAEMON_CLIENTS) as Hsize
    by (rewrite map_size_insert_Some; [done|by eexists]).
  assert (∀ o, (∀ i, o = Some i ↔ ∃ h0, <[id := h']> hs !! i = Some h0 ∧ h_session h0 = true) ↔
    (∀ i, o = Some i ↔ if decide (id = i) then h_session h' = true
                       else ∃ h0, hs !! i = Some h0 ∧ h_session h0 = true)) as Hown.
  { intros o. apply forall_proper. intros i. rewrite lookup_insert. case_decide; [|done]. subst.
    assert ((∃ h0, Some h' = Some h0 ∧ h_session h0 = true) ↔ h_session h' = true) as ->; [|done].
    split; [by intros (? & [= <-] & ?)|eauto]. }
  assert (dm_owner d = Some id ↔ h_session h = true) as Hid.
  { rewrite Io. split; [by intros (h0 & ? & ?); simplify_eq|eauto]. }
  inversion He as [x recs Ho Ht Hr Hc|tok x Hv Ho Hc Ht|recs tail x Ha Hs Ho Ht Hr Htail]; subst.
  - destruct (reconnections_dirty (dirty_from None (dm_trace d)) recs Hr) as [Hd Hcl].
    split; cbn; rewrite ?Ho, ?Ht; [|exact Hsize| | | |].
    + rewrite insert_id by done. exact Io.
    + intros i. rewrite dirty_from_app, Hd. intros [? ?]%Id. auto.
    + rewrite runs_clean_app. auto.
    + intros i h0. rewrite insert_id by done. intros ??. apply gave_token_app. by eapply It.
    + apply inv_ran_app; [done|]. intros pre i req post E. by apply reconnections_no_run in E.
  - split; cbn; rewrite ?Ho, ?Ht, ?Hc; [|exact Hsize| | | |].
    + apply Hown. intros i. case_decide; [subst; exact Hid|apply Io].
    + intros i. rewrite dirty_from_app. apply Id.
    + rewrite runs_clean_app. split; [done|]. by cbn.
    + intros i h0. rewrite lookup_insert. case_decide as E; [subst|].
      * intros _ _ _. exists tok. split; [|done]. apply elem_of_app. right. by left.
      * intros ??. apply gave_token_app. by eapply It.
    + apply inv_ran_app; [done|]. intros [|? []] i req post; cbn; congruence.
  - destruct (reconnections_dirty (dirty_from None (dm_trace d)) recs Hr) as [Hd Hcl].
    assert (dm_owner d' = Some id) as Ho'.
    { rewrite Ho. destruct (h_session h) eqn:E; [by apply Hid|done]. }
    assert (dirty_from None (dm_trace d) = None ∨ dirty_from None (dm_trace d) = Some id) as Hdirty.
    { destruct (dirty_from None (dm_trace d)) as [j|] eqn:E; [|by left]. right.
      destruct (Id j eq_refl) as [Hj _]. destruct Hs as [Hs|Hs]; [|congruence]. apply Hid in Hs. congruence. }
    split; cbn; rewrite ?Ho', ?Ht; [|exact Hsize| | | |].
    + apply Hown. intros i. cbn. case_decide; [by subst; split|]. split; [congruence|].
      intros Hex%Io. destruct Hs as [Hs%Hid|Hs]; congruence.
    + intros i. rewrite !dirty_from_app, Hd.
      destruct Htail as [[-> Hc]|[[[req ->] Hc]|[req ->]]]; cbn.
      * intros E. destruct (Id i E) as [? ?]. split; [|auto]. destruct Hdirty; congruence.
      * intros [= <-]. auto.
      * by rewrite bool_decide_eq_true_2.
    + rewrite !runs_clean_app, Hd. split_and!; [done|done|].
      destruct Htail as [[-> Hc]|[[[req ->] Hc]|[req ->]]]; cbn; auto.
    + intros i h0. rewrite lookup_insert. case_decide as E; [subst|].
      * intros [= <-] _. apply gave_token_app. by eapply It.
      * intros ??. apply gave_token_app. by eapply It.
    + rewrite app_assoc. apply inv_ran_app.
      * apply inv_ran_app; [done|]. intros pre i req post E. by apply reconnections_no_run in E.
      * intros pre i req post E. enough (i = id) as ->.
        { apply gave_token_app, gave_token_app. by eapply It. }
        destruct Htail as [[-> Hc]|[[[r ->] Hc]|[r ->]]]; destruct pre as [|? [|? []]]; cbn in E; congruence.
Qed.

Lemma inv_finish id h d hs d' : system_inv (mk_System d hs) → hs !! id = Some h →
  finish_session id h d = Some d' → system_inv (mk_System d' (delete id hs)).
Proof.
  intros [Io Is Id Ic It Ir] Hh. cbn in *. unfold finish_session.
  assert (size (delete id hs) ≤ MAX_DAEMON_CLIENTS) as Hsize.
  { rewrite map_size_delete_Some by (by eexists). lia. }
  assert (dm_owner d = Some id ↔ h_session h = true) as Hid.
  { rewrite Io. split; [by intros (h0 & ? & ?); simplify_eq|eauto]. }
  destruct (h_session h) eqn:Es; cbn [negb]; cycle 1.
  { intros [= <-]. split; cbn; try done.
    - intros i. rewrite Io. split; intros (h0 & Hl & ?); exists h0; (split; [|done]).
      + rewrite lookup_delete_ne; [done|]. intros <-. congruence.
      + by apply lookup_delete_Some in Hl as [_ ?].
    - intros i h0 [_ ?]%lookup_delete_Some. by apply It. }
  assert (dm_owner d = Some id) as Howner by (by apply Hid).
  assert (∀ tail d1, dm_owner d1 = None → dm_trace d1 = dm_trace d ++ tail →
    (tail = [Cleaned id] ∨ tail = [Discarded id] ∨ tail = [] ∧ dm_client d = None) →
    system_inv (mk_System d1 (delete id hs))) as Hgo.
  { intros tail d1 Ho Ht Htail.
    assert (dirty_from None (dm_trace d ++ tail) = None) as Hnone.
    { rewrite dirty_from_app. destruct (dirty_from None (dm_trace d)) as [j|] eqn:E.
      - destruct (Id j eq_refl) as [? [c Hc]]. assert (j = id) as -> by congruence.
        destruct Htail as [-> | [-> | [-> ?]]]; cbn; [by rewrite bool_decide_eq_true_2..|congruence].
      - by destruct Htail as [-> | [-> | [-> ?]]]. }
    split; cbn; rewrite ?Ho, ?Ht; try done.
    - intros i. split; [done|]. intros (h0 & [Hne Hl]%lookup_delete_Some & Hs).
      assert (dm_owner d = Some i) by (apply Io; eauto). congruence.
    - intros i. by rewrite Hnone.
    - rewrite runs_clean_app. split; [done|]. by destruct Htail as [-> | [-> | [-> ?]]]; cbn.
    - intros i h0 [_ ?]%lookup_delete_Some ?. apply gave_token_app. by eapply It.
    - apply inv_ran_app; [done|]. intros pre i req post E.
      destruct Htail as [-> | [-> | [-> ?]]]; destruct pre as [|? []]; cbn in E; congruence. }
  destruct (dm_client d) as [c|] eqn:Ec.
  - destruct (cleanup_session c (dm_st d)) as [[[]|e|] s]; [| |done]; intros [= <-].
    + apply (Hgo [Cleaned id]); auto.
    + apply (Hgo [Discarded id]); auto.
  - intros [= <-]. apply (Hgo []); [done|cbn; by rewrite app_nil_r|auto].
Qed.

Lemma inv_step y y' : system_inv y → step env published cfg timeout ep y y' → system_inv y'.
Proof.
  intros Hi Hs. destruct Hs as [d hs id Hf Hn Hsz|d hs id tn h h' d' Hh Ht|d hs id tn h h' d' d'' r Hh Ht Hr Hfin].
  - destruct Hi as [Io Is Id Ic It Ir]. cbn in *. split; cbn.
    + intros i. rewrite Io. rewrite lookup_insert. case_decide; [subst|done].
      split; intros (h0 & Hl & Hsn); [congruence|]. by injection Hl as <-.
    + rewrite map_size_insert_None by done. lia.
    + intros i. rewrite dirty_from_app. apply Id.
    + rewrite runs_clean_app. by cbn.
    + intros i h0. rewrite lookup_insert. case_decide; [subst|].
      * intros [= <-]. cbn. intros Ha Hr. by rewrite Hr in Ha.
      * intros ??. apply gave_token_app. by eapply It.
    + apply inv_ran_app; [done|]. intros [|? []] i req post; cbn; congruence.
  - by eapply inv_turn.
  - eapply inv_turn in Ht; [|done..]. rewrite <- (delete_insert_eq hs id h').
    eapply inv_finish; [exact Ht|by rewrite lookup_insert_eq|done].
Qed.

Lemma move_step y m y' : move env published cfg timeout ep y m = Some y' →
  step env published cfg timeout ep y y'.
Proof.
  destruct y as [d hs], m as [id|id tn]; cbn.
  - case_bool_decide as H; [|done]. intros [= <-]. destruct H as (? & ? & ?). by constructor.
  - destruct (hs !! id) as [h|] eqn:Hh; [cbn|done].
    destruct (turn id tn h d) as [[[fl h'] d']|] eqn:Ht; [cbn|done].
    destruct fl as [|[[]|e|]]; [| | |done].
    + intros [= <-]. by eapply step_next.
    + destruct (finish_session id h' d') as [d''|] eqn:Hf; [cbn|done]. intros [= <-]. by eapply step_stop.
    + destruct (finish_session id h' d') as [d''|] eqn:Hf; [cbn|done]. intros [= <-]. by eapply step_stop.
Qed.
Lemma moves_reachable s c now ms y : moves env published cfg timeout ep (initial s c now) ms = Some y →
  reachable env published cfg timeout ep y.
Proof.
  intros H. exists s, c, now. revert H. generalize (initial s c now). induction ms as [|m ms IH]; intros y0.
  - intros [= ->]. apply rtc_refl.
  - unfold moves. cbn. destruct (move _ _ _ _ _ y0 m) as [y1|] eqn:E.
    + intros H. eapply rtc_l; [by eapply move_step|]. by apply IH.
    + clear. induction ms; done.
Qed.

Lemma reachable_inv y : reachable env published cfg timeout ep y → system_inv y.
Proof.
  intros (s & c & now & Hr).
  assert (system_inv (initial s c now)) as H0.
  { split; cbn; try done.
    - intros i. split; [done|]. by intros (h & ? & _).
    - rewrite map_size_empty. unfold MAX_DAEMON_CLIENTS. lia.
    - intros [|? pre] i req post; cbn; congruence. }
  induction Hr as [|y1 y2 y3 Hstep _ IH]; [done|]. apply IH. by eapply inv_step.
Qed.

Lemma acquire_session_waits id tn h d : acquire_session cfg id tn h d = None →
  h_session h = false ∧ is_Some (dm_owner d).
Proof.
  unfold acquire_session. destruct (h_session h); [done|]. destruct (dm_owner d) as [o|]; [by eauto|].
  by destruct (reconnect cfg _) as [[[]|e|] d1].
Qed.
Lemma serve_request_waits id tn req h d : serve_request cfg timeout id tn req h d = None →
  h_session h = false ∧ is_Some (dm_owner d).
Proof.
  unfold serve_request. destruct (acquire_session _ _ _ _ _) as [[[[fl|[]] h1] d1]|] eqn:E;
    [done| |by apply acquire_session_waits in E]. by destruct (dispatch _ _ _ _).
Qed.
Lemma serve_turn_waits id tn h d : turn id tn h d = None → h_session h = false ∧ is_Some (dm_owner d).
Proof.
  unfold serve_turn. destruct (tn_input tn) as [[|c line]| | |]; try done. case_match; [done|].
  destruct (request_of_json _) as [e|req]; [done|].
  destruct req as [token| | | |]; [by destruct (verify_token _ _ _) as [[]| |]|..]; (case_match; [done|]); try done;
    (case_match; [done|apply serve_request_waits]).
Qed.

(** C6. Nobody waits for ever on another waiter: a client whose turn cannot be taken
    waits for one other client, which holds the connection, whose own turns can
    always be taken, and which ends when it hangs up or falls silent; its end
    gives the connection back, unless the server never answers the clean-up. *)
Theorem daemon_never_deadlocks y id tn h : reachable env published cfg timeout ep y →
  sy_handlers y !! id = Some h → turn id tn h (sy_daemon y) = None →
  ∃ j hj, j ≠ id ∧ sy_handlers y !! j = Some hj ∧ h_session hj = true ∧
    (∀ tn', turn j tn' hj (sy_daemon y) ≠ None) ∧
    (∀ w ms, turn j (mk_Turn Eof w ms) hj (sy_daemon y) = Some (Stop (Ok tt), hj, sy_daemon y) ∧
             turn j (mk_Turn Idle w ms) hj (sy_daemon y) = Some (Stop (Ok tt), hj, sy_daemon y)) ∧
    match finish_session j hj (sy_daemon y) with
    | Some d' => dm_owner d' = None ∧ turn id tn h d' ≠ None
    | None => ∃ c, dm_client (sy_daemon y) = Some c ∧
                   (cleanup_session c (dm_st (sy_daemon y))).1 = Panic
    end.
Proof.
  intros [Io _ _ _ _ _]%reachable_inv Hid [Hs [j Hj]]%serve_turn_waits.
  apply Io in Hj as (hj & Hlj & Hsj). exists j, hj.
  split_and!; [congruence|done|done| |done|].
  - intros tn' [Hs' _]%serve_turn_waits. congruence.
  - unfold finish_session. rewrite Hsj. cbn [negb].
    assert (∀ d', dm_owner d' = None → dm_owner d' = None ∧ turn id tn h d' ≠ None) as Hfree.
    { intros d' Ho. split; [done|]. intros [_ [? ?]]%serve_turn_waits. congruence. }
    destruct (dm_client _) as [c|] eqn:Hc; [|by apply Hfree].
    destruct (cleanup_session c _) as [[[]|e|] s] eqn:E; [by apply Hfree..|]. exists c. by rewrite E.
Qed.
End daemon_facts.

(** ** An instance *)

Module DaemonSample.
Import DriverSample.
#[local] Existing Instances Concrete.unicode RefServer.world.

Definition as_raw {A} (f : result_sets → A) (r : RefServer.Server * option (Error + result_sets))
    : RefServer.Server * option (string + A) :=
  (r.1, match r.2 with
        | Some (inl e) => Some (inl (error_fmt e))
        | Some (inr x) => Some (inr (f x))
        | None => None
        end).
#[global] Instance raw_sql `{HJ : HistoryJson} : RawSql RefServer.Server := {
  w_raw_query b _ sql params w := as_raw (λ x, @concat RowData x) (RefServer.run b (Text sql) params w);
  w_raw_stmt b _ stmt w := as_raw (λ _, tt) (RefServer.run b stmt [] w);
  w_raw_ping b _ w := as_raw (λ _, tt) (RefServer.run b (Text "SELECT 1") [] w);
}.

Definition env (name : string) : EnvVar :=
  if String.eqb name "RMIG_SESSION_TOKEN" then EnvText "secret" else EnvUnset.
Definition served : Endpoint := daemon_endpoint cfg.
Definition says (r : Request) : Turn := mk_Turn (Line (json_of_request r +:+ String LF "")) None 0.
Definition hangs_up : Turn := mk_Turn Eof None 0.
Definition start : System := initial (RefServer.start [] [] 0) "A" 0.
Definition bound : N := 30000000000.

(** The second client waits while the first one holds the connection. *)
Definition script : list Move :=
  [Accept 1; Accept 2; Take 1 (says (Auth "secret")); Take 2 (says (Auth "secret"));
   Take 1 (says (Exec "UPDATE t SET a = 1")); Take 1 hangs_up; Take 2 (says (Exec "SELECT 2"))].
Definition after : option System := moves env None cfg bound served start script.

Definition trace_after : list Event :=
  [Accepted 1; Accepted 2; Authenticated 1 "secret"; Authenticated 2 "secret";
   Ran 1 (Exec "UPDATE t SET a = 1"); Cleaned 1; Ran 2 (Exec "SELECT 2")].


Definition waiting_at : option System := moves env None cfg bound served start (take 5 script).
Definition waiter_blocked (y : System) : bool :=
  bool_decide (sy_handlers y !! 1 = Some (mk_Handler true true)) &&
  bool_decide (sy_handlers y !! 2 = Some (mk_Handler true false)) &&
  match serve_turn env None cfg bound served 2 (says (Exec "SELECT 2")) (mk_Handler true false)
          (sy_daemon y) with
  | None => true
  | Some _ => false
  end.

Lemma daemon_never_deadlocks_witness :
  ∃ y, reachable env None cfg bound served y ∧ waiter_blocked y = true ∧
    ∃ j hj, j ≠ 2 ∧ sy_handlers y !! j = Some hj ∧ h_session hj = true.
Proof.
  assert (waiter_blocked <$> waiting_at = Some true) as (y & E & Hb%eq_sym)%fmap_Some
    by (vm_compute; reflexivity).
  assert (reachable env None cfg bound served y) as Hr by exact (moves_reachable _ _ _ _ _ _ _ _ _ _ E).
  clear E. exists y. split_and!; [done|done|]. unfold waiter_blocked in Hb.
  apply andb_prop in Hb as [[_ H2]%andb_prop Hw]. apply bool_decide_eq_true in H2.
  assert (serve_turn env None cfg bound served 2 (says (Exec "SELECT 2")) (mk_Handler true false)
    (sy_daemon y) = None) as Hn by (destruct (serve_turn _ _ _ _ _ _ _ _ _); [discriminate Hw|reflexivity]).
  pose proof (daemon_never_deadlocks env None cfg bound served y 2 (says (Exec "SELECT 2")) _ Hr H2 Hn) as H.
  destruct H as (j & hj & Hne & Hj & Hs & _). exists j, hj. exact (conj Hne (conj Hj Hs)).
Defined.

Lemma the_second_waits :
  moves env None cfg bound served start (take 5 script ++ [Take 2 (says (Exec "SELECT 2"))]) = None.
Proof. vm_compute. reflexivity. Qed.
End DaemonSample.
