(* ===== verification/Startup.v ===== *)
(** * Starting the daemon ([session/socket.rs], [session/daemon/mod.rs], [rmigd/src/main.rs])

    Where the socket goes, who may reach it, and what the process does before the
    first client and after the last. *)

From S2P Require Export Daemon Cli.
From Stdlib Require Import Ascii.
From Stdlib Require String.

(** ** The socket's directory ([socket.rs]) *)

(** Permission bits and sockets: the mode of an existing path, [chmod], whether a
    connection to the socket succeeds, and [bind]. *)
Class SocketFs (W : Type) := {
  w_mode : W → string → Error + N;
  w_set_mode : string → N → W → W * option Error;
  w_listening : W → string → bool;
  w_bind : string → W → W * option Error;
}.

(** [{:o}]. *)
Fixpoint octal_fuel (fuel : nat) (n : N) (rest : string) : string :=
  match fuel with
  | 0 => rest
  | S fuel =>
      let rest := String (ascii_of_N (48 + n `mod` 8)) rest in
      if (n <? 8)%N then rest else octal_fuel fuel (n / 8) rest
  end.
Definition octal (n : N) : string := octal_fuel 11 (n `mod` u32_size) "".

(** [mode & 0o077] and [mode & 0o777]. *)
Definition SHARED_BITS : N := 63.
Definition PERMISSION_BITS : N := 511.

Section startup.
Context {W : Type} `{HW : World W} `{HN : !Net W} `{HCl : Clock W} `{HFi : Files W}.
Context `{HDi : Dirs W} `{HST : SourceTree W} `{HRF : ReportFiles W} `{HCo : Console W}.
Context `{HSo : SocketFs W} `{HU : Unicode} `{HTo : Toml} `{HFS : FloatSecs}.
Context (env : string → EnvVar).

Definition rmig_dir : string :=
  match env_text (env "HOME") with Some home => path_join home ".rmig" | None => ".rmig" end.
Definition default_socket_path : string := path_join rmig_dir "rmigd.sock".

Definition restrict_dir_mode (path : string) : IO W unit := fs_call (w_set_mode path 448).
Definition restrict_socket_mode (path : string) : IO W unit := fs_call (w_set_mode path 384).

Definition mode_of (path : string) : IO W N := λ s,
  (match w_mode (st_world s) path with inr m => Ok m | inl e => Err e end, s).

Definition ensure_private_parent (parent : string) : IO W unit :=
  s ← get_st;
  if negb (w_exists (st_world s) parent) then
    fs_call (w_create_dir_all parent);; restrict_dir_mode parent
  else
    mode ← mode_of parent;
    if negb (N.land mode SHARED_BITS =? 0)%N then
      lift (Err (Errors.Config ("socket parent " +:+ parent +:+ " is group/world accessible (mode "
        +:+ octal (N.land mode PERMISSION_BITS)
        +:+ "); point RMIGD_SOCKET at a private directory (0700) or a new path")))
    else mret tt.

(** The parent of a path, unless there is none or it is the empty path. *)
Definition private_parent (path : string) : IO W unit :=
  match path_parent path with
  | Some parent => if String.eqb parent "" then mret tt else ensure_private_parent parent
  | None => mret tt
  end.

Definition resolve_socket_path : IO W string :=
  let path := default default_socket_path (env_text (env "RMIGD_SOCKET")) in
  private_parent path;; mret path.

(** ** Taking the socket ([run_daemon]) *)

Definition remove_file (path : string) : IO W unit := λ s,
  let '(w, e) := w_remove_file path (st_world s) in
  (match e with
   | None => Ok tt
   | Some NotFound => Err (Io "No such file or directory (os error 2)")
   | Some (RemoveFailed e) => Err e
   end, set_world w s).

Definition claim_socket (socket : string) : IO W unit :=
  s ← get_st;
  (if w_exists (st_world s) socket then
     if w_listening (st_world s) socket then
       lift (Err (Other ("rmigd: a daemon is already listening on " +:+ socket)))
     else remove_file socket
   else mret tt);;
  private_parent socket;;
  fs_call (w_bind socket);;
  restrict_socket_mode socket.

Definition effective_socket (cfg : Config.Config) (socket : string) : string :=
  if negb (String.eqb (cfg_session_socket cfg) "") then cfg_session_socket cfg else socket.

(** [run_daemon] up to its accept loop: the warm client and the time the metrics
    start from; the loop is [Daemon.step] from [Daemon.initial]. *)
Definition start_daemon (socket : string) (cfg : Config.Config) : IO W (RawClient * N) :=
  started ← now;
  client ← connect cfg;
  claim_socket (effective_socket cfg socket);;
  mret (client, started).

(** ** The process ([rmigd/src/main.rs]) *)

(** [report]. *)
Definition report (e : Error) : IO W Z :=
  println Stderr ("rmigd: " +:+ error_fmt e);; mret (exit_code e).

Definition daemon_config : IO W Config.Config :=
  file ← match env_text (env "RMIGD_CONFIG") with
         | Some path => load_toml_config path true
         | None => load_toml_config "config.toml" false
         end;
  let cfg := build_config env file in
  s ← get_st;
  lift (validate_daemon_config env (w_tree (st_world s) (cfg_sql_root cfg)) cfg).

(** What the process has come to: it exits with a code, or it serves. *)
Inductive Started : Type :=
| Exits (code : Z)
| Serves (cfg : Config.Config) (socket : string) (client : RawClient) (started : N).

Definition rmigd : IO W Started :=
  c ← attempt daemon_config;
  match c with
  | inl e => Exits <$> report e
  | inr cfg =>
      r ← attempt resolve_socket_path;
      match r with
      | inl e => Exits <$> report e
      | inr socket =>
          d ← attempt (start_daemon socket cfg);
          match d with
          | inl e => println Stderr ("rmigd: " +:+ error_fmt e);; mret (Exits EXIT_GENERAL)
          | inr (client, started) => mret (Serves cfg (effective_socket cfg socket) client started)
          end
      end
  end.

(** A signal: the serve future is dropped and the socket is removed. *)
Definition shut_down (socket signal : string) : IO W Z :=
  attempt (remove_file socket);;
  println Stderr ("rmigd: " +:+ signal +:+ ", shutting down");;
  mret EXIT_OK.
End startup.

(** ** Nobody else reaches the socket *)

(** [chmod] sets the permission bits of the path it is given; the other calls leave
    the modes of other paths alone, and a removal does not remove other paths. *)
Class SocketLaws (W : Type) `{HDi : Dirs W} `{HRF : ReportFiles W} `{HSo : SocketFs W} := {
  sl_set p m w : (w_set_mode p m w).2 = None →
    ∃ m', w_mode (w_set_mode p m w).1 p = inr m' ∧ N.land m' PERMISSION_BITS = m;
  sl_set_other p m w q : p ≠ q → w_mode (w_set_mode p m w).1 q = w_mode w q;
  sl_bind p w q : p ≠ q → w_mode (w_bind p w).1 q = w_mode w q;
  sl_remove p w q : p ≠ q → w_mode (w_remove_file p w).1 q = w_mode w q ∧
    w_exists (w_remove_file p w).1 q = w_exists w q;
}.

Lemma str_length_trim_slashes p : String.length (trim_slashes p) ≤ String.length p.
Proof.
  induction p as [|c p IH]; [done|]. cbn [trim_slashes].
  destruct (trim_slashes p); [case_decide|]; cbn in *; lia.
Qed.

(** A path is not its own parent. *)
Lemma path_parent_ne p up : path_parent p = Some up → up ≠ p.
Proof.
  unfold path_parent. pose proof (str_length_trim_slashes p) as Hq.
  destruct (trim_slashes_spec p) as [_ Hend]. revert Hq Hend.
  generalize (trim_slashes p) as q. intros q Hq Hend.
  destruct (String.eqb_spec q "") as [|Hne]; [done|].
  destruct (before_last "/" q) as [l|] eqn:Eb; intros [= <-] E; subst; [|by destruct q; [|cbn in Hq; lia]].
  apply before_last_Some in Eb as (r & -> & _).
  assert (r ≠ "") as Hr by (intros ->; by apply (Hend l)).
  rewrite str_length_app in Hq. cbn in Hq. destruct r; [done|]. cbn in Hq.
  pose proof (str_length_trim_slashes l). destruct (String.eqb _ ""); cbn in *; lia.
Qed.

Section claims.
Context {W : Type} `{HW : World W} `{HFi : Files W} `{HDi : Dirs W} `{HRF : ReportFiles W}.
Context `{HSo : SocketFs W} `{HSL : !SocketLaws W}.

Lemma fs_call_Ok (f : W → W * option Error) s s' :
  fs_call f s = (Ok tt, s') → (f (st_world s)).2 = None ∧ st_world s' = (f (st_world s)).1.
Proof. unfold fs_call. destruct (f (st_world s)) as [w [e|]]; [done|]. by intros [= <-]. Qed.

Definition private (w : W) (path : string) : Prop :=
  ∃ m, w_mode w path = inr m ∧ N.land m SHARED_BITS = 0%N.

Lemma owner_only m m' k : N.land m PERMISSION_BITS = m' → N.land m' SHARED_BITS = k →
  N.land m SHARED_BITS = k.
Proof. intros <- <-. by rewrite <- N.land_assoc. Qed.

Lemma ensure_private_parent_spec parent s s' :
  ensure_private_parent parent s = (Ok tt, s') →
  private (st_world s') parent ∧
  (w_exists (st_world s) parent = true → st_world s' = st_world s).
Proof.
  unfold ensure_private_parent. intros (s0 & s1 & [= <- <-] & H)%io_bind_Ok. revert H.
  destruct (w_exists (st_world s) parent); cbn [negb].
  - intros (m & s2 & Hm & H)%io_bind_Ok. unfold mode_of in Hm.
    destruct (w_mode (st_world s) parent) as [e|m'] eqn:Em; [done|]. injection Hm as -> <-.
    destruct (N.eqb_spec (N.land m SHARED_BITS) 0); [|done]. cbn [negb] in H. injection H as <-.
    split; [by exists m|done].
  - intros ([] & s2 & _ & [H1 H2]%fs_call_Ok)%io_bind_Ok. split; [|done].
    apply sl_set in H1 as (m & Hm & Hp). exists m. rewrite H2. split; [done|]. by eapply owner_only.
Qed.

Lemma remove_file_other path q s r s' : remove_file path s = (r, s') → path ≠ q →
  w_mode (st_world s') q = w_mode (st_world s) q ∧ w_exists (st_world s') q = w_exists (st_world s) q.
Proof.
  unfold remove_file. intros H Hne. pose proof (sl_remove path (st_world s) q Hne) as Hs.
  destruct (w_remove_file path (st_world s)) as [w e]. by injection H as _ <-.
Qed.

End claims.

(** ** A start, and a refused one *)

Module StartupSample.

(** The modes of the paths that exist. *)
Abbreviation fs := (gmap string N) (only parsing).
#[global] Instance files : Files fs := {
  w_file_len _ _ := None;
  w_create_dir_all p w := (<[p := 493%N]> w, None);
  w_write p _ w := (<[p := 420%N]> w, None);
  w_rename _ _ w := (w, None);
  w_process_id _ := 1%N;
}.
#[global] Instance dirs : Dirs fs := {
  w_exists w p := bool_decide (is_Some (w !! p));
  w_canonicalize _ p := inr p;
  w_read_dir _ _ := None;
}.
#[global] Instance report_files : ReportFiles fs := {
  w_create_file p w := (<[p := 420%N]> w, None);
  w_file_write_all _ _ w := (w, None);
  w_sync_all _ w := (w, None);
  w_remove_file p w := match w !! p with Some _ => (delete p w, None) | None => (w, Some NotFound) end;
}.
#[global] Instance sockets : SocketFs fs := {
  w_mode w p := match w !! p with Some m => inr m | None => inl (Io "no such file") end;
  w_set_mode p m w := (<[p := N.land m PERMISSION_BITS]> w, if (m <? 512)%N then None else Some (Io "mode"));
  w_listening w p := bool_decide (w !! p = Some 511%N);
  w_bind p w := (<[p := 493%N]> w, None);
}.
#[global] Instance socket_laws : SocketLaws fs.
Proof.
  split; cbn.
  - intros p m w. destruct (N.ltb_spec m 512) as [Hm|]; [|done]. intros _.
    exists (N.land m PERMISSION_BITS). rewrite lookup_insert_eq. split; [done|].
    unfold PERMISSION_BITS. rewrite <- N.land_assoc, N.land_diag.
    change 511%N with (N.ones 9). rewrite N.land_ones. by apply N.mod_small.
  - intros p m w q Hne. by rewrite lookup_insert_ne.
  - intros p w q Hne. by rewrite lookup_insert_ne.
  - intros p w q Hne. destruct (w !! p); [|done]. cbn. by rewrite lookup_delete_ne.
Qed.

Definition in_world (w : fs) : St fs := mk_St w false 0 (mk_IoProfile 0 0) ∅ ∅ ∅ None [].
Definition fresh : St fs := in_world (<["/home/u" := 493%N]> ∅).
Definition taken : St fs := in_world (<["/run/d" := 448%N]> (<["/run/d/s.sock" := 511%N]> ∅)).
Definition shared : St fs := in_world (<["/tmp" := 511%N]> ∅).


(** A directory everybody may write to is refused, with its mode in the message. *)
Example shared_directory_is_refused :
  (claim_socket "/tmp/rmigd.sock" shared).1 =
  Err (Errors.Config ("socket parent /tmp is group/world accessible (mode 777); "
    +:+ "point RMIGD_SOCKET at a private directory (0700) or a new path")).
Proof. vm_compute. reflexivity. Qed.

(** A signal that arrives before the socket is claimed (while the connection is
    being made) removes the socket all the same, another daemon's too. *)
#[local] Instance console : Console fs := { w_print _ _ w := (w, None); to_string_compact _ := "{}" }.
Lemma signal_removes_foreign_socket :
  w_listening (st_world taken) "/run/d/s.sock" = true ∧
  (shut_down "/run/d/s.sock" "SIGTERM" taken).1 = Ok 0%Z ∧
  st_world (shut_down "/run/d/s.sock" "SIGTERM" taken).2 !! "/run/d/s.sock" = None.
Proof. split_and!; vm_compute; reflexivity. Qed.

(** The parent of the default socket is checked although the configuration names
    another socket. *)
Lemma unused_directory_refuses_start :
  (resolve_socket_path (λ name, if String.eqb name "HOME" then EnvText "/home/u" else EnvUnset)
     (in_world (<["/home/u/.rmig" := 493%N]> ∅))).1 =
  Err (Errors.Config ("socket parent /home/u/.rmig is group/world accessible (mode 755); "
    +:+ "point RMIGD_SOCKET at a private directory (0700) or a new path")).
Proof. vm_compute. reflexivity. Qed.
End StartupSample.
